(* ===== verification/_CoqProject ===== *)
-Q . S2P
Prelude.v
Bytes.v
GoStrings.v
Ranges.v
Manifest.v
Conditionals.v
ManifestStore.v
SqliteManifests.v
ContentIndex.v
OrphanGC.v
ObjectLock.v
ErasureCoding.v
ClientSdk.v
EncryptionPipeline.v
Fabric.v
HotCache.v
Handlers.v
Worm.v
RefCounting.v
DedupSafety.v
Unversioned.v
Reads.v
HeadMirror.v
Objects.v
Roundtrip.v
Tagging.v
CopyObject.v
CopySafety.v
CopyRoundtrip.v
Migrator.v
Rebalancer.v
Promotion.v
MultipartStore.v
Multipart.v
MultipartRoundtrip.v
Workers.v
LifecycleRules.v
Lifecycle.v
LifecyclePass.v
LegalHolds.v
RebalanceRun.v
Listing.v
KeyWrapping.v
BodyEncryption.v
Routing.v
Cors.v
Notifications.v
LifecycleDoc.v
BucketConfig.v
BucketHandlers.v
BucketSafety.v
Tenants.v
SigV4.v
SigV4Canonical.v
SigV4Safety.v
RateLimit.v
Budgets.v
Totp.v
ConsoleStores.v
MfaSqlite.v
ConsoleHistory.v
ConsoleAuth.v
ConsoleSafety.v
ConsoleSessions.v
SecretSealing.v
