(* ===== verification/Prelude.v ===== *)
(** * Verification of the ZK Object Fabric core

    ZK Object Fabric is an S3-compatible object store in front of pluggable
    storage backends. A request arrives at the gateway, is authenticated by its
    signature (internal/auth), limited, routed and handled (api/s3compat): the
    handlers seal the bytes (encryption/), cut them into pieces
    (metadata/erasure_coding), store the pieces at backends (providers/), record
    them in a manifest (metadata/manifest_store), and share equal contents
    through a reference-counted table (metadata/content_index). Reads go through
    a cache (cache/hot_object_cache). Background workers collect orphans, expire
    objects, migrate and re-encrypt. Tenants sign up and log in through the
    console (api/console). The files below model these parts and prove what
    their callers rely on. Source paths are relative to src/.

    ** How the code is modelled

    Go strings are byte strings, [[]byte] is a list of bytes, [int64] and
    [uint64] are [Z] with the wrap-around written where it can happen
    ([wrap64]), maps are [gmap], float64 is [SpecFloat]. A [nil] slice or map
    and an empty one are the same value. The order in which Go iterates a map is
    an input wherever it can be seen. A failing function returns an option or a
    sum. The clock, random numbers, decoded XML and JSON bodies and the
    configuration a handler reads are fields of its request or of the outcome of
    a call.

    A handler is a program, a tree of calls on the shared stores with the Go
    code between two calls in the continuation: [Fabric.prog] for objects,
    [Multipart.mprog] when upload sessions are used too, [Workers] for the
    background workers, [BucketConfig] for bucket configurations,
    [ConsoleAuth.aprog] for the console. Running a program alone and
    interleaving any number of them call by call are separate semantics over
    the same programs. The calls that can fail take their outcome from an oracle
    of the world, so a theorem about a run covers each pattern of failing calls.
    Programs are finite trees, so a handler terminates by construction; loops
    over data are structural.

    ** Files

    Foundations
    - [Prelude], [Bytes], [GoStrings]: tactics, hints, generic lemmas on lists,
      maps and sorting by a key; byte slices and encoding/binary; Go's strings,
      query strings and their escapes.

    Stores and values
    - [Manifest], [ManifestStore], [SqliteManifests]: metadata/manifest.go and
      manifest_store. [VersionLog] is the contract of a ManifestStore;
      [Memory] (memory/store.go, a map with latest pointers and a write
      sequence) and [Sqlite] (sqlite/store.go, a table with its statements)
      implement it. [BodyEncryption] is the encryption of the bodies in the
      table (body_encryptor.go).
    - [ContentIndex], [OrphanGC]: metadata/content_index, the in-memory index
      and the orphan sweep with cancellation.
    - [ObjectLock], [LegalHolds]: metadata/object_lock with the predicates of
      object_lock_handler.go, and the operator holds of
      internal/auth/legal_response.go.
    - [ErasureCoding]: metadata/erasure_coding around a Reed-Solomon codec,
      which is the class [RSCodec] with its laws.
    - [ClientSdk], [EncryptionPipeline], [KeyWrapping]: encryption/client_sdk
      around an AEAD (class [AEAD]), api/s3compat/encryption_pipeline.go, and
      the wrapping of data keys by a file, KMS or Vault.
    - [HotCache], [Promotion]: memory_cache.go and promotion_worker.go.

    Requests for objects
    - [Ranges], [Conditionals], [Tagging]: parseHTTPRange and range_multipart.go,
      conditional headers and ETags, tag sets and metadata headers.
    - [Fabric], [Handlers], [Reads]: the shared stores and the programs of PUT
      (single piece, deduplicated, erasure-coded), DELETE, retention, legal
      hold, tagging, GET and HEAD (handler.go, dedup.go, erasure_coding.go,
      object_lock_handler.go, tagging_handler.go, repair.go, integrity.go).
    - [MultipartStore], [Multipart]: multipart/store.go with uploads as
      pointers into a heap, and the handlers of multipart_handler.go.
    - [CopyObject]: COPY (copy.go). [Listing]: ListObjectsV2 and
      ListObjectVersions. [Routing]: the dispatch of a request.
    - Theorems about them: [Worm], [RefCounting], [DedupSafety], [Unversioned],
      [HeadMirror], [Objects], [Roundtrip], [MultipartRoundtrip], [CopySafety],
      [CopyRoundtrip].

    Requests for buckets
    - [Cors], [Notifications], [LifecycleRules], [LifecycleDoc]: the documents of
      a bucket, their validation and meaning.
    - [BucketConfig], [BucketHandlers], [BucketSafety]: the in-memory store of
      configurations, its handlers as programs, and their theorems.

    Workers
    - [Migrator], [Rebalancer], [RebalanceRun]: aad_migrator.go,
      migration/state.go and background_rebalancer/rebalancer.go.
    - [Workers], [Lifecycle], [LifecyclePass]: the calls of the workers, the
      evaluator of lifecycle/evaluator and what a pass of it does.

    Tenants and access
    - [Tenants]: metadata/tenant and the in-memory directory of internal/auth.
    - [SigV4], [SigV4Canonical], [SigV4Safety]: authenticator.go, that canonical
      requests are faithful, and what a signature protects.
    - [RateLimit], [Budgets]: rate_limit.go and abuse.go, and that budgets are
      kept.
    - [Totp]: one-time passwords (api/console/totp.go).
    - [ConsoleStores], [MfaSqlite], [SecretSealing]: users, refresh tokens and
      second factors in memory and in SQLite, as instances of the classes
      [RefreshTokenStore] and [MFAStore] with their laws, and the sealing of
      secrets at rest.
    - [ConsoleAuth]: the endpoints under /api/v1/auth/ (auth_handler.go) and the
      world they run in. [ConsoleHistory], [ConsoleSafety], [ConsoleSessions]:
      theorems about the stores, about every run of a request, and about
      requests in the world.

    ** What the theorems show

    - Stores: the in-memory and the SQLite manifest stores return what the
      version log returns, operation by operation; the scan visits each version
      once. The cache keeps its byte bounds and answers as the calls of the read
      path assume. A sealed manifest body opens only in its row.
    - Round trips: what a PUT, a COPY or a multipart upload stores, a GET
      returns, whichever layout was chosen and whichever calls failed; HEAD
      announces what GET serves; erasure-coded objects survive the loss of any
      parity-many shards; the chunk format opens to the sealed bytes and the
      wrapped key to the data key; the documents of a bucket are read back.
    - Listings show exactly the objects that a GET finds, each once.
    - Sharing: under any interleaving of any number of requests no stored
      version loses a piece and no reference count falls below its users
      ([CopySafety.Requests.dedup_is_safe]). The hypothesis excludes two
      schedules, both exhibited as flaws.
    - Retention: COMPLIANCE retention and legal holds against any sequence of
      requests, COPY included; a lifecycle pass removes only what a rule makes
      due; the orphan sweep deletes nothing a manifest references; a bucket with
      Object Lock stays versioned.
    - Workers: passes end although they append to the listing they read; the
      migrator preserves the object, the rebalancer reaches the last phase.
    - Access: a signature names one request, a request signed by the published
      algorithm is accepted, a revoked key authenticates nothing, egress stays
      within the budget up to the requests in flight.
    - Console: no session without its credentials and no removal of a second
      factor without it, whatever the stores answer; a refresh token is
      exchanged once and a second factor accepted once, over any history; a
      sign-up happens entirely or not at all and its credentials open a session,
      as do the codes of an enrolled authenticator.
    - Flaws of the code are theorems too: executions in which the modelled
      handlers lose a piece, drop a hold, serve other bytes, replace a locked
      version or poison the cache.

    ** Bounds and fuel

    Loops with fuel are given an amount that the theorems show to be enough:
    decoding a number is bounded by its length, opening a sealed stream by the
    length of the stream (each frame consumes bytes), paging by the number of
    rows, a pass of a worker by the rows it can still meet. Theorems on 64-bit
    quantities state the range they need, for instance a reference count below
    2^63 or a clock within int64 nanoseconds.

    ** Not modelled

    Network and file-system clients (providers/) and the disk cache; Postgres
    stores (SQL against a server; their contracts are modelled through the other
    stores); placement policies, which the handlers take as an input; dual
    write, cross-cell migration and the job store; the administration endpoints
    of the console; configuration, wiring, metrics, logs, billing and audit
    events; XML and JSON encodings. Third-party code (Reed-Solomon, AEAD, HKDF,
    hash functions, bcrypt, KMS clients) and the Unicode tables are parameters
    with documented laws, and the theorems that use the laws are applied at
    instances that satisfy them. *)

From stdpp Require Export base tactics numbers list sorting gmap strings fin_maps relations.
From Stdlib Require Export ZArith Lia Ascii.
From Stdlib Require Import DecimalString DecimalN DecimalPos.

(** ** Automation shared by the components *)

Create HintDb fabric.

(** Split every boolean conjunction, disjunction and comparison that occurs as
    an equation with [true] or [false] in the context. *)
Ltac bool_facts :=
  repeat match goal with
  | H : andb _ _ = true |- _ => apply andb_true_iff in H as [? ?]
  | H : orb _ _ = false |- _ => apply orb_false_iff in H as [? ?]
  | H : negb _ = true |- _ => apply negb_true_iff in H
  | H : negb _ = false |- _ => apply negb_false_iff in H
  | H : bool_decide _ = true |- _ => apply bool_decide_eq_true_1 in H
  | H : bool_decide _ = false |- _ => apply bool_decide_eq_false_1 in H
  | H : (_ <? _)%Z = true |- _ => apply Z.ltb_lt in H
  | H : (_ <? _)%Z = false |- _ => apply Z.ltb_ge in H
  | H : (_ <=? _)%Z = true |- _ => apply Z.leb_le in H
  | H : (_ <=? _)%Z = false |- _ => apply Z.leb_gt in H
  | H : (_ =? _)%Z = true |- _ => apply Z.eqb_eq in H
  | H : (_ =? _)%Z = false |- _ => apply Z.eqb_neq in H
  end.

(** Case analysis on every [match] and [if] of the goal, the conditions
    turned into facts. *)
Ltac branches := repeat (case_match; simplify_eq/=); bool_facts.

(** ** Errors

    Go functions that return [(T, error)] are modelled by [result E T]: either
    the error value or the result. *)

Inductive result (E A : Type) : Type :=
| Ok (a : A)
| Err (e : E).
Arguments Ok {E A} a.
Arguments Err {E A} e.

Definition result_bind {E A B} (r : result E A) (k : A → result E B) : result E B :=
  match r with Ok a => k a | Err e => Err e end.

Declare Scope go_scope.
Delimit Scope go_scope with go.
Notation "'let!' x ':=' c 'in' k" := (result_bind c (λ x, k))
  (at level 10, x pattern, c at level 100, k at level 200) : go_scope.

(** ** Machine integers *)

(** Wrap-around of Go's [int64] and [uint64] arithmetic. *)
Definition wrap64 (z : Z) : Z := ((z + 2 ^ 63) mod 2 ^ 64 - 2 ^ 63)%Z.
Definition wrapu64 (z : Z) : Z := (z mod 2 ^ 64)%Z.

Definition is_int64 (z : Z) : Prop := (- 2 ^ 63 ≤ z < 2 ^ 63)%Z.
Definition is_uint64 (z : Z) : Prop := (0 ≤ z < 2 ^ 64)%Z.

Lemma wrap64_id z : is_int64 z → wrap64 z = z.
Proof. unfold is_int64, wrap64. intros ?. rewrite Z.mod_small; lia. Qed.

Lemma wrapu64_id z : is_uint64 z → wrapu64 z = z.
Proof. unfold is_uint64, wrapu64. intros ?. by rewrite Z.mod_small. Qed.

Lemma wrap64_range z : is_int64 (wrap64 z).
Proof. unfold is_int64, wrap64. pose proof (Z.mod_pos_bound (z + 2 ^ 63) (2 ^ 64)). lia. Qed.

Lemma wrapu64_range z : is_uint64 (wrapu64 z).
Proof. unfold is_uint64, wrapu64. pose proof (Z.mod_pos_bound z (2 ^ 64)). lia. Qed.

#[export] Hint Resolve wrap64_range wrapu64_range : fabric.

(** ** Time

    A [time.Time] is its instant, in nanoseconds since the Unix epoch. Go's
    zero [time.Time] is January 1 of year 1, 00:00:00 UTC. *)
Definition zero_time : Z := (- 62135596800 * 1000000000)%Z.
Definition IsZero (t : Z) : bool := (t =? zero_time)%Z.
Definition After (t u : Z) : bool := (u <? t)%Z.
Definition Before (t u : Z) : bool := (t <? u)%Z.

(** ** Decimal integers as [strconv] reads and prints them *)

(** [strconv.FormatUint(n, 10)]. *)
Definition FormatUint (n : Z) : string := NilZero.string_of_uint (N.to_uint (Z.to_N n)).

(** [strconv.ParseUint(s, 10, 64)]: one or more ASCII digits whose value fits
    in 64 bits; [None] is the syntax or the range error. *)
Definition ParseUint (s : string) : option Z :=
  match NilZero.uint_of_string s with
  | Some d =>
      let n := Z.of_N (N.of_uint d) in
      if (n <? 2 ^ 64)%Z then Some n else None
  | None => None
  end.

Lemma to_uint_nonnil n : N.to_uint n ≠ Decimal.Nil.
Proof. destruct n; [done|]. apply DecimalPos.Unsigned.to_uint_nonnil. Qed.

Lemma ParseUint_FormatUint n : is_uint64 n → ParseUint (FormatUint n) = Some n.
Proof.
  intros [? ?]. unfold ParseUint, FormatUint.
  rewrite NilZero.usu by apply to_uint_nonnil.
  rewrite DecimalN.Unsigned.of_to, Z2N.id by done.
  by rewrite (proj2 (Z.ltb_lt _ _)).
Qed.

Lemma FormatUint_nonempty n : FormatUint n ≠ "".
Proof.
  unfold FormatUint. pose proof (to_uint_nonnil (Z.to_N n)) as Hn.
  by destruct (N.to_uint (Z.to_N n)).
Qed.

(** [strconv.ParseInt(s, 10, 64)]: an optional sign and one or more digits, the
    value within the range of an int64. *)
Definition ParseInt (s : string) : option Z :=
  let digits s := (λ d, Z.of_N (N.of_uint d)) <$> NilZero.uint_of_string s in
  match s with
  | String "-" s' =>
      match digits s' with
      | Some n => if (n <=? 2 ^ 63)%Z then Some (- n)%Z else None
      | None => None
      end
  | String "+" s' =>
      match digits s' with Some n => if (n <? 2 ^ 63)%Z then Some n else None | None => None end
  | _ => match digits s with Some n => if (n <? 2 ^ 63)%Z then Some n else None | None => None end
  end.

(** [strconv.FormatInt(n, 10)]. *)
Definition FormatInt (n : Z) : string :=
  if (n <? 0)%Z then String "-" (FormatUint (- n)) else FormatUint n.

Lemma FormatInt_nonempty n : FormatInt n ≠ "".
Proof. unfold FormatInt. destruct (n <? 0)%Z; [done|]. apply FormatUint_nonempty. Qed.

(** A printed number starts with a digit. *)
Lemma FormatUint_first n :
  match FormatUint n with String "-" _ => False | String "+" _ => False | _ => True end.
Proof.
  unfold FormatUint. pose proof (to_uint_nonnil (Z.to_N n)) as Hn.
  by destruct (N.to_uint (Z.to_N n)).
Qed.

Lemma ParseInt_unsigned s :
  match s with String "-" _ => False | String "+" _ => False | _ => True end →
  ParseInt s =
    match NilZero.uint_of_string s with
    | Some d => let n := Z.of_N (N.of_uint d) in if (n <? 2 ^ 63)%Z then Some n else None
    | None => None
    end.
Proof.
  destruct s as [|[[] [] [] [] [] [] [] []] s]; intros H; try destruct H; cbv [ParseInt];
    match goal with |- context [NilZero.uint_of_string ?x] =>
      by destruct (NilZero.uint_of_string x) end.
Qed.

Lemma ParseInt_FormatUint n : (0 ≤ n < 2 ^ 63)%Z → ParseInt (FormatUint n) = Some n.
Proof.
  intros [? ?]. rewrite ParseInt_unsigned by apply FormatUint_first.
  unfold FormatUint. rewrite NilZero.usu by apply to_uint_nonnil.
  rewrite DecimalN.Unsigned.of_to, Z2N.id by done. simpl.
  by rewrite (proj2 (Z.ltb_lt _ _)).
Qed.

Lemma ParseInt_FormatInt n : is_int64 n → ParseInt (FormatInt n) = Some n.
Proof.
  intros [? ?]. unfold FormatInt. destruct (Z.ltb_spec n 0).
  - simpl. unfold FormatUint. rewrite NilZero.usu by apply to_uint_nonnil. simpl.
    rewrite DecimalN.Unsigned.of_to, Z2N.id by lia.
    rewrite (proj2 (Z.leb_le _ _)) by lia. f_equal. lia.
  - apply ParseInt_FormatUint. lia.
Qed.

(** ** Lists *)

Lemma filter_all {A} (P : A → Prop) `{!∀ x, Decision (P x)} (l : list A) :
  (∀ x, x ∈ l → P x) → filter P l = l.
Proof.
  induction l as [|x l IH]; intros Hl; [done|].
  rewrite filter_cons_True by set_solver. f_equal. apply IH. set_solver.
Qed.

Lemma filter_none {A} (P : A → Prop) `{!∀ x, Decision (P x)} (l : list A) :
  Forall (λ x, ¬ P x) l → filter P l = [].
Proof. induction 1; [done|]. by rewrite filter_cons_False. Qed.

Lemma filter_swap {A} (P Q : A → Prop) `{!∀ x, Decision (P x), !∀ x, Decision (Q x)}
    (l : list A) :
  filter P (filter Q l) = filter Q (filter P l).
Proof. rewrite !list_filter_filter. apply list_filter_iff. tauto. Qed.

Lemma length_filter_fmap {A B} (f : A → B) (P : B → Prop) `{!∀ x, Decision (P x)} (l : list A) :
  length (filter P (f <$> l)) = length (filter (λ x, P (f x)) l).
Proof.
  induction l as [|x l IH]; [done|]. rewrite fmap_cons, !filter_cons. case_decide; simpl; by rewrite IH.
Qed.

Lemma NoDup_fmap_filter {A B} (f : A → B) (P : A → Prop) `{!∀ x, Decision (P x)} (l : list A) :
  NoDup (f <$> l) → NoDup (f <$> filter P l).
Proof.
  induction l as [|x l IH]; [done|]. rewrite fmap_cons, NoDup_cons. intros [Hx Hl].
  rewrite filter_cons. case_decide; [|auto]. rewrite fmap_cons, NoDup_cons.
  split; [|auto]. intros (y & Heq & Hy)%list_elem_of_fmap.
  apply list_elem_of_filter in Hy as [_ Hy]. apply Hx. rewrite Heq. by apply list_elem_of_fmap_2.
Qed.

Lemma omap_filter_fmap {A B} (P : A → Prop) `{!∀ x, Decision (P x)} (f : A → B) (l : list A) :
  omap (λ x, if bool_decide (P x) then Some (f x) else None) l = f <$> filter P l.
Proof.
  induction l as [|x l IH]; [done|]. rewrite filter_cons. csimpl.
  case_bool_decide; case_decide; try done; csimpl; by rewrite IH.
Qed.

Lemma NoDup_omap {A B} (f : A → option B) (l : list A) :
  (∀ x y z, x ∈ l → y ∈ l → f x = Some z → f y = Some z → x = y) →
  NoDup l → NoDup (omap f l).
Proof.
  intros Hinj. induction 1 as [|x l Hx Hl IH]; [constructor|]. simpl.
  destruct (f x) as [z|] eqn:Hfx; [|apply IH; set_solver].
  constructor; [|apply IH; set_solver].
  intros (y & Hy & Hfy)%list_elem_of_omap. apply Hx.
  rewrite (Hinj x y z); [done|set_solver..|done|done].
Qed.

Lemma StronglySorted_reverse {A} (R : A → A → Prop) (l : list A) :
  StronglySorted R l → StronglySorted (flip R) (reverse l).
Proof.
  induction 1 as [|x l Hl IH Hall]; [constructor|]. rewrite reverse_cons.
  apply StronglySorted_app_2; [|done|repeat constructor].
  intros y z Hy ->%list_elem_of_singleton. rewrite reverse_Permutation in Hy.
  rewrite Forall_forall in Hall. by apply Hall.
Qed.

Lemma StronglySorted_filter {A} (R : A → A → Prop) (P : A → Prop) `{!∀ x, Decision (P x)} (l : list A) :
  StronglySorted R l → StronglySorted R (filter P l).
Proof.
  induction 1 as [|x l Hs IH Hall]; [constructor|].
  rewrite filter_cons. case_decide; [|done]. constructor; [done|].
  rewrite Forall_forall in Hall |- *. intros y Hy. apply Hall.
  by apply list_elem_of_filter in Hy as [_ ?].
Qed.

Lemma StronglySorted_fmap_elem {A B} (f : A → B) (R : A → A → Prop) (S : B → B → Prop) l :
  (∀ x y, x ∈ l → y ∈ l → R x y → S (f x) (f y)) →
  StronglySorted R l → StronglySorted S (f <$> l).
Proof.
  intros HRS. induction 1 as [|x l Hl IH Hall]; [constructor|]. csimpl. constructor.
  - apply IH. set_solver.
  - apply Forall_fmap. rewrite Forall_forall in Hall |- *. intros y Hy. apply HRS; [set_solver..|auto].
Qed.

Lemma StronglySorted_weaken {A} (R S : A → A → Prop) l :
  (∀ x y, R x y → S x y) → StronglySorted R l → StronglySorted S l.
Proof.
  intros HRS. induction 1 as [|x l Hl IH Hall]; constructor; [done|].
  eapply Forall_impl; [exact Hall|auto].
Qed.

Lemma Forall2_filter_elem {A B} (R : A → B → Prop) (P : A → Prop) (Q : B → Prop)
    `{!∀ x, Decision (P x), !∀ x, Decision (Q x)} l k :
  Forall2 R l k → (∀ x y, x ∈ l → R x y → P x ↔ Q y) → Forall2 R (filter P l) (filter Q k).
Proof.
  intros Hl. induction Hl as [|x y l k Hxy Hl IH]; intros HPQ; [constructor|].
  rewrite !filter_cons. specialize (IH ltac:(set_solver)).
  specialize (HPQ x y ltac:(set_solver) Hxy).
  repeat case_decide; try tauto. by constructor.
Qed.

Lemma Forall2_filter {A B} (R : A → B → Prop) (P : A → Prop) (Q : B → Prop)
    `{!∀ x, Decision (P x), !∀ x, Decision (Q x)} l k :
  Forall2 R l k → (∀ x y, R x y → P x ↔ Q y) → Forall2 R (filter P l) (filter Q k).
Proof. intros ? HPQ. apply Forall2_filter_elem; eauto. Qed.

Lemma Forall2_last {A B} (R : A → B → Prop) l k :
  Forall2 R l k → option_Forall2 R (last l) (last k).
Proof.
  intros Hl. rewrite !last_lookup, (Forall2_length _ _ _ Hl).
  by apply Forall2_lookup.
Qed.

(** ** Rows of a finite map *)

Section map_rows.
Context `{Countable K} {A : Type}.
Implicit Types m : gmap K A.

Lemma map_rows_insert m k x :
  filter (λ e, e.1 ≠ k) (map_to_list m) ++ [(k, x)] ≡ₚ map_to_list (<[k := x]> m).
Proof.
  rewrite <- (map_to_list_delete (<[k := x]> m) k x), delete_insert_eq by apply lookup_insert_eq.
  rewrite Permutation_app_comm. simpl. f_equiv. apply NoDup_Permutation.
  - apply NoDup_filter, NoDup_map_to_list.
  - apply NoDup_map_to_list.
  - intros [k' y]. rewrite list_elem_of_filter, !elem_of_map_to_list, lookup_delete_Some.
    simpl. naive_solver.
Qed.

Lemma map_rows_delete m k :
  filter (λ e, e.1 ≠ k) (map_to_list m) ≡ₚ map_to_list (delete k m).
Proof.
  apply NoDup_Permutation; [apply NoDup_filter, NoDup_map_to_list|apply NoDup_map_to_list|].
  intros [k' y]. rewrite list_elem_of_filter, !elem_of_map_to_list, lookup_delete_Some.
  simpl. naive_solver.
Qed.

Lemma map_rows_update m k x :
  is_Some (m !! k) →
  (λ e, if bool_decide (e.1 = k) then (k, x) else e) <$> map_to_list m ≡ₚ
    map_to_list (<[k := x]> m).
Proof.
  intros [y Hy]. apply NoDup_Permutation.
  - apply (NoDup_fmap_1 fst). rewrite <- list_fmap_compose.
    rewrite (list_fmap_ext _ fst (map_to_list m)); [apply NoDup_fst_map_to_list|].
    intros i e _. simpl. by case_bool_decide.
  - apply NoDup_map_to_list.
  - intros [k' x']. rewrite elem_of_map_to_list, list_elem_of_fmap, lookup_insert_Some. split.
    + intros ([k2 x2] & Heq & He%elem_of_map_to_list). case_bool_decide; simplify_eq/=; naive_solver.
    + intros [[<- <-]|[Hne Hm]].
      * exists (k, y). rewrite elem_of_map_to_list. simpl. by rewrite bool_decide_eq_true_2.
      * exists (k', x'). rewrite elem_of_map_to_list. simpl.
        by rewrite bool_decide_eq_false_2 by congruence.
Qed.
End map_rows.

(** ** Following the cursors of a paginated read *)

(** [fetch c] is the page at cursor [c] and the cursor of the next page, [""]
    on the last one. [None]: an error, or no fuel left. *)
Fixpoint follow {X} (fetch : string → option (list X * string)) (fuel : nat) (cursor : string)
    : option (list X) :=
  match fuel with
  | O => None
  | S fuel =>
      match fetch cursor with
      | None => None
      | Some (page, next) =>
          if bool_decide (next = "") then Some page else app page <$> follow fetch fuel next
      end
  end.

(** [denotes c xs]: [xs] is what remains to be read at cursor [c]. *)
Lemma follow_all {X} (fetch : string → option (list X * string))
    (denotes : string → list X → Prop) :
  (∀ c xs, denotes c xs →
     fetch c = Some (xs, "") ∨
     ∃ page rest next, fetch c = Some (page, next) ∧ next ≠ "" ∧ page ≠ [] ∧
       xs = page ++ rest ∧ denotes next rest) →
  ∀ fuel c xs, denotes c xs → (length xs < fuel)%nat → follow fetch fuel c = Some xs.
Proof.
  intros Hstep fuel. induction fuel as [|fuel IH]; intros c xs Hc Hlen; [lia|]. simpl.
  destruct (Hstep c xs Hc) as [->|(page & rest & next & -> & Hn & Hp & -> & Hr)].
  - by rewrite bool_decide_eq_true_2.
  - rewrite bool_decide_eq_false_2 by done. rewrite (IH next rest); [done..|].
    rewrite length_app in Hlen. destruct page; [done|]. simpl in Hlen. lia.
Qed.

Lemma last_take_pos {A} (xs : list A) n :
  (0 < n ≤ length xs)%nat → last (take n xs) = xs !! Nat.pred n.
Proof.
  intros Hn. rewrite last_lookup, length_take, Nat.min_l by lia.
  apply lookup_take_lt. lia.
Qed.

(** ** Sorting with a [less] function, and keyset pagination *)

(** [sort.Slice(l, less)]. Go's sort is not stable; the lemmas below only use
    it on lists whose keys are pairwise distinct, where every correct sort
    returns the same list. *)
Definition not_after {A} (less : A → A → bool) (x y : A) : Prop := less y x = false.
#[export] Instance not_after_dec {A} (less : A → A → bool) x y : Decision (not_after less x y).
Proof. unfold not_after. apply _. Defined.

Definition sort_slice {A} (less : A → A → bool) (l : list A) : list A :=
  merge_sort (not_after less) l.

(** A decidable strict total order, as Go's [<] on integers and strings. *)
Class StrictLess {K} (klt : K → K → bool) : Prop := {
  less_irrefl x : klt x x = false;
  less_trans x y z : klt x y = true → klt y z = true → klt x z = true;
  less_total x y : x ≠ y → klt x y = true ∨ klt y x = true
}.

#[export] Instance Zltb_strict : StrictLess Z.ltb.
Proof. split; intros *; rewrite ?Z.ltb_irrefl, ?Z.ltb_lt; lia. Qed.

#[export] Instance String_ltb_strict : StrictLess String.ltb.
Proof.
  assert (∀ x y, String.ltb x y = true ↔ String.le x y ∧ x ≠ y) as Hlt.
  { intros x y. unfold String.ltb, String.le, String.leb.
    pose proof (String.compare_eq_iff x y) as Heq.
    destruct (String.compare x y) eqn:E; simpl; split; try done; try tauto.
    intros _. split; [done|]. intros ->.
    pose proof (String.compare_antisym y y) as Hyy. by rewrite E in Hyy. }
  split.
  - intros x. apply not_true_iff_false. rewrite Hlt. by intros [_ ?].
  - intros x y z. rewrite !Hlt. intros [Hxy Hne] [Hyz _]. split; [by etrans|].
    intros ->. apply Hne. by apply (anti_symm String.le).
  - intros x y Hne. rewrite !Hlt.
    destruct (total String.le x y) as [|]; [left|right]; split; congruence.
Qed.

Section keyset.
Context {A K : Type} `{!EqDecision K} (key : A → K) (klt : K → K → bool) `{!StrictLess klt}.

Definition key_less (x y : A) : bool := klt (key x) (key y).
Definition key_lt (x y : A) : Prop := klt (key x) (key y) = true.

#[local] Instance key_lt_dec x y : Decision (key_lt x y).
Proof. unfold key_lt. apply _. Defined.

Lemma less_asym x y : klt x y = true → klt y x = false.
Proof.
  intros Hxy. apply not_true_iff_false. intros Hyx.
  pose proof (less_trans x y x Hxy Hyx) as Hxx. by rewrite less_irrefl in Hxx.
Qed.

Lemma not_less_trans x y z : klt y x = false → klt z y = false → klt z x = false.
Proof.
  intros Hyx Hzy. apply not_true_iff_false. intros Hzx.
  destruct (decide (x = y)) as [->|Hne]; [congruence|].
  destruct (less_total x y Hne) as [Hxy|]; [|congruence].
  pose proof (less_trans z x y Hzx Hxy). congruence.
Qed.

#[local] Instance not_after_trans : Transitive (not_after key_less).
Proof. intros x y z. apply not_less_trans. Qed.
#[local] Instance not_after_total : Total (not_after key_less).
Proof.
  intros x y. unfold not_after, key_less.
  destruct (klt (key y) (key x)) eqn:E; [right|by left]. by apply less_asym.
Qed.

Lemma sort_slice_perm l : sort_slice key_less l ≡ₚ l.
Proof. apply merge_sort_Permutation. Qed.

(** Distinct keys: the result is strictly increasing. *)
Lemma sort_slice_sorted l :
  NoDup (key <$> l) → StronglySorted key_lt (sort_slice key_less l).
Proof.
  intros Hnd.
  assert (NoDup (key <$> sort_slice key_less l)) as Hnd'.
  { by rewrite sort_slice_perm. }
  pose proof (StronglySorted_merge_sort (not_after key_less) l) as Hs.
  unfold sort_slice in *. revert Hnd'.
  induction Hs as [|x l' Hs IH Hall]; [constructor|].
  rewrite fmap_cons, NoDup_cons. intros [Hni ?]. constructor; [by apply IH|].
  apply Forall_forall. intros y Hy.
  rewrite Forall_forall in Hall. specialize (Hall y Hy).
  unfold not_after, key_less in Hall. unfold key_lt.
  destruct (less_total (key x) (key y)) as [|]; [|done|congruence].
  intros Heq. apply Hni. rewrite Heq. by apply list_elem_of_fmap_2.
Qed.

Lemma key_lt_sorted_unique l1 l2 :
  StronglySorted key_lt l1 → StronglySorted key_lt l2 → l1 ≡ₚ l2 → l1 = l2.
Proof.
  intros. apply (StronglySorted_unique_strong key_lt); [|done..].
  intros x y _ _ Hxy Hyx. exfalso. unfold key_lt in *.
  pose proof (less_asym _ _ Hxy). congruence.
Qed.

Lemma key_lt_sorted_NoDup l : StronglySorted key_lt l → NoDup (key <$> l).
Proof.
  induction 1 as [|x l Hl IH Hall]; [constructor|]. rewrite fmap_cons. constructor; [|done].
  intros (y & Heq & Hy)%list_elem_of_fmap. rewrite Forall_forall in Hall.
  specialize (Hall y Hy). unfold key_lt in Hall. rewrite Heq in Hall.
  by rewrite less_irrefl in Hall.
Qed.

Lemma key_lt_sorted_fmap_inv l :
  StronglySorted (λ x y, klt x y = true) (key <$> l) → StronglySorted key_lt l.
Proof.
  induction l as [|x l IH]; [constructor|]. rewrite fmap_cons.
  intros [Hs Hall]%StronglySorted_inv. constructor; [by apply IH|]. by rewrite Forall_fmap in Hall.
Qed.

(** A strictly increasing arrangement of the input is the sorted output. *)
Lemma sort_slice_eq l l' :
  l ≡ₚ l' → StronglySorted key_lt l' → sort_slice key_less l = l'.
Proof.
  intros Hp Hs. apply key_lt_sorted_unique; [|done|by rewrite sort_slice_perm].
  apply sort_slice_sorted. rewrite Hp. by apply key_lt_sorted_NoDup.
Qed.

(** Any iteration order of the input gives the same sorted output. *)
Lemma sort_slice_order_irrelevant l1 l2 :
  NoDup (key <$> l1) → l1 ≡ₚ l2 → sort_slice key_less l1 = sort_slice key_less l2.
Proof.
  intros Hnd Hp. apply key_lt_sorted_unique.
  - by apply sort_slice_sorted.
  - apply sort_slice_sorted. by rewrite <- Hp.
  - by rewrite !sort_slice_perm.
Qed.

Lemma sort_slice_filter (P : A → Prop) `{!∀ x, Decision (P x)} l :
  NoDup (key <$> l) →
  sort_slice key_less (filter P l) = filter P (sort_slice key_less l).
Proof.
  intros Hnd. apply key_lt_sorted_unique.
  - by apply sort_slice_sorted, NoDup_fmap_filter.
  - apply StronglySorted_filter. by apply sort_slice_sorted.
  - by rewrite !sort_slice_perm.
Qed.

(** The rows after the one at index [n] are exactly those whose key is
    greater than its key: a page boundary is a key. *)
Lemma filter_after_drop l n x :
  StronglySorted key_lt l → l !! n = Some x → filter (key_lt x) l = drop (S n) l.
Proof.
  intros Hs. revert n. induction Hs as [|y l Hs IH Hall]; intros n Hx; [done|].
  rewrite Forall_forall in Hall. destruct n as [|n]; simplify_eq/=.
  - rewrite filter_cons_False by (unfold key_lt; by rewrite less_irrefl).
    rewrite drop_0. by apply filter_all.
  - rewrite filter_cons_False; [by apply IH|].
    pose proof (less_asym _ _ (Hall x ltac:(by eapply list_elem_of_lookup_2))) as Hxy.
    unfold key_lt. by rewrite Hxy.
Qed.

Lemma key_lt_sorted_last l x y :
  StronglySorted key_lt l → last l = Some x → y ∈ l → y = x ∨ key_lt y x.
Proof.
  intros Hs [l' ->]%last_Some [Hy|Hy%list_elem_of_singleton]%elem_of_app; [right|by left].
  eapply StronglySorted_app_1_elem_of; [done..|]. by apply list_elem_of_singleton.
Qed.
End keyset.
