(* ===== verification/Bytes.v ===== *)
(** * Byte slices

    Go's [[]byte] as a list of 8-bit characters, sub-slices, the big-endian
    64-bit codec of [encoding/binary] and the facts about cutting a buffer into
    equal chunks. *)

From S2P Require Import Prelude.
Local Open Scope Z_scope.

Abbreviation bytes := (list ascii).

Definition zero_byte : ascii := ascii_of_N 0.

(** [len(b)] *)
Definition blen {A} (b : list A) : Z := Z.of_nat (length b).

Lemma blen_nonneg {A} (b : list A) : 0 ≤ blen b.
Proof. unfold blen. lia. Qed.

(** [b[lo:hi]], for bounds that are in range. *)
Definition slice {A} (lo hi : Z) (b : list A) : list A :=
  take (Z.to_nat (hi - lo)) (drop (Z.to_nat lo) b).

(** The first [n] bytes, or all of them, and the rest: what [io.ReadFull] with a
    buffer of [n] bytes takes from a source. *)
Definition ztake {A} (n : Z) (b : list A) : list A := take (Z.to_nat (Z.min n (blen b))) b.
Definition zdrop {A} (n : Z) (b : list A) : list A := drop (Z.to_nat (Z.min n (blen b))) b.

(** [dst := make([]byte, n); copy(dst, src)] *)
Definition make_copy (n : Z) (src : bytes) : bytes :=
  take (Z.to_nat n) src ++ replicate (Z.to_nat n - length src) zero_byte.

(** [binary.BigEndian.PutUint64], [PutUint32], [Uint64] and [Uint32] *)
Definition byte_at (v i : Z) : ascii := ascii_of_N (Z.to_N (Z.land (Z.shiftr v (8 * i)) 255)).
Definition PutUint64 (v : Z) : bytes := byte_at v <$> [7; 6; 5; 4; 3; 2; 1; 0].
Definition PutUint32 (v : Z) : bytes := byte_at v <$> [3; 2; 1; 0].
Definition byte_value (c : ascii) : Z := Z.of_N (N_of_ascii c).
Definition Uint64 (b : bytes) : Z := foldl (λ acc c, acc * 256 + byte_value c) 0 b.
Definition Uint32 (b : bytes) : Z := foldl (λ acc c, acc * 256 + byte_value c) 0 b.

Lemma byte_value_at v i : 0 ≤ v → 0 ≤ i → byte_value (byte_at v i) = v / 2 ^ (8 * i) mod 256.
Proof.
  intros Hv Hi. unfold byte_value, byte_at. change 255 with (Z.ones 8).
  rewrite Z.land_ones, Z.shiftr_div_pow2 by lia. change (2 ^ 8) with 256.
  pose proof (Z.mod_pos_bound (v / 2 ^ (8 * i)) 256 ltac:(lia)).
  rewrite N_ascii_embedding by lia. lia.
Qed.

Lemma digit_step v i j :
  0 ≤ i → j = i + 1 → v / 2 ^ (8 * j) * 256 + v / 2 ^ (8 * i) mod 256 = v / 2 ^ (8 * i).
Proof.
  intros Hi ->. replace (8 * (i + 1)) with (8 * i + 8) by lia.
  rewrite Z.pow_add_r, <- Z.div_div by lia. change (2 ^ 8) with 256.
  pose proof (Z.div_mod (v / 2 ^ (8 * i)) 256). lia.
Qed.

Lemma Uint64_PutUint64 v : is_uint64 v → Uint64 (PutUint64 v) = v.
Proof.
  intros [H0 Hv]. unfold Uint64, PutUint64. cbn [fmap list_fmap foldl].
  rewrite !byte_value_at by lia.
  rewrite (Z.mod_small (v / 2 ^ (8 * 7)) 256), Z.mul_0_l, Z.add_0_l.
  2:{ split; [apply Z.div_pos; lia|]. apply Z.div_lt_upper_bound; lia. }
  rewrite (digit_step v 6 7), (digit_step v 5 6), (digit_step v 4 5), (digit_step v 3 4), (digit_step v 2 3),
    (digit_step v 1 2), (digit_step v 0 1) by lia.
  apply Z.div_1_r.
Qed.

Lemma PutUint64_inj v v' : is_uint64 v → is_uint64 v' → PutUint64 v = PutUint64 v' → v = v'.
Proof. intros Hv Hv' Heq. by rewrite <- (Uint64_PutUint64 v), Heq, Uint64_PutUint64. Qed.

Lemma Uint32_PutUint32 v : 0 ≤ v < 2 ^ 32 → Uint32 (PutUint32 v) = v.
Proof.
  intros [H0 Hv]. unfold Uint32, PutUint32. cbn [fmap list_fmap foldl].
  rewrite !byte_value_at by lia.
  rewrite (Z.mod_small (v / 2 ^ (8 * 3)) 256), Z.mul_0_l, Z.add_0_l.
  2:{ split; [apply Z.div_pos; lia|]. apply Z.div_lt_upper_bound; lia. }
  rewrite (digit_step v 2 3), (digit_step v 1 2), (digit_step v 0 1) by lia.
  apply Z.div_1_r.
Qed.

Lemma length_PutUint32 v : length (PutUint32 v) = 4%nat.
Proof. done. Qed.

Lemma length_PutUint64 v : length (PutUint64 v) = 8%nat.
Proof. done. Qed.

Lemma ztake_take {A} n (b : list A) : ztake n b = take (Z.to_nat n) b.
Proof.
  unfold ztake, blen. destruct (Z.min_spec n (Z.of_nat (length b))) as [[_ ->]|[? ->]]; [done|].
  rewrite !take_ge by lia. done.
Qed.

Lemma zdrop_drop {A} n (b : list A) : zdrop n b = drop (Z.to_nat n) b.
Proof.
  unfold zdrop, blen. destruct (Z.min_spec n (Z.of_nat (length b))) as [[_ ->]|[? ->]]; [done|].
  rewrite !drop_ge by lia. done.
Qed.

Lemma length_make_copy n src : length (make_copy n src) = Z.to_nat n.
Proof. unfold make_copy. rewrite length_app, length_take, length_replicate. lia. Qed.

Lemma make_copy_same n src : blen src = n → make_copy n src = src.
Proof.
  intros <-. unfold make_copy, blen. rewrite Nat2Z.id, take_ge, Nat.sub_diag by lia.
  apply app_nil_r.
Qed.

(** ** Chunks of a buffer *)

(** Chunk [i] of size [n]. *)
Definition chunk {A} (n i : nat) (l : list A) : list A := take n (drop (i * n) l).

Lemma concat_chunks {A} n k (l : list A) :
  concat ((λ i, chunk n i l) <$> seq 0 k) = take (k * n) l.
Proof.
  induction k as [|k IH]; [done|].
  rewrite seq_S, fmap_app, concat_app, IH. simpl. rewrite app_nil_r. unfold chunk.
  rewrite (Nat.add_comm n), <- take_take_drop. done.
Qed.

Lemma length_chunk {A} n i (l : list A) :
  ((i + 1) * n ≤ length l)%nat → length (chunk n i l) = n.
Proof. intros Hl. unfold chunk. rewrite length_take, length_drop. lia. Qed.

(** A chunk of a padded buffer is the chunk of the buffer, padded. *)
Lemma chunk_pad n i pad (l : bytes) :
  (i * n ≤ length l)%nat → ((i + 1) * n ≤ length l + pad)%nat →
  chunk n i (l ++ replicate pad zero_byte) =
    chunk n i l ++ replicate (n - length (chunk n i l)) zero_byte.
Proof.
  intros Hlo Hhi. unfold chunk. rewrite drop_app_le, take_app, length_take, length_drop by lia.
  f_equal. rewrite take_replicate. f_equal. lia.
Qed.
