(* ===== verification/GoStrings.v ===== *)
(** * Strings

    The functions of Go's [strings] and [net/url] packages the handlers use, on
    byte strings. *)

From S2P Require Import Prelude.
Local Open Scope string_scope.

(** [strings.CutPrefix(s, p)]: the rest of [s] after the prefix [p]. *)
Fixpoint CutPrefix (p s : string) : option string :=
  match p, s with
  | "", _ => Some s
  | String a p', String b s' => if Ascii.eqb a b then CutPrefix p' s' else None
  | _, _ => None
  end.

Definition HasPrefix (s p : string) : bool := bool_decide (is_Some (CutPrefix p s)).
Definition TrimPrefix (s p : string) : string := default s (CutPrefix p s).

Fixpoint string_rev (s acc : string) : string :=
  match s with "" => acc | String c s' => string_rev s' (String c acc) end.

Definition HasSuffix (s p : string) : bool := HasPrefix (string_rev s "") (string_rev p "").

(** [strings.IndexByte(s, c)] and the two halves around it. *)
Fixpoint cut_byte (c : ascii) (s : string) : option (string * string) :=
  match s with
  | "" => None
  | String a s' =>
      if Ascii.eqb a c then Some ("", s')
      else match cut_byte c s' with
           | Some (x, y) => Some (String a x, y)
           | None => None
           end
  end.

(** [strings.Contains(s, string(c))] *)
Fixpoint ContainsByte (c : ascii) (s : string) : bool :=
  match s with "" => false | String a s' => Ascii.eqb a c || ContainsByte c s' end.

(** [strings.Split(s, string(c))] *)
Fixpoint SplitByte (c : ascii) (s : string) : list string :=
  match s with
  | "" => [""]
  | String a s' =>
      if Ascii.eqb a c then "" :: SplitByte c s'
      else match SplitByte c s' with
           | x :: xs => String a x :: xs
           | [] => [String a ""]
           end
  end.

(** [strings.Join(l, sep)] *)
Fixpoint Join (sep : string) (l : list string) : string :=
  match l with [] => "" | [x] => x | x :: l' => x +:+ sep +:+ Join sep l' end.

Definition newline : string := String (ascii_of_N 10) "".

(** ** White space

    [unicode.IsSpace] on UTF-8: the ASCII spaces, U+0085 and U+00A0 in two
    bytes, and the spaces of the blocks U+1680, U+2000-U+205F and U+3000 in
    three. *)
Definition byte_in (ns : list N) (c : ascii) : bool := bool_decide (N_of_ascii c ∈ ns).

Definition space1 (a : ascii) : bool := byte_in [9; 10; 11; 12; 13; 32]%N a.
Definition space2 (a b : ascii) : bool := byte_in [194]%N a && byte_in [133; 160]%N b.
Definition space3 (a b c : ascii) : bool :=
  (byte_in [225]%N a && byte_in [154]%N b && byte_in [128]%N c)
  || (byte_in [226]%N a && byte_in [128]%N b &&
      byte_in [128; 129; 130; 131; 132; 133; 134; 135; 136; 137; 138; 168; 169; 175]%N c)
  || (byte_in [226]%N a && byte_in [129]%N b && byte_in [159]%N c)
  || (byte_in [227]%N a && byte_in [128]%N b && byte_in [128]%N c).

(** Drop leading spaces; [flip] reads the bytes of a space back to front, for a
    reversed string. *)
Fixpoint trim_front (flip : bool) (s : string) : string :=
  match s with
  | "" => ""
  | String a s1 =>
      if space1 a then trim_front flip s1
      else match s1 with
      | "" => s
      | String b s2 =>
          if (if flip then space2 b a else space2 a b) then trim_front flip s2
          else match s2 with
          | "" => s
          | String c s3 =>
              if (if flip then space3 c b a else space3 a b c) then trim_front flip s3 else s
          end
      end
  end.

(** [strings.TrimSpace] *)
Definition TrimSpace (s : string) : string :=
  string_rev (trim_front true (string_rev (trim_front false s) "")) "".

(** ** Facts *)

Lemma CutPrefix_app p s : CutPrefix p (p +:+ s) = Some s.
Proof. induction p as [|a p IH]; simpl; [done|]. by rewrite Ascii.eqb_refl. Qed.

Lemma CutPrefix_Some p s r : CutPrefix p s = Some r → s = p +:+ r.
Proof.
  revert s. induction p as [|a p IH]; intros s; simpl; [by intros [= ->]|].
  destruct s as [|b s]; [done|]. destruct (Ascii.eqb_spec a b) as [->|]; [|done].
  intros Hr. by rewrite (IH _ Hr).
Qed.

Lemma HasPrefix_app p s : HasPrefix (p +:+ s) p = true.
Proof. unfold HasPrefix. rewrite CutPrefix_app. by apply bool_decide_eq_true_2. Qed.

Lemma TrimPrefix_app p s : TrimPrefix (p +:+ s) p = s.
Proof. unfold TrimPrefix. by rewrite CutPrefix_app. Qed.

Lemma ContainsByte_app c s t : ContainsByte c (s +:+ t) = ContainsByte c s || ContainsByte c t.
Proof. induction s as [|a s IH]; simpl; [done|]. by rewrite IH, orb_assoc. Qed.

Lemma cut_byte_app c s t :
  ContainsByte c s = false → cut_byte c (s +:+ String c t) = Some (s, t).
Proof.
  induction s as [|a s IH]; simpl; [by rewrite Ascii.eqb_refl|].
  intros [-> Hs]%orb_false_iff. by rewrite IH.
Qed.

Lemma cut_byte_Some c s x y :
  cut_byte c s = Some (x, y) → s = x +:+ String c y ∧ ContainsByte c x = false.
Proof.
  revert x. induction s as [|a s IH]; intros x; simpl; [done|].
  destruct (Ascii.eqb_spec a c) as [->|Hne]; [by intros [= <- <-]|].
  destruct (cut_byte c s) as [[x' y']|] eqn:E; [|done]. intros [= <- <-].
  destruct (IH x' eq_refl) as [-> Hx]. simpl. split; [done|].
  apply orb_false_iff. split; [by apply Ascii.eqb_neq|done].
Qed.

Lemma SplitByte_none c s : ContainsByte c s = false → SplitByte c s = [s].
Proof.
  induction s as [|a s IH]; simpl; [done|]. intros [-> Hs]%orb_false_iff. by rewrite IH.
Qed.

Lemma SplitByte_app c s t :
  ContainsByte c s = false → SplitByte c (s +:+ String c t) = s :: SplitByte c t.
Proof.
  induction s as [|a s IH]; simpl; [by rewrite Ascii.eqb_refl|].
  intros [-> Hs]%orb_false_iff. by rewrite IH.
Qed.

Lemma string_rev_acc s acc acc' : string_rev s (acc +:+ acc') = string_rev s acc +:+ acc'.
Proof. revert acc. induction s as [|a s IH]; intros acc; simpl; [done|]. apply (IH (String a acc)). Qed.

Lemma string_rev_involutive s : string_rev (string_rev s "") "" = s.
Proof.
  assert (∀ s acc, string_rev (string_rev s acc) "" = string_rev acc s) as H.
  { clear s. induction s as [|a s IH]; intros acc; simpl; [done|]. by rewrite IH. }
  by rewrite H.
Qed.

(** Strings of visible ASCII bytes, which [TrimSpace] leaves alone. *)
Fixpoint visible (s : string) : bool :=
  match s with "" => true | String c s => (33 <=? N_of_ascii c)%N && (N_of_ascii c <=? 126)%N && visible s end.

Lemma visible_app s t : visible (s +:+ t) = visible s && visible t.
Proof. induction s as [|c s IH]; simpl; [done|]. by rewrite IH, andb_assoc. Qed.

Lemma visible_rev s acc : visible s = true → visible acc = true → visible (string_rev s acc) = true.
Proof.
  revert acc. induction s as [|c s IH]; intros acc; simpl; [done|]. intros [Hc Hs]%andb_true_iff Ha.
  apply IH; [done|]. simpl. by rewrite Hc.
Qed.

Lemma byte_out c l : forallb (λ n, (n <? 33) || (126 <? n))%N l = true → (33 <=? N_of_ascii c)%N && (N_of_ascii c <=? 126)%N = true →
  byte_in l c = false.
Proof.
  intros Hl [H1%N.leb_le H2%N.leb_le]%andb_true_iff. unfold byte_in. apply bool_decide_eq_false. intros Hin.
  apply list_elem_of_In, (proj1 (forallb_forall _ _) Hl), orb_true_iff in Hin as [?%N.ltb_lt|?%N.ltb_lt]; lia.
Qed.

Lemma trim_front_visible flip s : visible s = true → trim_front flip s = s.
Proof.
  destruct s as [|a s]; [done|]. cbn [visible]. intros [Ha _]%andb_true_iff. cbn [trim_front].
  unfold space1, space2, space3. rewrite !(byte_out a) by (exact Ha || reflexivity). simpl.
  repeat case_match; rewrite ?andb_false_r in *; done.
Qed.

Lemma TrimSpace_visible s : visible s = true → TrimSpace s = s.
Proof.
  intros Hs. unfold TrimSpace. rewrite (trim_front_visible false) by done.
  rewrite (trim_front_visible true) by by apply visible_rev. apply string_rev_involutive.
Qed.

(** ** Digits *)

Definition is_digit (c : ascii) : bool := (48 <=? N_of_ascii c)%N && (N_of_ascii c <=? 57)%N.

Fixpoint all_digits (s : string) : bool :=
  match s with "" => true | String c s' => is_digit c && all_digits s' end.

Lemma all_digits_uint d : all_digits (DecimalString.NilEmpty.string_of_uint d) = true.
Proof. induction d; simpl; done. Qed.

Lemma FormatUint_digits n : all_digits (FormatUint n) = true.
Proof.
  unfold FormatUint, DecimalString.NilZero.string_of_uint.
  destruct (N.to_uint _) eqn:E; [done|..]; apply all_digits_uint.
Qed.

Lemma all_digits_no_byte c s : is_digit c = false → all_digits s = true → ContainsByte c s = false.
Proof.
  intros Hc. induction s as [|a s IH]; simpl; [done|]. intros [Ha Hs]%andb_true_iff.
  rewrite (IH Hs), orb_false_r. apply Ascii.eqb_neq. intros ->. congruence.
Qed.

(** ** Escapes of a URL *)

Definition unhex (c : ascii) : option N :=
  let n := N_of_ascii c in
  if (48 <=? n)%N && (n <=? 57)%N then Some (n - 48)%N
  else if (97 <=? n)%N && (n <=? 102)%N then Some (n - 87)%N
  else if (65 <=? n)%N && (n <=? 70)%N then Some (n - 55)%N
  else None.

(** [url.QueryUnescape] *)
Fixpoint QueryUnescape (s : string) : option string :=
  match s with
  | "" => Some ""
  | String "%" s' =>
      match s' with
      | String a (String b r) =>
          hi ← unhex a; lo ← unhex b; rest ← QueryUnescape r; Some (String (ascii_of_N (hi * 16 + lo)) rest)
      | _ => None
      end
  | String "+" s' => String " " <$> QueryUnescape s'
  | String c s' => String c <$> QueryUnescape s'
  end.

(** [url.QueryEscape] and [url.PathEscape] *)
Definition hex_digit (n : N) : ascii := ascii_of_N (if (n <? 10)%N then 48 + n else 55 + n).

Definition percent (c : ascii) : string :=
  String "%" (String (hex_digit (N_of_ascii c / 16)) (String (hex_digit (N_of_ascii c mod 16)) "")).

Definition url_unreserved (c : ascii) : bool :=
  let n := N_of_ascii c in
  (48 <=? n)%N && (n <=? 57)%N || (65 <=? n)%N && (n <=? 90)%N || (97 <=? n)%N && (n <=? 122)%N ||
  byte_in [45; 46; 95; 126]%N c.

Definition query_escape_byte (c : ascii) : string :=
  if url_unreserved c then String c "" else if Ascii.eqb c " " then "+" else percent c.
Definition path_escape_byte (c : ascii) : string :=
  if url_unreserved c || byte_in [36; 38; 43; 58; 61; 64]%N c then String c "" else percent c.

Fixpoint escape (f : ascii → string) (s : string) : string :=
  match s with "" => "" | String c s => f c +:+ escape f s end.
Definition QueryEscape : string → string := escape query_escape_byte.
Definition PathEscape : string → string := escape path_escape_byte.

Lemma QueryUnescape_byte c s : QueryUnescape (query_escape_byte c +:+ s) = String c <$> QueryUnescape s.
Proof. destruct c as [[] [] [] [] [] [] [] []]; simpl; change ("" +:+ s) with s; by destruct (QueryUnescape s). Qed.

Lemma QueryUnescape_QueryEscape s : QueryUnescape (QueryEscape s) = Some s.
Proof.
  induction s as [|c s IH]; [done|]. change (QueryEscape (String c s)) with (query_escape_byte c +:+ QueryEscape s).
  by rewrite QueryUnescape_byte, IH.
Qed.

(** An escaped string is in one piece of its query. *)
Lemma QueryEscape_free c s : byte_in [38; 59; 61]%N c = true → ContainsByte c (QueryEscape s) = false.
Proof.
  intros Hc. induction s as [|a s IH]; [done|].
  change (QueryEscape (String a s)) with (query_escape_byte a +:+ QueryEscape s). rewrite ContainsByte_app, IH, orb_false_r. unfold byte_in in Hc. apply bool_decide_eq_true in Hc.
  apply elem_of_cons in Hc as [Hc|Hc]; [|apply elem_of_cons in Hc as [Hc|Hc%list_elem_of_singleton]];
    apply (f_equal ascii_of_N) in Hc; rewrite ascii_N_embedding in Hc; subst c;
    destruct a as [[] [] [] [] [] [] [] []]; reflexivity.
Qed.

(** The values of a query, and whether a pair was malformed. *)
Abbreviation Values := (gmap string (list string)).

Fixpoint parse_pairs (pairs : list string) (m : Values) (bad : bool) : Values * bool :=
  match pairs with
  | [] => (m, bad)
  | p :: pairs =>
      if ContainsByte ";" p then parse_pairs pairs m true
      else if bool_decide (p = "") then parse_pairs pairs m bad
      else
        let '(k, v) := default (p, "") (cut_byte "=" p) in
        match QueryUnescape k, QueryUnescape v with
        | Some k, Some v => parse_pairs pairs (<[k := (default [] (m !! k) ++ [v])%list]> m) bad
        | _, _ => parse_pairs pairs m true
        end
  end.

Lemma parse_pairs_cons k v k' v' pairs m bad :
  ContainsByte "=" k = false → ContainsByte ";" (k +:+ String "=" v) = false →
  QueryUnescape k = Some k' → QueryUnescape v = Some v' →
  parse_pairs ((k +:+ String "=" v) :: pairs) m bad = parse_pairs pairs (<[k' := (default [] (m !! k') ++ [v'])%list]> m) bad.
Proof.
  intros Hk Hs Hk' Hv'. cbn [parse_pairs]. rewrite Hs, cut_byte_app by done. cbn [default from_option].
  rewrite bool_decide_eq_false_2 by by destruct k. unfold default, from_option, id. by rewrite Hk', Hv'.
Qed.

(** [url.ParseQuery] *)
Definition ParseQuery (query : string) : Values * bool := parse_pairs (SplitByte "&" query) ∅ false.

(** [Values.Get] *)
Definition Values_Get (k : string) (m : Values) : string := default "" (head (default [] (m !! k))).
