(* ===== verification/Ranges.v ===== *)
(** * HTTP byte ranges

    The parser of the Range header (api/s3compat/handler.go, parseHTTPRange;
    api/s3compat/range_multipart.go), the slicing of a buffered object and the
    multipart/byteranges body with its Content-Length. *)

From S2P Require Import Prelude Bytes GoStrings.
Local Open Scope Z_scope.

(** [providers.ByteRange]: closed, a negative [End] means to the end. *)
Record ByteRange := mkByteRange {
  rg_Start : Z;
  rg_End : Z
}.

#[export] Instance ByteRange_eq_dec : EqDecision ByteRange.
Proof. solve_decision. Defined.

(** [None] is an error. *)
Definition parseHTTPRange (h : string) (size : Z) : option ByteRange :=
  match CutPrefix "bytes=" h with
  | None => None
  | Some spec =>
      if ContainsByte "," spec then None
      else match cut_byte "-" spec with
      | None => None
      | Some (startStr, endStr) =>
          if bool_decide (startStr = "") then
            if bool_decide (endStr = "") then None
            else match ParseInt endStr with
            | None => None
            | Some suffix =>
                if suffix <? 0 then None
                else
                  let suffix := if size <? suffix then size else suffix in
                  if suffix =? 0 then None
                  else Some (mkByteRange (wrap64 (size - suffix)) (wrap64 (size - 1)))
            end
          else match ParseInt startStr with
          | None => None
          | Some start =>
              match (if bool_decide (endStr = "") then Some (-1)
                     else match ParseInt endStr with
                          | None => None
                          | Some e => Some (if size <=? e then wrap64 (size - 1) else e)
                          end) with
              | None => None
              | Some e =>
                  if (start <? 0) || (size <=? start) || ((0 <=? e) && (e <? start)) then None
                  else Some (mkByteRange start e)
              end
          end
      end
  end.

Definition resolveRangeEnd (r : ByteRange) (size : Z) : ByteRange :=
  if (rg_End r <? 0) || (size <=? rg_End r) then mkByteRange (rg_Start r) (wrap64 (size - 1)) else r.

(** The loop over the comma-separated segments. *)
Fixpoint parse_segments (segs : list string) (size : Z) : option (list ByteRange) :=
  match segs with
  | [] => Some []
  | seg :: segs =>
      let seg := TrimSpace seg in
      if bool_decide (seg = "") then parse_segments segs size
      else match parseHTTPRange (String.app "bytes=" seg) size with
      | None => None
      | Some rng => cons (resolveRangeEnd rng size) <$> parse_segments segs size
      end
  end.

Definition parseHTTPRangeList (h : string) (size : Z) : option (list ByteRange) :=
  match CutPrefix "bytes=" h with
  | None => None
  | Some spec =>
      match parse_segments (SplitByte "," spec) size with
      | None | Some [] => None
      | Some out => Some out
      end
  end.

Definition sumRangeSizes (ranges : list ByteRange) : Z :=
  foldl (λ n r, wrap64 (n + (rg_End r - rg_Start r + 1))) 0 ranges.

Definition maxObjectRanges : Z := 100.

(** How a read is served. *)
Inductive disposition :=
| Whole
| Single (r : ByteRange)
| Multi (rs : list ByteRange).

Definition parseObjectRanges (hdr : string) (size : Z) : option disposition :=
  if bool_decide (hdr = "") then Some Whole
  else if negb (ContainsByte "," hdr) then Single <$> parseHTTPRange hdr size
  else match parseHTTPRangeList hdr size with
  | None => None
  | Some [rng] => Some (Single rng)
  | Some ranges =>
      if (maxObjectRanges <? blen ranges) || (size <=? sumRangeSizes ranges) then Some Whole
      else Some (Multi ranges)
  end.

Definition range_end (r : ByteRange) (size : Z) : Z :=
  if rg_End r <? 0 then wrap64 (size - 1) else rg_End r.

Definition formatContentRange (r : ByteRange) (total : Z) : string :=
  String.app "bytes " (String.app (FormatInt (rg_Start r)) (String.app "-"
    (String.app (FormatInt (range_end r total)) (String.app "/" (FormatInt total))))).

(** The slice of a buffered body the read paths share: the end clamped to the
    buffer, then the bounds check. *)
Definition slice_range (r : ByteRange) (buf : bytes) : option bytes :=
  let e := if (rg_End r <? 0) || (blen buf <=? rg_End r) then blen buf - 1 else rg_End r in
  if (rg_Start r <? 0) || (e + 1 <? rg_Start r) then None
  else Some (slice (rg_Start r) (e + 1) buf).

(** ** multipart/byteranges *)

Definition crlf : string := String (ascii_of_N 13) (String (ascii_of_N 10) "").

Definition rangePartHeader (boundary contentType : string) (r : ByteRange) (total : Z) : string :=
  String.app "--" (String.app boundary (String.app crlf
    (String.app "Content-Type: " (String.app contentType (String.app crlf
      (String.app "Content-Range: bytes " (String.app (FormatInt (rg_Start r))
        (String.app "-" (String.app (FormatInt (rg_End r)) (String.app "/"
          (String.app (FormatInt total) (String.app crlf crlf)))))))))))).

Definition closing_boundary (boundary : string) : string :=
  String.app "--" (String.app boundary (String.app "--" crlf)).

Definition slen (s : string) : Z := Z.of_nat (String.length s).

Definition multipartByteRangesLength (ranges : list ByteRange) (total : Z)
    (boundary contentType : string) : Z :=
  let n := foldl (λ n r,
      wrap64 (wrap64 (wrap64 (n + slen (rangePartHeader boundary contentType r total))
        + (rg_End r - rg_Start r + 1)) + 2)) 0 ranges in
  wrap64 (n + slen (closing_boundary boundary)).

Definition str (s : string) : bytes := String.list_ascii_of_string s.

(** What [writeMultipartByteRanges] writes when every part is served: one part
    per range and the closing boundary. *)
Definition multipart_body (parts : list (ByteRange * bytes)) (total : Z)
    (boundary contentType : string) : bytes :=
  concat ((λ p, str (rangePartHeader boundary contentType p.1 total) ++ p.2 ++ str crlf) <$> parts)
  ++ str (closing_boundary boundary).

(** [writeMultipartByteRangesFromBuffer]; [None] is the out-of-bounds error. *)
Definition writeMultipartByteRangesFromBuffer (ranges : list ByteRange) (total : Z)
    (boundary contentType : string) (buf : bytes) : option bytes :=
  if existsb (λ r, (rg_Start r <? 0) || (rg_End r <? rg_Start r) || (blen buf <=? rg_End r)) ranges
  then None
  else Some (multipart_body ((λ r, (r, slice (rg_Start r) (rg_End r + 1) buf)) <$> ranges) total
               boundary contentType).

(** ** Properties *)

Definition in_bounds (size : Z) (r : ByteRange) : Prop := 0 ≤ rg_Start r ≤ rg_End r ∧ rg_End r < size.

(** A parsed range starts inside the object and its end, when it has one, is
    inside too and not before the start. *)
Lemma parseHTTPRange_bounds h size r :
  0 ≤ size < 2 ^ 63 → parseHTTPRange h size = Some r →
  0 ≤ rg_Start r < size ∧ (rg_End r < 0 ∨ rg_Start r ≤ rg_End r < size).
Proof.
  intros Hs. unfold parseHTTPRange. destruct (CutPrefix _ h) as [spec|]; [|done].
  destruct (ContainsByte _ _); [done|]. destruct (cut_byte _ _) as [[s e]|]; [|done].
  case_bool_decide.
  - case_bool_decide; [done|]. destruct (ParseInt e) as [n|]; [|done].
    destruct (Z.ltb_spec n 0); [done|].
    destruct (Z.eqb_spec (if size <? n then size else n) 0) as [|Hn]; [done|].
    intros [= <-]. simpl. destruct (Z.ltb_spec size n); rewrite !wrap64_id by (unfold is_int64; lia); lia.
  - destruct (ParseInt s) as [a|] eqn:Ea; [|done].
    case_match eqn:Ee; [|done]. rename z into b.
    destruct ((_ <? _) || _ || _) eqn:Eb; [done|]. intros [= <-]. simpl. bool_facts.
    split; [lia|]. destruct (Z.lt_ge_cases b 0) as [|Hb]; [by left|right].
    apply andb_false_iff in H1 as [?|?]; bool_facts; [lia|]. split; [lia|].
    case_bool_decide; [simplify_eq; lia|].
    destruct (ParseInt e) as [x|]; simplify_eq.
    destruct (Z.leb_spec size x); [rewrite wrap64_id by (unfold is_int64; lia)|]; lia.
Qed.

Lemma resolveRangeEnd_bounds size r :
  0 ≤ size < 2 ^ 63 → 0 ≤ rg_Start r < size → (rg_End r < 0 ∨ rg_Start r ≤ rg_End r < size) →
  in_bounds size (resolveRangeEnd r size).
Proof.
  intros ???. unfold in_bounds, resolveRangeEnd.
  destruct (_ || _) eqn:E; simpl; [rewrite wrap64_id by (unfold is_int64; lia); lia|].
  bool_facts. lia.
Qed.

Lemma parse_segments_bounds segs size rs :
  0 ≤ size < 2 ^ 63 → parse_segments segs size = Some rs → Forall (in_bounds size) rs.
Proof.
  intros Hs. revert rs. induction segs as [|seg segs IH]; intros rs; simpl; [intros [= <-]; constructor|].
  case_bool_decide; [apply IH|]. destruct (parseHTTPRange _ size) as [r|] eqn:Er; [|done].
  intros (rs' & Hrs & ->)%fmap_Some. constructor; [|by apply IH].
  apply parseHTTPRange_bounds in Er as [??]; [|done]. by apply resolveRangeEnd_bounds.
Qed.

Lemma sumRangeSizes_exact size rs :
  0 ≤ size → Forall (in_bounds size) rs → blen rs * size < 2 ^ 63 →
  sumRangeSizes rs = foldr (λ r n, rg_End r - rg_Start r + 1 + n) 0 rs.
Proof.
  intros Hs. unfold sumRangeSizes.
  assert (∀ acc, 0 ≤ acc → Forall (in_bounds size) rs → acc + blen rs * size < 2 ^ 63 →
    foldl (λ n r, wrap64 (n + (rg_End r - rg_Start r + 1))) acc rs =
    acc + foldr (λ r n, rg_End r - rg_Start r + 1 + n) 0 rs) as H.
  { induction rs as [|r rs IH]; intros acc Ha Hall Hlen; simpl; [lia|].
    apply Forall_cons in Hall as [[? ?] Hall]. unfold blen in *. rewrite length_cons in Hlen.
    rewrite wrap64_id by (unfold is_int64; nia). rewrite IH; [lia|lia|done|nia]. }
  intros Hall Hlen. by rewrite H.
Qed.

(** What the Range header of a request may ask for: a single range starts in
    the object and ends in it (or is open-ended); several ranges are served only
    when they are at most 100, each inside the object, and together shorter than
    the object, so that a multipart answer never carries more payload than the
    whole object. *)
Theorem parse_ranges_bounded (hdr : string) (size : Z) (d : disposition) :
  0 ≤ size → 100 * size < 2 ^ 63 → parseObjectRanges hdr size = Some d →
  match d with
  | Whole => True
  | Single r => 0 ≤ rg_Start r < size ∧ (rg_End r < 0 ∨ rg_Start r ≤ rg_End r < size)
  | Multi rs =>
      Forall (in_bounds size) rs ∧ 2 ≤ blen rs ≤ 100 ∧
      foldr (λ r n, rg_End r - rg_Start r + 1 + n) 0 rs < size
  end.
Proof.
  intros Hs Hmax. unfold parseObjectRanges. case_bool_decide; [by intros [= <-]|].
  destruct (ContainsByte _ _); simpl.
  - unfold parseHTTPRangeList. destruct (CutPrefix _ _) as [spec|]; [|done].
    destruct (parse_segments _ _) as [[|r [|r' rs]]|] eqn:Ep; [done| | |done];
      apply parse_segments_bounds in Ep; [|lia| |lia].
    + intros [= <-]. apply Forall_inv in Ep. unfold in_bounds in Ep. lia.
    + destruct (_ || _) eqn:E; [by intros [= <-]|]. intros [= <-]. bool_facts.
      unfold maxObjectRanges, blen in *. rewrite !length_cons in *.
      rewrite (sumRangeSizes_exact size) in H1; [|lia|done|unfold blen; rewrite !length_cons; nia].
      split; [done|]. split; [lia|done].
  - intros (r & Hr & ->)%fmap_Some. apply parseHTTPRange_bounds in Hr; [done|lia].
Qed.

Lemma parse_ranges_bounded_witness :
  parseObjectRanges "bytes=0-1, 4-" 9 = Some (Multi [mkByteRange 0 1; mkByteRange 4 8]) ∧
  Forall (in_bounds 9) [mkByteRange 0 1; mkByteRange 4 8].
Proof.
  split; [vm_compute; reflexivity|].
  apply (parse_ranges_bounded "bytes=0-1, 4-" 9 (Multi [mkByteRange 0 1; mkByteRange 4 8]));
    [lia|lia|vm_compute; reflexivity].
Defined.

Lemma FormatInt_nat n : 0 ≤ n → FormatInt n = FormatUint n.
Proof. intros ?. unfold FormatInt. destruct (Z.ltb_spec n 0); [lia|done]. Qed.

Lemma FormatInt_no_byte c n : is_digit c = false → 0 ≤ n → ContainsByte c (FormatInt n) = false.
Proof.
  intros Hc ?. rewrite FormatInt_nat by done. apply all_digits_no_byte; [done|]. apply FormatUint_digits.
Qed.

(** The spec part of a header without commas. *)
Lemma parseHTTPRange_spec s e size :
  ContainsByte "-" s = false → ContainsByte "," s = false → ContainsByte "," e = false →
  parseHTTPRange (String.app "bytes=" (String.app s (String "-" e))) size =
  if bool_decide (s = "") then
    if bool_decide (e = "") then None
    else match ParseInt e with
    | None => None
    | Some suffix =>
        if suffix <? 0 then None
        else
          let suffix := if size <? suffix then size else suffix in
          if suffix =? 0 then None
          else Some (mkByteRange (wrap64 (size - suffix)) (wrap64 (size - 1)))
    end
  else match ParseInt s with
  | None => None
  | Some start =>
      match (if bool_decide (e = "") then Some (-1)
             else match ParseInt e with
                  | None => None
                  | Some e => Some (if size <=? e then wrap64 (size - 1) else e)
                  end) with
      | None => None
      | Some e =>
          if (start <? 0) || (size <=? start) || ((0 <=? e) && (e <? start)) then None
          else Some (mkByteRange start e)
      end
  end.
Proof.
  intros Hd Hs He. unfold parseHTTPRange.
  rewrite CutPrefix_app, ContainsByte_app, Hs. simpl (ContainsByte "," (String "-" e)).
  rewrite He. simpl (false || _). cbv iota. by rewrite cut_byte_app.
Qed.

(** The three forms of a byte range: the parser reads back what a client
    prints for the bytes from [a] to [b], clamped to the object, for the bytes
    from [a] on, and for the last [n] bytes. *)
Theorem range_forms_roundtrip (a b n size : Z) :
  0 ≤ a ≤ b → a < size → 0 < n → b < 2 ^ 63 → n < 2 ^ 63 → size < 2 ^ 63 →
  parseHTTPRange (String.app "bytes=" (String.app (FormatInt a) (String "-" (FormatInt b)))) size =
    Some (mkByteRange a (Z.min b (size - 1))) ∧
  parseHTTPRange (String.app "bytes=" (String.app (FormatInt a) "-")) size =
    Some (mkByteRange a (-1)) ∧
  parseHTTPRange (String.app "bytes=-" (FormatInt n)) size =
    Some (mkByteRange (size - Z.min n size) (size - 1)).
Proof.
  intros Hab Ha Hn Hb Hn' Hs. split_and!.
  - rewrite parseHTTPRange_spec by (apply FormatInt_no_byte; [done|lia]).
    rewrite !bool_decide_eq_false_2 by apply FormatInt_nonempty.
    rewrite !ParseInt_FormatInt by (unfold is_int64; lia).
    destruct (Z.leb_spec size b); rewrite ?wrap64_id by (unfold is_int64; lia);
      rewrite (proj2 (Z.ltb_ge a 0)), (proj2 (Z.leb_gt size a)) by lia; simpl;
      rewrite (proj2 (Z.ltb_ge _ a)), andb_false_r by lia; do 2 f_equal; lia.
  - rewrite parseHTTPRange_spec by first [done|apply FormatInt_no_byte; [done|lia]].
    rewrite bool_decide_eq_false_2 by apply FormatInt_nonempty.
    rewrite !ParseInt_FormatInt by (unfold is_int64; lia). simpl.
    by rewrite (proj2 (Z.ltb_ge a 0)), (proj2 (Z.leb_gt size a)) by lia.
  - rewrite (parseHTTPRange_spec "" (FormatInt n)) by first [done|apply FormatInt_no_byte; [done|lia]].
    simpl (bool_decide ("" = "")). rewrite bool_decide_eq_false_2 by apply FormatInt_nonempty.
    rewrite ParseInt_FormatInt by (unfold is_int64; lia). rewrite (proj2 (Z.ltb_ge n 0)) by lia.
    cbv zeta. destruct (Z.ltb_spec size n); rewrite (proj2 (Z.eqb_neq _ 0)) by lia;
      rewrite !wrap64_id by (unfold is_int64; lia); do 2 f_equal; lia.
Qed.

Lemma range_forms_roundtrip_witness :
  parseHTTPRange "bytes=2-99" 10 = Some (mkByteRange 2 9).
Proof. apply (range_forms_roundtrip 2 99 1 10); lia. Defined.

(** A parsed range of a buffer that holds the object is cut out of it. *)
Lemma slice_range_ok r buf :
  blen buf < 2 ^ 63 → 0 ≤ rg_Start r < blen buf → (rg_End r < 0 ∨ rg_Start r ≤ rg_End r < blen buf) →
  slice_range r buf = Some (slice (rg_Start r) (range_end r (blen buf) + 1) buf).
Proof.
  intros Hb Hs He. unfold slice_range, range_end. rewrite wrap64_id by (unfold is_int64; lia).
  destruct (Z.ltb_spec (rg_End r) 0); simpl.
  - by rewrite (proj2 (Z.ltb_ge _ _)), (proj2 (Z.ltb_ge _ _)) by lia.
  - rewrite (proj2 (Z.leb_gt _ _)) by lia. by rewrite (proj2 (Z.ltb_ge _ _)), (proj2 (Z.ltb_ge _ _)) by lia.
Qed.

Lemma length_slice {A} (lo hi : Z) (b : list A) :
  0 ≤ lo ≤ hi → hi ≤ blen b → blen (slice lo hi b) = hi - lo.
Proof. intros. unfold slice, blen in *. rewrite length_take, length_drop. lia. Qed.

Lemma length_str s : blen (str s) = slen s.
Proof. unfold blen, str, slen. f_equal. induction s as [|c s IH]; simpl; [done|by f_equal]. Qed.

Lemma blen_app {A} (x y : list A) : blen (x ++ y) = blen x + blen y.
Proof. unfold blen. rewrite length_app. lia. Qed.

Lemma slen_nonneg s : 0 ≤ slen s.
Proof. unfold slen. lia. Qed.

Lemma multipart_body_cons p parts total boundary ct :
  multipart_body (p :: parts) total boundary ct =
  str (rangePartHeader boundary ct p.1 total) ++ p.2 ++ str crlf ++ multipart_body parts total boundary ct.
Proof. unfold multipart_body. rewrite fmap_cons. cbn [concat]. by rewrite <- !app_assoc. Qed.

Lemma multipart_body_length parts total boundary ct :
  Forall (λ p, blen p.2 = rg_End p.1 - rg_Start p.1 + 1) parts →
  blen (multipart_body parts total boundary ct) < 2 ^ 63 →
  blen (multipart_body parts total boundary ct) = multipartByteRangesLength parts.*1 total boundary ct.
Proof.
  intros Hparts Hlt. unfold multipartByteRangesLength, multipart_body in *.
  rewrite blen_app, length_str in *.
  set (body := λ p : ByteRange * bytes, str (rangePartHeader boundary ct p.1 total) ++ p.2 ++ str crlf) in *.
  pose proof (slen_nonneg (closing_boundary boundary)).
  assert (∀ acc, 0 ≤ acc → acc + blen (concat (body <$> parts)) < 2 ^ 63 →
    foldl (λ n r, wrap64 (wrap64 (wrap64 (n + slen (rangePartHeader boundary ct r total))
        + (rg_End r - rg_Start r + 1)) + 2)) acc parts.*1 = acc + blen (concat (body <$> parts))) as H1.
  { clear Hlt. induction Hparts as [|p parts Hp Hparts IH]; intros acc Ha Hlt; [simpl; unfold blen; simpl; lia|].
    change (concat (body <$> p :: parts)) with (body p ++ concat (body <$> parts)) in Hlt |- *.
    change (p :: parts).*1 with (p.1 :: parts.*1). cbn [foldl]. rewrite blen_app in Hlt |- *.
    assert (blen (body p) = slen (rangePartHeader boundary ct p.1 total) + (rg_End p.1 - rg_Start p.1 + 1) + 2) as Hb.
    { unfold body. rewrite !blen_app, !length_str, Hp. change (slen crlf) with 2. lia. }
    pose proof (slen_nonneg (rangePartHeader boundary ct p.1 total)).
    assert (0 ≤ blen (concat (body <$> parts))) by (unfold blen; lia).
    assert (0 ≤ blen p.2) by (unfold blen; lia).
    rewrite Hb in *. set (hd := slen (rangePartHeader boundary ct p.1 total)) in *.
    rewrite (wrap64_id (acc + hd)) by (unfold is_int64; lia).
    rewrite (wrap64_id (acc + hd + _)) by (unfold is_int64; lia).
    rewrite wrap64_id by (unfold is_int64; lia).
    rewrite IH; lia. }
  assert (0 ≤ blen (concat (body <$> parts))) by (unfold blen; lia).
  rewrite H1 by lia. rewrite wrap64_id by (unfold is_int64; lia). lia.
Qed.

(** The Content-Length computed before a multipart/byteranges answer is
    streamed is the length of the answer, whenever every range is inside the
    buffer and the answer fits the int64 it is computed in; a range outside the
    buffer is an error and nothing is written. *)
Theorem multipart_length_exact (ranges : list ByteRange) (total : Z) (boundary ct : string) (buf : bytes) :
  match writeMultipartByteRangesFromBuffer ranges total boundary ct buf with
  | Some body =>
      Forall (in_bounds (blen buf)) ranges ∧
      (blen body < 2 ^ 63 → blen body = multipartByteRangesLength ranges total boundary ct)
  | None => ¬ Forall (in_bounds (blen buf)) ranges
  end.
Proof.
  unfold writeMultipartByteRangesFromBuffer. destruct (existsb _ _) eqn:E.
  - apply existsb_exists in E as (r & Hr%list_elem_of_In & Hb). rewrite Forall_forall. intros Hall.
    destruct (Hall r Hr) as [? ?]. apply orb_true_iff in Hb as [[?|?]%orb_true_iff|?]; bool_facts; lia.
  - assert (Forall (in_bounds (blen buf)) ranges) as Hall.
    { apply Forall_forall. intros r Hr. unfold in_bounds.
      assert (((rg_Start r <? 0) || (rg_End r <? rg_Start r) || (blen buf <=? rg_End r)) = false) as Hb.
      { apply not_true_iff_false. intros Hb. apply (eq_true_false_abs _ Hb).
        apply not_true_iff_false. intros _. apply not_true_iff_false in E. apply E.
        apply existsb_exists. exists r. by rewrite <- list_elem_of_In. }
      bool_facts. lia. }
    split; [done|]. intros Hlt. rewrite multipart_body_length; [|apply Forall_fmap|done].
    + rewrite <- list_fmap_compose. f_equal. by rewrite list_fmap_id.
    + eapply Forall_impl; [exact Hall|]. intros r [? ?]. simpl. rewrite length_slice; lia.
Qed.
