(* ===== verification/Manifest.v ===== *)
(** * Object manifests (metadata/manifest.go)

    The provider-neutral manifest record, with one field per Go field, and its
    structural validation. Slices are lists and maps are finite maps, so a nil
    slice (map) and an empty one are the same value here; [nil] pointers are
    [None]. *)

From S2P Require Import Prelude Bytes.
Local Open Scope Z_scope.

Record EncryptionConfig := mkEncryptionConfig {
  enc_Mode : string;
  enc_Algorithm : string;
  enc_KeyID : string;
  enc_WrappedDEK : bytes;
  enc_WrapAlgorithm : string;
  enc_ManifestEncrypted : bool;
  enc_AADVersion : string
}.

Record Piece := mkPiece {
  pc_PieceID : string;
  pc_Hash : string;
  pc_Backend : string;
  pc_Locator : string;
  pc_State : string;
  pc_ProviderETag : string;
  pc_PartNumber : Z;
  pc_SizeBytes : Z;
  pc_StripeIndex : Z;
  pc_ShardIndex : Z;
  pc_ShardKind : string
}.

Record MigrationState := mkMigrationState {
  ms_Generation : Z;
  ms_PrimaryBackend : string;
  ms_CloudCopy : string
}.

Record ReplicationPolicy := mkReplicationPolicy {
  rp_SourceCell : string;
  rp_DestCell : string;
  rp_Mode : string;
  rp_RPO : string
}.

Record DedupPolicy := mkDedupPolicy {
  dp_Enabled : bool;
  dp_Scope : string;
  dp_Level : string
}.

Record PlacementPolicy := mkPlacementPolicy {
  pp_Residency : list string;
  pp_AllowedBackends : list string;
  pp_MinFailureDomains : Z;
  pp_HotCache : bool;
  pp_ErasureProfile : string;
  pp_EncryptionMode : string;
  pp_DedupPolicy : option DedupPolicy;
  pp_ReplicationPolicy : option ReplicationPolicy
}.

Record ObjectManifest := mkObjectManifest {
  m_TenantID : string;
  m_Bucket : string;
  m_ObjectKey : string;
  m_ObjectKeyHash : string;
  m_VersionID : string;
  m_ObjectSize : Z;
  m_ChunkSize : Z;
  m_ContentHash : string;
  m_Encryption : EncryptionConfig;
  m_PlacementPolicy : PlacementPolicy;
  m_Pieces : list Piece;
  m_MigrationState : MigrationState;
  m_DeleteMarker : bool;
  m_Tags : gmap string string;
  m_ContentType : string;
  m_ContentEncoding : string;
  m_ContentDisposition : string;
  m_ContentLanguage : string;
  m_CacheControl : string;
  m_Expires : string;
  m_UserMetadata : gmap string string;
  m_RetentionMode : string;
  m_RetainUntil : Z;
  m_LegalHold : bool;
  m_CreatedAt : Z
}.

(** Go zero values: a composite literal that names some fields leaves the
    others at these. *)
Definition zero_EncryptionConfig : EncryptionConfig :=
  mkEncryptionConfig "" "" "" [] "" false "".
Definition zero_MigrationState : MigrationState := mkMigrationState 0 "" "".
Definition zero_PlacementPolicy : PlacementPolicy :=
  mkPlacementPolicy [] [] 0 false "" "" None None.
Definition zero_Piece : Piece := mkPiece "" "" "" "" "" "" 0 0 0 0 "".
Definition zero_ObjectManifest : ObjectManifest :=
  mkObjectManifest "" "" "" "" "" 0 0 "" zero_EncryptionConfig zero_PlacementPolicy []
    zero_MigrationState false ∅ "" "" "" "" "" "" ∅ "" zero_time false zero_time.

(** Field assignments the handlers make on a manifest. *)
Definition set_retention (mode : string) (until : Z) (m : ObjectManifest) : ObjectManifest :=
  mkObjectManifest (m_TenantID m) (m_Bucket m) (m_ObjectKey m) (m_ObjectKeyHash m)
    (m_VersionID m) (m_ObjectSize m) (m_ChunkSize m) (m_ContentHash m) (m_Encryption m)
    (m_PlacementPolicy m) (m_Pieces m) (m_MigrationState m) (m_DeleteMarker m) (m_Tags m)
    (m_ContentType m) (m_ContentEncoding m) (m_ContentDisposition m) (m_ContentLanguage m)
    (m_CacheControl m) (m_Expires m) (m_UserMetadata m) mode until (m_LegalHold m)
    (m_CreatedAt m).

Definition set_legal_hold (b : bool) (m : ObjectManifest) : ObjectManifest :=
  mkObjectManifest (m_TenantID m) (m_Bucket m) (m_ObjectKey m) (m_ObjectKeyHash m)
    (m_VersionID m) (m_ObjectSize m) (m_ChunkSize m) (m_ContentHash m) (m_Encryption m)
    (m_PlacementPolicy m) (m_Pieces m) (m_MigrationState m) (m_DeleteMarker m) (m_Tags m)
    (m_ContentType m) (m_ContentEncoding m) (m_ContentDisposition m) (m_ContentLanguage m)
    (m_CacheControl m) (m_Expires m) (m_UserMetadata m) (m_RetentionMode m)
    (m_RetainUntil m) b (m_CreatedAt m).

(** A delete marker, as the DELETE handler and the lifecycle evaluator build it. *)
Definition delete_marker (tenant bucket key keyHash version : string) (now : Z) : ObjectManifest :=
  mkObjectManifest tenant bucket key keyHash version 0 0 "" zero_EncryptionConfig
    zero_PlacementPolicy [] zero_MigrationState true ∅ "" "" "" "" "" "" ∅ "" zero_time
    false now.

(** [ObjectManifest.Validate]: the reasons it gives, in the order of its checks. *)
Inductive manifest_error :=
| TenantRequired
| BucketRequired
| ObjectKeyHashRequired
| NegativeObjectSize
| ChunkSizeNotPositive
| PieceIDRequired (i : nat)
| PieceBackendRequired (i : nat).

Fixpoint validate_pieces (i : nat) (ps : list Piece) : option manifest_error :=
  match ps with
  | [] => None
  | p :: ps =>
      if bool_decide (pc_PieceID p = "") then Some (PieceIDRequired i)
      else if bool_decide (pc_Backend p = "") then Some (PieceBackendRequired i)
      else validate_pieces (S i) ps
  end.

Definition Validate (m : ObjectManifest) : option manifest_error :=
  if bool_decide (m_TenantID m = "") then Some TenantRequired
  else if bool_decide (m_Bucket m = "") then Some BucketRequired
  else if bool_decide (m_ObjectKeyHash m = "") then Some ObjectKeyHashRequired
  else if m_ObjectSize m <? 0 then Some NegativeObjectSize
  else if (m_ChunkSize m <=? 0) && (0 <? m_ObjectSize m) then Some ChunkSizeNotPositive
  else validate_pieces 0 (m_Pieces m).

Lemma validate_pieces_None i ps :
  validate_pieces i ps = None ↔ Forall (λ p, pc_PieceID p ≠ "" ∧ pc_Backend p ≠ "") ps.
Proof.
  revert i. induction ps as [|p ps IH]; intros i; simpl; [by split; constructor|].
  rewrite Forall_cons, <- (IH (S i)). repeat case_bool_decide; naive_solver.
Qed.

(** The index in a piece error is that of the first piece that is malformed. *)
Lemma validate_pieces_index i ps e :
  validate_pieces i ps = Some e →
  ∃ j p, ps !! j = Some p ∧
    Forall (λ p, pc_PieceID p ≠ "" ∧ pc_Backend p ≠ "") (take j ps) ∧
    ((e = PieceIDRequired (i + j)%nat ∧ pc_PieceID p = "") ∨
     (e = PieceBackendRequired (i + j)%nat ∧ pc_PieceID p ≠ "" ∧ pc_Backend p = "")).
Proof.
  revert i. induction ps as [|p ps IH]; intros i; simpl; [done|].
  repeat case_bool_decide; intros He; simplify_eq.
  - exists 0%nat, p. rewrite Nat.add_0_r. naive_solver.
  - exists 0%nat, p. rewrite Nat.add_0_r. naive_solver.
  - apply IH in He as (j & q & Hq & Hall & He). exists (S j), q.
    rewrite <- Nat.add_succ_comm. simpl. split_and!; [done| |done].
    by constructor.
Qed.
