(* ===== verification/Conditionals.v ===== *)
(** * Conditional reads

    ETags and the conditional headers of GET and HEAD (api/s3compat/handler.go:
    pieceETag, quote, etagListMatch, honorIfRange, applyIfRange,
    evaluateConditionalRead). Parsing an HTTP date is [net/http]'s and a
    parameter. *)

From S2P Require Import Prelude GoStrings Manifest.
Local Open Scope Z_scope.

Definition dquote : ascii := ascii_of_N 34.
Definition dq : string := String dquote "".

Definition quote (s : string) : string :=
  if bool_decide (s = "") then ""
  else if HasPrefix s dq && HasSuffix s dq then s
  else String.app dq (String.app s dq).

Definition pieceETag (p : Piece) : string :=
  if negb (bool_decide (pc_ProviderETag p = "")) then pc_ProviderETag p
  else if HasPrefix (pc_Hash p) "blake3:" then ""
  else pc_Hash p.

(** The request headers a conditional read looks at; [""] when absent. *)
Record CondHeaders := mkCondHeaders {
  ch_IfMatch : string;
  ch_IfUnmodifiedSince : string;
  ch_IfNoneMatch : string;
  ch_IfModifiedSince : string;
  ch_IfRange : string;
  ch_Range : string
}.

Definition etagListMatch (headerValue etag : string) (strong : bool) : bool :=
  if bool_decide (etag = "") then false
  else
    let etagWeak := HasPrefix etag "W/" in
    let want := TrimPrefix etag "W/" in
    existsb (λ tok,
      let tok := TrimSpace tok in
      let tokWeak := HasPrefix tok "W/" in
      if strong && (tokWeak || etagWeak) then false
      else bool_decide (TrimPrefix tok "W/" = want)) (SplitByte "," headerValue).

(** [t.Truncate(time.Second)]; the zero time is a whole second. *)
Definition truncate_second (t : Z) : Z := t - (t - zero_time) `mod` 1000000000.

Section conditionals.
(** [http.ParseTime] *)
Context (ParseTime : string → option Z).

Definition honorIfRange (ifRange etag : string) (lastModified : Z) : bool :=
  let ir := TrimSpace ifRange in
  if bool_decide (ir = "") then false
  else if HasPrefix ir "W/" then false
  else if HasPrefix ir dq then negb (bool_decide (etag = "")) && bool_decide (ir = etag)
  else match ParseTime ir with
       | None => false
       | Some t => negb (After (truncate_second lastModified) t)
       end.

(** The Range header the read paths see. *)
Definition applyIfRange (h : CondHeaders) (etag : string) (lastModified : Z) : string :=
  if bool_decide (ch_Range h = "") || bool_decide (ch_IfRange h = "") then ch_Range h
  else if negb (honorIfRange (ch_IfRange h) etag lastModified) then ""
  else ch_Range h.

Definition modifiedAfter (lastModified : Z) (raw : string) : bool * bool :=
  match ParseTime raw with
  | None => (false, false)
  | Some t => (After (truncate_second lastModified) t, true)
  end.

(** The status a precondition diverts to, if any. *)
Definition evaluateConditionalRead (h : CondHeaders) (etag : string) (lastModified : Z) : option Z :=
  if negb (bool_decide (ch_IfMatch h = "")) &&
     (negb (bool_decide (TrimSpace (ch_IfMatch h) = "*")) && negb (etagListMatch (ch_IfMatch h) etag true))
  then Some 412
  else if bool_decide (ch_IfMatch h = "") && negb (bool_decide (ch_IfUnmodifiedSince h = "")) &&
     (let '(modified, ok) := modifiedAfter lastModified (ch_IfUnmodifiedSince h) in ok && modified)
  then Some 412
  else if negb (bool_decide (ch_IfNoneMatch h = "")) then
    if bool_decide (TrimSpace (ch_IfNoneMatch h) = "*") || etagListMatch (ch_IfNoneMatch h) etag false
    then Some 304 else None
  else if negb (bool_decide (ch_IfModifiedSince h = "")) then
    let '(modified, ok) := modifiedAfter lastModified (ch_IfModifiedSince h) in
    if ok && negb modified then Some 304 else None
  else None.

(** ** Properties *)

(** A quoted tag, as the gateway advertises it. *)
Definition quoted (e : string) : Prop := ∃ body, e = String dquote (String.app body dq).

Lemma trim_front_quote flip s : trim_front flip (String dquote s) = String dquote s.
Proof.
  destruct s as [|b [|c s]]; [by destruct flip| |];
    destruct flip; simpl; unfold space2, space3;
    change (byte_in _ dquote) with false; rewrite ?andb_false_r, ?andb_false_l; done.
Qed.

Lemma string_rev_snoc s c acc : string_rev (String.app s (String c "")) acc = String c (string_rev s acc).
Proof. revert acc. induction s as [|a s IH]; intros acc; simpl; [done|]. apply IH. Qed.

Lemma TrimSpace_quoted e : quoted e → TrimSpace e = e.
Proof.
  intros [body ->]. unfold TrimSpace. rewrite trim_front_quote.
  change (String dquote (String.app body dq)) with (String.app (String dquote body) (String dquote "")).
  rewrite string_rev_snoc, trim_front_quote, <- string_rev_snoc.
  rewrite <- (string_rev_involutive (String.app (String dquote body) (String dquote ""))) at 2. done.
Qed.

Lemma quoted_strong e : quoted e → HasPrefix e "W/" = false ∧ TrimPrefix e "W/" = e ∧ e ≠ "".
Proof. by intros [body ->]. Qed.

Lemma quoted_match strong e :
  quoted e → ContainsByte "," e = false → etagListMatch e e strong = true.
Proof.
  intros Hq Hc. destruct (quoted_strong e Hq) as (Hp & Ht & Hne). unfold etagListMatch.
  rewrite bool_decide_eq_false_2 by done. rewrite (SplitByte_none _ _ Hc). simpl.
  rewrite TrimSpace_quoted, Hp, Ht, andb_false_r, bool_decide_eq_true_2; done.
Qed.

Lemma quoted_no_match strong e e' :
  quoted e → quoted e' → ContainsByte "," e = false → e ≠ e' → etagListMatch e e' strong = false.
Proof.
  intros Hq Hq' Hc Hne. destruct (quoted_strong e Hq) as (Hp & Ht & _).
  destruct (quoted_strong e' Hq') as (Hp' & Ht' & ?). unfold etagListMatch.
  rewrite bool_decide_eq_false_2 by done. rewrite (SplitByte_none _ _ Hc). simpl.
  rewrite TrimSpace_quoted, Hp, Hp', Ht, Ht', andb_false_r, bool_decide_eq_false_2; done.
Qed.

(** A client that revalidates with the tag a read advertised is told Not
    Modified exactly as long as the object has that tag, and one that reads or
    resumes a range on the condition that the tag is unchanged is refused, or
    given the whole object, exactly when it has changed. *)
Theorem revalidation (e e' : string) (range : string) (lastModified : Z) :
  quoted e → quoted e' → ContainsByte "," e = false → range ≠ "" →
  evaluateConditionalRead (mkCondHeaders "" "" e "" "" "") e' lastModified =
    (if bool_decide (e = e') then Some 304 else None) ∧
  evaluateConditionalRead (mkCondHeaders e "" "" "" "" "") e' lastModified =
    (if bool_decide (e = e') then None else Some 412) ∧
  applyIfRange (mkCondHeaders "" "" "" "" e range) e' lastModified =
    (if bool_decide (e = e') then range else "").
Proof.
  intros Hq Hq' Hc Hr. destruct (quoted_strong e Hq) as (Hp & _ & Hne).
  destruct (quoted_strong e' Hq') as (_ & _ & Hne').
  assert (TrimSpace e ≠ "*") as Hs.
  { rewrite TrimSpace_quoted by done. by destruct Hq as [body ->]. }
  assert (HasPrefix e dq = true) as Hd by by destruct Hq as [body ->].
  unfold evaluateConditionalRead, applyIfRange, honorIfRange. simpl.
  rewrite (bool_decide_eq_false_2 (TrimSpace e = "*")) by done.
  rewrite !(bool_decide_eq_false_2 (e = "")), (bool_decide_eq_false_2 (range = "")) by done. simpl.
  rewrite TrimSpace_quoted, Hp, Hd, (bool_decide_eq_false_2 (e = "")), (bool_decide_eq_false_2 (e' = "")) by done.
  simpl. case_bool_decide as Heq.
  - subst e'. by rewrite !quoted_match.
  - by rewrite !quoted_no_match.
Qed.

End conditionals.

Lemma revalidation_witness :
  let tag := String dquote (String.app "v1" dq) in
  evaluateConditionalRead (λ _, None) (mkCondHeaders "" "" tag "" "" "") tag 0 = Some 304.
Proof.
  intros tag.
  apply (revalidation (λ _, None) tag tag "bytes=0-1" 0); [by exists "v1"|by exists "v1"|reflexivity|discriminate].
Defined.
