(* ===== verification/ManifestStore.v ===== *)
(** * The manifest store (metadata/manifest_store)

    Keys and their scan order, the contract a ManifestStore owes its callers
    (module [VersionLog]) and the in-memory implementation (module [Memory]). *)

From S2P Require Import Prelude Manifest.
Local Open Scope Z_scope.

Record ManifestKey := mkManifestKey {
  k_TenantID : string;
  k_Bucket : string;
  k_ObjectKeyHash : string;
  k_VersionID : string
}.

Record latestKey := mkLatestKey {
  lk_TenantID : string;
  lk_Bucket : string;
  lk_ObjectKeyHash : string
}.

#[export] Instance ManifestKey_eq_dec : EqDecision ManifestKey.
Proof. solve_decision. Defined.
#[export] Instance latestKey_eq_dec : EqDecision latestKey.
Proof. solve_decision. Defined.
#[export] Instance ManifestKey_countable : Countable ManifestKey.
Proof.
  refine (inj_countable'
    (λ k, (k_TenantID k, k_Bucket k, k_ObjectKeyHash k, k_VersionID k))
    (λ '(t, b, h, v), mkManifestKey t b h v) _).
  abstract (by intros []).
Defined.
#[export] Instance latestKey_countable : Countable latestKey.
Proof.
  refine (inj_countable'
    (λ k, (lk_TenantID k, lk_Bucket k, lk_ObjectKeyHash k))
    (λ '(t, b, h), mkLatestKey t b h) _).
  abstract (by intros []).
Defined.

(** [latestKey{key.TenantID, key.Bucket, key.ObjectKeyHash}] *)
Definition latest_of (k : ManifestKey) : latestKey :=
  mkLatestKey (k_TenantID k) (k_Bucket k) (k_ObjectKeyHash k).

(** [ErrNotFound] is the sentinel of the package; the others are the ad-hoc
    errors of a malformed list cursor, of a key with a required field left
    empty, of a stored body that does not decode and of a store that cannot be
    reached. *)
Inductive store_error :=
| ErrNotFound
| ErrCursor
| ErrKeyRequired
| ErrBody
| ErrUnavailable.

Record ListResult := mkListResult {
  lr_Manifests : list ObjectManifest;
  lr_NextCursor : string
}.

(** [scanKeyLess]: the lexicographic order on the four key fields. *)
Definition scanKeyLess (a b : ManifestKey) : bool :=
  if bool_decide (k_TenantID a ≠ k_TenantID b) then String.ltb (k_TenantID a) (k_TenantID b)
  else if bool_decide (k_Bucket a ≠ k_Bucket b) then String.ltb (k_Bucket a) (k_Bucket b)
  else if bool_decide (k_ObjectKeyHash a ≠ k_ObjectKeyHash b)
       then String.ltb (k_ObjectKeyHash a) (k_ObjectKeyHash b)
  else String.ltb (k_VersionID a) (k_VersionID b).

#[export] Instance scanKeyLess_strict : StrictLess scanKeyLess.
Proof.
  unfold scanKeyLess. split.
  - intros [????]; simpl. repeat case_bool_decide; try done. apply (less_irrefl (klt:=String.ltb)).
  - intros [a1 a2 a3 a4] [b1 b2 b3 b4] [c1 c2 c3 c4]; simpl.
    repeat case_bool_decide; subst; try done; try (by apply (less_trans (klt:=String.ltb))); intros Hab Hbc;
      pose proof (less_trans (klt:=String.ltb) _ _ _ Hab Hbc) as Hac;
      by rewrite (less_irrefl (klt:=String.ltb)) in Hac.
  - intros [a1 a2 a3 a4] [b1 b2 b3 b4] Hne; simpl.
    repeat case_bool_decide; try done; apply (less_total (klt:=String.ltb)); congruence.
Qed.

(** ** What a manifest store promises

    The abstract state is the log of the stored versions, oldest write first;
    writing a version again moves it to the end, an amendment leaves it where
    it is, and the latest version of a (tenant, bucket, key hash) triple is the
    last one of the log. *)
Module VersionLog.

Abbreviation log := (list (ManifestKey * ObjectManifest)).

Definition put (k : ManifestKey) (m : ObjectManifest) (l : log) : log :=
  filter (λ e, e.1 ≠ k) l ++ [(k, m)].

Definition amend (k : ManifestKey) (m : ObjectManifest) (l : log) : log :=
  (λ e, if bool_decide (e.1 = k) then (k, m) else e) <$> l.

Definition versions (lk : latestKey) (l : log) : log := filter (λ e, latest_of e.1 = lk) l.

Definition newest (lk : latestKey) (l : log) : option ManifestKey := fst <$> last (versions lk l).

Definition find (k : ManifestKey) (l : log) : option ObjectManifest :=
  (list_to_map l : gmap ManifestKey ObjectManifest) !! k.

Definition resolve (key : ManifestKey) (l : log) : option ManifestKey :=
  if bool_decide (k_VersionID key = "") then newest (latest_of key) l else Some key.

Definition get (key : ManifestKey) (l : log) : result store_error ObjectManifest :=
  match k ← resolve key l; find k l with Some m => Ok m | None => Err ErrNotFound end.

Definition update (k : ManifestKey) (m : ObjectManifest) (l : log) : result store_error log :=
  match find k l with Some _ => Ok (amend k m l) | None => Err ErrNotFound end.

Definition remove (key : ManifestKey) (l : log) : result store_error log :=
  match k ← resolve key l; (λ _, k) <$> find k l with
  | Some k => Ok (filter (λ e, e.1 ≠ k) l)
  | None => Err ErrNotFound
  end.

Definition list_versions (lk : latestKey) (l : log) : list ObjectManifest :=
  reverse (versions lk l).*2.

(** The versions a plain listing of a bucket shows. *)
Definition current (t b : string) (l : log) : log :=
  filter (λ e, k_TenantID e.1 = t ∧ k_Bucket e.1 = b ∧ newest (latest_of e.1) l = Some e.1) l.

Lemma newest_put k m lk l :
  newest lk (put k m l) = if bool_decide (latest_of k = lk) then Some k else newest lk l.
Proof.
  unfold newest, versions, put. rewrite filter_app.
  case_bool_decide as Hk.
  - rewrite (filter_cons_True _ (k, m)), filter_nil by done. by rewrite last_snoc.
  - rewrite (filter_cons_False _ (k, m)), filter_nil, app_nil_r by done.
    do 2 f_equal. rewrite list_filter_filter. apply list_filter_iff. naive_solver.
Qed.

Lemma versions_amend k m lk l : versions lk (amend k m l) = amend k m (versions lk l).
Proof.
  unfold versions, amend. induction l as [|e l IH]; [done|].
  rewrite fmap_cons, !filter_cons, IH.
  destruct (decide (e.1 = k)) as [<-|?];
    [rewrite bool_decide_eq_true_2 by done | rewrite bool_decide_eq_false_2 by done]; simpl;
    case_decide; try done; rewrite fmap_cons;
    [rewrite bool_decide_eq_true_2 by done | rewrite bool_decide_eq_false_2 by done]; done.
Qed.

Lemma newest_amend k m lk l : newest lk (amend k m l) = newest lk l.
Proof.
  unfold newest. rewrite versions_amend. unfold amend. rewrite fmap_last.
  destruct (last (versions lk l)) as [e|]; simpl; [|done].
  by case_bool_decide; simplify_eq/=.
Qed.

Lemma newest_Some lk l k : newest lk l = Some k → latest_of k = lk ∧ k ∈ l.*1.
Proof.
  unfold newest. intros ([k' m] & Hl & Hk)%fmap_Some. simplify_eq/=.
  apply last_Some_elem_of in Hl. apply list_elem_of_filter in Hl as [? Hl]. split; [done|].
  by apply (list_elem_of_fmap_2 fst) in Hl.
Qed.

(** *** Requests and what a caller observes of them *)

Inductive op :=
| OPut (k : ManifestKey) (m : ObjectManifest)
| OUpdate (k : ManifestKey) (m : ObjectManifest)
| ODelete (k : ManifestKey)
| OGet (k : ManifestKey)
| OVersions (lk : latestKey).

Inductive obs :=
| RDone
| RError (e : store_error)
| RManifest (m : ObjectManifest)
| RManifests (ms : list ObjectManifest).

(** A write commits its new state or leaves the old one with an error. *)
Definition commit {St} (s : St) (r : result store_error St) : St * obs :=
  match r with Ok s' => (s', RDone) | Err e => (s, RError e) end.

Definition step (o : op) (l : log) : log * obs :=
  match o with
  | OPut k m => (put k m l, RDone)
  | OUpdate k m => commit l (update k m l)
  | ODelete k => commit l (remove k l)
  | OGet k => (l, match get k l with Ok m => RManifest m | Err e => RError e end)
  | OVersions lk => (l, RManifests (list_versions lk l))
  end.

Fixpoint run (ops : list op) (l : log) : list obs :=
  match ops with [] => [] | o :: ops => (step o l).2 :: run ops (step o l).1 end.

End VersionLog.

(** ** The ManifestStore interface

    The operations of the Go interface that the other components call, and the
    law that relates an implementation to the version log: on a request the
    implementation admits in the current state, it answers as the log does and
    stays related to it. *)
Class ManifestStore (St : Type) := {
  ms_Put : ManifestKey → ObjectManifest → St → result store_error St;
  ms_UpdateManifest : ManifestKey → ObjectManifest → St → result store_error St;
  ms_Delete : ManifestKey → St → result store_error St;
  ms_Get : ManifestKey → St → result store_error ObjectManifest;
  ms_ListVersions : latestKey → St → result store_error (list ObjectManifest)
}.

(** Two results agree: both failed with one error, or both succeeded with
    related values. *)
Definition agree {A B} (R : A → B → Prop) (r : result store_error A) (r' : result store_error B)
    : Prop :=
  match r, r' with Ok a, Ok b => R a b | Err e, Err e' => e = e' | _, _ => False end.

Class ManifestStoreLaws (St : Type) `{!ManifestStore St} := {
  ms_rel : St → VersionLog.log → Prop;
  ms_admits : VersionLog.op → St → VersionLog.log → Prop;
  ms_Put_ok k m s l : ms_rel s l → ms_admits (VersionLog.OPut k m) s l →
    agree ms_rel (ms_Put k m s) (Ok (VersionLog.put k m l));
  ms_UpdateManifest_ok k m s l : ms_rel s l → ms_admits (VersionLog.OUpdate k m) s l →
    agree ms_rel (ms_UpdateManifest k m s) (VersionLog.update k m l);
  ms_Delete_ok k s l : ms_rel s l → ms_admits (VersionLog.ODelete k) s l →
    agree ms_rel (ms_Delete k s) (VersionLog.remove k l);
  ms_Get_ok k s l : ms_rel s l → ms_admits (VersionLog.OGet k) s l →
    ms_Get k s = VersionLog.get k l;
  ms_ListVersions_ok lk s l : ms_rel s l → ms_admits (VersionLog.OVersions lk) s l →
    ms_ListVersions lk s = Ok (VersionLog.list_versions lk l)
}.

Section clients.
Context {St : Type} `{!ManifestStore St}.

Definition ms_step (o : VersionLog.op) (s : St) : St * VersionLog.obs :=
  match o with
  | VersionLog.OPut k m => VersionLog.commit s (ms_Put k m s)
  | VersionLog.OUpdate k m => VersionLog.commit s (ms_UpdateManifest k m s)
  | VersionLog.ODelete k => VersionLog.commit s (ms_Delete k s)
  | VersionLog.OGet k =>
      (s, match ms_Get k s with
          | Ok m => VersionLog.RManifest m
          | Err e => VersionLog.RError e
          end)
  | VersionLog.OVersions lk =>
      (s, match ms_ListVersions lk s with
          | Ok ms => VersionLog.RManifests ms
          | Err e => VersionLog.RError e
          end)
  end.

Fixpoint ms_run (ops : list VersionLog.op) (s : St) : list VersionLog.obs :=
  match ops with [] => [] | o :: ops => (ms_step o s).2 :: ms_run ops (ms_step o s).1 end.

(** Every request of the sequence is admitted in the state it meets. *)
Fixpoint ms_admits_all `{!ManifestStoreLaws St} (ops : list VersionLog.op) (s : St)
    (l : VersionLog.log) : Prop :=
  match ops with
  | [] => True
  | o :: ops => ms_admits o s l ∧ ms_admits_all ops (ms_step o s).1 (VersionLog.step o l).1
  end.

Lemma ms_step_ok `{!ManifestStoreLaws St} o s l :
  ms_rel s l → ms_admits o s l →
  ms_rel (ms_step o s).1 (VersionLog.step o l).1 ∧
  (ms_step o s).2 = (VersionLog.step o l).2.
Proof.
  intros Hr Ha. destruct o as [k m|k m|k|k|lk]; simpl.
  - pose proof (ms_Put_ok k m s l Hr Ha) as H. by destruct (ms_Put k m s).
  - pose proof (ms_UpdateManifest_ok k m s l Hr Ha) as H.
    by destruct (ms_UpdateManifest k m s), (VersionLog.update k m l); simplify_eq/=.
  - pose proof (ms_Delete_ok k s l Hr Ha) as H.
    by destruct (ms_Delete k s), (VersionLog.remove k l); simplify_eq/=.
  - by rewrite (ms_Get_ok k s l).
  - by rewrite (ms_ListVersions_ok lk s l).
Qed.

Lemma ms_run_ok `{!ManifestStoreLaws St} ops s l :
  ms_rel s l → ms_admits_all ops s l → ms_run ops s = VersionLog.run ops l.
Proof.
  revert s l. induction ops as [|o ops IH]; intros s l Hr; [done|]. intros [Ha Hall]. simpl.
  destruct (ms_step_ok o s l Hr Ha) as [Hr' ->]. f_equal. by apply IH.
Qed.
End clients.

Module Memory.

Record Store := mkStore {
  byKey : gmap ManifestKey ObjectManifest;
  latest : gmap latestKey ManifestKey;
  order : Z;                       (* uint64 *)
  seq : gmap ManifestKey Z
}.

Definition New : Store := mkStore ∅ ∅ 0 ∅.

(** [cloneManifest] copies every field; on values it is the identity
    ([cloneManifest_id]). *)
Definition cloneManifest (m : ObjectManifest) : ObjectManifest :=
  let pp := m_PlacementPolicy m in
  let enc := m_Encryption m in
  mkObjectManifest (m_TenantID m) (m_Bucket m) (m_ObjectKey m) (m_ObjectKeyHash m)
    (m_VersionID m) (m_ObjectSize m) (m_ChunkSize m) (m_ContentHash m)
    (mkEncryptionConfig (enc_Mode enc) (enc_Algorithm enc) (enc_KeyID enc)
       (enc_WrappedDEK enc) (enc_WrapAlgorithm enc) (enc_ManifestEncrypted enc)
       (enc_AADVersion enc))
    (mkPlacementPolicy (pp_Residency pp) (pp_AllowedBackends pp) (pp_MinFailureDomains pp)
       (pp_HotCache pp) (pp_ErasureProfile pp) (pp_EncryptionMode pp)
       ((λ dp, mkDedupPolicy (dp_Enabled dp) (dp_Scope dp) (dp_Level dp)) <$> pp_DedupPolicy pp)
       ((λ rp, mkReplicationPolicy (rp_SourceCell rp) (rp_DestCell rp) (rp_Mode rp) (rp_RPO rp))
          <$> pp_ReplicationPolicy pp))
    (m_Pieces m) (m_MigrationState m) (m_DeleteMarker m)
    (list_to_map (map_to_list (m_Tags m)))
    (m_ContentType m) (m_ContentEncoding m) (m_ContentDisposition m) (m_ContentLanguage m)
    (m_CacheControl m) (m_Expires m) (m_UserMetadata m) (m_RetentionMode m)
    (m_RetainUntil m) (m_LegalHold m) (m_CreatedAt m).

Definition Put (key : ManifestKey) (m : ObjectManifest) (s : Store) : Store :=
  let ord := wrapu64 (order s + 1) in
  mkStore (<[key := cloneManifest m]> (byKey s)) (<[latest_of key := key]> (latest s))
    ord (<[key := ord]> (seq s)).

Definition UpdateManifest (key : ManifestKey) (m : ObjectManifest) (s : Store)
    : result store_error Store :=
  match byKey s !! key with
  | None => Err ErrNotFound
  | Some _ => Ok (mkStore (<[key := cloneManifest m]> (byKey s)) (latest s) (order s) (seq s))
  end.

(** The common prefix of [Get] and [Delete]: an empty VersionID names the
    version the latest pointer holds. *)
Definition target (key : ManifestKey) (s : Store) : option ManifestKey :=
  if bool_decide (k_VersionID key = "") then latest s !! latest_of key else Some key.

Definition Get (key : ManifestKey) (s : Store) : result store_error ObjectManifest :=
  match target key s with
  | None => Err ErrNotFound
  | Some k =>
      match byKey s !! k with
      | None => Err ErrNotFound
      | Some m => Ok (cloneManifest m)
      end
  end.

Definition Delete (key : ManifestKey) (s : Store) : result store_error Store :=
  let lk := latest_of key in
  match target key s with
  | None => Err ErrNotFound
  | Some k =>
      match byKey s !! k with
      | None => Err ErrNotFound
      | Some _ =>
          Ok (mkStore (delete k (byKey s))
                (if bool_decide (latest s !! lk = Some k) then delete lk (latest s) else latest s)
                (order s) (delete k (seq s)))
      end
  end.

(** One row of [List]: insertion sequence, key, manifest. *)
Abbreviation row := (Z * ManifestKey * ObjectManifest)%type.
Definition row_seq (r : row) : Z := r.1.1.
Definition row_manifest (r : row) : ObjectManifest := r.2.

(** The rows [List] collects from one iteration over the latest pointers. *)
Definition list_row (s : Store) (tenantID bucket : string) (after : Z)
    (p : latestKey * ManifestKey) : option row :=
  let '(lk, mk) := p in
  if bool_decide (lk_TenantID lk ≠ tenantID ∨ lk_Bucket lk ≠ bucket) then None
  else
    let n := default 0 (seq s !! mk) in
    if n <=? after then None
    else match byKey s !! mk with None => None | Some m => Some (n, mk, m) end.

Definition list_rows (s : Store) (tenantID bucket : string) (after : Z) : list row :=
  sort_slice (key_less row_seq Z.ltb)
    (omap (list_row s tenantID bucket after) (map_to_list (latest s))).

Definition List (s : Store) (tenantID bucket cursor : string) (limit : Z)
    : result store_error ListResult :=
  let limit := if limit <=? 0 then 1000 else limit in
  match (if bool_decide (cursor = "") then Some 0 else ParseUint cursor) with
  | None => Err ErrCursor
  | Some after =>
      let rows := list_rows s tenantID bucket after in
      if limit <? Z.of_nat (length rows) then
        let rows := take (Z.to_nat limit) rows in
        Ok (mkListResult (cloneManifest ∘ row_manifest <$> rows)
              (match last rows with Some r => FormatUint (row_seq r) | None => "" end))
      else Ok (mkListResult (cloneManifest ∘ row_manifest <$> rows) "")
  end.

Definition references_piece (pieceID : string) (m : ObjectManifest) : bool :=
  existsb (λ p, bool_decide (pc_PieceID p = pieceID)) (m_Pieces m).

Definition HasManifestWithPieceID (s : Store) (tenantID pieceID : string) : bool :=
  if bool_decide (tenantID = "" ∨ pieceID = "") then false
  else existsb (λ km, bool_decide (k_TenantID km.1 = tenantID) && references_piece pieceID km.2)
         (map_to_list (byKey s)).

Definition version_row (s : Store) (lk : latestKey) (p : ManifestKey * ObjectManifest)
    : option row :=
  if bool_decide (latest_of p.1 = lk) then Some (default 0 (seq s !! p.1), p.1, p.2) else None.

Definition ListVersions (s : Store) (tenantID bucket objectKeyHash : string)
    : list ObjectManifest :=
  cloneManifest ∘ row_manifest <$>
    sort_slice (key_less (λ r, - row_seq r) Z.ltb)
      (omap (version_row s (mkLatestKey tenantID bucket objectKeyHash)) (map_to_list (byKey s))).

(** [ScanManifests], over the cursor codec [EncodeScanCursor] and
    [DecodeScanCursor] ([None] is its error). *)
Definition scan_keys (s : Store) (cursor : string) (after : ManifestKey) : list ManifestKey :=
  sort_slice scanKeyLess
    (filter (λ k, cursor = "" ∨ scanKeyLess after k = true) (map_to_list (byKey s)).*1).

Definition ScanManifests (enc : ManifestKey → string) (dec : string → option ManifestKey)
    (s : Store) (cursor : string) (limit : Z)
    : result store_error (list (ManifestKey * ObjectManifest) * string) :=
  let limit := if limit <=? 0 then 1000 else limit in
  match dec cursor with
  | None => Err ErrCursor
  | Some after =>
      let keys := scan_keys s cursor after in
      let scanned ks := omap (λ k, pair k ∘ cloneManifest <$> byKey s !! k) ks in
      if limit <? Z.of_nat (length keys) then
        let keys' := take (Z.to_nat limit) keys in
        Ok (scanned keys', match last keys' with Some k => enc k | None => "" end)
      else Ok (scanned keys, "")
  end.

(** ** Basic facts *)

Lemma cloneManifest_id m : cloneManifest m = m.
Proof.
  destruct m as [???????? [] [?????? [[]|] [[]|]]]; unfold cloneManifest; simpl;
    by rewrite list_to_map_to_list.
Qed.

(** ** Well-formedness *)

(** Every stored version has a positive insertion number of its own, no larger
    than the counter; a latest pointer names a stored version of its triple,
    the one written last. *)
Record wf (s : Store) : Prop := {
  wf_order : is_uint64 (order s);
  wf_dom k : is_Some (byKey s !! k) ↔ is_Some (seq s !! k);
  wf_range k n : seq s !! k = Some n → 0 < n ≤ order s;
  wf_inj k1 k2 n : seq s !! k1 = Some n → seq s !! k2 = Some n → k1 = k2;
  wf_latest lk k : latest s !! lk = Some k →
    latest_of k = lk ∧ ∃ n, seq s !! k = Some n ∧
    ∀ k' n', latest_of k' = lk → seq s !! k' = Some n' → n' ≤ n
}.

Lemma New_wf : wf New.
Proof.
  split; simpl; intros *; rewrite ?lookup_empty; done.
Qed.

(** The counter has not reached its last value: the next [Put] does not wrap
    it around. *)
Definition has_room (s : Store) : Prop := order s + 1 < 2 ^ 64.

Lemma Put_order k m s : wf s → has_room s → order (Put k m s) = order s + 1.
Proof. intros [[? ?] _ _ _ _] ?. simpl. apply wrapu64_id. split; unfold has_room in *; lia. Qed.

Lemma Put_wf k m s : wf s → has_room s → wf (Put k m s).
Proof.
  intros Hwf Hroom. pose proof (Put_order k m s Hwf Hroom) as Ho. simpl in Ho.
  destruct Hwf as [Hord Hdom Hrange Hinj Hlat]. unfold has_room, is_uint64 in *.
  split; simpl; rewrite ?Ho.
  - unfold is_uint64. lia.
  - intros k'. destruct (decide (k = k')) as [->|?].
    + rewrite !lookup_insert_eq. by split.
    + by rewrite !lookup_insert_ne by done.
  - intros k' n [[-> <-]|[? Hn]]%lookup_insert_Some; [lia|]. apply Hrange in Hn. lia.
  - intros k1 k2 n [[-> <-]|[? H1]]%lookup_insert_Some [[-> ?]|[? H2]]%lookup_insert_Some;
      simplify_eq; try done; [| |by eapply Hinj].
    + apply Hrange in H2. lia.
    + apply Hrange in H1. lia.
  - intros lk k' [[<- <-]|[Hlk Hk']]%lookup_insert_Some.
    + split; [done|]. exists (order s + 1). rewrite lookup_insert_eq. split; [done|].
      intros k' n' _ [[_ <-]|[_ Hn]]%lookup_insert_Some; [lia|]. apply Hrange in Hn. lia.
    + apply Hlat in Hk' as (Hof & n & Hn & Hmax). split; [done|].
      exists n. rewrite lookup_insert_ne by congruence. split; [done|].
      intros k2 n2 Hk2 [[<- <-]|[_ Hn2]]%lookup_insert_Some; [congruence|eauto].
Qed.

Lemma UpdateManifest_wf k m s s' : wf s → UpdateManifest k m s = Ok s' → wf s'.
Proof.
  unfold UpdateManifest. intros [Hord Hdom Hrange Hinj Hlat] Heq. case_match eqn:Hk; simplify_eq.
  split; simpl; try done. intros k'. rewrite <- Hdom.
  destruct (decide (k = k')) as [->|?]; [|by rewrite lookup_insert_ne].
  rewrite lookup_insert_eq, Hk. by split.
Qed.

Lemma target_latest_of k k' s : wf s → target k s = Some k' → latest_of k' = latest_of k.
Proof.
  unfold target. intros Hwf. case_bool_decide; [|naive_solver].
  intros Hk'. by apply (wf_latest _ Hwf) in Hk' as [? _].
Qed.

Lemma Delete_wf k s s' : wf s → Delete k s = Ok s' → wf s'.
Proof.
  intros Hwf. unfold Delete. destruct (target k s) as [k'|] eqn:Ht; [|done].
  destruct (byKey s !! k') eqn:Hk'; [|done]. intros ?; simplify_eq.
  pose proof (target_latest_of _ _ _ Hwf Ht) as Hof.
  destruct Hwf as [Hord Hdom Hrange Hinj Hlat].
  split; simpl; [done| | | |].
  - intros k2. destruct (decide (k' = k2)) as [->|?].
    + rewrite !lookup_delete_eq. split; intros [? [=]].
    + by rewrite !lookup_delete_ne.
  - intros k2 n [_ Hn]%lookup_delete_Some. eauto.
  - intros k1 k2 n [_ H1]%lookup_delete_Some [_ H2]%lookup_delete_Some. eauto.
  - intros lk k2 Hk2.
    assert (latest s !! lk = Some k2 ∧ k2 ≠ k') as [Hl2 Hne].
    { case_bool_decide as Hcur.
      - apply lookup_delete_Some in Hk2 as [Hlk Hk2]. split; [done|]. intros ->.
        apply Hlat in Hk2 as [Hk2 _]. congruence.
      - split; [done|]. intros ->. apply Hcur. rewrite <- Hof.
        by destruct (Hlat _ _ Hk2) as [-> _]. }
    apply Hlat in Hl2 as (? & n & Hn & Hmax). split; [done|]. exists n.
    rewrite lookup_delete_ne by done. split; [done|].
    intros k3 n3 Hk3 [_ Hn3]%lookup_delete_Some. eauto.
Qed.


(** ** The store simulates the version log

    [sim s l]: [l] lists the versions of [s] by insertion number, and every
    latest pointer agrees with the log. *)

Definition seq_of (s : Store) (k : ManifestKey) : Z := default 0 (seq s !! k).

Record sim (s : Store) (l : VersionLog.log) : Prop := {
  sim_wf : wf s;
  sim_perm : l ≡ₚ map_to_list (byKey s);
  sim_sorted : StronglySorted (key_lt (λ e, seq_of s e.1) Z.ltb) l;
  sim_latest lk : latest s !! lk = VersionLog.newest lk l
}.

Lemma sim_New : sim New [].
Proof.
  split; [apply New_wf | simpl; by rewrite map_to_list_empty | constructor |].
  intros lk. simpl. by rewrite lookup_empty.
Qed.

Lemma sim_NoDup s l : sim s l → NoDup l.*1.
Proof. intros Hs. rewrite (sim_perm _ _ Hs). apply NoDup_fst_map_to_list. Qed.

Lemma sim_find s l k : sim s l → VersionLog.find k l = byKey s !! k.
Proof.
  intros Hs. unfold VersionLog.find. f_equal.
  rewrite (list_to_map_proper l (map_to_list (byKey s))) by
    eauto using sim_NoDup, sim_perm.
  apply list_to_map_to_list.
Qed.

Lemma sim_elem s l k m : sim s l → (k, m) ∈ l ↔ byKey s !! k = Some m.
Proof. intros Hs. by rewrite (sim_perm _ _ Hs), elem_of_map_to_list. Qed.

Lemma sim_resolve s l k : sim s l → VersionLog.resolve k l = target k s.
Proof. intros Hs. unfold VersionLog.resolve, target. by rewrite (sim_latest _ _ Hs). Qed.

(** The insertion order of the log only depends on the numbers of its keys. *)
Lemma sorted_by_seq_ext s s' (l : VersionLog.log) :
  (∀ e, e ∈ l → seq_of s' e.1 = seq_of s e.1) →
  StronglySorted (key_lt (λ e, seq_of s e.1) Z.ltb) l →
  StronglySorted (key_lt (λ e, seq_of s' e.1) Z.ltb) l.
Proof.
  intros Hext. induction 1 as [|e l Hl IH Hall]; constructor; [apply IH; set_solver|].
  rewrite Forall_forall in Hall |- *. intros e' He'. specialize (Hall e' He').
  unfold key_lt in *. rewrite !Hext; [done|set_solver..].
Qed.

Lemma sim_Put k m s l : sim s l → has_room s → sim (Put k m s) (VersionLog.put k m l).
Proof.
  intros Hs Hroom. pose proof (sim_wf _ _ Hs) as Hwf.
  pose proof (Put_order k m s Hwf Hroom) as Ho. split; [by apply Put_wf| | |].
  - unfold VersionLog.put. simpl. rewrite cloneManifest_id, (sim_perm _ _ Hs).
    apply map_rows_insert.
  - unfold VersionLog.put. apply StronglySorted_app_2; [| |repeat constructor].
    + intros [k1 m1] x2 [Hne H1]%list_elem_of_filter ->%list_elem_of_singleton.
      apply (sim_elem s l) in H1; [|done]. simpl in *.
      destruct (proj1 (wf_dom _ Hwf k1)) as [n Hn]; [by eexists|].
      unfold key_lt, seq_of. simpl. rewrite lookup_insert_ne, Hn, lookup_insert_eq by done.
      simpl in *. rewrite Ho. apply Z.ltb_lt. apply (wf_range _ Hwf) in Hn. lia.
    + apply (sorted_by_seq_ext s); [|apply StronglySorted_filter, Hs].
      intros e [Hne _]%list_elem_of_filter. unfold seq_of. simpl.
      by rewrite lookup_insert_ne.
  - intros lk. rewrite VersionLog.newest_put. simpl. case_bool_decide as Hk.
    + by rewrite Hk, lookup_insert_eq.
    + rewrite lookup_insert_ne by done. apply Hs.
Qed.

Lemma sim_Update k m s l :
  sim s l → agree sim (UpdateManifest k m s) (VersionLog.update k m l).
Proof.
  intros Hs. unfold agree. unfold VersionLog.update. rewrite (sim_find s) by done.
  destruct (UpdateManifest k m s) as [s'|e] eqn:Hu; unfold UpdateManifest in Hu;
    destruct (byKey s !! k) eqn:Hk; simplify_eq; [|done].
  split.
  - eapply UpdateManifest_wf; [apply Hs|]. unfold UpdateManifest. by rewrite Hk.
  - simpl. unfold VersionLog.amend. rewrite cloneManifest_id, (sim_perm _ _ Hs).
    apply map_rows_update. by eexists.
  - eapply StronglySorted_fmap; [|apply Hs].
    intros [] []. unfold key_lt, seq_of. simpl. by repeat case_bool_decide; subst.
  - intros lk. rewrite VersionLog.newest_amend. apply Hs.
Qed.

Lemma sim_Get k s l : sim s l → Get k s = VersionLog.get k l.
Proof.
  intros Hs. unfold Get, VersionLog.get. rewrite (sim_resolve s) by done.
  destruct (target k s) as [k'|]; simpl; [|done]. rewrite (sim_find s) by done.
  case_match; [by rewrite cloneManifest_id|done].
Qed.

(** A delete is covered by the contract when it does not remove the latest of
    several versions. *)
Definition delete_covered (key : ManifestKey) (l : VersionLog.log) : Prop :=
  ∀ k, VersionLog.resolve key l = Some k →
    VersionLog.newest (latest_of k) l = Some k →
    length (VersionLog.versions (latest_of k) l) = 1%nat.

Lemma newest_remove_other k lk (l : VersionLog.log) :
  latest_of k ≠ lk ∨ VersionLog.newest lk l ≠ Some k →
  VersionLog.newest lk (filter (λ e, e.1 ≠ k) l) = VersionLog.newest lk l.
Proof.
  unfold VersionLog.newest, VersionLog.versions. intros Hor.
  rewrite filter_swap.
  destruct Hor as [Hk|Hnew].
  - f_equal. f_equal. apply filter_all.
    intros e [Hlk _]%list_elem_of_filter. congruence.
  - destruct (last (filter (λ e, latest_of e.1 = lk) l)) as [e|] eqn:Hl; simpl in *.
    + apply last_Some in Hl as [l' Hl]. rewrite Hl, filter_app.
      rewrite (filter_cons_True _ e), filter_nil by congruence. by rewrite last_snoc.
    + apply last_None in Hl. by rewrite Hl.
Qed.

Lemma newest_remove_last k m (l : VersionLog.log) :
  length (VersionLog.versions (latest_of k) l) = 1%nat → (k, m) ∈ l →
  VersionLog.newest (latest_of k) (filter (λ e, e.1 ≠ k) l) = None.
Proof.
  unfold VersionLog.newest, VersionLog.versions. intros Hlen Hin.
  assert ((k, m) ∈ filter (λ e : ManifestKey * ObjectManifest, latest_of e.1 = latest_of k) l)
    as Hv by (by apply list_elem_of_filter).
  rewrite filter_swap.
  destruct (filter (λ e, latest_of e.1 = latest_of k) l) as [|e [|??]]; try done.
  apply list_elem_of_singleton in Hv as <-. by rewrite filter_cons_False by (intros Hne; by apply Hne).
Qed.

Lemma sim_Delete k s l :
  sim s l → delete_covered k l → agree sim (Delete k s) (VersionLog.remove k l).
Proof.
  intros Hs Hcov. unfold agree. unfold VersionLog.remove. unfold delete_covered in Hcov.
  rewrite (sim_resolve s) in * by done.
  destruct (Delete k s) as [s'|e] eqn:Hd; pose proof Hd as Hd'; unfold Delete in Hd;
    destruct (target k s) as [k'|] eqn:Ht; simplify_eq/=; [| |done];
    rewrite (sim_find s) by done; destruct (byKey s !! k') as [m|] eqn:Hk';
    simplify_eq/=; [|done].
  pose proof (target_latest_of _ _ _ (sim_wf _ _ Hs) Ht) as Hof.
  split.
  - eapply Delete_wf; [apply Hs|exact Hd'].
  - simpl. rewrite (sim_perm _ _ Hs). apply map_rows_delete.
  - apply (sorted_by_seq_ext s); [|apply StronglySorted_filter, Hs].
    intros e [Hne _]%list_elem_of_filter. unfold seq_of. simpl. by rewrite lookup_delete_ne.
  - intros lk. clear Hd'. simpl. rewrite <- Hof, (sim_latest _ _ Hs). case_bool_decide as Hcur.
    + destruct (decide (latest_of k' = lk)) as [<-|Hlk].
      * rewrite lookup_delete_eq. symmetry. eapply newest_remove_last; [by eauto|].
        by apply (sim_elem s l).
      * rewrite lookup_delete_ne, (sim_latest _ _ Hs) by done.
        by rewrite newest_remove_other by auto.
    + rewrite (sim_latest _ _ Hs), newest_remove_other; [done|].
      destruct (decide (latest_of k' = lk)) as [<-|]; auto.
Qed.

(** ** Listings *)

Definition row_of (s : Store) (e : ManifestKey * ObjectManifest) : row := (seq_of s e.1, e.1, e.2).

Lemma row_manifest_of s (l : VersionLog.log) :
  cloneManifest ∘ row_manifest <$> (row_of s <$> l) = l.*2.
Proof.
  rewrite <- list_fmap_compose. apply list_fmap_ext. intros i e _. apply cloneManifest_id.
Qed.

Lemma sim_ListVersions t b h s l :
  sim s l → ListVersions s t b h = VersionLog.list_versions (mkLatestKey t b h) l.
Proof.
  intros Hs. unfold ListVersions, VersionLog.list_versions.
  set (lk := mkLatestKey t b h).
  rewrite (sort_slice_eq _ _ _ (row_of s <$> reverse (VersionLog.versions lk l))).
  - by rewrite row_manifest_of, fmap_reverse.
  - rewrite reverse_Permutation. unfold VersionLog.versions. rewrite (sim_perm _ _ Hs).
    apply reflexive_eq, omap_filter_fmap.
  - eapply StronglySorted_fmap; [|apply StronglySorted_reverse, StronglySorted_filter, Hs].
    intros e1 e2. unfold key_lt, row_of, row_seq. simpl. rewrite !Z.ltb_lt. lia.
Qed.

Lemma sim_current_sorted t b s l :
  sim s l → StronglySorted (key_lt row_seq Z.ltb) (row_of s <$> VersionLog.current t b l).
Proof.
  intros Hs. eapply StronglySorted_fmap; [|apply StronglySorted_filter, Hs]. done.
Qed.

(** The rows [List] pages through: the current versions of the bucket, by
    insertion number, from the cursor on. *)
Lemma list_rows_current t b after s l :
  sim s l → 0 ≤ after →
  list_rows s t b after =
    filter (λ r, after < row_seq r) (row_of s <$> VersionLog.current t b l).
Proof.
  intros Hs Hafter. unfold list_rows.
  apply (sort_slice_eq row_seq Z.ltb); [|by apply StronglySorted_filter, sim_current_sorted].
  assert (∀ lk k, latest s !! lk = Some k → lk = latest_of k) as Hof.
  { intros lk k Hk. by apply (wf_latest _ (sim_wf _ _ Hs)) in Hk as [<- _]. }
  apply NoDup_Permutation.
  - apply NoDup_omap; [|apply NoDup_map_to_list].
    intros [lk1 k1] [lk2 k2] r H1%elem_of_map_to_list H2%elem_of_map_to_list Hr1 Hr2.
    apply Hof in H1 as ->. apply Hof in H2 as ->.
    unfold list_row in *. by repeat case_match; simplify_eq.
  - apply NoDup_filter, (NoDup_fmap_1 row_seq), (key_lt_sorted_NoDup row_seq Z.ltb).
    by apply sim_current_sorted.
  - intros [[n k] m]. rewrite list_elem_of_omap, list_elem_of_filter, list_elem_of_fmap.
    unfold VersionLog.current. setoid_rewrite list_elem_of_filter. split.
    + intros ([lk mk] & Hlk%elem_of_map_to_list & Hrow).
      pose proof (Hof _ _ Hlk) as ->. unfold list_row in Hrow.
      repeat case_match; simplify_eq; bool_facts. simpl in *.
      split; [done|]. exists (k, m). rewrite (sim_elem s), <- (sim_latest _ _ Hs) by done.
      split; [done|]. split_and!; [..|done|done]; apply dec_stable; tauto.
    + intros (Hlt & [k' m'] & Heq & (Ht & Hb & Hnew) & Hin). unfold row_of in Heq. simplify_eq/=.
      apply (sim_elem s l) in Hin; [|done].
      exists (latest_of k', k'). rewrite elem_of_map_to_list, (sim_latest _ _ Hs).
      split; [done|]. unfold list_row, row_seq, seq_of in *. simpl in *.
      rewrite bool_decide_eq_false_2 by tauto. rewrite (proj2 (Z.leb_gt _ _)) by done.
      by rewrite Hin.
Qed.

(** The rows of the bucket with an insertion number above [after]. *)
Definition rows_after (s : Store) (t b : string) (l : VersionLog.log) (after : Z) : list row :=
  filter (λ r, after < row_seq r) (row_of s <$> VersionLog.current t b l).

Lemma rows_after_sorted s t b l after :
  sim s l → StronglySorted (key_lt row_seq Z.ltb) (rows_after s t b l after).
Proof. intros. by apply StronglySorted_filter, sim_current_sorted. Qed.

Lemma seq_of_range s l e : sim s l → e ∈ l → 0 < seq_of s e.1 ≤ order s.
Proof.
  destruct e as [k m]. intros Hs Hin%(sim_elem s l); [|done]. pose proof (sim_wf _ _ Hs) as Hwf.
  destruct (proj1 (wf_dom _ Hwf k)) as [n Hn]; [by eexists|].
  unfold seq_of. simpl. rewrite Hn. by apply (wf_range _ Hwf k).
Qed.

Lemma current_row_range s t b l r :
  sim s l → r ∈ row_of s <$> VersionLog.current t b l → 0 < row_seq r < 2 ^ 64.
Proof.
  intros Hs (e & -> & [_ Hin]%list_elem_of_filter)%list_elem_of_fmap.
  pose proof (seq_of_range s l e Hs Hin). pose proof (wf_order _ (sim_wf _ _ Hs)) as [??].
  unfold row_seq, row_of. simpl. lia.
Qed.

Lemma rows_after_uint64 s t b l after r :
  sim s l → r ∈ rows_after s t b l after → is_uint64 (row_seq r) ∧ after < row_seq r.
Proof.
  intros Hs [Hlt Hr]%list_elem_of_filter. split; [|done].
  pose proof (current_row_range s t b l r Hs Hr). unfold is_uint64. lia.
Qed.

Lemma rows_after_0 s t b l :
  sim s l → rows_after s t b l 0 = row_of s <$> VersionLog.current t b l.
Proof. intros Hs. apply filter_all. intros r Hr. by apply (current_row_range s t b l r Hs) in Hr as [? _]. Qed.

(** The row that ends a page determines the rows of the next pages. *)
Lemma rows_after_next s t b l after n r :
  sim s l → rows_after s t b l after !! n = Some r →
  rows_after s t b l (row_seq r) = drop (S n) (rows_after s t b l after).
Proof.
  intros Hs Hr.
  destruct (rows_after_uint64 s t b l after r) as [_ Hlt];
    [done|by eapply list_elem_of_lookup_2|].
  rewrite <- (filter_after_drop row_seq Z.ltb _ n r) by (done || by apply rows_after_sorted).
  unfold rows_after. rewrite list_filter_filter. apply list_filter_iff.
  intros r'. unfold key_lt. rewrite Z.ltb_lt. lia.
Qed.

(** A client that follows the cursors from the first page to the last. *)
Definition list_page (s : Store) (t b : string) (limit : Z) (cursor : string)
    : option (list ObjectManifest * string) :=
  match List s t b cursor limit with
  | Ok r => Some (lr_Manifests r, lr_NextCursor r)
  | Err _ => None
  end.

(** What remains to be listed at a cursor. *)
Definition list_denotes (s : Store) (t b : string) (l : VersionLog.log) (cursor : string)
    (ms : list ObjectManifest) : Prop :=
  ∃ after, 0 ≤ after ∧
    (if bool_decide (cursor = "") then Some 0 else ParseUint cursor) = Some after ∧
    ms = row_manifest <$> rows_after s t b l after.

Lemma list_page_step t b limit s l cursor ms :
  sim s l → list_denotes s t b l cursor ms →
  list_page s t b limit cursor = Some (ms, "") ∨
  ∃ page rest next, list_page s t b limit cursor = Some (page, next) ∧ next ≠ "" ∧ page ≠ [] ∧
    ms = page ++ rest ∧ list_denotes s t b l next rest.
Proof.
  intros Hs (after & Ha & Hc & ->). unfold list_page, List.
  rewrite Hc, (list_rows_current t b after s l) by done.
  fold (rows_after s t b l after). set (R := rows_after s t b l after) in *.
  rewrite !(list_fmap_ext (cloneManifest ∘ row_manifest) row_manifest)
    by (intros; apply cloneManifest_id).
  set (lim := if limit <=? 0 then 1000 else limit).
  assert (0 < lim) as Hlim by (unfold lim; destruct (Z.leb_spec limit 0); lia).
  destruct (Z.ltb_spec lim (Z.of_nat (length R))); [right|by left].
  rewrite last_take_pos by lia.
  destruct (lookup_lt_is_Some_2 R (Nat.pred (Z.to_nat lim))) as [r Hr]; [lia|].
  destruct (rows_after_uint64 s t b l after r) as [Hu Hlt];
    [done|by eapply list_elem_of_lookup_2|].
  rewrite Hr. eexists _, (row_manifest <$> drop (Z.to_nat lim) R), _. split_and!; [done| | | |].
  - apply FormatUint_nonempty.
  - simpl. destruct (Z.to_nat lim) eqn:?, R; simpl in *; try done; lia.
  - simpl. by rewrite <- fmap_app, take_drop.
  - exists (row_seq r). split_and!; [lia| |].
    + rewrite bool_decide_eq_false_2 by apply FormatUint_nonempty. by apply ParseUint_FormatUint.
    + rewrite (rows_after_next s t b l after _ r Hs Hr), Nat.succ_pred by lia. done.
Qed.

(** A listing only shows versions a latest pointer names. *)
Lemma List_elem s t b cursor limit r m :
  List s t b cursor limit = Ok r → m ∈ lr_Manifests r →
  ∃ lk k, latest s !! lk = Some k ∧ byKey s !! k = Some m.
Proof.
  assert (∀ after row, row ∈ list_rows s t b after →
    ∃ lk k, latest s !! lk = Some k ∧ byKey s !! k = Some (row_manifest row)) as Hrow.
  { intros after row. unfold list_rows. rewrite (sort_slice_perm row_seq Z.ltb).
    intros ([lk k] & Hlk%elem_of_map_to_list & Hrow)%list_elem_of_omap.
    exists lk, k. unfold list_row in Hrow. repeat case_match; simplify_eq. done. }
  unfold List. intros Hr Hm. repeat case_match; simplify_eq/=;
    apply list_elem_of_fmap in Hm as (row & -> & Hin); simpl; rewrite cloneManifest_id;
    (eapply Hrow, subseteq_take, Hin || eapply Hrow, Hin).
Qed.

(** ** Scans *)

(** The stored versions in key order: what a complete scan returns. *)
Definition in_key_order (s : Store) : list (ManifestKey * ObjectManifest) :=
  sort_slice (key_less fst scanKeyLess) (map_to_list (byKey s)).

Lemma key_less_id : key_less id scanKeyLess = scanKeyLess.
Proof. done. Qed.

Lemma scan_keys_sorted s cursor after :
  StronglySorted (key_lt id scanKeyLess) (scan_keys s cursor after).
Proof.
  apply (sort_slice_sorted id scanKeyLess). rewrite list_fmap_id.
  apply NoDup_filter, NoDup_fst_map_to_list.
Qed.

Lemma scan_keys_elem s cursor after k :
  k ∈ scan_keys s cursor after ↔
  is_Some (byKey s !! k) ∧ (cursor = "" ∨ scanKeyLess after k = true).
Proof.
  unfold scan_keys. rewrite <- key_less_id, (sort_slice_perm id scanKeyLess).
  rewrite list_elem_of_filter, list_elem_of_fmap. split.
  - intros (? & [k' m] & -> & Hk%elem_of_map_to_list). naive_solver.
  - intros ([m Hm] & ?). split; [done|]. exists (k, m). by rewrite elem_of_map_to_list.
Qed.

(** The key that ends a page determines the keys of the next pages. *)
Lemma scan_keys_next s cursor cursor' after n k :
  cursor' ≠ "" → scan_keys s cursor after !! n = Some k →
  scan_keys s cursor' k = drop (S n) (scan_keys s cursor after).
Proof.
  intros Hc Hk. rewrite <- (filter_after_drop id scanKeyLess _ n k) by
    (done || apply scan_keys_sorted).
  apply (key_lt_sorted_unique id scanKeyLess);
    [apply scan_keys_sorted|apply StronglySorted_filter, scan_keys_sorted|].
  apply NoDup_Permutation.
  - rewrite <- (list_fmap_id (scan_keys _ _ _)).
    apply (key_lt_sorted_NoDup id scanKeyLess), scan_keys_sorted.
  - apply NoDup_filter. rewrite <- (list_fmap_id (scan_keys _ _ _)).
    apply (key_lt_sorted_NoDup id scanKeyLess), scan_keys_sorted.
  - intros k'. rewrite list_elem_of_filter, !scan_keys_elem. unfold key_lt. simpl.
    apply list_elem_of_lookup_2, scan_keys_elem in Hk as [_ Hk].
    pose proof (less_trans (klt:=scanKeyLess) after k k'). naive_solver.
Qed.

Lemma scanned_keys s ks cursor after :
  ks ⊆ scan_keys s cursor after →
  (omap (λ k, pair k ∘ cloneManifest <$> byKey s !! k) ks).*1 = ks.
Proof.
  intros Hks. assert (∀ k, k ∈ ks → is_Some (byKey s !! k)) as Hin
    by (by intros k [? _]%Hks%scan_keys_elem).
  clear Hks. induction ks as [|k ks IH]; [done|]. csimpl.
  destruct (Hin k) as [m Hm]; [set_solver|]. rewrite Hm. csimpl. rewrite IH; [done|set_solver].
Qed.

Lemma scanned_all s after :
  omap (λ k, pair k ∘ cloneManifest <$> byKey s !! k) (scan_keys s "" after) = in_key_order s.
Proof.
  pose proof (scanned_keys s (scan_keys s "" after) "" after ltac:(done)) as Hfst.
  set (xs := omap _ (scan_keys s "" after)) in *.
  assert (StronglySorted (key_lt id scanKeyLess) xs.*1) as Hsort
    by (rewrite Hfst; apply scan_keys_sorted).
  symmetry. apply (sort_slice_eq fst scanKeyLess).
  - apply NoDup_Permutation; [apply NoDup_map_to_list| |].
    + apply (NoDup_fmap_1 fst). rewrite <- (list_fmap_id xs.*1).
      by apply (key_lt_sorted_NoDup id scanKeyLess).
    + intros [k m]. rewrite elem_of_map_to_list. unfold xs.
      rewrite list_elem_of_omap. setoid_rewrite scan_keys_elem. split.
      * intros Hk. exists k. rewrite Hk. simpl. rewrite cloneManifest_id. eauto.
      * intros (k' & _ & (m' & Hm' & [= -> ->])%fmap_Some).
        rewrite Hm'. by rewrite cloneManifest_id.
  - by apply key_lt_sorted_fmap_inv.
Qed.

Section scan.
Context (enc : ManifestKey → string) (dec : string → option ManifestKey).

(** A worker that follows the scan cursors to the end. *)
Definition scan_page (s : Store) (limit : Z) (cursor : string)
    : option (list (ManifestKey * ObjectManifest) * string) :=
  match ScanManifests enc dec s cursor limit with Ok r => Some r | Err _ => None end.

Definition scan_denotes (s : Store) (cursor : string) (es : list (ManifestKey * ObjectManifest))
    : Prop :=
  ∃ after, dec cursor = Some after ∧
    es = omap (λ k, pair k ∘ cloneManifest <$> byKey s !! k) (scan_keys s cursor after).

Context (Hdec : ∀ k, dec (enc k) = Some k) (Henc : ∀ k, enc k ≠ "").

Lemma scan_page_step s limit cursor es :
  scan_denotes s cursor es →
  scan_page s limit cursor = Some (es, "") ∨
  ∃ page rest next, scan_page s limit cursor = Some (page, next) ∧ next ≠ "" ∧ page ≠ [] ∧
    es = page ++ rest ∧ scan_denotes s next rest.
Proof using Hdec Henc.
  intros (after & Hc & ->). unfold scan_page, ScanManifests. rewrite Hc.
  set (R := scan_keys s cursor after) in *.
  set (lim := if limit <=? 0 then 1000 else limit).
  assert (0 < lim) as Hlim by (unfold lim; destruct (Z.leb_spec limit 0); lia).
  destruct (Z.ltb_spec lim (Z.of_nat (length R))); [right|by left].
  rewrite last_take_pos by lia.
  destruct (lookup_lt_is_Some_2 R (Nat.pred (Z.to_nat lim))) as [k Hk]; [lia|].
  pose proof (scan_keys_next s cursor (enc k) after _ k (Henc k) Hk) as Hnext. fold R in Hnext.
  rewrite Nat.succ_pred in Hnext by lia.
  rewrite Hk. eexists _, _, _. split_and!; [done|done| | |exists k; split; [done|reflexivity]].
  - intros Hnil. pose proof (scanned_keys s (take (Z.to_nat lim) R) cursor after) as Hpage.
    rewrite Hnil in Hpage. specialize (Hpage (subseteq_take _ _)).
    destruct (Z.to_nat lim) eqn:?, R; simpl in *; try done; lia.
  - rewrite Hnext, <- omap_app. by rewrite take_drop.
Qed.
End scan.

(** ** The memory store implements the interface *)

#[export] Instance store : ManifestStore Store := {
  ms_Put k m s := Ok (Put k m s);
  ms_UpdateManifest := UpdateManifest;
  ms_Delete := Delete;
  ms_Get := Get;
  ms_ListVersions lk s := Ok (ListVersions s (lk_TenantID lk) (lk_Bucket lk) (lk_ObjectKeyHash lk))
}.

(** The requests the contract covers: a [Put] while the counter has room, a
    [Delete] that does not remove the latest of several versions. *)
Definition admits (o : VersionLog.op) (s : Store) (l : VersionLog.log) : Prop :=
  match o with
  | VersionLog.OPut _ _ => has_room s
  | VersionLog.ODelete k => delete_covered k l
  | _ => True
  end.

#[export] Instance store_laws : ManifestStoreLaws Store.
Proof.
  refine {| ms_rel := sim; ms_admits := admits |}; simpl; intros.
  - by apply sim_Put.
  - by apply sim_Update.
  - by apply sim_Delete.
  - by apply sim_Get.
  - f_equal. destruct lk. by apply sim_ListVersions.
Defined.

(** The deletes of a sequence are covered by the contract. *)
Fixpoint deletes_covered (ops : list VersionLog.op) (l : VersionLog.log) : Prop :=
  match ops with
  | [] => True
  | o :: ops =>
      match o with VersionLog.ODelete k => delete_covered k l | _ => True end ∧
      deletes_covered ops (VersionLog.step o l).1
  end.

Lemma step_order o s : wf s → has_room s → order s ≤ order (ms_step o s).1 ≤ order s + 1.
Proof.
  intros Hwf Hroom. destruct o as [k m|k m|k|k|lk]; simpl; try lia.
  - pose proof (Put_order k m s Hwf Hroom) as Ho. simpl in Ho. lia.
  - unfold UpdateManifest. case_match; simpl; lia.
  - unfold Delete. repeat case_match; simpl; lia.
Qed.

Lemma covered_admits_all ops s l :
  sim s l → order s + Z.of_nat (length ops) < 2 ^ 64 → deletes_covered ops l →
  ms_admits_all ops s l.
Proof.
  revert s l. induction ops as [|o ops IH]; intros s l Hs Ho; [done|].
  intros [Hc Hcs]. rewrite length_cons in Ho.
  assert (has_room s) as Hroom by (unfold has_room; lia).
  assert (admits o s l) as Ha by (by destruct o).
  split; [exact Ha|]. pose proof (ms_step_ok o s l) as Hstep.
  destruct (Hstep Hs Ha) as [Hs' _].
  pose proof (step_order o s (sim_wf _ _ Hs) Hroom).
  apply IH; [exact Hs'|lia|done].
Qed.

(** ** Properties *)

(** C7: The in-memory manifest store implements the version log. On any
    sequence of Put, UpdateManifest, Delete, Get and ListVersions requests
    that starts from the empty store, is shorter than the 64-bit insertion
    counter and never deletes the latest of several versions, every answer,
    errors included, is the one the log gives. *)
Theorem memory_refines_log ops :
  Z.of_nat (length ops) < 2 ^ 64 → deletes_covered ops [] →
  ms_run ops New = VersionLog.run ops [].
Proof.
  intros Hlen Hcov. assert (ms_rel New []) as Hrel by apply sim_New.
  apply ms_run_ok; [done|]. by apply covered_admits_all; [apply sim_New| |].
Qed.

Definition ex_key (h v : string) : ManifestKey := mkManifestKey "t1" "photos" h v.
Definition ex_manifest (h v : string) : ObjectManifest :=
  delete_marker "t1" "photos" h h v 0.

Lemma memory_refines_log_witness :
  let ops := [VersionLog.OPut (ex_key "a" "v1") (ex_manifest "a" "v1");
              VersionLog.OPut (ex_key "a" "v2") (ex_manifest "a" "v2");
              VersionLog.OUpdate (ex_key "a" "v1") (set_legal_hold true (ex_manifest "a" "v1"));
              VersionLog.OGet (ex_key "a" "");
              VersionLog.ODelete (ex_key "a" "v1");
              VersionLog.OGet (ex_key "a" "v1");
              VersionLog.OVersions (mkLatestKey "t1" "photos" "a")] in
  ms_run ops New = VersionLog.run ops [].
Proof.
  apply memory_refines_log; [done|].
  repeat split. intros k Hk. vm_compute in Hk. simplify_eq. intros Hn.
  vm_compute in Hn. simplify_eq.
Defined.

(** A client that follows the List cursors from the first page, whatever page
    size it asks for, receives the latest version of every object of the bucket
    exactly once, oldest write first, after at most one request more than there
    are objects. *)
Lemma list_visits_current t b limit s l :
  sim s l →
  follow (list_page s t b limit) (S (length (VersionLog.current t b l))) "" =
    Some (VersionLog.current t b l).*2.
Proof.
  intros Hs. apply (follow_all _ (list_denotes s t b l)).
  - intros c ms. by apply list_page_step.
  - exists 0. split_and!; [done|done|]. rewrite (rows_after_0 s) by done.
    rewrite <- (row_manifest_of s). apply list_fmap_ext. intros. apply cloneManifest_id.
  - rewrite length_fmap. lia.
Qed.


(** A cursor codec for the witness: the key's number in binary. *)
Fixpoint ex_bits (p : positive) : string :=
  match p with
  | xH => "1"
  | xO p => String "0"%char (ex_bits p)
  | xI p => String "2"%char (ex_bits p)
  end.
Fixpoint ex_unbits (s : string) : positive :=
  match s with
  | String "0"%char s => xO (ex_unbits s)
  | String "2"%char s => xI (ex_unbits s)
  | _ => xH
  end.
Definition ex_enc (k : ManifestKey) : string := ex_bits (encode k).
Definition ex_dec (s : string) : option ManifestKey :=
  if bool_decide (s = "") then Some (mkManifestKey "" "" "" "") else decode (ex_unbits s).

Lemma ex_codec k : ex_dec (ex_enc k) = Some k ∧ ex_enc k ≠ "".
Proof.
  assert (∀ p, ex_unbits (ex_bits p) = p) as Hbits
    by (intros p; induction p; simpl; congruence).
  assert (ex_enc k ≠ "") as Hne by (unfold ex_enc; by destruct (encode k)).
  split; [|done]. unfold ex_dec. rewrite bool_decide_eq_false_2 by done.
  unfold ex_enc. by rewrite Hbits, decode_encode.
Qed.


(** Deleting the version the latest pointer holds leaves the object without
    a latest version: an unversioned Get answers not-found and the plain
    listing omits the object, although the older versions are still stored and
    readable by version. *)
Theorem delete_latest_hides_older k s s' :
  wf s → latest s !! latest_of k = Some k → k_VersionID k ≠ "" → Delete k s = Ok s' →
  Get (mkManifestKey (k_TenantID k) (k_Bucket k) (k_ObjectKeyHash k) "") s' = Err ErrNotFound ∧
  (∀ cursor limit r m, List s' (k_TenantID k) (k_Bucket k) cursor limit = Ok r →
     m ∈ lr_Manifests r → ∃ k', latest_of k' ≠ latest_of k ∧ byKey s' !! k' = Some m) ∧
  (∀ k', k' ≠ k → k_VersionID k' ≠ "" → Get k' s' = Get k' s).
Proof.
  intros Hwf Hlat Hv Hd. pose proof (Delete_wf _ _ _ Hwf Hd) as Hwf'.
  unfold Delete, target in Hd. rewrite bool_decide_eq_false_2 in Hd by done.
  destruct (byKey s !! k) eqn:Hk; [|done]. rewrite bool_decide_eq_true_2 in Hd by done.
  injection Hd as Hd.
  assert (latest s' !! latest_of k = None) as Hnone by (subst; apply lookup_delete_eq).
  split_and!.
  - unfold Get, target. simpl. change (mkLatestKey _ _ _) with (latest_of k).
    unfold latest_of at 1. simpl. fold (latest_of k). by rewrite Hnone.
  - intros cursor limit r m Hr Hm. destruct (List_elem _ _ _ _ _ _ _ Hr Hm) as (lk & k' & Hlk & Hm').
    exists k'. destruct (wf_latest _ Hwf' _ _ Hlk) as [<- _]. split; congruence.
  - intros k' Hne Hv'. unfold Get, target. rewrite !bool_decide_eq_false_2 by done.
    subst. simpl. by rewrite lookup_delete_ne.
Qed.

Lemma delete_latest_hides_older_witness :
  let s := Put (ex_key "a" "v2") (ex_manifest "a" "v2")
             (Put (ex_key "a" "v1") (ex_manifest "a" "v1") New) in
  match Delete (ex_key "a" "v2") s with
  | Ok s' => Get (ex_key "a" "") s' = Err ErrNotFound ∧
             Get (ex_key "a" "v1") s' = Ok (ex_manifest "a" "v1")
  | Err _ => False
  end.
Proof.
  intros s. destruct (Delete (ex_key "a" "v2") s) as [s'|e] eqn:Hd; [|by vm_compute in Hd].
  destruct (delete_latest_hides_older (ex_key "a" "v2") s s') as (H1 & _ & H3);
    [by repeat apply Put_wf; try apply New_wf|done|done|done|].
  split; [exact H1|]. by rewrite H3.
Defined.

(** HasManifestWithPieceID answers true exactly when some stored version of
    the tenant references the piece. *)
Lemma has_manifest_with_piece_iff s t p :
  t ≠ "" → p ≠ "" →
  HasManifestWithPieceID s t p = true ↔
  ∃ k m pc, byKey s !! k = Some m ∧ k_TenantID k = t ∧ pc ∈ m_Pieces m ∧ pc_PieceID pc = p.
Proof.
  intros Ht Hp. unfold HasManifestWithPieceID, references_piece.
  rewrite bool_decide_eq_false_2 by tauto. rewrite existsb_exists. split.
  - intros ([k m] & Hk%list_elem_of_In%elem_of_map_to_list & [Hkt Hpc]%andb_true_iff).
    apply existsb_exists in Hpc as (pc & Hpc%list_elem_of_In & Heq). bool_facts. naive_solver.
  - intros (k & m & pc & Hk & Hkt & Hpc & Heq). exists (k, m).
    rewrite <- list_elem_of_In, elem_of_map_to_list. split; [done|]. apply andb_true_iff.
    rewrite bool_decide_eq_true, existsb_exists. split; [done|].
    exists pc. by rewrite <- list_elem_of_In, bool_decide_eq_true.
Qed.

End Memory.
