(* ===== verification/SqliteManifests.v ===== *)
(** * The SQLite manifest store (metadata/manifest_store/sqlite)

    The table is a finite map from the primary key to the row's body and
    write_seq; each operation is the SQL statement it executes. The body codec
    (JSON, sealed by the BodyEncryptor when one is configured) is a parameter
    with its round trip as hypothesis. *)

From S2P Require Import Prelude Manifest ManifestStore.
Local Open Scope Z_scope.

(** [BodyContext]: what a sealed body is bound to. *)
Record BodyContext := mkBodyContext {
  bc_TenantID : string;
  bc_Bucket : string;
  bc_ObjectKeyHash : string
}.

Definition body_context (k : ManifestKey) : BodyContext :=
  mkBodyContext (k_TenantID k) (k_Bucket k) (k_ObjectKeyHash k).

(** Marshal and encrypt; decrypt and unmarshal. *)
Class BodyCodec (Body : Type) := {
  seal : BodyContext → ObjectManifest → option Body;
  decodeBody : BodyContext → Body → option ObjectManifest;
  decodeBody_seal c m b : seal c m = Some b → decodeBody c b = Some m
}.

Module Sqlite.
Section store.
Context {Body : Type} `{!BodyCodec Body}.

Record Row := mkRow {
  r_body : Body;
  r_write_seq : Z
}.

Abbreviation table := (gmap ManifestKey Row).
Abbreviation keyed_row := (ManifestKey * Row)%type.

Definition row_write_seq (kr : keyed_row) : Z := r_write_seq kr.2.

(** [validateKey] *)
Definition validateKey (key : ManifestKey) : bool :=
  negb (bool_decide (k_TenantID key = "")) && negb (bool_decide (k_Bucket key = "")) &&
  negb (bool_decide (k_ObjectKeyHash key = "")) && negb (bool_decide (k_VersionID key = "")).

(** The guard of the reads and of [Delete]: every field but the version. *)
Definition triple_required (tenantID bucket objectKeyHash : string) : bool :=
  bool_decide (tenantID = "") || bool_decide (bucket = "") || bool_decide (objectKeyHash = "").

(** [SELECT COALESCE(MAX(write_seq), 0) + 1 FROM manifests] *)
Definition max_write_seq (rs : list keyed_row) : option Z :=
  match row_write_seq <$> rs with [] => None | n :: ns => Some (foldr Z.max n ns) end.

Definition next_write_seq (tbl : table) : Z := default 0 (max_write_seq (map_to_list tbl)) + 1.

(** [ORDER BY write_seq] ascending and descending. *)
Definition order_by_seq (rs : list keyed_row) : list keyed_row :=
  sort_slice (key_less row_write_seq Z.ltb) rs.
Definition order_by_seq_desc (rs : list keyed_row) : list keyed_row :=
  sort_slice (key_less (λ r, - row_write_seq r) Z.ltb) rs.

(** [LIMIT n]: a negative limit is no limit. *)
Definition sql_limit {A} (n : Z) (rs : list A) : list A :=
  if n <? 0 then rs else take (Z.to_nat n) rs.

Definition where_triple (tbl : table) (lk : latestKey) : list keyed_row :=
  filter (λ kr, latest_of kr.1 = lk) (map_to_list tbl).

Definition New : table := ∅.

Definition Put (key : ManifestKey) (m : ObjectManifest) (tbl : table) : result store_error table :=
  if validateKey key then
    match seal (body_context key) m with
    | None => Err ErrBody
    | Some body => Ok (<[key := mkRow body (next_write_seq tbl)]> tbl)
    end
  else Err ErrKeyRequired.

Definition UpdateManifest (key : ManifestKey) (m : ObjectManifest) (tbl : table)
    : result store_error table :=
  if validateKey key then
    match seal (body_context key) m with
    | None => Err ErrBody
    | Some body =>
        match tbl !! key with
        | None => Err ErrNotFound
        | Some r => Ok (<[key := mkRow body (r_write_seq r)]> tbl)
        end
    end
  else Err ErrKeyRequired.

Definition decode_row (kr : keyed_row) : result store_error ObjectManifest :=
  match decodeBody (body_context kr.1) (r_body kr.2) with
  | Some m => Ok m
  | None => Err ErrBody
  end.

(** [ORDER BY write_seq DESC LIMIT 1] over the rows of a triple. *)
Definition select_latest (tbl : table) (lk : latestKey) : option keyed_row :=
  head (sql_limit 1 (order_by_seq_desc (where_triple tbl lk))).

Definition select_exact (tbl : table) (key : ManifestKey) : option keyed_row :=
  pair key <$> tbl !! key.

Definition select_key (tbl : table) (key : ManifestKey) : option keyed_row :=
  if bool_decide (k_VersionID key = "") then select_latest tbl (latest_of key)
  else select_exact tbl key.

Definition Get (key : ManifestKey) (tbl : table) : result store_error ObjectManifest :=
  if triple_required (k_TenantID key) (k_Bucket key) (k_ObjectKeyHash key)
  then Err ErrKeyRequired
  else match select_key tbl key with
       | None => Err ErrNotFound
       | Some kr => decode_row kr
       end.

Definition Delete (key : ManifestKey) (tbl : table) : result store_error table :=
  if triple_required (k_TenantID key) (k_Bucket key) (k_ObjectKeyHash key)
  then Err ErrKeyRequired
  else match select_key tbl key with
       | None => Err ErrNotFound
       | Some kr => Ok (delete kr.1 tbl)
       end.

(** The row loop shared by the reads that decode every row. *)
Fixpoint decode_rows (rs : list keyed_row) : result store_error (list ObjectManifest) :=
  match rs with
  | [] => Ok []
  | kr :: rs =>
      match decode_row kr with
      | Err e => Err e
      | Ok m => match decode_rows rs with Err e => Err e | Ok ms => Ok (m :: ms) end
      end
  end.

Definition ListVersions (lk : latestKey) (tbl : table) : result store_error (list ObjectManifest) :=
  if triple_required (lk_TenantID lk) (lk_Bucket lk) (lk_ObjectKeyHash lk)
  then Err ErrKeyRequired
  else decode_rows (order_by_seq_desc (where_triple tbl lk)).

(** The query of [List]: the rows that carry the highest write_seq of their
    triple. *)
Definition is_latest_row (tbl : table) (kr : keyed_row) : Prop :=
  max_write_seq (where_triple tbl (latest_of kr.1)) = Some (row_write_seq kr).
#[global] Instance is_latest_row_dec tbl kr : Decision (is_latest_row tbl kr).
Proof. unfold is_latest_row. apply _. Defined.

Definition list_query (tbl : table) (tenantID bucket : string) (after : Z) : list keyed_row :=
  order_by_seq (filter (λ kr, k_TenantID kr.1 = tenantID ∧ k_Bucket kr.1 = bucket ∧
                              is_latest_row tbl kr ∧ after < row_write_seq kr)
                       (map_to_list tbl)).

(** The loop of [List]: [count] rows seen so far, [lastSeq] of the last one. *)
Fixpoint list_loop (limit count lastSeq : Z) (rs : list keyed_row) (acc : list ObjectManifest)
    : result store_error ListResult :=
  match rs with
  | [] => Ok (mkListResult acc "")
  | kr :: rs =>
      let count := count + 1 in
      if limit <? count then Ok (mkListResult acc (FormatInt lastSeq))
      else match decode_row kr with
           | Err e => Err e
           | Ok m => list_loop limit count (row_write_seq kr) rs (acc ++ [m])
           end
  end.

Definition List (tbl : table) (tenantID bucket cursor : string) (limit : Z)
    : result store_error ListResult :=
  if bool_decide (tenantID = "") || bool_decide (bucket = "") then Err ErrKeyRequired
  else
    let limit := if limit <=? 0 then 1000 else limit in
    match (if bool_decide (cursor = "") then Some 0 else ParseInt cursor) with
    | None => Err ErrCursor
    | Some after =>
        list_loop limit 0 0
          (sql_limit (wrap64 (limit + 1)) (list_query tbl tenantID bucket after)) []
    end.

(** [HasManifestWithPieceID]: the rows of the tenant in the order the database
    returns them, which the statement leaves open. *)
Fixpoint has_piece_loop (pieceID : string) (rs : list keyed_row) : result store_error bool :=
  match rs with
  | [] => Ok false
  | kr :: rs =>
      match decode_row kr with
      | Err e => Err e
      | Ok m => if Memory.references_piece pieceID m then Ok true else has_piece_loop pieceID rs
      end
  end.

Definition HasManifestWithPieceID (rows : list keyed_row) (tenantID pieceID : string)
    : result store_error bool :=
  if bool_decide (tenantID = "") || bool_decide (pieceID = "") then Err ErrKeyRequired
  else has_piece_loop pieceID (filter (λ kr, k_TenantID kr.1 = tenantID) rows).

(** ** The table simulates the version log *)

(** The rows by write_seq: the order every query of the store sorts by. *)
Definition rows (tbl : table) : list keyed_row := order_by_seq (map_to_list tbl).

Definition decodes (kr : keyed_row) (e : ManifestKey * ObjectManifest) : Prop :=
  kr.1 = e.1 ∧ decodeBody (body_context kr.1) (r_body kr.2) = Some e.2.

(** [sim tbl l]: write_seq numbers are positive and pairwise distinct, and the
    rows in their order decode to the log. *)
Record sim (tbl : table) (l : VersionLog.log) : Prop := {
  sim_sorted : StronglySorted (key_lt row_write_seq Z.ltb) (rows tbl);
  sim_pos kr : kr ∈ rows tbl → 0 < row_write_seq kr;
  sim_decodes : Forall2 decodes (rows tbl) l
}.

Lemma rows_perm tbl : rows tbl ≡ₚ map_to_list tbl.
Proof. apply (sort_slice_perm row_write_seq Z.ltb). Qed.

Lemma rows_elem tbl k r : (k, r) ∈ rows tbl ↔ tbl !! k = Some r.
Proof. by rewrite rows_perm, elem_of_map_to_list. Qed.

Lemma rows_NoDup tbl : NoDup (rows tbl).*1.
Proof. rewrite rows_perm. apply NoDup_fst_map_to_list. Qed.

(** To relate a new table to a new log it is enough to give its rows in order. *)
Lemma sim_intro tbl l R :
  R ≡ₚ map_to_list tbl → StronglySorted (key_lt row_write_seq Z.ltb) R →
  (∀ kr, kr ∈ R → 0 < row_write_seq kr) → Forall2 decodes R l → sim tbl l.
Proof.
  intros Hp Hs Hpos Hd.
  assert (rows tbl = R) as HR by (by apply (sort_slice_eq row_write_seq Z.ltb)).
  by split; rewrite ?HR.
Qed.

Lemma sql_New : sim New [].
Proof. by apply (sim_intro _ _ []); [unfold New; rewrite map_to_list_empty|constructor|set_solver|constructor]. Qed.

Lemma foldr_max_ge n ns : ∀ x, x ∈ n :: ns → x ≤ foldr Z.max n ns.
Proof.
  induction ns as [|y ns IH]; intros x; simpl; [intros ->%list_elem_of_singleton; lia|].
  rewrite !elem_of_cons. intros [->|[->|Hx]]; [| lia|].
  - specialize (IH n ltac:(set_solver)). lia.
  - specialize (IH x ltac:(set_solver)). lia.
Qed.

Lemma foldr_max_elem n ns : foldr Z.max n ns ∈ n :: ns.
Proof.
  induction ns as [|y ns IH]; simpl; [set_solver|].
  destruct (Z.max_spec y (foldr Z.max n ns)) as [[_ ->]|[_ ->]]; set_solver.
Qed.

(** [MAX] is attained by a row and bounds every row. *)
Lemma max_write_seq_Some rs n :
  max_write_seq rs = Some n → (∃ kr, kr ∈ rs ∧ row_write_seq kr = n) ∧
  ∀ kr, kr ∈ rs → row_write_seq kr ≤ n.
Proof.
  unfold max_write_seq. destruct (row_write_seq <$> rs) as [|x ns] eqn:Hrs; [done|].
  intros [= <-]. pose proof (foldr_max_elem x ns) as Hel. rewrite <- Hrs in Hel. split.
  - apply list_elem_of_fmap in Hel as (kr & ? & ?). eauto.
  - intros kr Hkr. apply foldr_max_ge. rewrite <- Hrs. by apply list_elem_of_fmap_2.
Qed.

Lemma max_write_seq_nonempty kr rs : kr ∈ rs → is_Some (max_write_seq rs).
Proof. destruct rs; [set_solver|]. unfold max_write_seq. by eexists. Qed.

Lemma next_write_seq_gt tbl kr :
  kr ∈ map_to_list tbl → row_write_seq kr < next_write_seq tbl.
Proof.
  intros Hkr. unfold next_write_seq. destruct (max_write_seq_nonempty _ _ Hkr) as [n Hn].
  rewrite Hn. simpl. apply max_write_seq_Some in Hn as [_ Hmax]. apply Hmax in Hkr. lia.
Qed.

Lemma next_write_seq_pos tbl l : sim tbl l → 0 < next_write_seq tbl.
Proof.
  intros Hs. unfold next_write_seq. destruct (max_write_seq _) as [n|] eqn:Hn; simpl; [|lia].
  apply max_write_seq_Some in Hn as [(kr & Hkr & <-) _]. rewrite <- rows_perm in Hkr.
  apply (sim_pos _ _ Hs) in Hkr. lia.
Qed.

Lemma validateKey_true k :
  validateKey k = true ↔
  k_TenantID k ≠ "" ∧ k_Bucket k ≠ "" ∧ k_ObjectKeyHash k ≠ "" ∧ k_VersionID k ≠ "".
Proof. unfold validateKey. rewrite !andb_true_iff, !negb_true_iff, !bool_decide_eq_false. tauto. Qed.

Lemma sql_Put k m tbl l body :
  sim tbl l → validateKey k = true → seal (body_context k) m = Some body →
  agree sim (Put k m tbl) (Ok (VersionLog.put k m l)).
Proof.
  intros Hs Hk Hbody. unfold Put. rewrite Hk, Hbody. simpl.
  set (r := mkRow body (next_write_seq tbl)).
  apply (sim_intro _ _ (filter (λ e, e.1 ≠ k) (rows tbl) ++ [(k, r)])).
  - rewrite rows_perm. apply map_rows_insert.
  - apply StronglySorted_app_2; [|apply StronglySorted_filter, Hs|repeat constructor].
    intros kr kr' [_ Hkr]%list_elem_of_filter ->%list_elem_of_singleton.
    unfold key_lt. apply Z.ltb_lt, next_write_seq_gt. by rewrite <- rows_perm.
  - intros kr [[_ Hkr]%list_elem_of_filter| ->%list_elem_of_singleton]%elem_of_app.
    + by apply (sim_pos _ _ Hs).
    + by eapply next_write_seq_pos.
  - apply Forall2_app.
    + apply Forall2_filter; [apply Hs|]. intros ? ? [-> _]. done.
    + repeat constructor. simpl. by apply decodeBody_seal.
Qed.

Lemma sql_find tbl l k :
  sim tbl l →
  VersionLog.find k l = tbl !! k ≫= λ r, decodeBody (body_context k) (r_body r).
Proof.
  intros Hs. assert (l.*1 = (rows tbl).*1) as Hfst.
  { symmetry. apply list_eq_Forall2, Forall2_fmap. eapply Forall2_impl; [apply Hs|]. by intros ? ? []. }
  assert (NoDup l.*1) as Hnd by (rewrite Hfst; apply rows_NoDup).
  pose proof (sim_decodes _ _ Hs) as Hd.
  destruct (tbl !! k) as [r|] eqn:Hk; simpl.
  - apply rows_elem, list_elem_of_lookup in Hk as [i Hi].
    destruct (Forall2_lookup_l _ _ _ _ _ Hd Hi) as ([k' m] & Hm & Heq & Hdec). simplify_eq/=.
    rewrite Hdec. apply elem_of_list_to_map_1; [done|]. by eapply list_elem_of_lookup_2.
  - apply not_elem_of_list_to_map_1. rewrite Hfst.
    intros ([k' r] & Heq & Hr%rows_elem)%list_elem_of_fmap. simplify_eq/=.
Qed.

Lemma sim_decode_is_Some tbl l k r :
  sim tbl l → tbl !! k = Some r → is_Some (decodeBody (body_context k) (r_body r)).
Proof.
  intros Hs Hk%rows_elem. apply list_elem_of_lookup in Hk as [i Hi].
  destruct (Forall2_lookup_l _ _ _ _ _ (sim_decodes _ _ Hs) Hi) as (e & _ & _ & Hdec). by eexists.
Qed.

Lemma sql_Update k m tbl l body :
  sim tbl l → validateKey k = true → seal (body_context k) m = Some body →
  agree sim (UpdateManifest k m tbl) (VersionLog.update k m l).
Proof.
  intros Hs Hk Hbody. unfold UpdateManifest, VersionLog.update.
  rewrite Hk, Hbody, (sql_find tbl) by done.
  destruct (tbl !! k) as [r|] eqn:Hr; [|done]. simpl.
  destruct (sim_decode_is_Some _ _ _ _ Hs Hr) as [m0 ->].
  set (f := λ e : keyed_row, if bool_decide (e.1 = k) then (k, mkRow body (r_write_seq r)) else e).
  assert (∀ kr, kr ∈ rows tbl → row_write_seq (f kr) = row_write_seq kr) as Hseq.
  { intros [k' r'] Hin%rows_elem. unfold f. simpl. case_bool_decide; simplify_eq/=; done. }
  apply (sim_intro _ _ (f <$> rows tbl)).
  - rewrite rows_perm. apply map_rows_update. by eexists.
  - eapply StronglySorted_fmap_elem; [|apply Hs].
    intros x y Hx Hy. unfold key_lt. by rewrite !Hseq.
  - intros ? (kr & -> & Hkr)%list_elem_of_fmap. rewrite Hseq by done. by apply (sim_pos _ _ Hs).
  - apply Forall2_fmap. eapply Forall2_impl; [apply Hs|].
    intros [k1 r1] [k2 m2] [Heq Hdec]. simpl in *. subst k2. unfold f. simpl.
    case_bool_decide; [|done]. split; [done|]. simpl. by apply decodeBody_seal.
Qed.

(** [ORDER BY write_seq DESC] over a triple reads its versions newest first. *)
Lemma order_by_seq_desc_rows tbl l lk :
  sim tbl l →
  order_by_seq_desc (where_triple tbl lk) = reverse (filter (λ kr, latest_of kr.1 = lk) (rows tbl)).
Proof.
  intros Hs. apply (sort_slice_eq (λ r, - row_write_seq r) Z.ltb).
  - rewrite reverse_Permutation, rows_perm. done.
  - eapply StronglySorted_weaken; [|apply StronglySorted_reverse, StronglySorted_filter, Hs].
    intros x y. unfold key_lt. simpl. rewrite !Z.ltb_lt. lia.
Qed.

Lemma select_latest_last tbl l lk :
  sim tbl l → select_latest tbl lk = last (filter (λ kr, latest_of kr.1 = lk) (rows tbl)).
Proof.
  intros Hs. unfold select_latest. rewrite (order_by_seq_desc_rows tbl l) by done.
  rewrite <- head_reverse. by destruct (reverse _).
Qed.

Lemma sim_versions tbl l lk :
  sim tbl l →
  Forall2 decodes (filter (λ kr, latest_of kr.1 = lk) (rows tbl)) (VersionLog.versions lk l).
Proof. intros Hs. apply Forall2_filter; [apply Hs|]. intros ? ? [-> _]. done. Qed.

(** The row a request names is the version it resolves to in the log. *)
Lemma sim_select tbl l key :
  sim tbl l →
  match select_key tbl key with
  | Some kr => VersionLog.resolve key l = Some kr.1 ∧ kr ∈ rows tbl
  | None => (k ← VersionLog.resolve key l; VersionLog.find k l) = None
  end.
Proof.
  intros Hs. unfold select_key, VersionLog.resolve. case_bool_decide as Hv.
  - rewrite (select_latest_last tbl l) by done. unfold VersionLog.newest.
    pose proof (Forall2_last _ _ _ (sim_versions tbl l (latest_of key) Hs)) as Hlast.
    destruct (last (filter _ (rows tbl))) as [kr|] eqn:Hkr; inversion Hlast as [? e [Heq _]|];
      subst; simpl; [|done].
    split; [by rewrite Heq|].
    by apply last_Some_elem_of, list_elem_of_filter in Hkr as [_ ?].
  - unfold select_exact. destruct (tbl !! key) as [r|] eqn:Hr; simpl.
    + split; [done|]. by apply rows_elem.
    + rewrite (sql_find tbl), Hr by done. done.
Qed.

Lemma triple_required_false t b h :
  triple_required t b h = false ↔ t ≠ "" ∧ b ≠ "" ∧ h ≠ "".
Proof. unfold triple_required. rewrite !orb_false_iff, !bool_decide_eq_false. tauto. Qed.

Lemma sql_Get k tbl l :
  sim tbl l → triple_required (k_TenantID k) (k_Bucket k) (k_ObjectKeyHash k) = false →
  Get k tbl = VersionLog.get k l.
Proof.
  intros Hs Hk. unfold Get, VersionLog.get. rewrite Hk.
  pose proof (sim_select tbl l k Hs) as Hsel. destruct (select_key tbl k) as [[k' r]|].
  - destruct Hsel as [-> Hr%rows_elem]. simpl. rewrite (sql_find tbl), Hr by done. simpl.
    destruct (sim_decode_is_Some _ _ _ _ Hs Hr) as [m Hm]. unfold decode_row. simpl. by rewrite Hm.
  - by rewrite Hsel.
Qed.

Lemma sql_Delete k tbl l :
  sim tbl l → triple_required (k_TenantID k) (k_Bucket k) (k_ObjectKeyHash k) = false →
  agree sim (Delete k tbl) (VersionLog.remove k l).
Proof.
  intros Hs Hk. unfold Delete, VersionLog.remove. rewrite Hk.
  pose proof (sim_select tbl l k Hs) as Hsel. destruct (select_key tbl k) as [[k' r]|].
  - destruct Hsel as [-> Hr%rows_elem]. simpl in *. rewrite (sql_find tbl), Hr by done. simpl.
    destruct (sim_decode_is_Some _ _ _ _ Hs Hr) as [m ->]. simpl.
    apply (sim_intro _ _ (filter (λ e, e.1 ≠ k') (rows tbl))).
    + rewrite rows_perm. apply map_rows_delete.
    + apply StronglySorted_filter, Hs.
    + intros kr [_ Hkr]%list_elem_of_filter. by apply (sim_pos _ _ Hs).
    + apply Forall2_filter; [apply Hs|]. intros ? ? [-> _]. done.
  - destruct (VersionLog.resolve k l) as [k'|]; simpl in *; [|done]. by rewrite Hsel.
Qed.

Lemma decode_row_ok kr e : decodes kr e → decode_row kr = Ok e.2.
Proof. intros [_ Hd]. unfold decode_row. by rewrite Hd. Qed.

Lemma decode_rows_ok rs es : Forall2 decodes rs es → decode_rows rs = Ok es.*2.
Proof.
  induction 1 as [|kr e rs es Hd Hrs IH]; [done|]. simpl. by rewrite (decode_row_ok _ _ Hd), IH.
Qed.

Lemma sql_ListVersions lk tbl l :
  sim tbl l → triple_required (lk_TenantID lk) (lk_Bucket lk) (lk_ObjectKeyHash lk) = false →
  ListVersions lk tbl = Ok (VersionLog.list_versions lk l).
Proof.
  intros Hs Hk. unfold ListVersions, VersionLog.list_versions. rewrite Hk.
  rewrite (order_by_seq_desc_rows tbl l) by done.
  rewrite (decode_rows_ok _ (reverse (VersionLog.versions lk l))); [by rewrite fmap_reverse|].
  by apply Forall2_reverse, sim_versions.
Qed.

(** ** Listings *)

Lemma is_latest_row_last tbl l kr :
  sim tbl l → kr ∈ rows tbl →
  is_latest_row tbl kr ↔
  last (filter (λ x, latest_of x.1 = latest_of kr.1) (rows tbl)) = Some kr.
Proof.
  intros Hs Hkr. unfold is_latest_row.
  set (F := filter (λ x, latest_of x.1 = latest_of kr.1) (rows tbl)).
  assert (StronglySorted (key_lt row_write_seq Z.ltb) F) as HF by (apply StronglySorted_filter, Hs).
  assert (∀ x, x ∈ where_triple tbl (latest_of kr.1) ↔ x ∈ F) as HW.
  { intros x. unfold where_triple, F. by rewrite !list_elem_of_filter, rows_perm. }
  assert (kr ∈ F) as HkrF by (by apply list_elem_of_filter). split.
  - intros [_ Hmax]%max_write_seq_Some.
    destruct (last F) as [x|] eqn:Hx; [|by apply last_None in Hx; rewrite Hx in HkrF; set_solver].
    pose proof (Hmax x (proj2 (HW x) (last_Some_elem_of _ _ Hx))).
    destruct (key_lt_sorted_last row_write_seq Z.ltb F x kr HF Hx HkrF) as [->|Hlt%Z.ltb_lt];
      [done|lia].
  - intros Hlast. destruct (max_write_seq_nonempty kr (where_triple tbl (latest_of kr.1)))
      as [n Hn]; [by apply HW|]. rewrite Hn. f_equal.
    apply max_write_seq_Some in Hn as [(y & Hy%HW & <-) Hmax].
    specialize (Hmax kr (proj2 (HW kr) HkrF)).
    destruct (key_lt_sorted_last row_write_seq Z.ltb F kr y HF Hlast Hy) as [->|Hlt%Z.ltb_lt];
      [done|lia].
Qed.

(** The rows a listing of the bucket shows, in its order. *)
Definition current_rows (tbl : table) (t b : string) : list keyed_row :=
  filter (λ kr, k_TenantID kr.1 = t ∧ k_Bucket kr.1 = b ∧ is_latest_row tbl kr) (rows tbl).

Lemma current_rows_decode tbl l t b :
  sim tbl l → Forall2 decodes (current_rows tbl t b) (VersionLog.current t b l).
Proof.
  intros Hs. apply Forall2_filter_elem; [apply Hs|]. intros [k r] [k' m] Hin [Heq Hdec].
  simpl in Heq. subst k'. rewrite (is_latest_row_last tbl l) by done. simpl.
  pose proof (Forall2_last _ _ _ (sim_versions tbl l (latest_of k) Hs)) as Hlast.
  unfold VersionLog.newest.
  destruct (last (filter _ (rows tbl))) as [[k2 r2]|] eqn:Hk2; inversion Hlast as [? [k3 m3] [Heq3 _]|];
    subst; simpl in *; [|naive_solver].
  subst k3. split; intros (-> & -> & [= ->]); [done|].
  apply last_Some_elem_of, list_elem_of_filter in Hk2 as [_ Hk2%rows_elem].
  apply rows_elem in Hin. rewrite Hin in Hk2. by simplify_eq.
Qed.

Definition rows_after (tbl : table) (t b : string) (after : Z) : list keyed_row :=
  filter (λ kr, after < row_write_seq kr) (current_rows tbl t b).

Lemma sql_rows_after_sorted tbl l t b after :
  sim tbl l → StronglySorted (key_lt row_write_seq Z.ltb) (rows_after tbl t b after).
Proof. intros Hs. do 2 apply StronglySorted_filter. apply Hs. Qed.

Lemma list_query_rows tbl l t b after :
  sim tbl l → list_query tbl t b after = rows_after tbl t b after.
Proof.
  intros Hs. apply (sort_slice_eq row_write_seq Z.ltb); [|by eapply sql_rows_after_sorted].
  unfold rows_after, current_rows. rewrite list_filter_filter, rows_perm.
  apply reflexive_eq, list_filter_iff. tauto.
Qed.

Lemma list_loop_ok limit count lastSeq rs es acc :
  Forall2 decodes rs es → 0 ≤ count ≤ limit →
  list_loop limit count lastSeq rs acc =
    if limit <? count + Z.of_nat (length rs) then
      Ok (mkListResult (acc ++ (take (Z.to_nat (limit - count)) es).*2)
            (FormatInt (default lastSeq (row_write_seq <$> last (take (Z.to_nat (limit - count)) rs)))))
    else Ok (mkListResult (acc ++ es.*2) "").
Proof.
  intros Hrs. revert count lastSeq acc.
  induction Hrs as [|kr e rs es Hd Hrs IH]; intros count lastSeq acc Hc; simpl.
  - rewrite (proj2 (Z.ltb_ge _ _)) by lia. by rewrite app_nil_r.
  - destruct (Z.ltb_spec limit (count + 1)).
    + rewrite (proj2 (Z.ltb_lt _ _)) by lia.
      replace (Z.to_nat (limit - count)) with 0%nat by lia. simpl. by rewrite app_nil_r.
    + rewrite (decode_row_ok _ _ Hd), IH by lia.
      replace (count + 1 + Z.of_nat (length rs)) with (count + Z.of_nat (S (length rs))) by lia.
      replace (Z.to_nat (limit - count)) with (S (Z.to_nat (limit - (count + 1)))) by lia.
      csimpl. rewrite <- !(assoc_L (++)). simpl. rewrite last_cons.
      by destruct (last (take _ rs)).
Qed.

(** Asking for one row more than the page tells whether a page follows. *)
Lemma sql_limit_page {A} lim (R : list A) :
  0 < lim < 2 ^ 63 →
  (lim <? Z.of_nat (length (sql_limit (wrap64 (lim + 1)) R))) = (lim <? Z.of_nat (length R)) ∧
  take (Z.to_nat lim) (sql_limit (wrap64 (lim + 1)) R) = take (Z.to_nat lim) R ∧
  (Z.of_nat (length R) ≤ lim → sql_limit (wrap64 (lim + 1)) R = R).
Proof.
  intros Hlim. unfold sql_limit. destruct (decide (lim = 2 ^ 63 - 1)) as [->|].
  - by assert ((wrap64 (2 ^ 63 - 1 + 1) <? 0) = true) as -> by done.
  - rewrite wrap64_id by (unfold is_int64; lia).
    rewrite (proj2 (Z.ltb_ge (lim + 1) 0)) by lia. split_and!.
    + rewrite length_take. destruct (Z.ltb_spec lim (Z.of_nat (length R)));
        [apply Z.ltb_lt|apply Z.ltb_ge]; lia.
    + rewrite take_take. f_equal. lia.
    + intros. apply take_ge. lia.
Qed.

Definition list_page (tbl : table) (t b : string) (limit : Z) (cursor : string)
    : option (list ObjectManifest * string) :=
  match List tbl t b cursor limit with
  | Ok r => Some (lr_Manifests r, lr_NextCursor r)
  | Err _ => None
  end.

Definition list_denotes (tbl : table) (t b cursor : string) (ms : list ObjectManifest) : Prop :=
  ∃ after es, 0 ≤ after ∧
    (if bool_decide (cursor = "") then Some 0 else ParseInt cursor) = Some after ∧
    Forall2 decodes (rows_after tbl t b after) es ∧ ms = es.*2.

Lemma sql_rows_after_next tbl l t b after n kr :
  sim tbl l → rows_after tbl t b after !! n = Some kr →
  rows_after tbl t b (row_write_seq kr) = drop (S n) (rows_after tbl t b after).
Proof.
  intros Hs Hkr.
  rewrite <- (filter_after_drop row_write_seq Z.ltb _ n kr) by (done || by eapply sql_rows_after_sorted).
  apply list_elem_of_lookup_2, list_elem_of_filter in Hkr as [Hlt _].
  unfold rows_after. rewrite list_filter_filter. apply list_filter_iff.
  intros r'. unfold key_lt. rewrite Z.ltb_lt. lia.
Qed.

Lemma rows_after_range tbl t b after kr :
  next_write_seq tbl ≤ 2 ^ 63 → kr ∈ rows_after tbl t b after →
  after < row_write_seq kr < 2 ^ 63.
Proof.
  intros Hmax [? [_ Hkr]%list_elem_of_filter]%list_elem_of_filter.
  rewrite rows_perm in Hkr. pose proof (next_write_seq_gt tbl kr Hkr). lia.
Qed.

Lemma sql_list_page_step tbl l t b limit cursor ms :
  sim tbl l → next_write_seq tbl ≤ 2 ^ 63 → is_int64 limit → t ≠ "" → b ≠ "" →
  list_denotes tbl t b cursor ms →
  list_page tbl t b limit cursor = Some (ms, "") ∨
  ∃ page rest next, list_page tbl t b limit cursor = Some (page, next) ∧ next ≠ "" ∧ page ≠ [] ∧
    ms = page ++ rest ∧ list_denotes tbl t b next rest.
Proof.
  intros Hs Hmax [_ Hlimit] Ht Hb (after & es & Ha & Hc & Hes & ->). unfold list_page, List.
  rewrite !bool_decide_eq_false_2, Hc, (list_query_rows tbl l) by done. simpl.
  set (R := rows_after tbl t b after) in *.
  set (lim := if limit <=? 0 then 1000 else limit).
  assert (0 < lim < 2 ^ 63) as Hlim by (unfold lim; destruct (Z.leb_spec limit 0); lia).
  destruct (sql_limit_page lim R Hlim) as (Hlen & Htake & Hall).
  assert (Forall2 decodes (sql_limit (wrap64 (lim + 1)) R) (sql_limit (wrap64 (lim + 1)) es)) as Hd
    by (unfold sql_limit; destruct (wrap64 (lim + 1) <? 0); [done|by apply Forall2_take]).
  pose proof (Forall2_length _ _ _ Hes) as Hl.
  rewrite (list_loop_ok _ _ _ _ _ _ Hd), Z.add_0_l, Z.sub_0_r, Hlen by lia.
  destruct (sql_limit_page lim es Hlim) as (_ & Htake' & Hall').
  destruct (Z.ltb_spec lim (Z.of_nat (length R))) as [Hmore|Hless]; [right|left].
  2:{ rewrite Hall' by lia. done. }
  rewrite Htake, Htake', last_take_pos by lia. simpl.
  destruct (lookup_lt_is_Some_2 R (Nat.pred (Z.to_nat lim))) as [r Hr]; [lia|]. rewrite Hr. simpl.
  pose proof (rows_after_range tbl t b after r Hmax (list_elem_of_lookup_2 _ _ _ Hr)).
  eexists _, (drop (Z.to_nat lim) es).*2, _. split_and!; [done|apply FormatInt_nonempty| | |].
  - destruct (Z.to_nat lim) eqn:?, es; simpl in *; try done; lia.
  - by rewrite <- fmap_app, take_drop.
  - exists (row_write_seq r), (drop (Z.to_nat lim) es). split_and!; [lia| | |done].
    + rewrite bool_decide_eq_false_2 by apply FormatInt_nonempty.
      apply ParseInt_FormatInt. unfold is_int64. lia.
    + rewrite (sql_rows_after_next tbl l t b after _ r Hs Hr), Nat.succ_pred by lia.
      by apply Forall2_drop.
Qed.

(** ** The SQLite store implements the interface *)

#[global] Instance store : ManifestStore table := {
  ms_Put := Put;
  ms_UpdateManifest := UpdateManifest;
  ms_Delete := Delete;
  ms_Get := Get;
  ms_ListVersions := ListVersions
}.

(** The requests the store accepts: the key fields it requires are there, and
    the manifest marshals. *)
Definition well_formed (o : VersionLog.op) : Prop :=
  match o with
  | VersionLog.OPut k m | VersionLog.OUpdate k m =>
      validateKey k = true ∧ is_Some (seal (body_context k) m)
  | VersionLog.ODelete k | VersionLog.OGet k =>
      triple_required (k_TenantID k) (k_Bucket k) (k_ObjectKeyHash k) = false
  | VersionLog.OVersions lk =>
      triple_required (lk_TenantID lk) (lk_Bucket lk) (lk_ObjectKeyHash lk) = false
  end.

#[global] Instance store_laws : ManifestStoreLaws table.
Proof.
  refine {| ms_rel := sim; ms_admits := λ o _ _, well_formed o |}; simpl.
  - intros ???? ? [? [??]]. by eapply sql_Put.
  - intros ???? ? [? [??]]. by eapply sql_Update.
  - intros ???. apply sql_Delete.
  - intros ???. apply sql_Get.
  - intros ???. apply sql_ListVersions.
Defined.

Lemma well_formed_admits_all ops tbl l :
  Forall well_formed ops → ms_admits_all ops tbl l.
Proof. intros Hops. revert tbl l. induction Hops; simpl; auto. Qed.

(** ** Properties *)

(** C8: The SQLite manifest store implements the version log. On any sequence
    of well-formed Put, UpdateManifest, Delete, Get and ListVersions requests
    from the empty table, every answer, errors included, is the one the log
    gives; deleting the latest of several versions uncovers the one before. *)
Theorem sqlite_refines_log ops :
  Forall well_formed ops → ms_run ops New = VersionLog.run ops [].
Proof.
  intros Hops. assert (ms_rel New []) as Hrel by apply sql_New.
  apply ms_run_ok; [done|]. by apply well_formed_admits_all.
Qed.

(** A client that follows the List cursors of the SQLite store, whatever
    page size it asks for, receives the latest version of every object of the
    bucket exactly once, oldest write first, as long as write_seq has not
    passed the int64 range. *)
Theorem sqlite_list_visits_current t b limit tbl l :
  sim tbl l → next_write_seq tbl ≤ 2 ^ 63 → is_int64 limit → t ≠ "" → b ≠ "" →
  follow (list_page tbl t b limit) (S (length (VersionLog.current t b l))) "" =
    Some (VersionLog.current t b l).*2.
Proof.
  intros Hs Hmax Hlimit Ht Hb. apply (follow_all _ (list_denotes tbl t b)).
  - intros c ms. by apply (sql_list_page_step tbl l).
  - exists 0, (VersionLog.current t b l). split_and!; [done|done| |done].
    replace (rows_after tbl t b 0) with (current_rows tbl t b); [by apply current_rows_decode|].
    symmetry. apply filter_all. intros kr [_ Hkr]%list_elem_of_filter. by apply (sim_pos _ _ Hs).
  - rewrite length_fmap. lia.
Qed.

End store.

(** The identity codec, for the witnesses. *)
Definition ex_codec : BodyCodec ObjectManifest.
Proof.
  refine {| seal _ m := Some m; decodeBody _ b := Some b |}. congruence.
Defined.

Lemma sqlite_refines_log_witness :
  let ops := [VersionLog.OPut (Memory.ex_key "a" "v1") (Memory.ex_manifest "a" "v1");
              VersionLog.OPut (Memory.ex_key "a" "v2") (Memory.ex_manifest "a" "v2");
              VersionLog.ODelete (Memory.ex_key "a" "v2");
              VersionLog.OGet (Memory.ex_key "a" "")] in
  ms_run (ManifestStore0 := store (BodyCodec0 := ex_codec)) ops New = VersionLog.run ops [].
Proof.
  apply sqlite_refines_log. repeat constructor; by eexists.
Defined.

Definition ex_table : gmap ManifestKey (Row (Body := ObjectManifest)) :=
  <[Memory.ex_key "b" "v1" := mkRow (Memory.ex_manifest "b" "v1") 2]>
    (<[Memory.ex_key "a" "v1" := mkRow (Memory.ex_manifest "a" "v1") 1]> ∅).
Definition ex_log : VersionLog.log :=
  [(Memory.ex_key "a" "v1", Memory.ex_manifest "a" "v1");
   (Memory.ex_key "b" "v1", Memory.ex_manifest "b" "v1")].

Lemma ex_table_sim : sim (BodyCodec0 := ex_codec) ex_table ex_log.
Proof.
  apply (sim_intro (BodyCodec0 := ex_codec) _ _
    [(Memory.ex_key "a" "v1", mkRow (Memory.ex_manifest "a" "v1") 1);
     (Memory.ex_key "b" "v1", mkRow (Memory.ex_manifest "b" "v1") 2)]).
  - apply reflexive_eq. vm_compute. reflexivity.
  - repeat constructor.
  - apply Forall_forall. repeat constructor.
  - repeat constructor.
Qed.

Lemma sqlite_list_visits_current_witness :
  follow (list_page (BodyCodec0 := ex_codec) ex_table "t1" "photos" 1) 3 "" =
    Some [Memory.ex_manifest "a" "v1"; Memory.ex_manifest "b" "v1"].
Proof.
  assert (VersionLog.current "t1" "photos" ex_log = ex_log) as Hcur by (vm_compute; reflexivity).
  pose proof (sqlite_list_visits_current (BodyCodec0 := ex_codec) "t1" "photos" 1 ex_table ex_log
    ex_table_sim) as H.
  rewrite Hcur in H. apply H.
  - apply Z.leb_le. vm_compute. reflexivity.
  - split; [apply Z.leb_le|apply Z.ltb_lt]; reflexivity.
  - discriminate.
  - discriminate.
Defined.

End Sqlite.
