(* ===== verification/ContentIndex.v ===== *)
(** * The content index (metadata/content_index/store.go, memory_store.go)

    The per-tenant table from content hash to the canonical piece and its
    reference count, and the in-memory store that implements it. Times come
    from the [now] argument; iteration over a Go map is modelled by the order
    of [map_to_list]. *)

From S2P Require Import Prelude.
Local Open Scope Z_scope.

Record PieceRef := mkPieceRef {
  pr_PieceID : string;
  pr_Backend : string;
  pr_PartNumber : Z;
  pr_SizeBytes : Z
}.

Record ContentIndexEntry := mkContentIndexEntry {
  ce_TenantID : string;
  ce_ContentHash : string;
  ce_PieceID : string;
  ce_Backend : string;
  ce_RefCount : Z;                  (* int *)
  ce_SizeBytes : Z;                 (* int64 *)
  ce_ETag : string;
  ce_PieceIDs : list PieceRef;
  ce_PlaintextHash : string;
  ce_CreatedAt : Z
}.

Definition with_RefCount (n : Z) (e : ContentIndexEntry) : ContentIndexEntry :=
  mkContentIndexEntry (ce_TenantID e) (ce_ContentHash e) (ce_PieceID e) (ce_Backend e) n
    (ce_SizeBytes e) (ce_ETag e) (ce_PieceIDs e) (ce_PlaintextHash e) (ce_CreatedAt e).

Lemma with_RefCount_id e : with_RefCount (ce_RefCount e) e = e.
Proof. by destruct e. Qed.

Definition with_CreatedAt (t : Z) (e : ContentIndexEntry) : ContentIndexEntry :=
  mkContentIndexEntry (ce_TenantID e) (ce_ContentHash e) (ce_PieceID e) (ce_Backend e)
    (ce_RefCount e) (ce_SizeBytes e) (ce_ETag e) (ce_PieceIDs e) (ce_PlaintextHash e) t.

(** The sentinel errors; [IdxUnavailable] is any other error, which the
    in-memory store never returns and a remote store may. *)
Inductive index_error :=
| IdxNotFound
| IdxAlreadyExists
| IdxInvalidRefCount
| IdxRefCountNonZero
| IdxUnavailable.

Module Index.

(** [memoryKey]: (tenant, content hash). *)
Abbreviation memoryKey := (string * string)%type.
Abbreviation MemoryStore := (gmap (string * string) ContentIndexEntry).

Definition NewMemoryStore : MemoryStore := ∅.

Definition Lookup (s : MemoryStore) (tenantID contentHash : string)
    : result index_error ContentIndexEntry :=
  match s !! (tenantID, contentHash) with Some e => Ok e | None => Err IdxNotFound end.

(** The first entry of an iteration that matches; [rows] is the iteration. *)
Fixpoint find_plaintext (tenantID plaintextHash : string)
    (rows : list (memoryKey * ContentIndexEntry)) : result index_error ContentIndexEntry :=
  match rows with
  | [] => Err IdxNotFound
  | (k, e) :: rows =>
      if bool_decide (k.1 ≠ tenantID) then find_plaintext tenantID plaintextHash rows
      else if bool_decide (ce_PlaintextHash e ≠ plaintextHash)
           then find_plaintext tenantID plaintextHash rows
      else Ok e
  end.

Definition LookupByPlaintextHash (s : MemoryStore) (tenantID plaintextHash : string)
    : result index_error ContentIndexEntry :=
  if bool_decide (plaintextHash = "") then Err IdxNotFound
  else find_plaintext tenantID plaintextHash (map_to_list s).

Definition Register (now : Z) (entry : ContentIndexEntry) (s : MemoryStore)
    : result index_error MemoryStore :=
  let k := (ce_TenantID entry, ce_ContentHash entry) in
  match s !! k with
  | Some _ => Err IdxAlreadyExists
  | None =>
      let entry := if ce_RefCount entry <=? 0 then with_RefCount 1 entry else entry in
      let entry := if IsZero (ce_CreatedAt entry) then with_CreatedAt now entry else entry in
      Ok (<[k := entry]> s)
  end.

Definition IncrementRef (tenantID contentHash : string) (s : MemoryStore)
    : result index_error MemoryStore :=
  let k := (tenantID, contentHash) in
  match s !! k with
  | None => Err IdxNotFound
  | Some e => Ok (<[k := with_RefCount (wrap64 (ce_RefCount e + 1)) e]> s)
  end.

Definition DecrementRef (tenantID contentHash : string) (s : MemoryStore)
    : result index_error (Z * MemoryStore) :=
  let k := (tenantID, contentHash) in
  match s !! k with
  | None => Err IdxNotFound
  | Some e =>
      if ce_RefCount e <=? 0 then Err IdxInvalidRefCount
      else
        let n := wrap64 (ce_RefCount e - 1) in
        Ok (n, <[k := with_RefCount n e]> s)
  end.

Definition Delete (tenantID contentHash : string) (s : MemoryStore)
    : result index_error MemoryStore :=
  let k := (tenantID, contentHash) in
  match s !! k with
  | None => Err IdxNotFound
  | Some e => if 0 <? ce_RefCount e then Err IdxRefCountNonZero else Ok (delete k s)
  end.

Definition ScanAll (s : MemoryStore) (tenantID : string) : list ContentIndexEntry :=
  omap (λ ke, if bool_decide (ke.1.1 ≠ tenantID) then None else Some ke.2) (map_to_list s).

Definition ListTenants (s : MemoryStore) : list string :=
  elements (list_to_set (C := gset string) ((map_to_list s).*1.*1)).

(** ** Facts the clients use *)

(** A row is stored under the key it carries. *)
Definition keyed (s : MemoryStore) : Prop :=
  map_Forall (λ k e, k = (ce_TenantID e, ce_ContentHash e)) s.

(** Reference counts are machine integers and never negative. *)
Definition counts_ok (s : MemoryStore) : Prop :=
  map_Forall (λ _ e, 0 ≤ ce_RefCount e < 2 ^ 63) s.

Lemma ScanAll_elem s t e :
  keyed s → e ∈ ScanAll s t ↔ ce_TenantID e = t ∧ s !! (t, ce_ContentHash e) = Some e.
Proof.
  intros Hk. unfold ScanAll. rewrite list_elem_of_omap. split.
  - intros ([[t' h'] e'] & Hin%elem_of_map_to_list & He). simpl in He.
    pose proof (Hk _ _ Hin) as Hkey. simpl in Hkey. case_bool_decide; naive_solver.
  - intros [<- He]. eexists (_, e). rewrite elem_of_map_to_list. split; [exact He|].
    simpl. by rewrite bool_decide_eq_false_2 by tauto.
Qed.

Lemma ListTenants_elem s t : t ∈ ListTenants s ↔ ∃ h e, s !! (t, h) = Some e.
Proof.
  unfold ListTenants. rewrite elem_of_elements, elem_of_list_to_set, list_elem_of_fmap. split.
  - intros ([t' h] & -> & Hin). apply list_elem_of_fmap in Hin as ([k e] & Hk & Hin).
    apply elem_of_map_to_list in Hin. simplify_eq/=. eauto.
  - intros (h & e & He). exists (t, h). split; [done|]. apply list_elem_of_fmap.
    exists ((t, h), e). by rewrite elem_of_map_to_list.
Qed.

(** What each write does to the row of its own key and to the others. *)
Lemma Register_Ok now entry s s' :
  Register now entry s = Ok s' →
  s !! (ce_TenantID entry, ce_ContentHash entry) = None ∧
  ∃ e, s' = <[(ce_TenantID entry, ce_ContentHash entry) := e]> s ∧
    ce_TenantID e = ce_TenantID entry ∧ ce_ContentHash e = ce_ContentHash entry ∧
    ce_PieceID e = ce_PieceID entry ∧ ce_Backend e = ce_Backend entry ∧
    ce_RefCount e = (if ce_RefCount entry <=? 0 then 1 else ce_RefCount entry).
Proof.
  unfold Register. destruct (s !! _) eqn:Hs; [done|]. intros [= <-]. split; [done|].
  eexists. split; [reflexivity|]. by repeat case_match.
Qed.

Lemma IncrementRef_Ok t h s s' :
  IncrementRef t h s = Ok s' ↔
  ∃ e, s !! (t, h) = Some e ∧ s' = <[(t, h) := with_RefCount (wrap64 (ce_RefCount e + 1)) e]> s.
Proof. unfold IncrementRef. destruct (s !! _); naive_solver. Qed.

Lemma DecrementRef_Ok t h s n s' :
  DecrementRef t h s = Ok (n, s') ↔
  ∃ e, s !! (t, h) = Some e ∧ 0 < ce_RefCount e ∧ n = wrap64 (ce_RefCount e - 1) ∧
    s' = <[(t, h) := with_RefCount n e]> s.
Proof.
  unfold DecrementRef. destruct (s !! _) as [e|]; [|naive_solver].
  destruct (Z.leb_spec (ce_RefCount e) 0); [naive_solver lia|naive_solver].
Qed.

Lemma Delete_Ok t h s s' :
  Delete t h s = Ok s' ↔ ∃ e, s !! (t, h) = Some e ∧ ce_RefCount e ≤ 0 ∧ s' = delete (t, h) s.
Proof.
  unfold Delete. destruct (s !! _) as [e|]; [|naive_solver].
  destruct (Z.ltb_spec 0 (ce_RefCount e)); [naive_solver lia|naive_solver].
Qed.

Lemma keyed_insert s k e :
  keyed s → k = (ce_TenantID e, ce_ContentHash e) → keyed (<[k := e]> s).
Proof. intros Hk ->. by apply map_Forall_insert_2. Qed.

Lemma keyed_delete s k : keyed s → keyed (delete k s).
Proof. intros Hk. by apply map_Forall_delete. Qed.

End Index.
