(* ===== verification/OrphanGC.v ===== *)
(** * The orphan sweep of the content index (metadata/content_index/orphan_gc.go)

    The sweep reads the manifest store through [probe]
    (HasManifestWithPieceID), deletes pieces through the provider registry
    [Resolver] and drains index rows. A provider is the function that says
    whether its DeletePiece of a piece returns no error; a context is the
    number of [ctx.Err()] calls left before it reports cancellation, [None]
    when it never does. *)

From S2P Require Import Prelude Manifest ManifestStore ContentIndex.
Local Open Scope Z_scope.

Module Orphan.

Record SweepStats := mkSweepStats {
  ss_TenantsScanned : Z;
  ss_RowsScanned : Z;
  ss_RowsOrphaned : Z;
  ss_PiecesDeleted : Z;
  ss_IndexRowsDeleted : Z;
  ss_Errors : Z
}.

Definition stats_add (a b : SweepStats) : SweepStats :=
  mkSweepStats (ss_TenantsScanned a + ss_TenantsScanned b) (ss_RowsScanned a + ss_RowsScanned b)
    (ss_RowsOrphaned a + ss_RowsOrphaned b) (ss_PiecesDeleted a + ss_PiecesDeleted b)
    (ss_IndexRowsDeleted a + ss_IndexRowsDeleted b) (ss_Errors a + ss_Errors b).

Definition no_stats : SweepStats := mkSweepStats 0 0 0 0 0 0.

Definition ctx := option nat.

(** [ctx.Err()]: [None] when cancelled, the context left otherwise. *)
Definition ctx_Err (c : ctx) : option ctx :=
  match c with Some O => None | Some (S n) => Some (Some n) | None => Some None end.

(** The index and the pieces on the backends, as (backend, piece id). *)
Record World := mkWorld {
  w_index : gmap (string * string) ContentIndexEntry;
  w_pieces : gset (string * string)
}.

(** The loop that drains the index row: it leaves after one round on every
    path. Row deletions and errors are counted. *)
Definition drain (e : ContentIndexEntry) (s : gmap (string * string) ContentIndexEntry)
    : gmap (string * string) ContentIndexEntry * Z * Z :=
  match Index.DecrementRef (ce_TenantID e) (ce_ContentHash e) s with
  | Err IdxNotFound => (s, 1, 0)
  | Err IdxInvalidRefCount =>
      (match Index.Delete (ce_TenantID e) (ce_ContentHash e) s with Ok s' => s' | Err _ => s end, 1, 0)
  | Err _ => (s, 0, 1)
  | Ok (n, s1) =>
      if n =? 0 then
        match Index.Delete (ce_TenantID e) (ce_ContentHash e) s1 with
        | Ok s2 => (s2, 1, 0)
        | Err IdxRefCountNonZero => (s1, 0, 0)
        | Err IdxNotFound => (s1, 0, 0)
        | Err _ => (s1, 0, 1)
        end
      else (s1, 0, 0)
  end.

Section sweep.
Context (probe : string → string → result store_error bool)
        (Resolver : string → option (string → bool)).

(** The body of the row loop of [sweepTenant]. *)
Definition sweep_row (e : ContentIndexEntry) (w : World) : World * SweepStats :=
  match probe (ce_TenantID e) (ce_PieceID e) with
  | Err _ => (w, mkSweepStats 0 0 0 0 0 1)
  | Ok true => (w, no_stats)
  | Ok false =>
      match Resolver (ce_Backend e) with
      | Some deletes =>
          if deletes (ce_PieceID e) then
            let '(s', rows, errs) := drain e (w_index w) in
            (mkWorld s' (w_pieces w ∖ {[(ce_Backend e, ce_PieceID e)]}),
             mkSweepStats 0 0 1 1 rows errs)
          else (w, mkSweepStats 0 0 1 0 0 1)
      | None =>
          let '(s', rows, errs) := drain e (w_index w) in
          (mkWorld s' (w_pieces w), mkSweepStats 0 0 1 0 rows errs)
      end
  end.

Fixpoint sweep_rows (c : ctx) (es : list ContentIndexEntry) (w : World)
    : World * SweepStats * option ctx :=
  match es with
  | [] => (w, no_stats, Some c)
  | e :: es =>
      match ctx_Err c with
      | None => (w, no_stats, None)
      | Some c =>
          let '(w1, st1) := sweep_row e w in
          let '(w2, st2, c') := sweep_rows c es w1 in
          (w2, stats_add st1 st2, c')
      end
  end.

Definition sweepTenant (c : ctx) (tenantID : string) (w : World)
    : World * SweepStats * option ctx :=
  let entries := Index.ScanAll (w_index w) tenantID in
  let '(w', st, c') := sweep_rows c entries w in
  (w', stats_add (mkSweepStats 0 (Z.of_nat (length entries)) 0 0 0 0) st, c').

(** The tenant loop of [Sweep]: a tenant's error is logged and the loop goes
    on, so a context cancelled inside a tenant stops it at the next check. *)
Fixpoint sweep_tenants (c : ctx) (ts : list string) (w : World)
    : World * SweepStats * option ctx :=
  match ts with
  | [] => (w, no_stats, Some c)
  | t :: ts =>
      match ctx_Err c with
      | None => (w, no_stats, None)
      | Some c =>
          let '(w1, st1, c1) := sweepTenant c t w in
          let '(w2, st2, c2) := sweep_tenants (default (Some O) c1) ts w1 in
          (w2, stats_add st1 st2, c2)
      end
  end.

(** [Sweep]; the last component is [None] when it returned [ctx.Err()]. *)
Definition Sweep (c : ctx) (w : World) : World * SweepStats * option ctx :=
  let tenants := Index.ListTenants (w_index w) in
  let '(w', st, c') := sweep_tenants c tenants w in
  (w', stats_add (mkSweepStats (Z.of_nat (length tenants)) 0 0 0 0 0) st, c').

(** ** What a sweep may change *)

Definition key_of (e : ContentIndexEntry) : string * string := (ce_TenantID e, ce_ContentHash e).

Definition orphan (e : ContentIndexEntry) : Prop :=
  probe (ce_TenantID e) (ce_PieceID e) = Ok false.

Lemma orphan_with_RefCount n e : orphan (with_RefCount n e) ↔ orphan e.
Proof. done. Qed.

(** [drain e] writes at most the row of [e], and only its count. *)
Lemma drain_other e s k : k ≠ key_of e → (drain e s).1.1 !! k = s !! k.
Proof.
  intros Hk. unfold drain, Index.DecrementRef, Index.Delete. fold (key_of e).
  repeat case_match; simplify_eq/=; rewrite ?lookup_delete_ne, ?lookup_insert_ne by done; done.
Qed.

Lemma drain_row e s r :
  (drain e s).1.1 !! key_of e = Some r → ∃ r0, s !! key_of e = Some r0 ∧ r = with_RefCount (ce_RefCount r) r0.
Proof.
  unfold drain, Index.DecrementRef, Index.Delete. fold (key_of e).
  repeat case_match; simplify_eq/=; rewrite ?lookup_delete_eq, ?lookup_insert_eq;
    intros; simplify_eq/=; (eexists; split; [done|]; by rewrite ?with_RefCount_id).
Qed.

(** [safe w w']: going from [w] to [w'] removed pieces and rows of orphans
    only. *)
Record safe (w w' : World) : Prop := {
  safe_rows k r : w_index w' !! k = Some r →
    ∃ r0, w_index w !! k = Some r0 ∧ r = with_RefCount (ce_RefCount r) r0;
  safe_kept k r : w_index w !! k = Some r → ¬ orphan r → w_index w' !! k = Some r;
  safe_pieces : w_pieces w' ⊆ w_pieces w;
  safe_removed bp : bp ∈ w_pieces w → bp ∉ w_pieces w' →
    ∃ k r, w_index w !! k = Some r ∧ orphan r ∧ bp = (ce_Backend r, ce_PieceID r)
}.

Lemma safe_refl w : safe w w.
Proof. split; try done. intros k r ?. exists r. by rewrite with_RefCount_id. Qed.

(** A row read in a later state is a row of the first one, up to its count. *)
Lemma safe_sweep_row w0 w e r0 :
  safe w0 w → w_index w0 !! key_of e = Some r0 → e = with_RefCount (ce_RefCount e) r0 →
  safe w0 (sweep_row e w).1.
Proof.
  intros Hs Hr0 He.
  assert (∀ s', (s' = (drain e (w_index w)).1.1) → orphan e → ∀ ps, ps ⊆ w_pieces w →
    (∀ bp, bp ∈ w_pieces w → bp ∉ ps → bp = (ce_Backend e, ce_PieceID e)) →
    safe w0 (mkWorld s' ps)) as Hdrain.
  { intros s' -> Ho ps Hps Hrem. split; simpl.
    - intros k r. destruct (decide (k = key_of e)) as [->|Hk].
      + intros (r1 & Hr1 & ->)%drain_row. apply (safe_rows _ _ Hs) in Hr1 as (r2 & ? & ->). eauto.
      + rewrite drain_other by done. apply (safe_rows _ _ Hs).
    - intros k r Hr Hno. destruct (decide (k = key_of e)) as [->|Hk].
      + exfalso. apply Hno. rewrite Hr0 in Hr. simplify_eq. by rewrite He in Ho.
      + rewrite drain_other by done. by apply (safe_kept _ _ Hs).
    - etrans; [done|]. apply Hs.
    - intros bp Hin Hout. destruct (decide (bp ∈ w_pieces w)) as [Hw|Hw].
      + apply Hrem in Hout as ->; [|done]. exists (key_of e), r0. split_and!; [done| |].
        * by rewrite He in Ho.
        * by rewrite He.
      + by apply (safe_removed _ _ Hs). }
  unfold sweep_row. destruct (probe _ _) as [[]|] eqn:Hp; [done| |done].
  destruct (Resolver _) as [del|]; [destruct (del _); [|done]|];
    destruct (drain e (w_index w)) as [[s' rows] errs] eqn:Hd; simpl; apply Hdrain; try done.
  - set_solver.
  - intros bp Hin Hout. apply dec_stable. set_solver.
Qed.

Lemma safe_sweep_rows c es w0 w :
  safe w0 w →
  (∀ e, e ∈ es → ∃ r0, w_index w0 !! key_of e = Some r0 ∧ e = with_RefCount (ce_RefCount e) r0) →
  safe w0 (sweep_rows c es w).1.1.
Proof.
  revert c w. induction es as [|e es IH]; intros c w Hs Hes; simpl; [done|].
  destruct (ctx_Err c) as [c'|]; [|done].
  destruct (Hes e) as (r0 & Hr0 & He); [set_solver|].
  pose proof (safe_sweep_row w0 w e r0 Hs Hr0 He) as Hs1.
  destruct (sweep_row e w) as [w1 st1]. simpl in Hs1.
  specialize (IH c' w1 Hs1 ltac:(set_solver)).
  by destruct (sweep_rows c' es w1) as [[w2 st2] c2].
Qed.

Lemma safe_keyed w0 w : safe w0 w → Index.keyed (w_index w0) → Index.keyed (w_index w).
Proof.
  intros Hs Hk k r (r0 & Hr0 & Heq)%(safe_rows _ _ Hs). rewrite Heq. by apply Hk in Hr0.
Qed.

Lemma safe_sweepTenant c t w0 w :
  Index.keyed (w_index w0) → safe w0 w → safe w0 (sweepTenant c t w).1.1.
Proof.
  intros Hk Hs. unfold sweepTenant.
  pose proof (safe_sweep_rows c (Index.ScanAll (w_index w) t) w0 w Hs) as H.
  destruct (sweep_rows _ _ _) as [[w' st] c']. simpl in *. apply H.
  intros e [<- He]%Index.ScanAll_elem; [|by eapply safe_keyed]. by apply (safe_rows _ _ Hs).
Qed.

Lemma safe_sweep_tenants c ts w0 w :
  Index.keyed (w_index w0) → safe w0 w → safe w0 (sweep_tenants c ts w).1.1.
Proof.
  intros Hk. revert c w. induction ts as [|t ts IH]; intros c w Hs; simpl; [done|].
  destruct (ctx_Err c) as [c'|]; [|done].
  pose proof (safe_sweepTenant c' t w0 w Hk Hs) as Hs1.
  destruct (sweepTenant c' t w) as [[w1 st1] c1]. simpl in Hs1.
  specialize (IH (default (Some 0%nat) c1) w1 Hs1).
  by destruct (sweep_tenants (default (Some 0%nat) c1) ts w1) as [[w2 st2] c2].
Qed.

Lemma safe_Sweep c w : Index.keyed (w_index w) → safe w (Sweep c w).1.1.
Proof.
  intros Hk. unfold Sweep.
  pose proof (safe_sweep_tenants c (Index.ListTenants (w_index w)) w w Hk (safe_refl w)) as H.
  by destruct (sweep_tenants _ _ _) as [[w' st] c'].
Qed.

(** ** What a sweep does to an orphan *)

(** The outcome for the row [e] that its backend can delete: the piece is gone
    and the row has lost one reference. *)
Definition swept (e : ContentIndexEntry) (w : World) : Prop :=
  (ce_Backend e, ce_PieceID e) ∉ w_pieces w ∧
  w_index w !! key_of e =
    if ce_RefCount e =? 1 then None else Some (with_RefCount (ce_RefCount e - 1) e).

Lemma sweep_row_other e w k : k ≠ key_of e → w_index (sweep_row e w).1 !! k = w_index w !! k.
Proof.
  intros Hk. pose proof (drain_other e (w_index w) k Hk) as Hd. unfold sweep_row.
  destruct (drain e (w_index w)) as [[s' rows] errs].
  destruct (probe _ _) as [[]|]; [done| |done].
  by destruct (Resolver _) as [del|]; [destruct (del _)|].
Qed.

Lemma sweep_row_pieces e w : w_pieces (sweep_row e w).1 ⊆ w_pieces w.
Proof.
  unfold sweep_row. destruct (drain e (w_index w)) as [[s' rows] errs].
  destruct (probe _ _) as [[]|]; [done| |done].
  destruct (Resolver _) as [del|]; [destruct (del _)|]; simpl; set_solver.
Qed.

Lemma sweep_rows_other c es w k :
  (∀ e, e ∈ es → key_of e ≠ k) →
  w_index (sweep_rows c es w).1.1 !! k = w_index w !! k ∧
  w_pieces (sweep_rows c es w).1.1 ⊆ w_pieces w.
Proof.
  revert c w. induction es as [|e es IH]; intros c w Hes; simpl; [done|].
  destruct (ctx_Err c) as [c'|]; [|done].
  pose proof (sweep_row_other e w k) as Ho. pose proof (sweep_row_pieces e w) as Hp.
  destruct (sweep_row e w) as [w1 st1]. simpl in *.
  destruct (IH c' w1 ltac:(set_solver)) as [IH1 IH2].
  destruct (sweep_rows c' es w1) as [[w2 st2] c2]. simpl in *.
  rewrite IH1, Ho by (apply not_eq_sym, Hes; set_solver). split; [done|]. by etrans.
Qed.

Lemma sweep_row_orphan e w deletes :
  w_index w !! key_of e = Some e → orphan e → 1 ≤ ce_RefCount e < 2 ^ 63 →
  Resolver (ce_Backend e) = Some deletes → deletes (ce_PieceID e) = true →
  swept e (sweep_row e w).1.
Proof.
  intros Hrow Ho Hcnt Hres Hdel. unfold sweep_row. rewrite Ho, Hres, Hdel.
  assert ((drain e (w_index w)).1.1 !! key_of e =
    if ce_RefCount e =? 1 then None else Some (with_RefCount (ce_RefCount e - 1) e)) as Hd.
  { unfold drain, Index.DecrementRef. fold (key_of e). rewrite Hrow.
    rewrite (proj2 (Z.leb_gt _ _)), wrap64_id by (unfold is_int64; lia). unfold Index.Delete.
    fold (key_of e). rewrite lookup_insert_eq. simpl.
    destruct (Z.eqb_spec (ce_RefCount e) 1) as [->|Hne]; simpl.
    - by rewrite lookup_delete_eq.
    - rewrite (proj2 (Z.eqb_neq (ce_RefCount e - 1) 0)) by lia. simpl. by rewrite lookup_insert_eq. }
  destruct (drain e (w_index w)) as [[s' rows] errs]. simpl in *.
  split; simpl; [set_solver|done].
Qed.

Lemma sweep_rows_orphan es w e deletes :
  NoDup (key_of <$> es) → e ∈ es → w_index w !! key_of e = Some e → orphan e →
  1 ≤ ce_RefCount e < 2 ^ 63 →
  Resolver (ce_Backend e) = Some deletes → deletes (ce_PieceID e) = true →
  swept e (sweep_rows None es w).1.1 ∧ (sweep_rows None es w).2 = Some None.
Proof.
  intros Hnd Hin Hrow Ho Hcnt Hres Hdel. revert w Hrow.
  induction es as [|e' es IH]; intros w Hrow; [set_solver|]. simpl.
  rewrite fmap_cons in Hnd. apply NoDup_cons in Hnd as [Hni Hnd].
  assert ((sweep_rows None es (sweep_row e' w).1).2 = Some None) as Hc.
  { generalize (sweep_row e' w).1. clear. induction es as [|x es IH]; intros w; simpl; [done|].
    destruct (sweep_row x w) as [w1 st]. specialize (IH w1).
    by destruct (sweep_rows None es w1) as [[??]?]. }
  apply elem_of_cons in Hin as [<-|Hin].
  - pose proof (sweep_row_orphan e w deletes Hrow Ho Hcnt Hres Hdel) as [Hp Hr].
    destruct (sweep_row e w) as [w1 st1]. simpl in *.
    destruct (sweep_rows_other None es w1 (key_of e)) as [H1 H2].
    { intros x Hx Heq. apply Hni. rewrite <- Heq. by apply list_elem_of_fmap_2. }
    destruct (sweep_rows None es w1) as [[w2 st2] c2]. simpl in *.
    split; [|done]. split; [set_solver|congruence].
  - assert (key_of e' ≠ key_of e) as Hne.
    { intros Heq. apply Hni. rewrite Heq. by apply list_elem_of_fmap_2. }
    pose proof (sweep_row_other e' w (key_of e) ltac:(congruence)) as Ho'.
    destruct (sweep_row e' w) as [w1 st1]. simpl in *.
    specialize (IH Hnd Hin w1 ltac:(congruence)).
    by destruct (sweep_rows None es w1) as [[w2 st2] c2].
Qed.

Lemma ScanAll_NoDup s t : Index.keyed s → NoDup (key_of <$> Index.ScanAll s t).
Proof.
  intros Hk. unfold Index.ScanAll.
  assert (∀ l, l ⊆ map_to_list s → NoDup l.*1 → NoDup (key_of <$>
    omap (λ ke : string * string * ContentIndexEntry,
      if bool_decide (ke.1.1 ≠ t) then None else Some ke.2) l)) as H.
  { intros l. induction l as [|[k e] l IH]; [constructor|]. intros Hl [Hni Hnd]%NoDup_cons. csimpl.
    specialize (IH ltac:(set_solver) Hnd). case_bool_decide; [done|]. csimpl.
    constructor; [|done]. intros (e' & Heq & He')%list_elem_of_fmap. apply Hni.
    apply list_elem_of_omap in He' as ([k' e''] & Hin & Hsome).
    simpl in Hsome. case_bool_decide; simplify_eq/=.
    assert (∀ x y, (x, y) ∈ (k, e) :: l → x = key_of y) as Hkey.
    { intros x y Hxy%Hl%elem_of_map_to_list. by apply (Hk x y). }
    assert (k = k') as ->.
    { rewrite (Hkey k e), (Hkey k' e') by set_solver. unfold key_of. congruence. }
    by apply (list_elem_of_fmap_2 fst) in Hin. }
  apply H; [done|]. apply NoDup_fst_map_to_list.
Qed.

Lemma sweepTenant_other c t w k :
  Index.keyed (w_index w) → k.1 ≠ t →
  w_index (sweepTenant c t w).1.1 !! k = w_index w !! k ∧
  w_pieces (sweepTenant c t w).1.1 ⊆ w_pieces w.
Proof.
  intros Hk Hne. unfold sweepTenant.
  pose proof (sweep_rows_other c (Index.ScanAll (w_index w) t) w k) as H.
  destruct (sweep_rows _ _ _) as [[w' st] c']. apply H.
  intros e [Ht _]%Index.ScanAll_elem; [|done]. intros <-. by apply Hne.
Qed.

Lemma sweepTenant_orphan w e deletes :
  Index.keyed (w_index w) → w_index w !! key_of e = Some e → orphan e →
  1 ≤ ce_RefCount e < 2 ^ 63 →
  Resolver (ce_Backend e) = Some deletes → deletes (ce_PieceID e) = true →
  swept e (sweepTenant None (ce_TenantID e) w).1.1 ∧
  (sweepTenant None (ce_TenantID e) w).2 = Some None.
Proof.
  intros Hk Hrow Ho Hcnt Hres Hdel. unfold sweepTenant.
  pose proof (sweep_rows_orphan (Index.ScanAll (w_index w) (ce_TenantID e)) w e deletes) as H.
  destruct (sweep_rows _ _ _) as [[w' st] c']. apply H; try done.
  - by apply ScanAll_NoDup.
  - by apply Index.ScanAll_elem.
Qed.

Lemma sweepTenant_runs t w : (sweepTenant None t w).2 = Some None.
Proof.
  unfold sweepTenant. generalize (Index.ScanAll (w_index w) t) as es. intros es.
  assert ((sweep_rows None es w).2 = Some None) as H.
  { revert w. induction es as [|x es IH]; intros w; simpl; [done|].
    destruct (sweep_row x w) as [w1 st]. specialize (IH w1).
    by destruct (sweep_rows None es w1) as [[??]?]. }
  by destruct (sweep_rows None es w) as [[??]?].
Qed.

Lemma swept_sweep_tenants c ts w e :
  Index.keyed (w_index w) → ce_TenantID e ∉ ts → swept e w → swept e (sweep_tenants c ts w).1.1.
Proof.
  revert c w. induction ts as [|t ts IH]; intros c w Hk Hni [Hp Hr]; simpl; [done|].
  destruct (ctx_Err c) as [c'|]; [|done].
  destruct (sweepTenant_other c' t w (key_of e) Hk) as [H1 H2]; [set_solver|].
  pose proof (safe_keyed _ _ (safe_sweepTenant c' t w w Hk (safe_refl w)) Hk) as Hk1.
  destruct (sweepTenant c' t w) as [[w1 st1] c1]. simpl in *.
  specialize (IH (default (Some 0%nat) c1) w1 Hk1 ltac:(set_solver)).
  destruct (sweep_tenants _ ts w1) as [[w2 st2] c2]. apply IH. split; [set_solver|congruence].
Qed.

Lemma sweep_tenants_orphan ts w e deletes :
  Index.keyed (w_index w) → NoDup ts → ce_TenantID e ∈ ts →
  w_index w !! key_of e = Some e → orphan e → 1 ≤ ce_RefCount e < 2 ^ 63 →
  Resolver (ce_Backend e) = Some deletes → deletes (ce_PieceID e) = true →
  swept e (sweep_tenants None ts w).1.1.
Proof.
  intros Hk Hnd Hin Hrow Ho Hcnt Hres Hdel. revert w Hk Hrow.
  induction Hnd as [|t ts Hni Hnd IH]; intros w Hk Hrow; [set_solver|]. simpl.
  pose proof (safe_keyed _ _ (safe_sweepTenant None t w w Hk (safe_refl w)) Hk) as Hk1.
  pose proof (sweepTenant_runs t w) as Hc.
  destruct (decide (t = ce_TenantID e)) as [->|Hne].
  - destruct (sweepTenant_orphan w e deletes) as [Hs _]; [done..|].
    destruct (sweepTenant _ _ w) as [[w1 st1] c1]. simpl in *. subst c1. simpl.
    pose proof (swept_sweep_tenants None ts w1 e Hk1 Hni Hs) as H.
    by destruct (sweep_tenants None ts w1) as [[??]?].
  - destruct (sweepTenant_other None t w (key_of e) Hk) as [H1 _]; [simpl; congruence|].
    destruct (sweepTenant _ _ w) as [[w1 st1] c1]. simpl in *. subst c1. simpl.
    specialize (IH ltac:(set_solver) w1 Hk1 ltac:(congruence)).
    by destruct (sweep_tenants None ts w1) as [[??]?].
Qed.

Lemma Sweep_orphan w e deletes :
  Index.keyed (w_index w) → w_index w !! key_of e = Some e → orphan e →
  1 ≤ ce_RefCount e < 2 ^ 63 →
  Resolver (ce_Backend e) = Some deletes → deletes (ce_PieceID e) = true →
  swept e (Sweep None w).1.1.
Proof.
  intros Hk Hrow Ho Hcnt Hres Hdel. unfold Sweep.
  pose proof (sweep_tenants_orphan (Index.ListTenants (w_index w)) w e deletes Hk) as H.
  destruct (sweep_tenants _ _ _) as [[w' st] c']. apply H; try done.
  - unfold Index.ListTenants. apply NoDup_elements.
  - apply Index.ListTenants_elem. by exists (ce_ContentHash e), e.
Qed.

(** ** Properties *)

(** C11: A sweep, cancelled or not, is conservative. It removes a piece only
    when some index row names that piece and the manifest probe found no
    manifest of the row's tenant that references it; a row whose piece is
    still referenced, or whose probe failed, keeps its count; no row is
    added and none changes more than its count. *)
Theorem sweep_is_conservative c w :
  Index.keyed (w_index w) →
  let w' := (Sweep c w).1.1 in
  (∀ bp, bp ∈ w_pieces w → bp ∉ w_pieces w' →
     ∃ k r, w_index w !! k = Some r ∧ bp = (ce_Backend r, ce_PieceID r) ∧
       probe (ce_TenantID r) (ce_PieceID r) = Ok false) ∧
  (∀ k r, w_index w !! k = Some r → probe (ce_TenantID r) (ce_PieceID r) ≠ Ok false →
     w_index w' !! k = Some r) ∧
  (∀ k r, w_index w' !! k = Some r →
     ∃ r0, w_index w !! k = Some r0 ∧ r = with_RefCount (ce_RefCount r) r0).
Proof.
  intros Hk w'. pose proof (safe_Sweep c w Hk) as Hs. split_and!.
  - intros bp Hin Hout. destruct (safe_removed _ _ Hs bp Hin Hout) as (k & r & ? & ? & ?). eauto.
  - intros k r Hr Hno. by apply (safe_kept _ _ Hs).
  - apply (safe_rows _ _ Hs).
Qed.

(** An orphan whose count is one, on a backend that deletes the piece, is
    collected by one sweep: the piece is gone and so is the row. *)
Theorem sweep_collects_orphan w e deletes :
  Index.keyed (w_index w) → w_index w !! (ce_TenantID e, ce_ContentHash e) = Some e →
  probe (ce_TenantID e) (ce_PieceID e) = Ok false → ce_RefCount e = 1 →
  Resolver (ce_Backend e) = Some deletes → deletes (ce_PieceID e) = true →
  (ce_Backend e, ce_PieceID e) ∉ w_pieces (Sweep None w).1.1 ∧
  w_index (Sweep None w).1.1 !! (ce_TenantID e, ce_ContentHash e) = None.
Proof.
  intros Hk Hrow Ho Hcnt Hres Hdel.
  destruct (Sweep_orphan w e deletes) as [Hp Hr]; try done; [rewrite Hcnt; lia|].
  split; [done|]. fold (key_of e). by rewrite Hr, Hcnt.
Qed.

(** An orphan whose count is two or more loses its piece but keeps its row:
    after one sweep the index still maps the content hash to a piece that the
    sweep itself deleted, with a positive count, so a later dedup PUT of the
    same content takes the hit path. *)
Theorem sweep_strands_shared_orphan w e deletes :
  Index.keyed (w_index w) → w_index w !! (ce_TenantID e, ce_ContentHash e) = Some e →
  probe (ce_TenantID e) (ce_PieceID e) = Ok false → 2 ≤ ce_RefCount e < 2 ^ 63 →
  Resolver (ce_Backend e) = Some deletes → deletes (ce_PieceID e) = true →
  ∃ e', Index.Lookup (w_index (Sweep None w).1.1) (ce_TenantID e) (ce_ContentHash e) = Ok e' ∧
    0 < ce_RefCount e' ∧ ce_PieceID e' = ce_PieceID e ∧ ce_Backend e' = ce_Backend e ∧
    (ce_Backend e', ce_PieceID e') ∉ w_pieces (Sweep None w).1.1.
Proof.
  intros Hk Hrow Ho Hcnt Hres Hdel.
  destruct (Sweep_orphan w e deletes) as [Hp Hr]; try done; [lia|].
  unfold Index.Lookup. fold (key_of e). rewrite Hr, (proj2 (Z.eqb_neq _ _)) by lia.
  eexists. split_and!; [done|simpl; lia|done..].
Qed.

End sweep.

Definition ex_entry (h p : string) (n : Z) : ContentIndexEntry :=
  mkContentIndexEntry "t1" h p "wasabi" n 10 "etag" [] "" 0.
Definition ex_world : World :=
  mkWorld (<[("t1", "h1") := ex_entry "h1" "p1" 1]> (<[("t1", "h2") := ex_entry "h2" "p2" 2]>
             (<[("t1", "h3") := ex_entry "h3" "p3" 1]> ∅)))
    {[("wasabi", "p1"); ("wasabi", "p2"); ("wasabi", "p3")]}.
Definition ex_probe (t p : string) : result store_error bool := Ok (bool_decide (p = "p3")).
Definition ex_resolver (b : string) : option (string → bool) :=
  if bool_decide (b = "wasabi") then Some (λ _, true) else None.

Lemma ex_world_keyed : Index.keyed (w_index ex_world).
Proof. repeat (apply Index.keyed_insert; [|reflexivity]). apply map_Forall_empty. Qed.

Lemma sweep_is_conservative_witness :
  w_index (Sweep ex_probe ex_resolver None ex_world).1.1 !! ("t1", "h3") =
    Some (ex_entry "h3" "p3" 1).
Proof.
  apply (sweep_is_conservative ex_probe ex_resolver None ex_world ex_world_keyed);
    [reflexivity|discriminate].
Defined.

Lemma sweep_collects_orphan_witness :
  ("wasabi", "p1") ∉ w_pieces (Sweep ex_probe ex_resolver None ex_world).1.1 ∧
  w_index (Sweep ex_probe ex_resolver None ex_world).1.1 !! ("t1", "h1") = None.
Proof.
  apply (sweep_collects_orphan ex_probe ex_resolver ex_world (ex_entry "h1" "p1" 1) (λ _, true)
    ex_world_keyed); reflexivity.
Defined.

Lemma sweep_strands_shared_orphan_witness :
  ∃ e', Index.Lookup (w_index (Sweep ex_probe ex_resolver None ex_world).1.1) "t1" "h2" = Ok e' ∧
    0 < ce_RefCount e' ∧ ce_PieceID e' = "p2" ∧ ce_Backend e' = "wasabi" ∧
    (ce_Backend e', ce_PieceID e') ∉ w_pieces (Sweep ex_probe ex_resolver None ex_world).1.1.
Proof.
  apply (sweep_strands_shared_orphan ex_probe ex_resolver ex_world (ex_entry "h2" "p2" 2) (λ _, true)
    ex_world_keyed); try reflexivity. simpl. lia.
Defined.

End Orphan.
