(* ===== verification/ObjectLock.v ===== *)
(** * Object Lock values (metadata/object_lock/object_lock.go and the pure
    helpers of api/s3compat/object_lock_handler.go)

    Retention modes, the bucket's default rule and its retain-until date, and
    the predicates the DELETE, PUT and retention handlers decide with. *)

From S2P Require Import Prelude Manifest.
Local Open Scope Z_scope.

(** ** Calendar arithmetic of [time.AddDate] in UTC *)

Definition day_ns : Z := 86400 * 1000000000.

(** Days from March 1 of year 0 to March 1 of year [y] (years that begin in
    March end with the leap day). *)
Definition days_to_march (y : Z) : Z := 365 * y + y / 4 - y / 100 + y / 400.

(** March-based year of a day number counted from January 1, 1970. *)
Definition march_year (d : Z) : Z :=
  let z := d + 719468 in
  let era := z / 146097 in
  let doe := z mod 146097 in
  (doe - doe / 1460 + doe / 36524 - doe / 146096) / 365 + era * 400.

(** A [time.Time] holds its seconds since year 1 as an int64, which wraps. *)
Definition wrap_time (t : Z) : Z :=
  zero_time + wrap64 ((t - zero_time) / 1000000000) * 1000000000 + (t - zero_time) mod 1000000000.

(** [t.AddDate(0, 0, n)] and [t.AddDate(n, 0, 0)]. Moving by whole years keeps
    month, day and time of day; a February 29 without counterpart becomes
    March 1, the day after the February that ends the March-based year. The
    year arithmetic of [time.Date] itself stays within 64 bits below 10^16
    years. *)
Definition AddDays (t n : Z) : Z := wrap_time (t + n * day_ns).
Definition AddYears (t n : Z) : Z :=
  let y := march_year (t / day_ns) in
  wrap_time (t + (days_to_march (y + n) - days_to_march y) * day_ns).

(** ** Values *)

Definition ModeGovernance : string := "GOVERNANCE".
Definition ModeCompliance : string := "COMPLIANCE".

(** [RetentionMode.Valid] *)
Definition Mode_Valid (m : string) : bool :=
  bool_decide (m = ModeGovernance) || bool_decide (m = ModeCompliance).

Definition LegalHoldOff : string := "OFF".
Definition LegalHoldOn : string := "ON".

(** [LegalHoldStatus.Valid] *)
Definition LegalHold_Valid (s : string) : bool :=
  bool_decide (s = LegalHoldOff) || bool_decide (s = LegalHoldOn).

Record LockConfig := mkLockConfig {
  lc_Enabled : bool;
  lc_DefaultMode : string;
  lc_DefaultDays : Z;
  lc_DefaultYears : Z
}.

Inductive lock_config_error :=
| DefaultOnDisabled
| DefaultModeInvalid
| DaysOrYears
| PeriodNotPositive.

(** [Config.Valid]; [None] is no error. *)
Definition LockConfig_Valid (c : LockConfig) : option lock_config_error :=
  let hasRule := negb (bool_decide (lc_DefaultMode c = "")) || negb (lc_DefaultDays c =? 0)
                 || negb (lc_DefaultYears c =? 0) in
  if negb (lc_Enabled c) then if hasRule then Some DefaultOnDisabled else None
  else if negb hasRule then None
  else if negb (Mode_Valid (lc_DefaultMode c)) then Some DefaultModeInvalid
  else if Bool.eqb (0 <? lc_DefaultDays c) (0 <? lc_DefaultYears c) then Some DaysOrYears
  else if (lc_DefaultDays c <? 0) || (lc_DefaultYears c <? 0) then Some PeriodNotPositive
  else None.

Definition HasDefaultRetention (c : LockConfig) : bool :=
  lc_Enabled c && Mode_Valid (lc_DefaultMode c)
  && ((0 <? lc_DefaultDays c) || (0 <? lc_DefaultYears c)).

Definition DefaultRetainUntil (c : LockConfig) (now : Z) : Z :=
  if 0 <? lc_DefaultDays c then AddDays now (lc_DefaultDays c)
  else AddYears now (lc_DefaultYears c).

Record Retention := mkRetention {
  ret_Mode : string;
  ret_RetainUntil : Z
}.

Definition Active (r : Retention) (now : Z) : bool :=
  Mode_Valid (ret_Mode r) && After (ret_RetainUntil r) now.

Inductive retention_error := ModeInvalid | RetainUntilRequired.

(** [Retention.Valid] *)
Definition Retention_Valid (r : Retention) : option retention_error :=
  if negb (Mode_Valid (ret_Mode r)) then Some ModeInvalid
  else if IsZero (ret_RetainUntil r) then Some RetainUntilRequired
  else None.

(** ** Helpers of the handlers *)

Definition manifestRetention (m : ObjectManifest) : Retention :=
  mkRetention (m_RetentionMode m) (m_RetainUntil m).

Definition objectLockBlocksDelete (m : ObjectManifest) (now : Z) (bypassGovernance : bool) : bool :=
  if m_LegalHold m then true
  else
    let ret := manifestRetention m in
    if negb (Active ret now) then false
    else if bool_decide (ret_Mode ret = ModeGovernance) && bypassGovernance then false
    else true.

Definition weakensRetention (cur next : Retention) : bool :=
  if negb (Mode_Valid (ret_Mode next)) then true
  else if bool_decide (ret_Mode cur = ModeCompliance) && bool_decide (ret_Mode next = ModeGovernance)
  then true
  else Before (ret_RetainUntil next) (ret_RetainUntil cur).

(** [applyDefaultObjectLockRetention], with [cfg] the answer of the bucket
    configuration store: [None] when the gateway has none, an error, or the
    bucket's configuration. *)
Definition applyDefaultObjectLockRetention (cfg : option (result unit LockConfig)) (now : Z)
    (m : ObjectManifest) : result unit ObjectManifest :=
  match cfg with
  | None => Ok m
  | Some cfg =>
      if m_DeleteMarker m then Ok m
      else if negb (bool_decide (m_RetentionMode m = "")) then Ok m
      else match cfg with
           | Err e => Err e
           | Ok c =>
               if negb (HasDefaultRetention c) then Ok m
               else Ok (set_retention (lc_DefaultMode c) (DefaultRetainUntil c now) m)
           end
  end.

(** ** Facts *)

Definition in_time_range (t : Z) : Prop := - 2 ^ 63 ≤ (t - zero_time) / 1000000000 < 2 ^ 63.

Lemma wrap_time_id t : in_time_range t → wrap_time t = t.
Proof.
  intros H. unfold wrap_time. rewrite wrap64_id by (unfold is_int64; apply H).
  pose proof (Z.div_mod (t - zero_time) 1000000000). lia.
Qed.

Lemma in_time_range_le a b t : in_time_range a → in_time_range b → a ≤ t ≤ b → in_time_range t.
Proof.
  unfold in_time_range. intros Ha Hb Ht.
  pose proof (Z.div_le_mono (a - zero_time) (t - zero_time) 1000000000).
  pose proof (Z.div_le_mono (t - zero_time) (b - zero_time) 1000000000). lia.
Qed.

(** A default rule of days that a clock can represent reaches past the moment
    it is applied. *)
Lemma DefaultRetainUntil_after c now :
  HasDefaultRetention c = true → 0 < lc_DefaultDays c →
  in_time_range (now + lc_DefaultDays c * day_ns) → now < DefaultRetainUntil c now.
Proof.
  intros _ Hd Hr. unfold DefaultRetainUntil. rewrite (proj2 (Z.ltb_lt _ _) Hd). unfold AddDays.
  rewrite wrap_time_id by done. unfold day_ns. lia.
Qed.

Lemma Active_true r now : Active r now = true ↔ Mode_Valid (ret_Mode r) = true ∧ now < ret_RetainUntil r.
Proof. unfold Active, After. by rewrite andb_true_iff, Z.ltb_lt. Qed.

Lemma objectLockBlocksDelete_compliance m now bypass :
  m_RetentionMode m = ModeCompliance → now < m_RetainUntil m →
  objectLockBlocksDelete m now bypass = true.
Proof.
  intros Hm Ht. unfold objectLockBlocksDelete. destruct (m_LegalHold m); [done|].
  assert (Active (manifestRetention m) now = true) as ->.
  { apply Active_true. simpl. by rewrite Hm. }
  simpl. by rewrite Hm.
Qed.

(** A retention the guard lets through over an active COMPLIANCE one is
    COMPLIANCE too and does not end earlier. *)
Lemma not_weakens_compliance cur next :
  ret_Mode cur = ModeCompliance → weakensRetention cur next = false →
  ret_Mode next = ModeCompliance ∧ ret_RetainUntil cur ≤ ret_RetainUntil next.
Proof.
  intros Hc. unfold weakensRetention, Mode_Valid, Before. rewrite Hc. simpl.
  destruct (decide (ret_Mode next = ModeCompliance)) as [->|Hn].
  - simpl. intros ?%Z.ltb_ge. done.
  - rewrite (bool_decide_eq_false_2 _ Hn), orb_false_r.
    destruct (bool_decide (ret_Mode next = ModeGovernance)); done.
Qed.
