(* ===== verification/ErasureCoding.v ===== *)
(** * The erasure-coding encoder

    [metadata/erasure_coding]: profiles, striping, padding and the length header
    around a Reed-Solomon codec. The codec is a third-party library and a
    parameter ([RSCodec]) with its documented contract ([RSCodecLaws]): parity is
    computed beside unchanged data shards, and the data shards of a stripe are
    recovered from any [k] of its shards. *)

From S2P Require Import Prelude Bytes.
Local Open Scope Z_scope.

(** [ErasureCodingProfile] *)
Record ErasureCodingProfile := mkErasureCodingProfile {
  ep_Name : string;
  ep_DataShards : Z;
  ep_ParityShards : Z;
  ep_StripeSize : Z
}.

Definition Profile6Plus2 := mkErasureCodingProfile "6+2" 6 2 (4 * 1024 * 1024).
Definition Profile8Plus3 := mkErasureCodingProfile "8+3" 8 3 (4 * 1024 * 1024).
Definition Profile10Plus4 := mkErasureCodingProfile "10+4" 10 4 (4 * 1024 * 1024).
Definition Profile12Plus4 := mkErasureCodingProfile "12+4" 12 4 (4 * 1024 * 1024).
Definition Profile16Plus4 := mkErasureCodingProfile "16+4" 16 4 (4 * 1024 * 1024).

Definition StandardProfiles : list ErasureCodingProfile :=
  [Profile6Plus2; Profile8Plus3; Profile10Plus4; Profile12Plus4; Profile16Plus4].

Definition TotalShards (p : ErasureCodingProfile) : Z := ep_DataShards p + ep_ParityShards p.

Inductive profile_error := NameRequired | DataShardsInvalid | ParityShardsInvalid | StripeSizeInvalid.

(** [ErasureCodingProfile.Validate]; [None] is nil. *)
Definition Profile_Validate (p : ErasureCodingProfile) : option profile_error :=
  if bool_decide (ep_Name p = "") then Some NameRequired
  else if ep_DataShards p <=? 0 then Some DataShardsInvalid
  else if ep_ParityShards p <=? 0 then Some ParityShardsInvalid
  else if ep_StripeSize p <=? 0 then Some StripeSizeInvalid
  else None.

(** [Shard] *)
Inductive ShardKind := ShardKindData | ShardKindParity.

Record Shard := mkShard {
  sh_StripeIndex : Z;
  sh_ShardIndex : Z;
  sh_Kind : ShardKind;
  sh_Bytes : bytes
}.

(** [github.com/klauspost/reedsolomon]: whether [New] accepts the shape, [Encode]
    and [ReconstructData] of a codec with [k] data and [m] parity shards. A
    missing shard is an empty slice. *)
Class RSCodec := {
  rs_New : Z → Z → bool;
  rs_Encode : Z → Z → list bytes → option (list bytes);
  rs_ReconstructData : Z → Z → list bytes → option (list bytes)
}.

(** Present shards of a stripe. *)
Definition present (stripe : list bytes) : Z := blen (filter (λ b, b ≠ []) stripe).

(** The contract. All shards of a stripe have the same, positive size. *)
Class RSCodecLaws `{RSCodec} := {
  rs_New_bound k m : rs_New k m = true → k + m ≤ 65536;
  rs_Encode_ok k m n shards :
    rs_New k m = true → 0 < n →
    blen shards = k + m → Forall (λ b, blen b = n) shards →
    ∃ out, rs_Encode k m shards = Some out ∧ blen out = k + m ∧ Forall (λ b, blen b = n) out ∧
      take (Z.to_nat k) out = take (Z.to_nat k) shards;
  rs_ReconstructData_ok k m n shards out stripe :
    rs_New k m = true → 0 < n →
    blen shards = k + m → Forall (λ b, blen b = n) shards → rs_Encode k m shards = Some out →
    Forall2 (λ b b', b = [] ∨ b = b') stripe out → k ≤ present stripe →
    ∃ stripe', rs_ReconstructData k m stripe = Some stripe' ∧
      take (Z.to_nat k) stripe' = take (Z.to_nat k) out
}.

Module EC.

(** [stripes]: stripe index to its slots, an empty slot being a missing shard. *)
Abbreviation stripe_map := (gmap Z (list bytes)).

Section encoder.
Context `{RSCodec}.

(** [Encoder]; the codec is that of the profile's shape. *)
Record Encoder := mkEncoder {
  en_profile : ErasureCodingProfile;
  en_shardSize : Z
}.

Inductive ec_error :=
| InvalidProfile (e : profile_error)
| CodecRefused
| RsEncodeFailed (stripe : Z)
| NoShards
| ShardIndexOutOfRange (i : Z)
| ShardSizeMismatch (stripe shard : Z)
| MissingStripe (stripe : Z)
| TooFewShards (stripe have : Z)
| ReconstructFailed (stripe : Z)
| TooShort
| LengthExceedsBuffer
| SliceBoundsPanic            (* a run-time panic, not an error value *)
| BadStripeCount
| ReadFailed (stripe shard : Z).

Definition NewEncoder (p : ErasureCodingProfile) : result ec_error Encoder :=
  match Profile_Validate p with
  | Some e => Err (InvalidProfile e)
  | None =>
      if negb (rs_New (ep_DataShards p) (ep_ParityShards p)) then Err CodecRefused
      else Ok (mkEncoder p
        (Z.quot (wrap64 (wrap64 (ep_StripeSize p + ep_DataShards p) - 1)) (ep_DataShards p)))
  end.

Definition ShardSize (e : Encoder) : Z := en_shardSize e.
Definition StripeLength (e : Encoder) : Z := wrap64 (en_shardSize e * ep_DataShards (en_profile e)).

Definition objectHeaderSize : Z := 8.

(** The shards of one stripe handed to the codec: slices of the stripe, then
    zeroed parity. *)
Definition stripe_shards (e : Encoder) (stripe : bytes) : list bytes :=
  let sz := en_shardSize e in
  ((λ i, slice (i * sz) ((i + 1) * sz) stripe) <$> seqZ 0 (ep_DataShards (en_profile e))) ++
  replicate (Z.to_nat (ep_ParityShards (en_profile e))) (replicate (Z.to_nat sz) zero_byte).

Definition stripe_of (e : Encoder) (framed : bytes) (s : Z) : bytes :=
  let stripeLen := StripeLength e in
  let start := s * stripeLen in
  let end_ := if blen framed <? start + stripeLen then blen framed else start + stripeLen in
  make_copy stripeLen (slice start end_ framed).

(** One iteration of the loop of [Encode]. *)
Definition encode_stripe (e : Encoder) (framed : bytes) (s : Z) : result ec_error (list Shard) :=
  let k := ep_DataShards (en_profile e) in
  match rs_Encode k (ep_ParityShards (en_profile e)) (stripe_shards e (stripe_of e framed s)) with
  | None => Err (RsEncodeFailed s)
  | Some shards =>
      Ok (imap (λ i shard,
            let i := Z.of_nat i in
            mkShard s i (if k <=? i then ShardKindParity else ShardKindData)
              (make_copy (en_shardSize e) shard)) shards)
  end.

Fixpoint encode_stripes (e : Encoder) (framed : bytes) (ss : list Z) : result ec_error (list Shard) :=
  match ss with
  | [] => Ok []
  | s :: ss =>
      match encode_stripe e framed s with
      | Err x => Err x
      | Ok out =>
          match encode_stripes e framed ss with Err x => Err x | Ok rest => Ok (out ++ rest) end
      end
  end.

Definition frame (body : bytes) : bytes := PutUint64 (blen body) ++ body.

Definition num_stripes (e : Encoder) (framed : bytes) : Z :=
  let n := (blen framed + StripeLength e - 1) / StripeLength e in
  if n =? 0 then 1 else n.

Definition Encode (e : Encoder) (body : bytes) : result ec_error (list Shard) :=
  let framed := frame body in
  encode_stripes e framed (seqZ 0 (num_stripes e framed)).

(** ** Decode *)

Fixpoint group_shards (e : Encoder) (shards : list Shard) (stripes : stripe_map)
    : result ec_error stripe_map :=
  match shards with
  | [] => Ok stripes
  | sh :: shards =>
      let total := TotalShards (en_profile e) in
      if (sh_ShardIndex sh <? 0) || (total <=? sh_ShardIndex sh)
      then Err (ShardIndexOutOfRange (sh_ShardIndex sh))
      else
        let stripe := default (replicate (Z.to_nat total) []) (stripes !! sh_StripeIndex sh) in
        let stripes := <[sh_StripeIndex sh := stripe]> stripes in
        if blen (sh_Bytes sh) =? 0 then group_shards e shards stripes
        else if negb (blen (sh_Bytes sh) =? en_shardSize e)
        then Err (ShardSizeMismatch (sh_StripeIndex sh) (sh_ShardIndex sh))
        else
          let b := make_copy (en_shardSize e) (sh_Bytes sh) in
          group_shards e shards
            (<[sh_StripeIndex sh := <[Z.to_nat (sh_ShardIndex sh) := b]> stripe]> stripes)
  end.

(** One stripe: the data shards, rebuilt when some shard is missing. *)
Definition decode_stripe (e : Encoder) (s : Z) (stripe : list bytes) : result ec_error bytes :=
  let k := ep_DataShards (en_profile e) in
  let m := ep_ParityShards (en_profile e) in
  if present stripe <? k then Err (TooFewShards s (present stripe))
  else if present stripe <? TotalShards (en_profile e) then
    match rs_ReconstructData k m stripe with
    | None => Err (ReconstructFailed s)
    | Some stripe => Ok (concat (take (Z.to_nat k) stripe))
    end
  else Ok (concat (take (Z.to_nat k) stripe)).

Fixpoint decode_stripes (e : Encoder) (stripes : stripe_map) (ss : list Z) : result ec_error bytes :=
  match ss with
  | [] => Ok []
  | s :: ss =>
      match stripes !! s with
      | None => Err (MissingStripe s)
      | Some stripe =>
          match decode_stripe e s stripe with
          | Err x => Err x
          | Ok b =>
              match decode_stripes e stripes ss with Err x => Err x | Ok rest => Ok (b ++ rest) end
          end
      end
  end.

(** The end of [Decode]: strip the header and the padding. The sum is a
    [uint64]; slicing with an end below the start panics. *)
Definition unframe (framed : bytes) : result ec_error bytes :=
  if blen framed <? objectHeaderSize then Err TooShort
  else
    let plaintextLen := Uint64 (slice 0 objectHeaderSize framed) in
    let end_ := wrapu64 (objectHeaderSize + plaintextLen) in
    if blen framed <? end_ then Err LengthExceedsBuffer
    else if end_ <? objectHeaderSize then Err SliceBoundsPanic
    else Ok (slice objectHeaderSize end_ framed).

Definition Decode (e : Encoder) (shards : list Shard) : result ec_error bytes :=
  if blen shards =? 0 then Err NoShards
  else match group_shards e shards ∅ with
       | Err x => Err x
       | Ok stripes =>
           match decode_stripes e stripes (seqZ 0 (Z.of_nat (size stripes))) with
           | Err x => Err x
           | Ok framed => unframe framed
           end
       end.

(** ** DecodeReader: a reader is nil, or what reading it to the end returns *)

Abbreviation reader := (option (result unit bytes)).

Fixpoint read_slots (e : Encoder) (s i : Z) (rs : list reader) : result ec_error (list Shard) :=
  match rs with
  | [] => Ok []
  | r :: rs =>
      match r with
      | Some (Err _) => Err (ReadFailed s i)
      | _ =>
          let body := match r with Some (Ok b) => b | _ => [] end in
          let kind := if ep_DataShards (en_profile e) <=? i then ShardKindParity else ShardKindData in
          match read_slots e s (i + 1) rs with
          | Err x => Err x
          | Ok rest => Ok (mkShard s i kind body :: rest)
          end
      end
  end.

Fixpoint read_stripes (e : Encoder) (s : Z) (rss : list (list reader)) : result ec_error (list Shard) :=
  match rss with
  | [] => Ok []
  | rs :: rss =>
      if negb (blen rs =? TotalShards (en_profile e)) then Err BadStripeCount
      else match read_slots e s 0 rs with
           | Err x => Err x
           | Ok out =>
               match read_stripes e (s + 1) rss with
               | Err x => Err x
               | Ok rest => Ok (out ++ rest)
               end
           end
  end.

Definition DecodeReader (e : Encoder) (numStripes : Z) (shardReaders : list (list reader))
    : result ec_error bytes :=
  if numStripes <=? 0 then Err BadStripeCount
  else if negb (blen shardReaders =? numStripes) then Err BadStripeCount
  else match read_stripes e 0 shardReaders with
       | Err x => Err x
       | Ok shards => Decode e shards
       end.

(** ** Registry *)

Abbreviation Registry := (gmap string Encoder).

Definition NewRegistry : Registry := ∅.

Definition Registry_Register (p : ErasureCodingProfile) (r : Registry) : result ec_error Registry :=
  match NewEncoder p with Err x => Err x | Ok enc => Ok (<[ep_Name p := enc]> r) end.

Definition Registry_Lookup (name : string) (r : Registry) : option Encoder := r !! name.

Definition DefaultRegistry : Registry :=
  foldl (λ r p, match Registry_Register p r with Ok r' => r' | Err _ => r end) NewRegistry
    StandardProfiles.

End encoder.

(** ** Proofs *)

Section proofs.
Context {C : RSCodec} {CL : @RSCodecLaws C} (p : ErasureCodingProfile) (e : Encoder).
Hypothesis Hnew : NewEncoder p = Ok e.
Hypothesis Hstripe : ep_StripeSize p + ep_DataShards p ≤ 2 ^ 63.

Notation k := (ep_DataShards p).
Notation m := (ep_ParityShards p).
Notation sz := (en_shardSize e).

Lemma new_facts :
  en_profile e = p ∧ 0 < k ∧ 0 < m ∧ 0 < ep_StripeSize p ∧ rs_New k m = true ∧
  sz = (ep_StripeSize p + k - 1) / k.
Proof using Hnew Hstripe.
  unfold NewEncoder, Profile_Validate in Hnew.
  destruct (bool_decide _); [done|]. destruct (k <=? 0) eqn:Hk; [done|].
  destruct (m <=? 0) eqn:Hm; [done|]. destruct (ep_StripeSize p <=? 0) eqn:Hs; [done|].
  destruct (negb _) eqn:Hrs; [done|]. bool_facts. injection Hnew as <-. simpl.
  assert (wrap64 (wrap64 (ep_StripeSize p + k) - 1) = ep_StripeSize p + k - 1) as ->.
  { destruct (decide (ep_StripeSize p + k = 2 ^ 63)) as [->|]; [reflexivity|].
    rewrite !wrap64_id; unfold is_int64; rewrite ?wrap64_id; unfold is_int64; lia. }
  split_and!; try done. apply Z.quot_div_nonneg; lia.
Qed.

Lemma sz_pos : 0 < sz.
Proof using Hnew Hstripe.
  destruct new_facts as (_ & ? & _ & ? & _ & ->). apply Z.div_str_pos. lia.
Qed.

Lemma StripeLength_eq : StripeLength e = sz * k.
Proof using Hnew Hstripe.
  destruct new_facts as (He & ? & _ & ? & _ & Hsz). unfold StripeLength. rewrite He.
  pose proof (Z.mul_div_le (ep_StripeSize p + k - 1) k ltac:(lia)).
  pose proof sz_pos. rewrite wrap64_id; [done|]. unfold is_int64. rewrite Hsz in *. nia.
Qed.

Section body.
Context (body : bytes).

Notation framed := (frame body).
Notation n := (num_stripes e (frame body)).
Notation Ln := (Z.to_nat (sz * k)).

Lemma blen_framed : blen framed = blen body + 8.
Proof. unfold frame, blen. rewrite length_app, length_PutUint64. lia. Qed.

Lemma num_stripes_bounds : 0 < n ∧ (n - 1) * (sz * k) < blen framed ≤ n * (sz * k).
Proof using Hnew Hstripe.
  pose proof sz_pos. destruct new_facts as (_ & ? & _).
  pose proof blen_framed as Hf. assert (0 ≤ blen body) by (unfold blen; lia).
  unfold num_stripes. rewrite StripeLength_eq. set (L := sz * k) in *. assert (0 < L) by (unfold L; nia).
  pose proof (Z.div_mod (blen framed + L - 1) L ltac:(lia)).
  pose proof (Z.mod_pos_bound (blen framed + L - 1) L ltac:(lia)).
  destruct (_ =? 0) eqn:Hz; bool_facts; nia.
Qed.

(** What the stripes cover: the framed body and zeros up to a whole number of
    stripes. *)
Definition padded : bytes :=
  framed ++ replicate (Z.to_nat (n * (sz * k)) - length framed) zero_byte.

Lemma length_padded : length padded = (Z.to_nat n * Ln)%nat.
Proof using Hnew Hstripe.
  destruct num_stripes_bounds as (? & ? & ?). pose proof sz_pos. destruct new_facts as (_ & ? & _).
  unfold padded, blen in *. rewrite length_app, length_replicate, <- Z2Nat.inj_mul by nia. lia.
Qed.

Lemma stripe_of_chunk s : 0 ≤ s < n → stripe_of e framed s = chunk Ln (Z.to_nat s) padded.
Proof using Hnew Hstripe.
  intros Hs. destruct num_stripes_bounds as (Hn & Hlo & Hhi). pose proof sz_pos.
  destruct new_facts as (_ & Hk & _). unfold stripe_of. rewrite StripeLength_eq.
  set (L := sz * k) in *. assert (0 < L) by (unfold L; nia).
  assert (s * L < blen framed) by nia.
  assert (Z.to_nat (s * L) = Z.to_nat s * Z.to_nat L)%nat as Hmul by (rewrite Z2Nat.inj_mul; lia).
  unfold padded. rewrite chunk_pad; [|unfold blen in *; nia..].
  unfold make_copy.
  assert (slice (s * L) (if blen framed <? s * L + L then blen framed else s * L + L) framed =
    chunk (Z.to_nat L) (Z.to_nat s) framed) as ->.
  { unfold slice, chunk. rewrite Hmul. destruct (_ <? _) eqn:Hlt; bool_facts.
    - rewrite !take_ge; [done|..]; rewrite length_drop; unfold blen in *; lia.
    - do 2 f_equal. lia. }
  rewrite take_ge; [done|]. unfold chunk. rewrite length_take. lia.
Qed.

(** The data shards are the chunks of the stripe. *)
Lemma stripe_shards_take stripe :
  take (Z.to_nat k) (stripe_shards e stripe) =
    (λ i, chunk (Z.to_nat sz) i stripe) <$> seq 0 (Z.to_nat k).
Proof using Hnew Hstripe.
  destruct new_facts as (He & Hk & _). pose proof sz_pos. unfold stripe_shards. rewrite He.
  rewrite take_app_length' by (rewrite length_fmap, length_seqZ; done).
  unfold seqZ. rewrite <- list_fmap_compose. apply list_fmap_ext. intros j i _. simpl.
  unfold slice, chunk. f_equal; [lia|]. f_equal. nia.
Qed.

Lemma stripe_shards_ok stripe :
  length stripe = Ln →
  blen (stripe_shards e stripe) = k + m ∧ Forall (λ b, blen b = sz) (stripe_shards e stripe).
Proof using Hnew Hstripe.
  intros Hlen. destruct new_facts as (He & Hk & Hm & _). pose proof sz_pos. split.
  - unfold stripe_shards, blen. rewrite He, length_app, length_fmap, length_seqZ, length_replicate. lia.
  - unfold stripe_shards. rewrite He. apply Forall_app. split.
    + apply Forall_fmap, Forall_forall. intros i [? ?]%elem_of_seqZ. simpl. unfold slice, blen.
      rewrite length_take, length_drop. nia.
    + apply Forall_replicate. unfold blen. rewrite length_replicate. lia.
Qed.

(** What the codec makes of stripe [s]. *)
Definition coded (s : Z) (full : list bytes) : Prop :=
  0 ≤ s < n ∧ rs_Encode k m (stripe_shards e (stripe_of e framed s)) = Some full.

Lemma stripe_of_length s : 0 ≤ s < n → length (stripe_of e framed s) = Ln.
Proof using Hnew Hstripe.
  intros Hs. rewrite stripe_of_chunk by done. apply length_chunk. rewrite length_padded.
  apply Nat.mul_le_mono_r. lia.
Qed.

Lemma coded_ok s :
  0 ≤ s < n → ∃ full, coded s full ∧ blen full = k + m ∧ Forall (λ b, blen b = sz) full ∧
    concat (take (Z.to_nat k) full) = chunk Ln (Z.to_nat s) padded.
Proof using Hnew Hstripe CL.
  intros Hs. pose proof (stripe_of_length s Hs) as Hlen.
  destruct (stripe_shards_ok _ Hlen) as [Hbl Hall].
  destruct new_facts as (He & Hk & Hm & _ & Hrs & _). pose proof sz_pos.
  destruct (rs_Encode_ok k m sz _ Hrs ltac:(done) Hbl Hall) as (full & Henc & Hlf & Hf & Htake).
  exists full. split_and!; [done..|]. rewrite Htake, stripe_shards_take, concat_chunks.
  rewrite take_ge by (rewrite Hlen; nia). by apply stripe_of_chunk.
Qed.

(** ** Encoding succeeds *)

Lemma encode_stripe_ok s :
  0 ≤ s < n → ∃ full out, coded s full ∧ encode_stripe e framed s = Ok out ∧
    blen out = k + m ∧ Forall (λ sh, sh_StripeIndex sh = s ∧
      ∃ i, sh_ShardIndex sh = Z.of_nat i ∧ full !! i = Some (sh_Bytes sh)) out.
Proof using Hnew Hstripe CL.
  intros Hs. destruct (coded_ok s Hs) as (full & Hc & Hlen & Hall & _). exists full.
  destruct new_facts as (He & _). unfold encode_stripe. rewrite He. pose proof Hc as [_ ->].
  eexists. split_and!; [done|reflexivity|unfold blen in *; by rewrite length_imap|].
  apply Forall_lookup. intros j sh Hj. apply list_lookup_imap_Some in Hj as (b & Hb & ->). simpl. split; [done|].
  exists j. rewrite make_copy_same; [done|]. by eapply Forall_lookup_1 in Hall.
Qed.

(** A shard that carries the bytes of its slot. *)
Definition genuine (sh : Shard) : Prop :=
  ∃ full i, coded (sh_StripeIndex sh) full ∧ sh_ShardIndex sh = Z.of_nat i ∧
    full !! i = Some (sh_Bytes sh).

Lemma encode_stripes_ok ss :
  Forall (λ s, 0 ≤ s < n) ss →
  ∃ out, encode_stripes e framed ss = Ok out ∧ blen out = blen ss * (k + m) ∧ Forall genuine out.
Proof using Hnew Hstripe CL.
  induction 1 as [|s ss Hs Hss IH]; [by exists []|]. destruct IH as (rest & Hr & Hlr & Hgr).
  destruct (encode_stripe_ok s Hs) as (full & out & Hc & Ho & Hlo & Hgo).
  exists (out ++ rest). simpl. rewrite Ho, Hr. split_and!; [done| |].
  - unfold blen in *. rewrite length_app. simpl. lia.
  - apply Forall_app. split; [|done]. eapply Forall_impl; [exact Hgo|].
    intros sh (<- & i & ? & ?). by exists full, i.
Qed.

Lemma Encode_ok :
  ∃ out, Encode e body = Ok out ∧ blen out = n * (k + m) ∧ Forall genuine out.
Proof using Hnew Hstripe CL.
  destruct (encode_stripes_ok (seqZ 0 n)) as (out & Ho & Hl & Hg).
  - apply Forall_seqZ. intros. lia.
  - exists out. split_and!; [done| |done]. rewrite Hl. unfold blen at 1. rewrite length_seqZ.
    destruct num_stripes_bounds. lia.
Qed.

(** ** Grouping *)

(** The slots of a stripe hold the bytes of the code or nothing. *)
Definition slots (s : Z) (st : list bytes) : Prop :=
  ∃ full, coded s full ∧ Forall2 (λ b b', b = [] ∨ b = b') st full.

Definition filled (st : list bytes) (i : Z) : Prop := ∃ b, st !! Z.to_nat i = Some b ∧ b ≠ [].

(** A shard as [Decode] may receive it: missing, or with the bytes of its slot. *)
Definition acceptable (sh : Shard) : Prop :=
  0 ≤ sh_ShardIndex sh < k + m ∧ 0 ≤ sh_StripeIndex sh < n ∧ (sh_Bytes sh = [] ∨ genuine sh).

Definition arrived (received : list Shard) (s i : Z) : bool :=
  existsb (λ sh, (sh_StripeIndex sh =? s) && (sh_ShardIndex sh =? i) && negb (blen (sh_Bytes sh) =? 0))
    received.

Lemma coded_functional s full full' : coded s full → coded s full' → full = full'.
Proof. intros [_ H1] [_ H2]. congruence. Qed.

Lemma slots_fresh s : 0 ≤ s < n → slots s (replicate (Z.to_nat (k + m)) []).
Proof using Hnew Hstripe CL.
  intros Hs. destruct (coded_ok s Hs) as (full & Hc & Hlen & _). exists full. split; [done|].
  apply Forall2_same_length_lookup_2; [rewrite length_replicate; unfold blen in Hlen; lia|].
  intros i b b' [-> _]%lookup_replicate _. by left.
Qed.

Lemma slots_insert s st i b full :
  slots s st → coded s full → full !! i = Some b → slots s (<[i := b]> st).
Proof.
  intros (full' & Hc' & Hst) Hc Hb. rewrite (coded_functional _ _ _ Hc' Hc) in Hst.
  exists full. split; [done|]. rewrite <- (list_insert_id full i b) by done.
  apply Forall2_insert; [done|by right].
Qed.

Definition group_wf (stripes : stripe_map) : Prop := map_Forall slots stripes.

(** One step of the grouping loop. *)
Lemma group_step sh stripes :
  acceptable sh → group_wf stripes →
  ∃ st, group_wf (<[sh_StripeIndex sh := st]> stripes) ∧
    (∀ st0 i, stripes !! sh_StripeIndex sh = Some st0 → filled st0 i → filled st i) ∧
    (arrived [sh] (sh_StripeIndex sh) (sh_ShardIndex sh) = true → filled st (sh_ShardIndex sh)) ∧
    ∀ rest, group_shards e (sh :: rest) stripes =
      group_shards e rest (<[sh_StripeIndex sh := st]> stripes).
Proof using Hnew Hstripe CL.
  intros (Hi & Hs & Hb) Hwf. destruct new_facts as (He & Hk & Hm & _).
  set (st0 := default (replicate (Z.to_nat (k + m)) []) (stripes !! sh_StripeIndex sh)).
  assert (slots (sh_StripeIndex sh) st0) as Hst0.
  { unfold st0. destruct (stripes !! _) eqn:E; [by apply (Hwf _ _ E)|]. by apply slots_fresh. }
  assert (∀ rest, group_shards e (sh :: rest) stripes =
    if blen (sh_Bytes sh) =? 0 then group_shards e rest (<[sh_StripeIndex sh := st0]> stripes)
    else if negb (blen (sh_Bytes sh) =? sz)
    then Err (ShardSizeMismatch (sh_StripeIndex sh) (sh_ShardIndex sh))
    else group_shards e rest (<[sh_StripeIndex sh :=
      <[Z.to_nat (sh_ShardIndex sh) := make_copy sz (sh_Bytes sh)]> st0]>
      (<[sh_StripeIndex sh := st0]> stripes))) as Hgrp.
  { intros rest. simpl. rewrite He. unfold TotalShards.
    rewrite (proj2 (Z.ltb_ge (sh_ShardIndex sh) 0)), (proj2 (Z.leb_gt (k + m) (sh_ShardIndex sh))) by lia.
    done. }
  destruct (blen (sh_Bytes sh) =? 0) eqn:Hz.
  - exists st0. split_and!; [by apply map_Forall_insert_2| | |done].
    + intros st1 i Hst1 Hf. unfold st0. by rewrite Hst1.
    + unfold arrived. simpl. rewrite Hz. simpl. by rewrite andb_false_r.
  - bool_facts. destruct Hb as [Hb|(full & i & Hc & Hidx & Hfull)]; [by destruct Hz; rewrite Hb|].
    destruct (coded_ok _ Hs) as (full' & Hc' & Hlen & Hall & _).
    rewrite (coded_functional _ _ _ Hc' Hc) in *.
    pose proof (Forall_lookup_1 _ _ _ _ Hall Hfull) as Hsz. simpl in Hsz.
    rewrite Hsz, Z.eqb_refl in Hgrp. simpl negb in Hgrp. rewrite make_copy_same in Hgrp by done.
    rewrite Hidx, Nat2Z.id in *.
    exists (<[i := sh_Bytes sh]> st0). split_and!.
    + apply map_Forall_insert_2; [|done]. by apply (slots_insert _ st0 i _ full).
    + intros st1 j Hst1 (b & Hj & Hne). unfold filled, st0. rewrite Hst1. simpl.
      destruct (decide (i = Z.to_nat j)) as [->|].
      * rewrite list_lookup_insert_eq by (eapply lookup_lt_Some; exact Hj). eexists. split; [done|].
        intros Hnil. by destruct Hz; rewrite Hnil.
      * rewrite list_lookup_insert_ne by done. eauto.
    + intros _. exists (sh_Bytes sh). rewrite Nat2Z.id, list_lookup_insert_eq.
      * split; [done|]. intros Hnil. by destruct Hz; rewrite Hnil.
      * destruct Hst0 as (full2 & Hc2 & Hst2%Forall2_length). rewrite Hst2.
        rewrite (coded_functional _ _ _ Hc2 Hc). by eapply lookup_lt_Some.
    + intros rest. rewrite Hgrp. by rewrite insert_insert_eq.
Qed.

Lemma arrived_cons sh received s i :
  arrived (sh :: received) s i = arrived [sh] s i || arrived received s i.
Proof. unfold arrived. simpl. by rewrite orb_false_r. Qed.

Lemma arrived_single sh s i :
  arrived [sh] s i = true →
  sh_StripeIndex sh = s ∧ sh_ShardIndex sh = i ∧
  arrived [sh] (sh_StripeIndex sh) (sh_ShardIndex sh) = true.
Proof.
  intros Ha. pose proof Ha as Ha'. unfold arrived in Ha'. simpl in Ha'. rewrite orb_false_r in Ha'.
  bool_facts. by subst.
Qed.

Lemma group_ok received stripes :
  Forall acceptable received → group_wf stripes →
  ∃ stripes', group_shards e received stripes = Ok stripes' ∧ group_wf stripes' ∧
    (∀ s, is_Some (stripes' !! s) ↔
       is_Some (stripes !! s) ∨ ∃ sh, sh ∈ received ∧ sh_StripeIndex sh = s) ∧
    (∀ s st0 i, stripes !! s = Some st0 → filled st0 i →
       ∃ st, stripes' !! s = Some st ∧ filled st i) ∧
    (∀ s i, arrived received s i = true → ∃ st, stripes' !! s = Some st ∧ filled st i).
Proof using Hnew Hstripe CL.
  intros Hacc. revert stripes. induction Hacc as [|sh received Hsh Hacc IH]; intros stripes Hwf.
  { exists stripes. split_and!; try done; [|eauto]. intros s. split; [by left|].
    intros [?|(sh & Hin & _)]; [done|]. by apply elem_of_nil in Hin. }
  destruct (group_step sh stripes Hsh Hwf) as (st & Hwf' & Hold & Hnew' & Hgrp).
  destruct (IH _ Hwf') as (stripes' & Hg & Hwf'' & Hdom & Hkeep & Harr).
  exists stripes'. rewrite Hgrp. split_and!; [done..| | |].
  - intros s. rewrite Hdom. destruct (decide (sh_StripeIndex sh = s)) as [<-|Hne].
    + rewrite lookup_insert_eq. split; [|by intros _; left].
      intros _. right. exists sh. split; [apply elem_of_cons; by left|done].
    + rewrite lookup_insert_ne by done. split.
      * intros [?|(sh' & ? & ?)]; [by left|right]. exists sh'. by rewrite elem_of_cons; auto.
      * intros [?|(sh' & [->|Hin]%elem_of_cons & ?)]; [by left|done|right; eauto].
  - intros s st0 i Hst0 Hf. destruct (decide (sh_StripeIndex sh = s)) as [<-|Hne].
    + eapply Hkeep; [apply lookup_insert_eq|]. by eapply Hold.
    + eapply Hkeep; [by rewrite lookup_insert_ne|done].
  - intros s i. rewrite arrived_cons. intros [Ha|Ha]%orb_true_iff; [|by apply Harr].
    apply arrived_single in Ha as (<- & <- & Ha). eapply Hkeep; [apply lookup_insert_eq|auto].
Qed.

(** ** Counting the shards that arrived *)

Lemma count_positions {A} (P : A → Prop) `{!∀ x, Decision (P x)} (l : list A) (ixs : list nat) :
  NoDup ixs → (∀ i, i ∈ ixs → ∃ x, l !! i = Some x ∧ P x) → (length ixs ≤ length (filter P l))%nat.
Proof.
  intros Hnd His. set (il := filter (λ ix : nat * A, P ix.2) (imap pair l)).
  assert (length (filter P l) = length il) as ->.
  { assert ((imap pair l).*2 = l) as Hsnd.
    { apply list_eq. intros i. rewrite list_lookup_fmap, list_lookup_imap. by destruct (l !! i). }
    rewrite <- Hsnd at 1. apply length_filter_fmap. }
  rewrite <- (length_fmap fst il). apply submseteq_length, NoDup_submseteq; [done|].
  intros i Hi. destruct (His i Hi) as (x & Hx & HP). apply list_elem_of_fmap. exists (i, x).
  split; [done|]. apply list_elem_of_filter. split; [done|].
  apply elem_of_lookup_imap. eauto.
Qed.

Lemma present_arrived received s st :
  (∀ i, arrived received s i = true → filled st i) →
  blen (filter (λ i, arrived received s i = true) (seqZ 0 (k + m))) ≤ present st.
Proof.
  intros Hf. unfold present, blen. apply Nat2Z.inj_le.
  rewrite <- (length_fmap Z.to_nat). apply count_positions.
  - apply NoDup_fmap_2_strong; [|apply NoDup_filter, NoDup_seqZ].
    intros i j [_ Hi]%list_elem_of_filter [_ Hj]%list_elem_of_filter.
    apply elem_of_seqZ in Hi, Hj. lia.
  - intros i' (i & -> & [Ha _]%list_elem_of_filter)%list_elem_of_fmap.
    destruct (Hf i Ha) as (b & Hb & Hne). eauto.
Qed.

(** ** Decoding *)

Lemma decode_stripe_ok s st :
  slots s st → k ≤ present st → decode_stripe e s st = Ok (chunk Ln (Z.to_nat s) padded).
Proof using Hnew Hstripe CL.
  intros (full & Hc & Hst) Hpres. destruct new_facts as (He & Hk & Hm & _ & Hrs & _).
  pose proof Hc as [Hs Henc]. destruct (coded_ok s Hs) as (full' & Hc' & Hlen & Hall & Hcat).
  rewrite (coded_functional _ _ _ Hc' Hc) in *.
  unfold decode_stripe. rewrite He, (proj2 (Z.ltb_ge (present st) k)) by done.
  destruct (stripe_shards_ok _ (stripe_of_length s Hs)) as [Hbl Hsh].
  destruct (present st <? TotalShards p) eqn:Hall'.
  - destruct (rs_ReconstructData_ok k m sz _ full st Hrs sz_pos Hbl Hsh Henc Hst Hpres)
      as (st' & -> & ->). by rewrite Hcat.
  - bool_facts. enough (st = full) as -> by by rewrite Hcat.
    assert (Forall (λ b, b ≠ []) st) as Hne.
    { apply Forall_forall. intros b Hb Hnil. unfold present, TotalShards, blen in *.
      pose proof (Forall2_length _ _ _ Hst).
      assert (length (filter (λ b, b ≠ []) st) < length st)%nat; [|lia].
      apply (length_filter_lt _ _ b); [done|]. by intros Hc2. }
    apply list_eq_same_length with (length full); [done|by eapply Forall2_length|].
    intros i b b' _ Hb Hb'. destruct (Forall2_lookup_lr _ _ _ _ _ _ Hst Hb Hb') as [Hnil|]; [|done].
    by apply (Forall_lookup_1 _ _ _ _ Hne) in Hb.
Qed.

Lemma decode_stripes_ok stripes ss :
  group_wf stripes →
  (∀ s, s ∈ ss → ∃ st, stripes !! s = Some st ∧ k ≤ present st) →
  decode_stripes e stripes ss = Ok (concat ((λ s, chunk Ln (Z.to_nat s) padded) <$> ss)).
Proof using Hnew Hstripe CL.
  intros Hwf. induction ss as [|s ss IH]; intros Hss; [done|]. cbn [decode_stripes].
  destruct (Hss s) as (st & Hst & Hp); [apply elem_of_cons; by left|]. rewrite Hst.
  rewrite decode_stripe_ok by eauto. rewrite IH; [done|].
  intros s' Hs'. apply Hss, elem_of_cons. by right.
Qed.

Lemma unframe_ok : blen body < 2 ^ 63 - 8 → unframe padded = Ok body.
Proof using Hnew Hstripe.
  intros Hbody. assert (0 ≤ blen body) by (unfold blen; lia).
  destruct num_stripes_bounds as (_ & _ & Hhi).
  assert (blen body + 8 ≤ blen padded) as Hpl.
  { unfold blen at 2. rewrite length_padded. unfold padded. rewrite blen_framed in Hhi.
    pose proof sz_pos. destruct new_facts as (_ & ? & _). rewrite <- Z2Nat.inj_mul by nia. lia. }
  assert (slice 0 objectHeaderSize padded = PutUint64 (blen body)) as Hhdr.
  { unfold slice, padded, frame. rewrite <- app_assoc. change (Z.to_nat 0) with 0%nat.
    rewrite drop_0. by apply take_app_length'. }
  unfold unframe. rewrite Hhdr, Uint64_PutUint64 by (unfold is_uint64; lia).
  unfold objectHeaderSize in *. unfold wrapu64. rewrite Z.mod_small by lia.
  rewrite (proj2 (Z.ltb_ge (blen padded) 8)), (proj2 (Z.ltb_ge (blen padded) (8 + blen body))),
    (proj2 (Z.ltb_ge (8 + blen body) 8)) by lia.
  f_equal. unfold slice, padded, frame, blen. rewrite <- !app_assoc.
  rewrite drop_app_length' by (rewrite length_PutUint64; lia).
  rewrite take_app_length' by lia. done.
Qed.

Lemma Decode_ok received :
  blen body < 2 ^ 63 - 8 → Forall acceptable received →
  (∀ s, 0 ≤ s < n → k ≤ blen (filter (λ i, arrived received s i = true) (seqZ 0 (k + m)))) →
  Decode e received = Ok body.
Proof using Hnew Hstripe CL.
  intros Hbody Hacc Henough.
  destruct (group_ok received ∅ Hacc (map_Forall_empty _)) as (stripes & Hg & Hwf & Hdom & _ & Harr).
  destruct num_stripes_bounds as (Hn & _). destruct new_facts as (_ & Hk & _).
  assert (∀ s, 0 ≤ s < n → ∃ st, stripes !! s = Some st ∧ k ≤ present st) as Hall.
  { intros s Hs. specialize (Henough s Hs).
    destruct (filter (λ i, arrived received s i = true) (seqZ 0 (k + m))) as [|i ixs] eqn:Hf;
      [unfold blen in Henough; simpl in Henough; lia|].
    assert (arrived received s i = true) as Hi.
    { assert (i ∈ filter (λ i, arrived received s i = true) (seqZ 0 (k + m))) as Hin
        by (rewrite Hf; apply elem_of_cons; by left). by apply list_elem_of_filter in Hin as [? _]. }
    destruct (Harr s i Hi) as (st & Hst & _). exists st. split; [done|].
    etrans; [exact Henough|]. rewrite <- Hf. apply present_arrived. intros j Hj.
    destruct (Harr s j Hj) as (st' & Hst' & ?). by simplify_eq. }
  assert (dom stripes = list_to_set (seqZ 0 n)) as Hdom'.
  { apply set_eq. intros s. rewrite elem_of_dom, elem_of_list_to_set, elem_of_seqZ, Hdom. split.
    - intros [Hs|(sh & Hin & <-)]; [by rewrite lookup_empty in Hs; destruct Hs|].
      rewrite Forall_forall in Hacc. destruct (Hacc _ Hin) as (_ & ? & _). lia.
    - intros Hs. destruct (Hall s) as (st & Hst & _); [lia|]. apply Hdom. by rewrite Hst. }
  assert (Z.of_nat (size stripes) = n) as Hsize.
  { rewrite <- size_dom, Hdom', size_list_to_set by apply NoDup_seqZ. rewrite length_seqZ. lia. }
  unfold Decode. rewrite Hg, Hsize, (decode_stripes_ok stripes (seqZ 0 n) Hwf).
  - destruct (blen received =? 0) eqn:Hz.
    { bool_facts. destruct received; [|unfold blen in Hz; simpl in Hz; lia].
      destruct (Hall 0) as (st & Hst & _); [lia|]. simpl in Hg. injection Hg as <-.
      by rewrite lookup_empty in Hst. }
    rewrite <- unframe_ok by done. f_equal. unfold seqZ. rewrite <- list_fmap_compose.
    rewrite (list_fmap_ext _ (λ i, chunk Ln i padded)).
    + rewrite concat_chunks, take_ge; [done|]. rewrite length_padded. lia.
    + intros i x _. simpl. f_equal. lia.
  - intros s Hs%elem_of_seqZ. apply Hall. lia.
Qed.

(** ** Every slot of every stripe is written once *)

Definition slot_of (sh : Shard) : Z * Z := (sh_StripeIndex sh, sh_ShardIndex sh).

Lemma encode_stripe_slots s out :
  0 ≤ s < n → encode_stripe e framed s = Ok out →
  slot_of <$> out = pair s <$> seqZ 0 (k + m) ∧ Forall (λ sh, blen (sh_Bytes sh) = sz) out.
Proof using Hnew Hstripe CL.
  intros Hs. destruct (coded_ok s Hs) as (full & [_ Hc] & Hlen & Hall & _).
  destruct new_facts as (He & _). unfold encode_stripe. rewrite He, Hc. intros [= <-]. split.
  - apply list_eq. intros i. rewrite list_lookup_fmap, list_lookup_imap, list_lookup_fmap.
    destruct (full !! i) as [b|] eqn:Hb; simpl.
    + apply lookup_lt_Some in Hb. rewrite lookup_seqZ_lt by (unfold blen in Hlen; lia). simpl.
      unfold slot_of. simpl. do 2 f_equal.
    + apply lookup_ge_None in Hb. rewrite lookup_seqZ_ge by (unfold blen in Hlen; lia). done.
  - apply Forall_lookup. intros i sh (b & Hb & ->)%list_lookup_imap_Some. simpl.
    eapply Forall_lookup_1 in Hall; [|exact Hb]. pose proof sz_pos.
    unfold blen, make_copy in *. rewrite length_app, length_take, length_replicate. lia.
Qed.

Lemma encode_stripes_slots ss out :
  Forall (λ s, 0 ≤ s < n) ss → encode_stripes e framed ss = Ok out →
  slot_of <$> out = ss ≫= (λ s, pair s <$> seqZ 0 (k + m)) ∧ Forall (λ sh, blen (sh_Bytes sh) = sz) out.
Proof using Hnew Hstripe CL.
  intros Hss. revert out. induction Hss as [|s ss Hs Hss IH]; intros out; simpl; [by intros [= <-]|].
  destruct (encode_stripe e framed s) as [x|] eqn:Hx; [|done].
  destruct (encode_stripes e framed ss) as [y|]; [|done]. intros [= <-].
  destruct (encode_stripe_slots s x Hs Hx) as [Hsx Hbx]. destruct (IH y eq_refl) as [Hsy Hby].
  rewrite fmap_app, Hsx, Hsy. split; [done|by apply Forall_app].
Qed.

Lemma Encode_slots shards :
  Encode e body = Ok shards →
  slot_of <$> shards = seqZ 0 n ≫= (λ s, pair s <$> seqZ 0 (k + m)) ∧
  Forall (λ sh, blen (sh_Bytes sh) = sz) shards.
Proof using Hnew Hstripe CL.
  apply encode_stripes_slots. apply Forall_seqZ. intros. lia.
Qed.

Lemma Encode_in_range shards sh :
  Encode e body = Ok shards → sh ∈ shards →
  0 ≤ sh_StripeIndex sh < n ∧ 0 ≤ sh_ShardIndex sh < k + m ∧ blen (sh_Bytes sh) = sz.
Proof using Hnew Hstripe CL.
  intros Henc Hin. destruct (Encode_slots shards Henc) as [Hs Hb].
  rewrite Forall_forall in Hb. specialize (Hb sh Hin). apply (list_elem_of_fmap_2 slot_of) in Hin.
  rewrite Hs in Hin. apply list_elem_of_bind in Hin as (s & Hin & Hsr%elem_of_seqZ).
  apply list_elem_of_fmap in Hin as (i & Heq & Hi%elem_of_seqZ). unfold slot_of in Heq.
  injection Heq as -> ->. lia.
Qed.

Lemma Encode_slots_NoDup shards : Encode e body = Ok shards → NoDup (slot_of <$> shards).
Proof using Hnew Hstripe CL.
  intros Henc. destruct (Encode_slots shards Henc) as [-> _].
  apply NoDup_bind; [|intros s _; apply NoDup_fmap; [apply _|apply NoDup_seqZ]|apply NoDup_seqZ].
  intros s s' x _ _ (i & -> & _)%list_elem_of_fmap (i' & Heq & _)%list_elem_of_fmap. congruence.
Qed.

(** Decoding what became of the shards: each is there unchanged or missing, and
    no stripe misses more than it has parity shards. *)
Lemma Decode_received shards got received :
  blen body < 2 ^ 63 - 8 → Encode e body = Ok shards →
  Forall2 (λ sh sh', slot_of sh' = slot_of sh ∧ (sh_Bytes sh' = [] ∨ sh_Bytes sh' = sh_Bytes sh))
    shards got →
  received ≡ₚ got →
  (∀ s, blen (filter (λ sh, sh_StripeIndex sh = s ∧ sh_Bytes sh = []) received) ≤ m) →
  Decode e received = Ok body.
Proof using Hnew Hstripe CL.
  intros Hbody Henc Hgot Hperm Hlost. destruct (Encode_ok) as (shards' & Henc' & _ & Hgen).
  rewrite Henc in Henc'. injection Henc' as <-.
  assert (∀ sh', sh' ∈ got → ∃ sh, sh ∈ shards ∧ slot_of sh' = slot_of sh ∧
    (sh_Bytes sh' = [] ∨ sh_Bytes sh' = sh_Bytes sh)) as Hfrom.
  { intros sh' (i & Hi)%list_elem_of_lookup. apply (Forall2_lookup_r _ _ _ _ _ Hgot) in Hi as (sh & Hi & ?).
    exists sh. split; [by eapply list_elem_of_lookup_2|done]. }
  apply Decode_ok; [done| |].
  - apply Forall_forall. intros sh' Hin. rewrite Hperm in Hin.
    destruct (Hfrom sh' Hin) as (sh & Hsh & Hslot & Hb).
    destruct (Encode_in_range shards sh Henc Hsh) as (? & ? & _). unfold slot_of in Hslot.
    injection Hslot as Hs Hi. split_and!; try lia. destruct Hb as [|Hb]; [by left|right].
    rewrite Forall_forall in Hgen. destruct (Hgen sh Hsh) as (full & i & Hc & Hix & Hfull).
    exists full, i. by rewrite Hs, Hi, Hb.
  - intros s Hs.
    set (mine := filter (λ sh, sh_StripeIndex sh = s) received).
    assert (slot_of <$> got = slot_of <$> shards) as Hslots.
    { clear -Hgot. induction Hgot as [|sh sh' ? ? [Heq _] _ IH]; [done|]. rewrite !fmap_cons. by f_equal. }
    assert (sh_ShardIndex <$> mine ≡ₚ seqZ 0 (k + m)) as Hmine.
    { destruct (Encode_slots shards Henc) as [Hsl _].
      assert (∀ l : list Shard, sh_ShardIndex <$> filter (λ sh, sh_StripeIndex sh = s) l =
        snd <$> filter (λ x, x.1 = s) (slot_of <$> l)) as Hf.
      { induction l as [|sh l IH]; [done|]. rewrite fmap_cons, !filter_cons. simpl.
        case_decide; [|done]. rewrite !fmap_cons. by f_equal. }
      unfold mine. rewrite Hperm, Hf, Hslots, Hsl.
      assert (∀ ss, NoDup ss → s ∈ ss →
        snd <$> filter (λ x : Z * Z, x.1 = s) (ss ≫= (λ s, pair s <$> seqZ 0 (k + m))) =
        seqZ 0 (k + m)) as Hone.
      { assert (∀ t l, filter (λ x : Z * Z, x.1 = s) (pair t <$> l) = if decide (t = s) then pair t <$> l else []) as Hp.
        { intros t l. induction l as [|i l IH]; [by case_decide|]. rewrite fmap_cons, filter_cons. simpl.
          rewrite IH. by case_decide. }
        induction ss as [|t ss IH]; [by intros _ ?%elem_of_nil|]. intros [Ht Hnd]%NoDup_cons Hin.
        csimpl. rewrite filter_app, fmap_app, Hp. case_decide as Hts.
        - subst t. rewrite <- list_fmap_compose, list_fmap_id.
          assert (filter (λ x : Z * Z, x.1 = s) (ss ≫= (λ s0, pair s0 <$> seqZ 0 (k + m))) = []) as ->;
            [|by rewrite app_nil_r].
          clear IH Hin. induction ss as [|u ss IH]; [done|]. csimpl.
          rewrite filter_app, Hp. rewrite decide_False by (intros ->; set_solver). apply IH; [set_solver|].
          by apply NoDup_cons in Hnd as [_ ?].
        - apply IH; [done|]. set_solver. }
      by rewrite (Hone (seqZ 0 n)); [|apply NoDup_seqZ|apply elem_of_seqZ]; [|lia]. }
    set (here := filter (λ sh, sh_Bytes sh ≠ []) mine).
    assert (k ≤ blen here) as Hk.
    { pose proof (Hlost s) as Hl.
      assert (length (filter (λ sh, sh_Bytes sh = []) mine) + length here = length mine)%nat as Hsplit.
      { unfold here. clear. induction mine as [|x l IH]; [done|]. rewrite !filter_cons.
        repeat case_decide; simpl; try lia; congruence. }
      assert (length mine = Z.to_nat (k + m)) as Hlm.
      { rewrite <- (length_fmap sh_ShardIndex), Hmine, length_seqZ. done. }
      assert (filter (λ sh, sh_Bytes sh = []) mine =
        filter (λ sh, sh_StripeIndex sh = s ∧ sh_Bytes sh = []) received) as Hff.
      { unfold mine. rewrite list_filter_filter. apply list_filter_iff. tauto. }
      rewrite Hff in Hsplit. destruct new_facts as (_ & ? & ? & _). unfold blen in *. lia. }
    etrans; [exact Hk|]. unfold blen. apply inj_le. rewrite <- (length_fmap sh_ShardIndex here).
    apply submseteq_length, NoDup_submseteq.
    + unfold here. apply NoDup_fmap_filter. rewrite Hmine. apply NoDup_seqZ.
    + intros i (sh & -> & Hsh)%list_elem_of_fmap. unfold here in Hsh.
      apply list_elem_of_filter in Hsh as [Hne Hsh]. apply list_elem_of_filter. split.
      * apply existsb_exists. exists sh. unfold mine in Hsh. apply list_elem_of_filter in Hsh as [Hss Hsh].
        rewrite <- list_elem_of_In. split; [done|]. rewrite Hss, !Z.eqb_refl. simpl.
        destruct (sh_Bytes sh); [done|]. by apply negb_true_iff, Z.eqb_neq.
      * rewrite <- Hmine. by apply list_elem_of_fmap_2.
Qed.

End body.
(** An object survives the loss of parity-many shards of every stripe: the
    encoder accepts every body and yields [k + m] shards per stripe, and decoding
    any collection of those shards, in any order, some given as empty and some
    left out, returns the body as long as [k] shards of each stripe are there. *)
Theorem decode_tolerates_losses (body : bytes) :
  blen body < 2 ^ 63 - 8 →
  ∃ shards, Encode e body = Ok shards ∧
    blen shards = num_stripes e (frame body) * TotalShards p ∧
    ∀ received,
      (∀ sh, sh ∈ received →
         0 ≤ sh_ShardIndex sh < TotalShards p ∧ 0 ≤ sh_StripeIndex sh < num_stripes e (frame body) ∧
         (sh_Bytes sh = [] ∨ sh ∈ shards)) →
      (∀ s, 0 ≤ s < num_stripes e (frame body) →
         ep_DataShards p ≤
           blen (filter (λ i, arrived received s i = true) (seqZ 0 (TotalShards p)))) →
      Decode e received = Ok body.
Proof using Hnew Hstripe CL.
  intros Hbody. destruct (Encode_ok body) as (shards & Henc & Hlen & Hgen).
  exists shards. split_and!; [done..|]. intros received Hrec Henough. apply Decode_ok; [done| |done].
  unfold TotalShards in Hrec. apply Forall_forall. intros sh Hsh.
  destruct (Hrec sh Hsh) as (? & ? & Hb). split_and!; try lia.
  destruct Hb as [|Hin]; [by left|right]. rewrite Forall_forall in Hgen. by apply Hgen.
Qed.

End proofs.

(** ** A codec: two data shards and their exclusive or *)

Section examples.

Definition xor_byte (x y : ascii) : ascii :=
  let '(Ascii a0 a1 a2 a3 a4 a5 a6 a7, Ascii b0 b1 b2 b3 b4 b5 b6 b7) := (x, y) in
  Ascii (xorb a0 b0) (xorb a1 b1) (xorb a2 b2) (xorb a3 b3) (xorb a4 b4) (xorb a5 b5) (xorb a6 b6)
    (xorb a7 b7).
Definition xor_bytes (a b : bytes) : bytes := zip_with xor_byte a b.

Lemma xor_byte_r x y : xor_byte x (xor_byte x y) = y.
Proof.
  assert (∀ a b, xorb a (xorb a b) = b) as Hx by by intros [] [].
  destruct x, y. cbn [xor_byte]. by rewrite !Hx.
Qed.

Lemma xor_bytes_r a b : blen a = blen b → xor_bytes a (xor_bytes a b) = b.
Proof.
  unfold blen, xor_bytes. revert b. induction a as [|x a IH]; intros [|y b] Hl; try done.
  simpl in *. rewrite xor_byte_r, IH; [done|lia].
Qed.

Lemma xor_bytes_l a b : blen a = blen b → xor_bytes b (xor_bytes a b) = a.
Proof.
  unfold blen, xor_bytes. revert b. induction a as [|x a IH]; intros [|y b] Hl; try done.
  simpl in *. rewrite IH by lia. f_equal.
  assert (∀ a b, xorb b (xorb a b) = a) as Hx by by intros [] [].
  destruct x, y. cbn [xor_byte]. by rewrite !Hx.
Qed.

Lemma length_xor a b : blen a = blen b → blen (xor_bytes a b) = blen a.
Proof. unfold blen, xor_bytes. rewrite length_zip_with. lia. Qed.

Lemma present_nil st : present ([] :: st) = present st.
Proof. unfold present. by rewrite filter_cons_False by (intros H; by apply H). Qed.

Lemma present_cons b st : b ≠ [] → present (b :: st) = 1 + present st.
Proof. intros Hb. unfold present, blen. rewrite filter_cons_True by done. simpl. lia. Qed.

#[local] Instance xor_codec : RSCodec := {
  rs_New k m := (k =? 2) && (m =? 1);
  rs_Encode _ _ shards :=
    match shards with [a; b; _] => Some [a; b; xor_bytes a b] | _ => None end;
  rs_ReconstructData _ _ stripe :=
    match stripe with
    | [a; b; c] => Some [if bool_decide (a = []) then xor_bytes b c else a;
                         if bool_decide (b = []) then xor_bytes a c else b; c]
    | _ => None
    end
}.

Lemma nonempty_size (n : Z) (b : bytes) : 0 < n → blen b = n → b ≠ [].
Proof. intros Hn Hb ->. unfold blen in Hb. simpl in Hb. lia. Qed.

#[local] Instance xor_codec_laws : RSCodecLaws.
Proof.
  split.
  - simpl. intros k m Hk. bool_facts. lia.
  - simpl. intros k m n shards Hk Hn Hl Hall. bool_facts. subst k m.
    destruct shards as [|a [|b [|c [|d shards]]]]; try (by unfold blen in Hl; simpl in Hl; lia).
    apply Forall_cons in Hall as [Ha [Hb [Hc _]%Forall_cons]%Forall_cons].
    eexists. split; [reflexivity|]. split_and!; [done| |done].
    repeat constructor; try done. rewrite length_xor; congruence.
  - simpl. intros k m n shards out stripe Hk Hn Hl Hall Henc Hst Hp. bool_facts. subst k m.
    destruct shards as [|a [|b [|c [|d shards]]]]; try done.
    apply Forall_cons in Hall as [Ha [Hb [Hc _]%Forall_cons]%Forall_cons]. injection Henc as <-.
    pose proof (nonempty_size n a Hn Ha). pose proof (nonempty_size n b Hn Hb).
    assert (blen (xor_bytes a b) = n) as Hx by (rewrite length_xor; congruence).
    pose proof (nonempty_size n _ Hn Hx).
    apply Forall2_cons_inv_r in Hst as (a' & st1 & Ha' & Hst & ->).
    apply Forall2_cons_inv_r in Hst as (b' & st2 & Hb' & Hst & ->).
    apply Forall2_cons_inv_r in Hst as (c' & st3 & Hc' & Hst & ->).
    apply Forall2_nil_inv_r in Hst as ->.
    destruct Ha' as [->| ->], Hb' as [->| ->], Hc' as [->| ->];
      repeat (rewrite present_nil in Hp || rewrite present_cons in Hp by done);
      try (unfold present, blen in Hp; simpl in Hp; lia);
      eexists; (split; [reflexivity|]); simpl take;
      repeat case_bool_decide; try done; rewrite ?xor_bytes_l, ?xor_bytes_r by congruence; done.
Qed.

Definition ex_profile : ErasureCodingProfile := mkErasureCodingProfile "2+1" 2 1 10.
Definition ex_encoder : Encoder := mkEncoder ex_profile 5.
Definition ex_body : bytes := String.list_ascii_of_string "hello, world".

(** One shard of each of the two stripes is gone. *)
Definition ex_received : list Shard :=
  match Encode ex_encoder ex_body with
  | Ok shards => filter (λ sh, ~ (sh_StripeIndex sh = sh_ShardIndex sh)) (reverse shards)
  | Err _ => []
  end.

Lemma decode_tolerates_losses_witness :
  ∃ shards, Encode ex_encoder ex_body = Ok shards ∧ blen shards = 6 ∧
    Decode ex_encoder ex_received = Ok ex_body.
Proof.
  destruct (decode_tolerates_losses (C := xor_codec) ex_profile ex_encoder eq_refl ltac:(vm_compute; discriminate)
    ex_body ltac:(vm_compute; reflexivity)) as (shards & Henc & Hlen & Hdec).
  assert (num_stripes ex_encoder (frame ex_body) = 2) as Hn by (vm_compute; reflexivity).
  rewrite Hn in *. change (TotalShards ex_profile) with 3 in *. change (ep_DataShards ex_profile) with 2 in *.
  exists shards. split; [exact Henc|]. split; [exact Hlen|]. apply Hdec.
  - intros sh Hin.
    assert (forallb (λ sh, (0 <=? sh_ShardIndex sh) && (sh_ShardIndex sh <? 3) &&
      (0 <=? sh_StripeIndex sh) && (sh_StripeIndex sh <? 2)) ex_received = true) as Hb
      by (vm_compute; reflexivity).
    rewrite forallb_forall in Hb. specialize (Hb sh (proj1 (list_elem_of_In _ _) Hin)). bool_facts.
    split; [split; assumption|]. split; [split; assumption|]. right.
    unfold ex_received in Hin. rewrite Henc in Hin.
    apply list_elem_of_filter in Hin as [_ Hin]. exact (proj1 (elem_of_reverse _ _) Hin).
  - intros s Hs. assert (s = 0 ∨ s = 1) as [-> | ->]
      by (clear -Hs; lia); vm_compute; discriminate.
Defined.

(** The header length is added to a 64-bit number without a check: shards
    whose header declares a length of [2^64 - 1] make the decoder slice with an
    end below its start, which panics. *)
Theorem decode_panics_on_wrapped_length :
  let ff := ascii_of_N 255 in
  let hostile i := mkShard 0 i ShardKindData (replicate 8 ff) in
  Decode (mkEncoder (mkErasureCodingProfile "2+1" 2 1 16) 8) [hostile 0; hostile 1; hostile 2] =
    Err SliceBoundsPanic.
Proof. vm_compute. reflexivity. Qed.

End examples.
End EC.
