(* ===== verification/ClientSdk.v ===== *)
(** * The chunked encryption of the client SDK

    [encryption/client_sdk]: objects are sealed chunk by chunk into
    self-describing frames (24-byte nonce, 4-byte length, ciphertext with tag),
    and opened by walking the frames. The AEAD (XChaCha20-Poly1305) and HKDF are
    third-party code and a parameter ([AEAD]) with their documented behaviour
    ([AEADLaws]). Readers are modelled by the bytes they yield. *)

From S2P Require Import Prelude Bytes.
Local Open Scope Z_scope.

(** [golang.org/x/crypto]: key, nonce, text and additional data; HKDF-SHA256
    from secret, salt and info, read for a number of bytes. *)
Class AEAD := {
  aead_Seal : bytes → bytes → bytes → bytes → bytes;
  aead_Open : bytes → bytes → bytes → bytes → option bytes;
  hkdf_Read : bytes → bytes → bytes → Z → option bytes
}.

Definition KeySize : Z := 32.
Definition NonceSizeX : Z := 24.
Definition Overhead : Z := 16.

Class AEADLaws `{AEAD} := {
  aead_Seal_length k n p a : blen (aead_Seal k n p a) = blen p + Overhead;
  aead_Open_Seal k n p a : aead_Open k n (aead_Seal k n p a) a = Some p;
  hkdf_Read_length s t i n b : hkdf_Read s t i n = Some b → blen b = n
}.

Module Sdk.

Definition DefaultChunkSize : Z := 16 * 1024 * 1024.
Definition chunkHeaderSize : Z := NonceSizeX + 4.
Definition chunkTrailerSize : Z := Overhead.
Definition MaxInt64 : Z := 2 ^ 63 - 1.

Record Options := mkOptions {
  o_ChunkSize : Z;
  o_ConvergentNonce : bool;
  o_ChunkAAD : bytes
}.

Definition chunkSize (o : Options) : Z := if 0 <? o_ChunkSize o then o_ChunkSize o else DefaultChunkSize.

Inductive sdk_error :=
| ConvergentWithAAD
| BadKey
| NonceFailed
| HeaderTruncated
| FrameLengthOutOfBounds (n : Z)
| BodyTruncated
| OpenFailed (chunk : Z)
| SizeNegative
| SizeInvalidChunk
| SizeOverflow
| OutOfFuel.

(** ** The length of the ciphertext *)

(** [bits.Add64(x, y, 0)]: sum and carry. *)
Definition Add64 (x y : Z) : Z * Z := (wrapu64 (x + y), (x + y) / 2 ^ 64).
(** [bits.Mul64]: high and low word. *)
Definition Mul64 (x y : Z) : Z * Z := (x * y / 2 ^ 64, wrapu64 (x * y)).

Definition EncryptedSize (plaintextLen : Z) (o : Options) : result sdk_error Z :=
  if plaintextLen <? 0 then Err SizeNegative
  else if plaintextLen =? 0 then Ok 0
  else
    let chunk := chunkSize o in
    if chunk <=? 0 then Err SizeInvalidChunk
    else
      let '(numeratorLo, carry) := Add64 plaintextLen (chunk - 1) in
      if negb (carry =? 0) || (MaxInt64 <? numeratorLo) then Err SizeOverflow
      else
        let numChunks := numeratorLo / chunk in
        let '(overheadHi, overheadLo) := Mul64 numChunks (chunkHeaderSize + chunkTrailerSize) in
        if negb (overheadHi =? 0) || (MaxInt64 <? overheadLo) then Err SizeOverflow
        else
          let '(total, carry) := Add64 plaintextLen overheadLo in
          if negb (carry =? 0) || (MaxInt64 <? total) then Err SizeOverflow
          else Ok total.

Section sdk.
Context {A : AEAD}.

(** [chunkAADBytes] *)
Definition chunkAADBytes (chunkAAD : bytes) (chunkIndex : Z) : bytes :=
  if blen chunkAAD =? 0 then []
  else chunkAAD ++ ["|"%char] ++ PutUint64 chunkIndex.

Definition ConvergentNonceInfo : bytes := String.list_ascii_of_string "zkof-nonce-v1".
Definition ConvergentDEKInfo : bytes := String.list_ascii_of_string "zkof-convergent-dek-v1".

Definition deriveConvergentNonce (dek : bytes) (chunkIndex nonceSize : Z) : option bytes :=
  hkdf_Read dek [] (ConvergentNonceInfo ++ PutUint64 chunkIndex) nonceSize.

(** [DeriveConvergentDEK]; [None] is the error. *)
Definition DeriveConvergentDEK (contentHash tenantID : bytes) : option bytes :=
  if blen contentHash =? 0 then None
  else if blen tenantID =? 0 then None
  else hkdf_Read contentHash tenantID ConvergentDEKInfo KeySize.

(** ** Sealing *)

Section seal.
(** The random source: what reading a nonce for the chunk returns. *)
Context (randNonce : Z → option bytes) (dek : bytes) (o : Options).

Definition chunk_nonce (chunkIndex : Z) : option bytes :=
  if o_ConvergentNonce o then deriveConvergentNonce dek chunkIndex NonceSizeX
  else randNonce chunkIndex.

Definition frame_bytes (nonce sealed : bytes) : bytes :=
  nonce ++ PutUint32 (blen sealed) ++ sealed.

(** [encryptReader]: [nextFrame] until the source is drained. *)
Fixpoint encrypt_frames (fuel : nat) (src : bytes) (chunkIndex : Z) : result sdk_error bytes :=
  match fuel with
  | O => Err OutOfFuel
  | S fuel =>
      let buf := ztake (chunkSize o) src in
      if blen buf =? 0 then Ok []
      else
        match chunk_nonce chunkIndex with
        | None => Err NonceFailed
        | Some nonce =>
            let sealed := aead_Seal dek nonce buf (chunkAADBytes (o_ChunkAAD o) chunkIndex) in
            let frame := frame_bytes nonce sealed in
            if blen buf <? chunkSize o then Ok frame
            else
              match encrypt_frames fuel (zdrop (chunkSize o) src) (chunkIndex + 1) with
              | Err e => Err e
              | Ok rest => Ok (frame ++ rest)
              end
        end
  end.

Definition EncryptObject (plaintext : bytes) : result sdk_error bytes :=
  if o_ConvergentNonce o && (0 <? blen (o_ChunkAAD o)) then Err ConvergentWithAAD
  else if negb (blen dek =? KeySize) then Err BadKey
  else encrypt_frames (S (length plaintext)) plaintext 0.

End seal.

(** ** Opening *)

Section open.
Context (dek : bytes) (o : Options).

Definition wrapu32 (z : Z) : Z := z mod 2 ^ 32.

(** [decryptReader]: [nextFrame] until a short chunk or the end. *)
Fixpoint decrypt_frames (fuel : nat) (src : bytes) (chunkIndex : Z) : result sdk_error bytes :=
  match fuel with
  | O => Err OutOfFuel
  | S fuel =>
      if blen src =? 0 then Ok []
      else if blen src <? chunkHeaderSize then Err HeaderTruncated
      else
        let nonce := slice 0 NonceSizeX src in
        let ctLen := Uint32 (slice NonceSizeX chunkHeaderSize src) in
        let maxCT := wrapu32 (chunkSize o + Overhead) in
        if (ctLen =? 0) || (maxCT <? ctLen) then Err (FrameLengthOutOfBounds ctLen)
        else
          let src := drop (Z.to_nat chunkHeaderSize) src in
          if blen src <? ctLen then Err BodyTruncated
          else
            let ct := take (Z.to_nat ctLen) src in
            match aead_Open dek nonce ct (chunkAADBytes (o_ChunkAAD o) chunkIndex) with
            | None => Err (OpenFailed chunkIndex)
            | Some pt =>
                if blen pt <? chunkSize o then Ok pt
                else match decrypt_frames fuel (drop (Z.to_nat ctLen) src) (chunkIndex + 1) with
                     | Err e => Err e
                     | Ok rest => Ok (pt ++ rest)
                     end
            end
  end.

Definition DecryptObject (ciphertext : bytes) : result sdk_error bytes :=
  if negb (blen dek =? KeySize) then Err BadKey
  else decrypt_frames (S (length ciphertext)) ciphertext 0.

End open.
End sdk.

(** ** Sealing and opening *)

Section proofs.
Context {A : AEAD} {AL : @AEADLaws A} (randNonce : Z → option bytes) (dek : bytes) (o : Options).
Hypothesis Hrand : ∀ i b, randNonce i = Some b → blen b = NonceSizeX.
Hypothesis Hsize : chunkSize o + Overhead < 2 ^ 32.

Notation cs := (chunkSize o).

Lemma chunkSize_pos : 0 < chunkSize o.
Proof. unfold chunkSize. destruct (0 <? o_ChunkSize o) eqn:Hc; bool_facts; [done|]. reflexivity. Qed.

Lemma chunk_nonce_length i b : chunk_nonce randNonce dek o i = Some b → blen b = NonceSizeX.
Proof using Hrand AL.
  unfold chunk_nonce. destruct (o_ConvergentNonce o); [|apply Hrand].
  intros Hb. by apply hkdf_Read_length in Hb.
Qed.

(** Opening a frame at the head of the input. *)
Lemma decrypt_frame f i nonce buf rest :
  blen nonce = NonceSizeX → 0 < blen buf ≤ cs →
  let sealed := aead_Seal dek nonce buf (chunkAADBytes (o_ChunkAAD o) i) in
  decrypt_frames dek o (S f) (frame_bytes nonce sealed ++ rest) i =
    if blen buf <? cs then Ok buf
    else match decrypt_frames dek o f rest (i + 1) with Err e => Err e | Ok r => Ok (buf ++ r) end.
Proof using Hsize AL.
  intros Hn Hb sealed.
  assert (blen sealed = blen buf + Overhead) as Hs by apply aead_Seal_length.
  unfold NonceSizeX, Overhead, blen in *.
  assert (length (frame_bytes nonce sealed ++ rest) = (28 + length sealed + length rest)%nat) as Hl.
  { unfold frame_bytes. rewrite !length_app, length_PutUint32. lia. }
  cbn [decrypt_frames]. unfold chunkHeaderSize, NonceSizeX, blen. rewrite Hl.
  rewrite (proj2 (Z.eqb_neq (Z.of_nat _) 0)), (proj2 (Z.ltb_ge (Z.of_nat _) (24 + 4))) by lia.
  assert (slice 0 24 (frame_bytes nonce sealed ++ rest) = nonce) as ->.
  { unfold slice, frame_bytes. change (Z.to_nat 0) with 0%nat. rewrite drop_0, <- !app_assoc.
    apply take_app_length'. lia. }
  assert (slice 24 (24 + 4) (frame_bytes nonce sealed ++ rest) = PutUint32 (Z.of_nat (length sealed))) as ->.
  { unfold slice, frame_bytes, blen. rewrite <- !app_assoc, drop_app_length' by lia.
    apply take_app_length'. rewrite length_PutUint32. lia. }
  assert (drop (Z.to_nat (24 + 4)) (frame_bytes nonce sealed ++ rest) = sealed ++ rest) as ->.
  { unfold frame_bytes. rewrite (app_assoc nonce), <- app_assoc. apply drop_app_length'.
    rewrite length_app, length_PutUint32. lia. }
  rewrite Uint32_PutUint32 by lia. unfold wrapu32. rewrite Z.mod_small by (unfold Overhead in *; lia).
  rewrite (proj2 (Z.eqb_neq (Z.of_nat (length sealed)) 0)) by lia.
  rewrite (proj2 (Z.ltb_ge (cs + Overhead) (Z.of_nat (length sealed)))) by (unfold Overhead; lia).
  rewrite (proj2 (Z.ltb_ge (Z.of_nat (length (sealed ++ rest))) (Z.of_nat (length sealed))))
    by (rewrite length_app; lia).
  simpl orb. cbv iota. rewrite take_app_length', drop_app_length' by lia.
  unfold sealed at 1. rewrite aead_Open_Seal. done.
Qed.

Lemma decrypt_encrypt f src i ct :
  encrypt_frames randNonce dek o f src i = Ok ct →
  ∀ f', (length ct < f')%nat → decrypt_frames dek o f' ct i = Ok src.
Proof using Hsize Hrand AL.
  pose proof chunkSize_pos as Hcs. revert src i ct. induction f as [|f IH]; intros src i ct; [done|].
  cbn [encrypt_frames]. rewrite ?ztake_take, ?zdrop_drop. set (buf := take (Z.to_nat cs) src).
  destruct (blen buf =? 0) eqn:Hz.
  { intros [= <-] [|f'] Hf; [lia|]. simpl. bool_facts. unfold blen, buf in Hz.
    rewrite length_take in Hz. destruct src; [done|]. simpl in Hz. lia. }
  destruct (chunk_nonce _ _ _ i) as [nonce|] eqn:Hnonce; [|done].
  apply chunk_nonce_length in Hnonce. bool_facts.
  assert (0 < blen buf ≤ cs) as Hb by (unfold blen, buf in *; rewrite length_take in *; lia).
  set (sealed := aead_Seal dek nonce buf (chunkAADBytes (o_ChunkAAD o) i)).
  destruct (blen buf <? cs) eqn:Hlt.
  - intros [= <-] [|f'] Hf; [lia|]. rewrite <- (app_nil_r (frame_bytes nonce sealed)).
    unfold sealed. rewrite decrypt_frame, Hlt by done. bool_facts. f_equal.
    unfold buf. apply take_ge. unfold blen, buf in *. rewrite length_take in *. lia.
  - destruct (encrypt_frames _ _ _ f _ (i + 1)) as [rest|] eqn:Hrest; [|done].
    intros [= <-] [|f'] Hf; [lia|]. unfold sealed in *. rewrite decrypt_frame, Hlt by done.
    rewrite (IH _ _ _ Hrest).
    + unfold buf. by rewrite take_drop.
    + rewrite length_app in Hf. unfold frame_bytes in Hf. rewrite !length_app, length_PutUint32 in Hf. lia.
Qed.

(** Sealing succeeds, and its length is what [EncryptedSize] predicts. *)
Lemma encrypt_length f src i :
  (∀ j, is_Some (chunk_nonce randNonce dek o j)) → (length src < f)%nat →
  ∃ ct, encrypt_frames randNonce dek o f src i = Ok ct ∧
    blen ct = blen src + 44 * ((blen src + cs - 1) / cs).
Proof using Hrand AL.
  intros Hn. pose proof chunkSize_pos as Hcs.
  revert src i. induction f as [|f IH]; intros src i Hf; [lia|]. cbn [encrypt_frames]. rewrite ?ztake_take, ?zdrop_drop.
  set (buf := take (Z.to_nat cs) src).
  assert (blen buf = Z.min cs (blen src)) as Hbuf by (unfold blen, buf; rewrite length_take; lia).
  assert (0 ≤ blen src) by (unfold blen; lia).
  destruct (blen buf =? 0) eqn:Hz; bool_facts.
  { exists []. split; [done|]. assert (blen src = 0) as -> by lia.
    rewrite Z.div_small by lia. done. }
  destruct (Hn i) as [nonce Hnonce]. rewrite Hnonce. apply chunk_nonce_length in Hnonce.
  set (sealed := aead_Seal dek nonce buf (chunkAADBytes (o_ChunkAAD o) i)).
  assert (blen (frame_bytes nonce sealed) = 44 + blen buf) as Hfl.
  { assert (blen sealed = blen buf + Overhead) as Hs by apply aead_Seal_length.
    unfold frame_bytes, blen, NonceSizeX, Overhead in *.
    rewrite !length_app, length_PutUint32. lia. }
  destruct (blen buf <? cs) eqn:Hlt; bool_facts.
  - eexists. split; [reflexivity|]. rewrite Hfl.
    assert ((blen src + cs - 1) / cs = 1) as -> by (symmetry; apply (Z.div_unique_pos _ _ _ (blen src - 1)); lia).
    lia.
  - destruct (IH (drop (Z.to_nat cs) src) (i + 1)) as (rest & -> & Hrest).
    { rewrite length_drop. unfold blen in *. lia. }
    eexists. split; [reflexivity|]. unfold blen in *. rewrite length_app, length_drop in *.
    rewrite Nat2Z.inj_add, Hfl, Hrest.
    replace (Z.of_nat (length src) + cs - 1)
      with (Z.of_nat (length src - Z.to_nat cs) + cs - 1 + 1 * cs) by lia.
    rewrite Z.div_add by lia. lia.
Qed.

(** Sealing adds one header and one tag to each chunk, so at most 44 bytes to
    each byte. *)
Lemma encrypt_bound f src i ct :
  encrypt_frames randNonce dek o f src i = Ok ct → blen ct ≤ 45 * blen src.
Proof using Hrand AL.
  pose proof chunkSize_pos as Hcs.
  revert src i ct. induction f as [|f IH]; intros src i ct; [by intros [= <-]|].
  cbn [encrypt_frames]. rewrite ?ztake_take, ?zdrop_drop. set (buf := take (Z.to_nat cs) src).
  assert (blen buf = Z.min cs (blen src)) as Hbuf by (unfold blen, buf; rewrite length_take; lia).
  assert (0 ≤ blen src) by (unfold blen; lia).
  destruct (blen buf =? 0) eqn:Hz; bool_facts; [intros [= <-]; unfold blen in *; simpl; lia|].
  destruct (chunk_nonce _ _ _ _) as [nonce|] eqn:Hnonce; [|done]. apply chunk_nonce_length in Hnonce.
  set (sealed := aead_Seal dek nonce buf (chunkAADBytes (o_ChunkAAD o) i)).
  assert (blen (frame_bytes nonce sealed) = 44 + blen buf) as Hfl.
  { assert (blen sealed = blen buf + Overhead) as Hs by apply aead_Seal_length.
    unfold frame_bytes, blen, NonceSizeX, Overhead in *.
    rewrite !length_app, length_PutUint32. lia. }
  destruct (blen buf <? cs); [intros [= <-]; lia|].
  destruct (encrypt_frames _ _ _ f _ _) as [rest|] eqn:Hr; [|done]. intros [= <-]. apply IH in Hr.
  unfold blen in *. rewrite length_app, length_drop in *. lia.
Qed.

Lemma Encrypt_bound plaintext ct :
  EncryptObject randNonce dek o plaintext = Ok ct → blen ct ≤ 45 * blen plaintext.
Proof using Hrand AL.
  unfold EncryptObject. destruct (_ && _); [done|]. destruct (negb _); [done|]. apply encrypt_bound.
Qed.

Lemma Decrypt_Encrypt plaintext ct :
  EncryptObject randNonce dek o plaintext = Ok ct → DecryptObject dek o ct = Ok plaintext.
Proof using Hsize Hrand AL.
  unfold EncryptObject, DecryptObject. destruct (_ && _); [done|]. destruct (negb _); [done|].
  intros Hct. eapply decrypt_encrypt; [done|lia].
Qed.

(** C24: what is sealed opens again: with a 32-byte key, one of the two modes and
    a random source that delivers, sealing any plaintext succeeds and opening the
    result under the same key and options returns the plaintext. *)
Theorem sdk_roundtrip (plaintext : bytes) :
  o_ConvergentNonce o = false ∨ o_ChunkAAD o = [] → blen dek = KeySize →
  (∀ j, is_Some (chunk_nonce randNonce dek o j)) →
  ∃ ct, EncryptObject randNonce dek o plaintext = Ok ct ∧ DecryptObject dek o ct = Ok plaintext.
Proof using Hsize Hrand AL.
  intros Hmode Hkey Hn.
  destruct (encrypt_length (S (length plaintext)) plaintext 0 Hn ltac:(lia)) as (ct & Hct & _).
  exists ct. unfold EncryptObject, DecryptObject. rewrite Hkey, Z.eqb_refl.
  assert (o_ConvergentNonce o && (0 <? blen (o_ChunkAAD o)) = false) as ->
    by (destruct Hmode as [-> | ->]; [done|]; apply andb_false_r).
  split; [done|]. eapply decrypt_encrypt; [done|lia].
Qed.

(** Dropping the frames after a full chunk leaves a valid object. *)
Lemma decrypt_truncated f src i nonce :
  blen nonce = NonceSizeX → cs ≤ blen src →
  decrypt_frames dek o (S (S f))
    (frame_bytes nonce (aead_Seal dek nonce (take (Z.to_nat cs) src) (chunkAADBytes (o_ChunkAAD o) i))) i =
    Ok (take (Z.to_nat cs) src).
Proof using Hsize AL.
  intros Hn Hlen. pose proof chunkSize_pos as Hcs.
  assert (blen (take (Z.to_nat cs) src) = cs) as Hb by (unfold blen in *; rewrite length_take; lia).
  rewrite <- (app_nil_r (frame_bytes _ _)), decrypt_frame by (rewrite ?Hb; lia).
  rewrite Hb, Z.ltb_irrefl. simpl. by rewrite app_nil_r.
Qed.

End proofs.

(** ** The predicted length *)

Lemma EncryptedSize_spec (n : Z) (o : Options) :
  0 ≤ n ≤ MaxInt64 → chunkSize o ≤ MaxInt64 →
  let total := n + 44 * ((n + chunkSize o - 1) / chunkSize o) in
  EncryptedSize n o =
    if (n =? 0) || (n + chunkSize o - 1 <=? MaxInt64) && (total <=? MaxInt64)
    then Ok total else Err SizeOverflow.
Proof.
  intros Hn Hcs total. pose proof (chunkSize_pos o) as Hpos. set (cs := chunkSize o) in *.
  unfold EncryptedSize, MaxInt64 in *. rewrite (proj2 (Z.ltb_ge n 0)) by lia.
  destruct (n =? 0) eqn:Hz; bool_facts; simpl.
  { subst n. unfold total. by rewrite Z.div_small by lia. }
  fold cs. rewrite (proj2 (Z.leb_gt cs 0)) by lia. unfold Add64, Mul64, wrapu64.
  rewrite Z.add_sub_assoc, (Z.div_small (n + cs - 1)), (Z.mod_small (n + cs - 1)) by lia.
  simpl negb. simpl orb. rewrite Z.ltb_antisym. destruct (n + cs - 1 <=? _) eqn:H1; bool_facts; [|done].
  simpl. set (k := (n + cs - 1) / cs) in *.
  assert (0 ≤ k ≤ 2 ^ 63) as Hk.
  { split; [apply Z.div_pos; lia|]. unfold k. apply Z.div_le_upper_bound; nia. }
  change (chunkHeaderSize + chunkTrailerSize) with 44. unfold total. rewrite (Z.mul_comm k 44) in *.
  destruct (Z.leb_spec (n + 44 * k) (2 ^ 63 - 1)).
  - rewrite (Z.div_small (44 * k)), (Z.mod_small (44 * k)), (Z.div_small (n + 44 * k)),
      (Z.mod_small (n + 44 * k)), (proj2 (Z.ltb_ge (2 ^ 63 - 1) (44 * k))),
      (proj2 (Z.ltb_ge (2 ^ 63 - 1) (n + 44 * k))) by lia. done.
  - destruct (44 * k / 2 ^ 64 =? 0) eqn:H3; [|done]. bool_facts.
    assert (44 * k < 2 ^ 64) by (pose proof (Z.div_mod (44 * k) (2 ^ 64));
      pose proof (Z.mod_pos_bound (44 * k) (2 ^ 64)); lia).
    rewrite (Z.mod_small (44 * k)) by lia.
    destruct (Z.ltb_spec (2 ^ 63 - 1) (44 * k)); [done|]. simpl orb. cbv iota.
    rewrite (Z.div_small (n + 44 * k)), (Z.mod_small (n + 44 * k)),
      (proj2 (Z.ltb_lt (2 ^ 63 - 1) (n + 44 * k))) by lia. done.
Qed.

Section size.
Context {A : AEAD} {AL : @AEADLaws A} (randNonce : Z → option bytes) (dek : bytes) (o : Options).

(** The length announced to the backend before anything is sealed is the
    length of the ciphertext: for every object whose ciphertext, and whose
    plaintext rounded up to a chunk, fits an int64, [EncryptedSize] of the
    plaintext length is the length of what [EncryptObject] yields, and beyond
    that it reports an overflow instead of a wrapped number. *)
Theorem encrypted_size_exact (plaintext : bytes) (ct : bytes) :
  (∀ i b, randNonce i = Some b → blen b = NonceSizeX) →
  (∀ j, is_Some (chunk_nonce randNonce dek o j)) →
  chunkSize o ≤ MaxInt64 → blen plaintext ≤ MaxInt64 →
  EncryptObject randNonce dek o plaintext = Ok ct →
  EncryptedSize (blen plaintext) o =
    if (blen plaintext =? 0) || (blen plaintext + chunkSize o - 1 <=? MaxInt64) && (blen ct <=? MaxInt64)
    then Ok (blen ct) else Err SizeOverflow.
Proof using AL.
  intros Hrand Hn Hcs Hlen. unfold EncryptObject. destruct (_ && _); [done|]. destruct (negb _); [done|].
  destruct (encrypt_length randNonce dek o Hrand (S (length plaintext)) plaintext 0 Hn ltac:(lia))
    as (ct' & -> & Hct). intros [= <-].
  rewrite EncryptedSize_spec, Hct by (unfold blen in *; lia). done.
Qed.

End size.

(** ** Tampering *)

Section tampering.
Context {A : AEAD} (dek : bytes) (o : Options) (body : bytes).

Notation csn := (Z.to_nat (chunkSize o)).

(** Only the chunks of this object were ever sealed under the key: what opens
    is one of them, with the additional data of its position. *)
Definition authentic : Prop :=
  ∀ nonce c a pt, aead_Open dek nonce c a = Some pt →
    ∃ i : nat, (i * csn < length body)%nat ∧ a = chunkAADBytes (o_ChunkAAD o) (Z.of_nat i) ∧
      pt = chunk csn i body.

Lemma chunkAADBytes_inj aad i j :
  aad ≠ [] → is_uint64 i → is_uint64 j → chunkAADBytes aad i = chunkAADBytes aad j → i = j.
Proof.
  intros Haad Hi Hj. unfold chunkAADBytes. destruct (blen aad =? 0) eqn:Hz.
  - bool_facts. destruct aad; [done|]. unfold blen in Hz. simpl in Hz. lia.
  - intros Heq. do 2 apply app_inv_head in Heq. by apply PutUint64_inj in Heq.
Qed.

Lemma decrypt_authentic f src i b :
  authentic → o_ChunkAAD o ≠ [] → blen body < 2 ^ 63 → (i * csn ≤ length body)%nat →
  decrypt_frames dek o f src (Z.of_nat i) = Ok b →
  ∃ j, b = take (j * csn) (drop (i * csn) body).
Proof.
  intros Hauth Haad Hlen. pose proof (chunkSize_pos o) as Hcs.
  revert src i b. induction f as [|f IH]; intros src i b Hi; [done|]. cbn [decrypt_frames].
  destruct (blen src =? 0); [intros [= <-]; by exists 0%nat|].
  destruct (blen src <? _); [done|]. destruct (_ || _); [done|]. destruct (_ <? Uint32 _); [done|].
  destruct (aead_Open _ _ _ _) as [pt|] eqn:Hopen; [|done].
  apply Hauth in Hopen as (i' & Hi' & Ha & ->).
  apply chunkAADBytes_inj in Ha; [|done|unfold is_uint64, blen in *; nia..].
  apply Nat2Z.inj in Ha as <-.
  destruct (blen (chunk csn i body) <? chunkSize o) eqn:Hlt.
  - intros [= <-]. exists 1%nat. unfold chunk. by rewrite Nat.mul_1_l.
  - bool_facts. unfold chunk, blen in Hlt. rewrite length_take, length_drop in Hlt.
    replace (Z.of_nat i + 1) with (Z.of_nat (S i)) by lia.
    destruct (decrypt_frames _ _ f _ _) as [r|] eqn:Hr; [|done]. intros [= <-].
    assert (S i * csn ≤ length body)%nat as HSi by (rewrite Nat.mul_succ_l; lia).
    destruct (IH _ _ _ HSi Hr) as [j ->]. exists (S j). unfold chunk.
    replace (S j * csn)%nat with (csn + j * csn)%nat by lia.
    replace (S i * csn)%nat with (i * csn + csn)%nat by lia.
    by rewrite <- drop_drop, take_take_drop.
Qed.


End tampering.

(** That prefix is not noticed either: the frames of all chunks but the
    first can be cut off and the object opens, one chunk long, with no error. *)
Theorem truncation_is_undetected {A : AEAD} {AL : @AEADLaws A} randNonce dek o plaintext ct :
  (∀ i b, randNonce i = Some b → blen b = NonceSizeX) →
  chunkSize o + Overhead < 2 ^ 32 → chunkSize o < blen plaintext →
  EncryptObject randNonce dek o plaintext = Ok ct →
  ∃ ct', ct' `prefix_of` ct ∧ ct' ≠ ct ∧
    DecryptObject dek o ct' = Ok (take (Z.to_nat (chunkSize o)) plaintext).
Proof.
  intros Hrand Hsize Hlen. pose proof (chunkSize_pos o) as Hcs.
  unfold EncryptObject, DecryptObject. destruct (_ && _); [done|]. destruct (negb _); [done|].
  cbn [encrypt_frames]. rewrite ?ztake_take, ?zdrop_drop. set (buf := take (Z.to_nat (chunkSize o)) plaintext).
  assert (blen buf = chunkSize o) as Hbuf by (unfold blen, buf in *; rewrite length_take; lia).
  rewrite Hbuf, (proj2 (Z.eqb_neq (chunkSize o) 0)), Z.ltb_irrefl by lia.
  destruct (chunk_nonce _ _ _ 0) as [nonce|] eqn:Hn; [|done].
  apply (chunk_nonce_length randNonce dek o Hrand) in Hn.
  destruct (encrypt_frames _ _ _ _ _ (0 + 1)) as [rest|] eqn:Hrest; [|done]. intros [= <-].
  eexists. split; [by eexists|]. split.
  - intros Heq. rewrite <- (app_nil_r (frame_bytes _ _)) in Heq at 1. apply app_inv_head in Heq.
    subst rest. apply (decrypt_encrypt randNonce dek o Hrand Hsize) with (f' := 1%nat) in Hrest; [|simpl; lia].
    injection Hrest as Hrest. apply (f_equal length) in Hrest. rewrite length_drop in Hrest.
    unfold blen in Hlen. simpl in Hrest. lia.
  - set (fr := frame_bytes _ _).
    assert (∃ f, length fr = S f) as [f ->].
    { exists (pred (length fr)). unfold fr, frame_bytes, NonceSizeX, blen in *.
      rewrite !length_app, length_PutUint32. lia. }
    apply (decrypt_truncated dek o Hsize); [done|lia].
Qed.

(** ** Examples *)

Section examples.

(** A lawful cipher without secrecy. *)
#[local] Instance plain_aead : AEAD := {
  aead_Seal _ _ p _ := p ++ replicate 16 zero_byte;
  aead_Open _ _ c _ := Some (take (length c - 16) c);
  hkdf_Read _ _ _ n := if n <? 0 then None else Some (replicate (Z.to_nat n) zero_byte)
}.

#[local] Instance plain_aead_laws : AEADLaws.
Proof.
  split; intros; cbn [aead_Seal aead_Open hkdf_Read plain_aead] in *.
  - unfold blen, Overhead. rewrite length_app, length_replicate. lia.
  - f_equal. rewrite length_app, length_replicate. apply take_app_length'. lia.
  - destruct (n <? 0) eqn:Hn; [done|]. bool_facts. simplify_eq. unfold blen.
    rewrite length_replicate. lia.
Qed.

Definition ex_dek : bytes := replicate 32 zero_byte.
Definition ex_nonce (i : Z) : option bytes := Some (replicate 24 zero_byte).
Definition ex_options : Options := mkOptions 2 false ["t"%char].
Definition ex_plain : bytes := String.list_ascii_of_string "abc".

Lemma ex_nonce_length i b : ex_nonce i = Some b → blen b = NonceSizeX.
Proof. by intros [= <-]. Qed.

Lemma ex_nonce_some j : is_Some (chunk_nonce ex_nonce ex_dek ex_options j).
Proof. by eexists. Qed.

Lemma sdk_roundtrip_witness :
  ∃ ct, EncryptObject ex_nonce ex_dek ex_options ex_plain = Ok ct ∧
    DecryptObject ex_dek ex_options ct = Ok ex_plain.
Proof.
  apply (sdk_roundtrip ex_nonce ex_dek ex_options ex_nonce_length ltac:(vm_compute; reflexivity) ex_plain).
  - left. reflexivity.
  - reflexivity.
  - exact ex_nonce_some.
Defined.

Lemma encrypted_size_exact_witness :
  ∃ ct, EncryptObject ex_nonce ex_dek ex_options ex_plain = Ok ct ∧
    EncryptedSize 3 ex_options = Ok (blen ct) ∧ blen ct = 91.
Proof.
  destruct (EncryptObject ex_nonce ex_dek ex_options ex_plain) as [ct|] eqn:E;
    [|vm_compute in E; discriminate].
  assert (blen ct = 91) as Hlen by (vm_compute in E; injection E as <-; reflexivity).
  exists ct. split; [reflexivity|]. split; [|exact Hlen].
  pose proof (encrypted_size_exact ex_nonce ex_dek ex_options ex_plain ct ex_nonce_length ex_nonce_some
    ltac:(vm_compute; discriminate) ltac:(vm_compute; discriminate) E) as H.
  rewrite Hlen in *. exact H.
Defined.

Lemma truncation_is_undetected_witness :
  ∃ ct ct', EncryptObject ex_nonce ex_dek ex_options ex_plain = Ok ct ∧
    ct' `prefix_of` ct ∧ ct' ≠ ct ∧
    DecryptObject ex_dek ex_options ct' = Ok (take (Z.to_nat (chunkSize ex_options)) ex_plain).
Proof.
  destruct (EncryptObject ex_nonce ex_dek ex_options ex_plain) as [ct|] eqn:E;
    [|vm_compute in E; discriminate].
  destruct (truncation_is_undetected ex_nonce ex_dek ex_options ex_plain ct ex_nonce_length
    ltac:(vm_compute; reflexivity) ltac:(vm_compute; reflexivity) E) as (ct' & H1 & H2 & H3).
  exists ct, ct'. done.
Defined.

(** A cipher that opens only the two chunks of [ex_plain]. *)
Definition ex_sealed (p : string) : bytes := String.list_ascii_of_string p ++ replicate 16 zero_byte.
#[local] Instance strict_aead : AEAD := {
  aead_Seal _ _ p _ := p ++ replicate 16 zero_byte;
  aead_Open _ _ c a :=
    if bool_decide (a = chunkAADBytes ["t"%char] 0 ∧ c = ex_sealed "ab")
    then Some (String.list_ascii_of_string "ab")
    else if bool_decide (a = chunkAADBytes ["t"%char] 1 ∧ c = ex_sealed "c")
    then Some (String.list_ascii_of_string "c")
    else None;
  hkdf_Read _ _ _ n := None
}.


End examples.


End Sdk.
