(* ===== verification/EncryptionPipeline.v ===== *)
(** * The gateway's encryption pipeline

    [api/s3compat/encryption_pipeline.go] around the client SDK: which options an
    object is sealed and opened with, the wrapping of its key, and what the write
    paths hand to the backend for each encryption mode. The file also fixes what
    a gateway is configured with and what a request carries. *)

From S2P Require Import Prelude Bytes Manifest ObjectLock ErasureCoding ClientSdk.
Local Open Scope Z_scope.

(** A response: status, S3 error code ([""] on success), version id header. *)
Record Response := mkResponse {
  rs_status : Z;
  rs_code : string;
  rs_version : string
}.

Definition writeError (status : Z) (code : string) : Response := mkResponse status code "".

Definition nul : string := String "000" "".

Definition ContentHashAlgo : string := "blake3".
Definition formatContentHash (hexDigest : string) : string :=
  String.app ContentHashAlgo (String.app ":" hexDigest).

Definition ManagedEncrypted : string := "managed".
Definition PublicDistribution : string := "public_distribution".
Definition StrictZK : string := "client_side".

Definition IsGatewayEncrypted (mode : string) : bool :=
  bool_decide (mode = ManagedEncrypted) || bool_decide (mode = PublicDistribution).

(** [providers.PutResult] *)
Record PutResult := mkPutResult {
  pr_PieceID' : string;
  pr_ETag : string;
  pr_SizeBytes' : Z;
  pr_Locator : string
}.

(** [metadata.ShardKindData] and [metadata.ShardKindParity] *)
Definition ShardKindData_str : string := "data".
Definition ShardKindParity_str : string := "parity".

(** [hex.EncodeToString] *)
Definition hex_digit (n : N) : ascii := if (n <? 10)%N then ascii_of_N (48 + n) else ascii_of_N (87 + n).
Fixpoint hexEncode (b : bytes) : string :=
  match b with
  | [] => ""
  | c :: b =>
      let n := N_of_ascii c in
      String (hex_digit (n / 16)) (String (hex_digit (n mod 16)) (hexEncode b))
  end.

(** [client_sdk.WrappedDEK] *)
Record WrappedDEK := mkWrappedDEK {
  wd_KeyID : string;
  wd_Algorithm : string;
  wd_WrappedKey : bytes;
  wd_WrapAlgorithm : string
}.

(** The random numbers a request draws: the object key, the chunk nonces, the
    wrap nonce. [None] is a failing random source. *)
Record Entropy := mkEntropy {
  ent_dek : option bytes;
  ent_nonce : Z → option bytes;
  ent_wrap : bytes
}.

(** The object headers [applyRequestObjectMetadata] copies onto a manifest. *)
Record ObjectHeaders := mkObjectHeaders {
  oh_ContentType : string;
  oh_ContentEncoding : string;
  oh_ContentDisposition : string;
  oh_ContentLanguage : string;
  oh_CacheControl : string;
  oh_Expires : string;
  oh_UserMetadata : gmap string string
}.

(** ** Requests *)

Record DeleteRequest := mkDeleteRequest {
  dq_auth : result Response string;                (* authenticate *)
  dq_path : string;
  dq_versionId : string;
  dq_bypass : string;
  dq_versioning : result unit string;              (* bucketVersioning *)
  dq_holds : option (result unit nat);             (* LegalHoldStore.Active, when there is one *)
  dq_now_marker : Z;
  dq_now_created : Z;
  dq_now_lock : Z
}.

Record PutRequest := mkPutRequest {
  pq_auth : result Response string;
  pq_unverified : bool;                            (* VerifiedCheck: tracked and not verified *)
  pq_path : string;
  pq_body : result Response bytes;                 (* reading r.Body to its end *)
  pq_contentLength : Z;
  pq_zkHeader : string;
  pq_bypass : string;
  pq_tags : result Response (gmap string string);  (* parseObjectTaggingHeader *)
  pq_headers : result Response ObjectHeaders;      (* validateRequestObjectMetadata *)
  pq_lockcfg : option (result unit LockConfig);    (* BucketConfig.GetObjectLock *)
  pq_versioning : result unit string;
  pq_placement : result unit (string * PlacementPolicy);
  pq_residency : bool;                             (* Residency.Check passes *)
  pq_defaultEncryption : option (result unit bool); (* GetEncryption: is a default configured *)
  pq_now_lock : Z;
  pq_now_piece : Z;
  pq_now_version : Z;
  pq_now_created : Z;
  pq_now_default : Z;
  pq_rand : Entropy
}.

(** A request that amends a stored version. *)
Record AmendRequest := mkAmendRequest {
  aq_auth : result Response string;
  aq_path : string;
  aq_versionId : string;
  aq_bypass : string;
  aq_lockcfg : option (result unit LockConfig);
  aq_now : Z
}.

(** What a gateway is configured with: the hash functions, the cipher and the
    key wrapper, the Reed-Solomon codec and the encoder registry, and the
    backends with what they report for a stored piece. *)
Class Gateway := {
  sha256Hex : string → string;
  blake3Sum : bytes → bytes;
  gw_AEAD :: AEAD;
  gw_RSCodec :: RSCodec;
  (* [Encryption.Wrapper] under its master key; the first argument is the wrap nonce *)
  WrapDEK : bytes → bytes → option WrappedDEK;
  UnwrapDEK : WrappedDEK → option bytes;
  ErasureRegistry : option (gmap string EC.Encoder);
  hasIndex : bool;
  hasEncryption : bool;
  registered : string → bool;
  put_result : string → string → bytes → PutResult
}.

Section pipeline.
Context {G : Gateway}.

Definition blake3Hex (b : bytes) : string := hexEncode (blake3Sum b).

(** [aadIdentity] *)
Record aadIdentity := mkAadIdentity {
  id_TenantID : string;
  id_Bucket : string;
  id_ObjectKeyHash : string;
  id_VersionID : string
}.

Definition chunkAAD (i : aadIdentity) : bytes :=
  String.list_ascii_of_string
    (String.app (id_TenantID i) (String.app "|" (String.app (id_Bucket i) (String.app "|"
      (String.app (id_ObjectKeyHash i) (String.app "|" (id_VersionID i))))))).

Definition aadIdentityOf (m : ObjectManifest) : aadIdentity :=
  mkAadIdentity (m_TenantID m) (m_Bucket m) (m_ObjectKeyHash m) (m_VersionID m).

Definition AADVersionV1 : string := "v1".
Definition ContentAlgorithm : string := "xchacha20-poly1305".

Definition gatewayEncryptOptions (enc : EncryptionConfig) (i : aadIdentity) : Sdk.Options :=
  if bool_decide (enc_AADVersion enc = AADVersionV1) then Sdk.mkOptions 0 false (chunkAAD i)
  else Sdk.mkOptions 0 false [].

Definition gatewayDecryptOptions (enc : EncryptionConfig) (i : aadIdentity) : Sdk.Options :=
  if bool_decide (enc_AADVersion enc = AADVersionV1) then Sdk.mkOptions 0 false (chunkAAD i)
  else Sdk.mkOptions 0 false [].

Definition v1EncryptionConfig : EncryptionConfig := mkEncryptionConfig "" "" "" [] "" false AADVersionV1.

(** [client_sdk.GenerateDEK] *)
Definition GenerateDEK (r : Entropy) : option bytes := ent_dek r.

(** [encryptForStorage]; [None] is an error. *)
Definition encryptForStorage (r : Entropy) (plaintext : bytes) (i : aadIdentity)
    : option (bytes * WrappedDEK) :=
  if negb hasEncryption then None
  else match GenerateDEK r with
       | None => None
       | Some dek =>
           match Sdk.EncryptObject (ent_nonce r) dek (gatewayEncryptOptions v1EncryptionConfig i)
                   plaintext with
           | Err _ => None
           | Ok ciphertext =>
               match WrapDEK (ent_wrap r) dek with
               | None => None
               | Some wrapped => Some (ciphertext, wrapped)
               end
           end
       end.

(** [streamEncryptForStorage]: the wrapped key and what draining the returned
    reader yields. A failure while draining is the failure of the consumer. *)
Definition streamEncryptForStorage (r : Entropy) (plaintext : bytes) (i : aadIdentity)
    : option (result unit bytes * WrappedDEK) :=
  if negb hasEncryption then None
  else match GenerateDEK r with
       | None => None
       | Some dek =>
           match Sdk.EncryptObject (ent_nonce r) dek (gatewayEncryptOptions v1EncryptionConfig i)
                   plaintext with
           | Err Sdk.ConvergentWithAAD | Err Sdk.BadKey => None
           | res =>
               match WrapDEK (ent_wrap r) dek with
               | None => None
               | Some wrapped =>
                   Some (match res with Ok ct => Ok ct | Err _ => Err () end, wrapped)
               end
           end
       end.

Definition decryptWithDEK (ciphertext dek : bytes) (enc : EncryptionConfig) (i : aadIdentity)
    : option bytes :=
  match Sdk.DecryptObject dek (gatewayDecryptOptions enc i) ciphertext with
  | Err _ => None
  | Ok plaintext => Some plaintext
  end.

Definition encryptWithDEK (nonces : Z → option bytes) (plaintext dek : bytes) (enc : EncryptionConfig)
    (i : aadIdentity) : option bytes :=
  match Sdk.EncryptObject nonces dek (gatewayEncryptOptions enc i) plaintext with
  | Err _ => None
  | Ok ciphertext => Some ciphertext
  end.

Definition wrapped_of (enc : EncryptionConfig) : WrappedDEK :=
  mkWrappedDEK (enc_KeyID enc) (enc_Algorithm enc) (enc_WrappedDEK enc) (enc_WrapAlgorithm enc).

Definition decryptFromStorage (ciphertext : bytes) (enc : EncryptionConfig) (i : aadIdentity)
    : option bytes :=
  if negb hasEncryption then None
  else match UnwrapDEK (wrapped_of enc) with
       | None => None
       | Some dek => decryptWithDEK ciphertext dek enc i
       end.

(** The record of an object the gateway sealed. *)
Definition sealed_config (encMode : string) (wrapped : WrappedDEK) (aadVersion : string) : EncryptionConfig :=
  mkEncryptionConfig encMode ContentAlgorithm (wd_KeyID wrapped) (wd_WrappedKey wrapped)
    (wd_WrapAlgorithm wrapped) false aadVersion.

Definition zero_config : EncryptionConfig := mkEncryptionConfig "" "" "" [] "" false "".

(** [prepareSinglePieceEncryption]: the record for the manifest, what draining
    the reader for the backend yields (or the response when that fails), and the
    plaintext size it reports afterwards. *)
Definition prepareSinglePieceEncryption (encMode : string) (i : aadIdentity) (q : PutRequest)
    : result Response (EncryptionConfig * result Response bytes * Z) :=
  if IsGatewayEncrypted encMode then
    if negb hasEncryption then Err (writeError 500 "EncryptionNotConfigured")
    else if 0 <=? pq_contentLength q then
      match Sdk.EncryptedSize (pq_contentLength q) (gatewayEncryptOptions v1EncryptionConfig i) with
      | Err Sdk.SizeOverflow => Err (writeError 400 "InvalidContentLength")
      | Err Sdk.SizeNegative => Err (writeError 400 "InvalidContentLength")
      | Err _ => Err (writeError 500 "EncryptionConfigInvalid")
      | Ok _ =>
          let body := match pq_body q with Ok b => b | Err _ => [] end in
          match streamEncryptForStorage (pq_rand q) body i with
          | None => Err (writeError 500 "EncryptionFailed")
          | Some (stream, wrapped) =>
              Ok (sealed_config encMode wrapped AADVersionV1,
                  match pq_body q with
                  | Err e => Err e
                  | Ok _ => match stream with
                            | Ok ct => Ok ct
                            | Err _ => Err (writeError 502 "BackendPutFailed")
                            end
                  end, blen body)
          end
      end
    else
      match pq_body q with
      | Err e => Err e
      | Ok plaintext =>
          match encryptForStorage (pq_rand q) plaintext i with
          | None => Err (writeError 500 "EncryptionFailed")
          | Some (ciphertext, wrapped) =>
              Ok (sealed_config encMode wrapped AADVersionV1, Ok ciphertext, blen plaintext)
          end
      end
  else if bool_decide (encMode = StrictZK) then
    if bool_decide (pq_zkHeader q = "") then Err (writeError 403 "EncryptionRequired")
    else Ok (mkEncryptionConfig encMode (pq_zkHeader q) "" [] "" false "", pq_body q, pq_contentLength q)
  else Ok (zero_config, pq_body q, pq_contentLength q).

(** [prepareErasureCodedEncryption] on the buffered body. *)
Definition prepareErasureCodedEncryption (encMode : string) (plaintext : bytes) (i : aadIdentity)
    (q : PutRequest) : result Response (EncryptionConfig * bytes) :=
  if IsGatewayEncrypted encMode then
    if negb hasEncryption then Err (writeError 500 "EncryptionNotConfigured")
    else match encryptForStorage (pq_rand q) plaintext i with
         | None => Err (writeError 500 "EncryptionFailed")
         | Some (ciphertext, wrapped) => Ok (sealed_config encMode wrapped AADVersionV1, ciphertext)
         end
  else if bool_decide (encMode = StrictZK) then
    if bool_decide (pq_zkHeader q = "") then Err (writeError 403 "EncryptionRequired")
    else Ok (mkEncryptionConfig encMode (pq_zkHeader q) "" [] "" false "", plaintext)
  else Ok (zero_config, plaintext).

End pipeline.
