(* ===== verification/Fabric.v ===== *)
(** * Handlers as programs over the shared stores

    An HTTP handler is a program: a tree of calls on the manifest store, the
    content index and the storage backends, with the Go code between two calls
    in the continuation. The same program has a sequential meaning ([exec]) and
    an interleaved one ([step]): every call is atomic, as the stores are, and
    anything may happen between two calls of a request. The manifest store is
    its specification, the version log. *)

From S2P Require Import Prelude Bytes Ranges Manifest ManifestStore ContentIndex EncryptionPipeline.
Local Open Scope Z_scope.

(** A reply of a Go call that returns only an error. *)
Abbreviation err_or_nil E := (result E unit).

(** [PieceGet] replies [None] when the backend refuses, and [Some (Err b)] when
    the stream it returned breaks after the bytes [b]; [CacheGet] likewise, [None]
    being a miss. [TryAcquire] asks the semaphore that bounds the bytes buffered
    for cache warming; [PieceCopy] is the server-side copy of a backend that has
    one. *)
Inductive call : Type → Type :=
| IdxLookup (t h : string) : call (result index_error ContentIndexEntry)
| IdxRegister (now : Z) (e : ContentIndexEntry) : call (err_or_nil index_error)
| IdxIncrement (t h : string) : call (err_or_nil index_error)
| IdxDecrement (t h : string) : call (result index_error Z)
| IdxDelete (t h : string) : call (err_or_nil index_error)
| ManGet (k : ManifestKey) : call (result store_error ObjectManifest)
| ManPut (k : ManifestKey) (m : ObjectManifest) : call (err_or_nil store_error)
| ManUpdate (k : ManifestKey) (m : ObjectManifest) : call (err_or_nil store_error)
| ManDelete (k : ManifestKey) : call (err_or_nil store_error)
| PiecePut (backend pieceID : string) (body : bytes) : call (option PutResult)
| PieceGet (backend pieceID : string) (byteRange : option ByteRange) : call (option (result bytes bytes))
| PieceDelete (backend pieceID : string) : call bool
| CacheGet (pieceID : string) : call (option (result bytes bytes))
| CachePut (pieceID : string) (body : bytes) : call bool
| TryAcquire (n : Z) : call bool
| PieceCopy (backend src dst : string) : call (option PutResult).

Inductive prog (R : Type) : Type :=
| Ret (r : R)
| Call {A : Type} (c : call A) (k : A → prog R).
Arguments Ret {R} r.
Arguments Call {R A} c k.

Fixpoint prog_bind {R S} (p : prog R) (f : R → prog S) : prog S :=
  match p with Ret r => f r | Call c k => Call c (λ a, prog_bind (k a) f) end.

Declare Scope prog_scope.
Delimit Scope prog_scope with prog.
Notation "x '<~' c ';;' k" := (Call c (λ x, k))
  (at level 100, c at next level, right associativity) : prog_scope.

(** The state the handlers share. *)
Record World := mkWorld {
  wd_manifests : VersionLog.log;
  wd_index : gmap (string * string) ContentIndexEntry;
  wd_pieces : gmap (string * string) bytes;       (* (backend, piece id) to bytes *)
  wd_cache : gmap string bytes                    (* the hot object cache, by piece id *)
}.

Definition set_manifests (l : VersionLog.log) (w : World) : World :=
  mkWorld l (wd_index w) (wd_pieces w) (wd_cache w).
Definition set_index (s : gmap (string * string) ContentIndexEntry) (w : World) : World :=
  mkWorld (wd_manifests w) s (wd_pieces w) (wd_cache w).
Definition set_pieces (ps : gmap (string * string) bytes) (w : World) : World :=
  mkWorld (wd_manifests w) (wd_index w) ps (wd_cache w).
Definition set_cache (c : gmap string bytes) (w : World) : World :=
  mkWorld (wd_manifests w) (wd_index w) (wd_pieces w) c.

Section semantics.
(** What a backend reports for a stored piece: the id it stored the bytes
    under, its ETag and locator. *)
Context (put_result : string → string → bytes → PutResult).

Definition index_write (r : result index_error (gmap (string * string) ContentIndexEntry)) (w : World)
    : err_or_nil index_error * World :=
  match r with Ok s => (Ok (), set_index s w) | Err e => (Err e, w) end.

Definition manifest_write (r : result store_error VersionLog.log) (w : World)
    : err_or_nil store_error * World :=
  match r with Ok l => (Ok (), set_manifests l w) | Err e => (Err e, w) end.

(** One call. A [fault] is a call that fails without effect: a store that
    cannot be reached, a backend that refuses, a piece the cache has evicted, a
    semaphore that is taken. *)
Definition do_call {A} (fault : bool) (c : call A) (w : World) : A * World :=
  match c in call A return A * World with
  | IdxLookup t h =>
      (if fault then Err IdxUnavailable else Index.Lookup (wd_index w) t h, w)
  | IdxRegister now e =>
      if fault then (Err IdxUnavailable, w) else index_write (Index.Register now e (wd_index w)) w
  | IdxIncrement t h =>
      if fault then (Err IdxUnavailable, w) else index_write (Index.IncrementRef t h (wd_index w)) w
  | IdxDecrement t h =>
      if fault then (Err IdxUnavailable, w)
      else match Index.DecrementRef t h (wd_index w) with
           | Ok (n, s) => (Ok n, set_index s w)
           | Err e => (Err e, w)
           end
  | IdxDelete t h =>
      if fault then (Err IdxUnavailable, w) else index_write (Index.Delete t h (wd_index w)) w
  | ManGet k => (if fault then Err ErrUnavailable else VersionLog.get k (wd_manifests w), w)
  | ManPut k m =>
      if fault then (Err ErrUnavailable, w)
      else (Ok (), set_manifests (VersionLog.put k m (wd_manifests w)) w)
  | ManUpdate k m =>
      if fault then (Err ErrUnavailable, w)
      else manifest_write (VersionLog.update k m (wd_manifests w)) w
  | ManDelete k =>
      if fault then (Err ErrUnavailable, w)
      else manifest_write (VersionLog.remove k (wd_manifests w)) w
  | PiecePut b id body =>
      if fault then (None, w)
      else let pr := put_result b id body in
           (Some pr, set_pieces (<[(b, pr_PieceID' pr) := body]> (wd_pieces w)) w)
  | PieceGet b id byteRange =>
      (if fault then None
       else match wd_pieces w !! (b, id) with
            | None => None
            | Some body =>
                match byteRange with
                | None => Some (Ok body)
                | Some r => Ok <$> slice_range r body
                end
            end, w)
  | PieceDelete b id =>
      if fault then (false, w) else (true, set_pieces (delete (b, id) (wd_pieces w)) w)
  | CacheGet id => (if fault then None else Ok <$> wd_cache w !! id, w)
  | CachePut id body =>
      if fault then (false, w) else (true, set_cache (<[id := body]> (wd_cache w)) w)
  | TryAcquire _ => (negb fault, w)
  | PieceCopy b src dst =>
      if fault then (None, w)
      else match wd_pieces w !! (b, src) with
           | None => (None, w)
           | Some body => (Some (put_result b dst body), set_pieces (<[(b, dst) := body]> (wd_pieces w)) w)
           end
  end.

(** A request run to its end with nothing in between. The [faults] say which
    of its calls fail; calls beyond the list succeed. *)
Fixpoint exec {R} (p : prog R) (faults : list bool) (w : World) : R * World :=
  match p with
  | Ret r => (r, w)
  | Call c k =>
      let '(a, w') := do_call (default false (head faults)) c w in
      exec (k a) (tail faults) w'
  end.

(** Requests in progress share the world; a step performs the next call of one
    of them. *)
Record config (R : Type) := mkConfig {
  cf_world : World;
  cf_threads : list (prog R)
}.
Arguments mkConfig {R} _ _.
Arguments cf_world {R} _.
Arguments cf_threads {R} _.

Definition step_thread {R} (i : nat) (fault : bool) (c : config R) : option (config R) :=
  match cf_threads c !! i with
  | Some (Call op k) =>
      let '(a, w) := do_call fault op (cf_world c) in
      Some (mkConfig w (<[i := k a]> (cf_threads c)))
  | _ => None
  end.

(** A schedule: which request takes the next call, and whether it fails. *)
Fixpoint run_schedule {R} (sched : list (nat * bool)) (c : config R) : option (config R) :=
  match sched with
  | [] => Some c
  | (i, fault) :: sched =>
      match step_thread i fault c with Some c' => run_schedule sched c' | None => None end
  end.

End semantics.

Arguments mkConfig {R} _ _.
Arguments cf_world {R} _.
Arguments cf_threads {R} _.

(** ** Reasoning about programs *)

Section logic.
Context (put_result : string → string → bytes → PutResult).

(** [Q] holds of the result and the final state, whichever calls fail. *)
Fixpoint wp {R} (p : prog R) (Q : R → World → Prop) (w : World) : Prop :=
  match p with
  | Ret r => Q r w
  | Call c k =>
      ∀ fault, wp (k (do_call put_result fault c w).1) Q (do_call put_result fault c w).2
  end.

Lemma wp_mono {R} (p : prog R) (Q Q' : R → World → Prop) w :
  (∀ r w', Q r w' → Q' r w') → wp p Q w → wp p Q' w.
Proof.
  intros HQ. revert w. induction p as [r|A c k IH]; intros w Hp; simpl in *; [by apply HQ|].
  intros fault. apply IH, Hp.
Qed.

Lemma wp_exec {R} (p : prog R) Q faults w :
  wp p Q w → Q (exec put_result p faults w).1 (exec put_result p faults w).2.
Proof.
  revert faults w. induction p as [r|A c k IH]; intros faults w Hp; simpl in *; [done|].
  specialize (Hp (default false (head faults))).
  destruct (do_call put_result (default false (head faults)) c w) as [a w']. by apply IH.
Qed.

(** A schedule one call at a time. *)
Lemma run_call {R A} i fault sched w (ths : list (prog R)) (c : call A) k a w' :
  ths !! i = Some (Call c k) → do_call put_result fault c w = (a, w') →
  run_schedule put_result ((i, fault) :: sched) (mkConfig w ths) =
  run_schedule put_result sched (mkConfig w' (<[i := k a]> ths)).
Proof. intros Hi Hc. simpl. unfold step_thread. simpl. by rewrite Hi, Hc. Qed.

(** Every call the program may make, whatever the replies, satisfies [ok]. *)
Fixpoint calls_ok {R} (ok : ∀ A, call A → Prop) (p : prog R) : Prop :=
  match p with
  | Ret _ => True
  | Call c k => ok _ c ∧ ∀ a, calls_ok ok (k a)
  end.

Lemma calls_ok_wp {R} (ok : ∀ A, call A → Prop) (P : World → Prop) (p : prog R) w :
  (∀ A (c : call A) fault w, ok A c → P w → P (do_call put_result fault c w).2) →
  calls_ok ok p → P w → wp p (λ _, P) w.
Proof.
  intros Hok. revert w. induction p as [r|A c k IH]; intros w Hp HP; simpl in *; [done|].
  destruct Hp as [Hc Hk]. intros fault. apply IH; [done|]. by apply Hok.
Qed.

End logic.
