(* ===== verification/HotCache.v ===== *)
(** * The hot object cache

    [MemoryCache] keeps pieces in two recency lists, a hot-pin region and a main
    region, with an index from piece ids to list elements and byte counters. The
    state below is the one of the code: elements are pointers ([nat]) into a heap
    of entries, the lists and the index hold pointers. The clock is an argument of
    each operation. *)

From Stdlib Require Import SpecFloat.
From S2P Require Import Prelude Bytes Ranges Manifest ManifestStore EncryptionPipeline Fabric.
Local Open Scope Z_scope.

(** ** Policies *)

Definition EvictionLRU : string := "lru".
Definition EvictionLRUHotPin : string := "lru_hot_pin".

(** A float64. *)
Abbreviation float64 := spec_float.
Definition float64_of_int64 (n : Z) : float64 := binary_normalize 53 1024 n 0 false.
Definition float64_mul (x y : float64) : float64 := SFmul 53 1024 x y.
Definition float64_zero : float64 := S754_zero false.
Definition float64_one : float64 := float64_of_int64 1.

(** [int64(x)], which truncates; the result for a NaN or a value out of range is
    the one of amd64. *)
Definition int64_of_float64 (x : float64) : Z :=
  match x with
  | S754_zero _ => 0
  | S754_finite s m e =>
      let a := if 0 <=? e then Z.pos m * 2 ^ e else Z.pos m / 2 ^ (- e) in
      let v := if s then - a else a in
      if (- 2 ^ 63 <=? v) && (v <? 2 ^ 63) then v else - 2 ^ 63
  | _ => - 2 ^ 63
  end.

Record EvictionPolicy := mkEvictionPolicy {
  ev_Kind : string;
  ev_MaxBytes : Z;
  ev_HotRegionFraction : float64;
  ev_HotDemotionHitCount : Z;
  ev_TTL : Z
}.

Inductive cache_error :=
| KindUnknown | MaxBytesNegative | FractionOutOfRange | TTLNegative | HotPinOnly
| PieceIDRequired | ReadFailed | PieceTooLarge.

Definition EvictionPolicy_Validate (e : EvictionPolicy) : option cache_error :=
  if negb (bool_decide (ev_Kind e = EvictionLRU) || bool_decide (ev_Kind e = EvictionLRUHotPin))
  then Some KindUnknown
  else if ev_MaxBytes e <? 0 then Some MaxBytesNegative
  else if SFltb (ev_HotRegionFraction e) float64_zero || SFleb float64_one (ev_HotRegionFraction e)
  then Some FractionOutOfRange
  else if ev_TTL e <? 0 then Some TTLNegative
  else if bool_decide (ev_Kind e = EvictionLRU)
          && (negb (SFeqb (ev_HotRegionFraction e) float64_zero) || negb (ev_HotDemotionHitCount e =? 0))
  then Some HotPinOnly
  else None.

Record PutOptions := mkPutOptions {
  po_Hash : string;
  po_TTL : Z;
  po_PinHot : bool
}.

(** ** The cache *)

Module Lru.

Record cacheEntry := mkCacheEntry {
  ce_pieceID : string;
  ce_body : bytes;
  ce_hash : string;
  ce_storedAt : Z;
  ce_lastAccess : Z;
  ce_hits : Z;
  ce_pinned : bool;
  ce_expiresAt : Z
}.

Record Stats := mkStats {
  st_Entries : Z;
  st_BytesUsed : Z;
  st_BytesLimit : Z;
  st_Hits : Z;
  st_Misses : Z;
  st_Evictions : Z
}.

Record MemoryCache := mkMemoryCache {
  mc_policy : EvictionPolicy;
  mc_hot : list nat;                 (* list elements, most recent first *)
  mc_main : list nat;
  mc_index : gmap string nat;
  mc_heap : gmap nat cacheEntry;     (* the Value of an element *)
  mc_next : nat;                     (* elements not yet allocated *)
  mc_bytesUsed : Z;
  mc_hotLimit : Z;
  mc_hotBytes : Z;
  mc_stats : Stats
}.

Definition NewMemoryCache (policy : EvictionPolicy) : result cache_error MemoryCache :=
  let policy :=
    if bool_decide (ev_Kind policy = "")
    then mkEvictionPolicy EvictionLRU (ev_MaxBytes policy) (ev_HotRegionFraction policy)
           (ev_HotDemotionHitCount policy) (ev_TTL policy)
    else policy in
  match EvictionPolicy_Validate policy with
  | Some err => Err err
  | None =>
      let hotLimit :=
        if bool_decide (ev_Kind policy = EvictionLRUHotPin)
           && SFltb float64_zero (ev_HotRegionFraction policy) && (0 <? ev_MaxBytes policy)
        then int64_of_float64 (float64_mul (float64_of_int64 (ev_MaxBytes policy)) (ev_HotRegionFraction policy))
        else 0 in
      Ok (mkMemoryCache policy [] [] ∅ ∅ 0 0 hotLimit 0 (mkStats 0 0 (ev_MaxBytes policy) 0 0 0))
  end.

(** [list.Remove] and [list.MoveToFront]: no effect on an element of another list. *)
Definition list_Remove (el : nat) (l : list nat) : list nat := filter (λ x, x ≠ el) l.
Definition list_MoveToFront (el : nat) (l : list nat) : list nat :=
  if bool_decide (el ∈ l) then el :: list_Remove el l else l.

Definition count_miss (s : Stats) : Stats :=
  mkStats (st_Entries s) (st_BytesUsed s) (st_BytesLimit s) (st_Hits s) (wrapu64 (st_Misses s + 1)) (st_Evictions s).
Definition count_hit (s : Stats) : Stats :=
  mkStats (st_Entries s) (st_BytesUsed s) (st_BytesLimit s) (wrapu64 (st_Hits s + 1)) (st_Misses s) (st_Evictions s).
Definition set_stats (f : Stats → Stats) (c : MemoryCache) : MemoryCache :=
  mkMemoryCache (mc_policy c) (mc_hot c) (mc_main c) (mc_index c) (mc_heap c) (mc_next c) (mc_bytesUsed c)
    (mc_hotLimit c) (mc_hotBytes c) (f (mc_stats c)).

Definition removeLocked (el : nat) (c : MemoryCache) : MemoryCache :=
  match mc_heap c !! el with
  | None => c                                  (* no such element *)
  | Some entry =>
      let n := blen (ce_body entry) in
      let index := delete (ce_pieceID entry) (mc_index c) in
      let bytesUsed := wrap64 (mc_bytesUsed c - n) in
      let s := mc_stats c in
      mkMemoryCache (mc_policy c)
        (if ce_pinned entry then list_Remove el (mc_hot c) else mc_hot c)
        (if ce_pinned entry then mc_main c else list_Remove el (mc_main c))
        index (mc_heap c) (mc_next c) bytesUsed (mc_hotLimit c)
        (if ce_pinned entry then wrap64 (mc_hotBytes c - n) else mc_hotBytes c)
        (mkStats (Z.of_nat (size index)) bytesUsed (st_BytesLimit s) (st_Hits s) (st_Misses s)
           (wrapu64 (st_Evictions s + 1)))
  end.

Definition touch (now : Z) (e : cacheEntry) : cacheEntry :=
  mkCacheEntry (ce_pieceID e) (ce_body e) (ce_hash e) (ce_storedAt e) now (wrapu64 (ce_hits e + 1))
    (ce_pinned e) (ce_expiresAt e).

Definition expired (now : Z) (e : cacheEntry) : bool :=
  negb (IsZero (ce_expiresAt e)) && After now (ce_expiresAt e).

(** [Get]: the body, or [None] for [ErrCacheMiss]. *)
Definition Get (now : Z) (pieceID : string) (c : MemoryCache) : option bytes * MemoryCache :=
  match mc_index c !! pieceID with
  | None => (None, set_stats count_miss c)
  | Some el =>
      match mc_heap c !! el with
      | None => (None, c)                      (* no such element *)
      | Some entry =>
          if expired now entry then (None, set_stats count_miss (removeLocked el c))
          else
            (Some (ce_body entry),
             mkMemoryCache (mc_policy c)
               (if ce_pinned entry then list_MoveToFront el (mc_hot c) else mc_hot c)
               (if ce_pinned entry then mc_main c else list_MoveToFront el (mc_main c))
               (mc_index c) (<[el := touch now entry]> (mc_heap c)) (mc_next c) (mc_bytesUsed c)
               (mc_hotLimit c) (mc_hotBytes c) (count_hit (mc_stats c)))
      end
  end.

(** The loops of [evictMainLocked] and [evictHotLocked]: an eviction shortens one
    of the lists. *)
Fixpoint evict_main (fuel : nat) (incoming : Z) (c : MemoryCache) : MemoryCache :=
  match fuel with
  | O => c
  | S fuel =>
      if ev_MaxBytes (mc_policy c) <? wrap64 (mc_bytesUsed c + incoming) then
        match last (mc_main c) with
        | Some back => evict_main fuel incoming (removeLocked back c)
        | None =>
            match last (mc_hot c) with
            | Some back => evict_main fuel incoming (removeLocked back c)
            | None => c
            end
        end
      else c
  end.

Definition elements (c : MemoryCache) : list nat := mc_hot c ++ mc_main c.

Definition evictMainLocked (incoming : Z) (c : MemoryCache) : MemoryCache :=
  if ev_MaxBytes (mc_policy c) <=? 0 then c else evict_main (length (elements c)) incoming c.

Fixpoint evict_hot (fuel : nat) (incoming : Z) (c : MemoryCache) : MemoryCache :=
  match fuel with
  | O => c
  | S fuel =>
      if mc_hotLimit c <? wrap64 (mc_hotBytes c + incoming) then
        match last (mc_hot c) with
        | Some back => evict_hot fuel incoming (removeLocked back c)
        | None => c
        end
      else c
  end.

Definition evictHotLocked (incoming : Z) (c : MemoryCache) : MemoryCache :=
  if mc_hotLimit c <=? 0 then c else evict_hot (length (mc_hot c)) incoming c.

(** [Put]; the body is [None] when reading it fails. *)
Definition Put (now : Z) (pieceID : string) (r : option bytes) (opts : PutOptions) (c : MemoryCache)
    : result cache_error MemoryCache :=
  if bool_decide (pieceID = "") then Err PieceIDRequired
  else match r with
  | None => Err ReadFailed
  | Some data =>
      let n := blen data in
      if (0 <? ev_MaxBytes (mc_policy c)) && (ev_MaxBytes (mc_policy c) <? n) then Err PieceTooLarge
      else
        let c := match mc_index c !! pieceID with Some existing => removeLocked existing c | None => c end in
        let pin := po_PinHot opts && bool_decide (ev_Kind (mc_policy c) = EvictionLRUHotPin) in
        let expiresAt :=
          if 0 <? po_TTL opts then now + po_TTL opts
          else if 0 <? ev_TTL (mc_policy c) then now + ev_TTL (mc_policy c)
          else zero_time in
        let entry := mkCacheEntry pieceID data (po_Hash opts) now now 0 pin expiresAt in
        let c := if pin then evictHotLocked n c else c in
        let c := evictMainLocked n c in
        let el := mc_next c in
        let index := <[pieceID := el]> (mc_index c) in
        let bytesUsed := wrap64 (mc_bytesUsed c + n) in
        let s := mc_stats c in
        Ok (mkMemoryCache (mc_policy c)
              (if pin then el :: mc_hot c else mc_hot c) (if pin then mc_main c else el :: mc_main c)
              index (<[el := entry]> (mc_heap c)) (S el) bytesUsed (mc_hotLimit c)
              (if pin then wrap64 (mc_hotBytes c + n) else mc_hotBytes c)
              (mkStats (Z.of_nat (size index)) bytesUsed (st_BytesLimit s) (st_Hits s) (st_Misses s)
                 (st_Evictions s)))
  end.

Definition Evict (pieceID : string) (c : MemoryCache) : MemoryCache :=
  match mc_index c !! pieceID with
  | None => c
  | Some el => removeLocked el c
  end.

(** ** The invariant *)

Definition size_of (heap : gmap nat cacheEntry) (el : nat) : Z :=
  match heap !! el with Some e => blen (ce_body e) | None => 0 end.

Definition total (heap : gmap nat cacheEntry) (l : list nat) : Z := foldr (λ el n, size_of heap el + n) 0 l.

(** The bodies the cache holds. *)
Definition contents (c : MemoryCache) : gmap string bytes :=
  omap (λ el, ce_body <$> mc_heap c !! el) (mc_index c).

(** The lists, the index, the heap and the counters describe one set of entries,
    which fits the limit. *)
Record cache_ok (c : MemoryCache) : Prop := {
  ok_nodup : NoDup (elements c);
  ok_index id el : mc_index c !! id = Some el ↔ el ∈ elements c ∧ ce_pieceID <$> mc_heap c !! el = Some id;
  ok_heap el : el ∈ elements c → is_Some (mc_heap c !! el);
  ok_hot el e : el ∈ mc_hot c → mc_heap c !! el = Some e → ce_pinned e = true;
  ok_main el e : el ∈ mc_main c → mc_heap c !! el = Some e → ce_pinned e = false;
  ok_next el : is_Some (mc_heap c !! el) → (el < mc_next c)%nat;
  ok_bytes : mc_bytesUsed c = total (mc_heap c) (elements c);
  ok_hotBytes : mc_hotBytes c = total (mc_heap c) (mc_hot c);
  ok_limit : 0 < ev_MaxBytes (mc_policy c) < 2 ^ 62;
  ok_bounded : mc_bytesUsed c ≤ ev_MaxBytes (mc_policy c);
  ok_stats : st_BytesUsed (mc_stats c) = mc_bytesUsed c ∧ st_Entries (mc_stats c) = Z.of_nat (size (mc_index c))
}.

Lemma total_cons heap el l : total heap (el :: l) = size_of heap el + total heap l.
Proof. done. Qed.

Lemma total_app heap l k : total heap (l ++ k) = total heap l + total heap k.
Proof. induction l as [|x l IH]; [done|]. cbn [app]. rewrite !total_cons. lia. Qed.

Lemma size_of_nonneg heap el : 0 ≤ size_of heap el.
Proof. unfold size_of, blen. destruct (heap !! el); lia. Qed.

Lemma total_nonneg heap l : 0 ≤ total heap l.
Proof. induction l as [|x l IH]; [done|]. rewrite total_cons. pose proof (size_of_nonneg heap x). lia. Qed.

Lemma total_ext heap heap' l : (∀ el, el ∈ l → size_of heap' el = size_of heap el) → total heap' l = total heap l.
Proof.
  induction l as [|x l IH]; intros Hl; [done|]. rewrite !total_cons, (Hl x) by set_solver.
  rewrite IH; [done|set_solver].
Qed.

Lemma total_Remove heap el l :
  NoDup l → total heap (list_Remove el l) = total heap l - (if bool_decide (el ∈ l) then size_of heap el else 0).
Proof.
  induction 1 as [|x l Hx Hnd IH]; [by rewrite bool_decide_eq_false_2 by set_solver|].
  unfold list_Remove in *. rewrite total_cons. destruct (decide (x = el)) as [->|Hne].
  - rewrite filter_cons_False by naive_solver. rewrite bool_decide_eq_true_2 by set_solver.
    rewrite filter_all by set_solver. lia.
  - rewrite filter_cons_True by done. rewrite total_cons, IH.
    destruct (decide (el ∈ l)); [rewrite !bool_decide_eq_true_2 by set_solver|rewrite !bool_decide_eq_false_2 by set_solver]; lia.
Qed.

Lemma MoveToFront_perm el l : NoDup l → list_MoveToFront el l ≡ₚ l.
Proof.
  intros Hnd. unfold list_MoveToFront. case_bool_decide as Hin; [|done]. unfold list_Remove.
  induction Hnd as [|x l Hx Hnd IH]; [set_solver|].
  destruct (decide (x = el)) as [->|Hne].
  - rewrite filter_cons_False by naive_solver. rewrite filter_all by set_solver. done.
  - rewrite filter_cons_True by done. rewrite Permutation_swap. f_equiv. apply IH. set_solver.
Qed.

Lemma total_perm heap l l' : l ≡ₚ l' → total heap l = total heap l'.
Proof. induction 1; rewrite ?total_cons in *; lia. Qed.

#[local] Instance total_Proper heap : Proper ((≡ₚ) ==> (=)) (total heap).
Proof. intros l l'. apply total_perm. Qed.

(** What is known of an element of the lists. *)
Lemma element_facts c el :
  cache_ok c → el ∈ elements c →
  ∃ e, mc_heap c !! el = Some e ∧ mc_index c !! ce_pieceID e = Some el ∧
    (if ce_pinned e then el ∈ mc_hot c ∧ el ∉ mc_main c else el ∉ mc_hot c ∧ el ∈ mc_main c) ∧
    size_of (mc_heap c) el = blen (ce_body e) ∧ blen (ce_body e) ≤ mc_bytesUsed c.
Proof.
  intros [Hnd Hix Hh Hhot Hmain _ Hb _ _ _ _] Hel. destruct (Hh el Hel) as [e He]. exists e.
  assert (size_of (mc_heap c) el = blen (ce_body e)) as Hs by (unfold size_of; by rewrite He).
  split_and!; [done| | |done|].
  - apply Hix. by rewrite He.
  - unfold elements in *. apply NoDup_app in Hnd as (_ & Hdis & _). apply elem_of_app in Hel as [Hin|Hin].
    + rewrite (Hhot _ _ Hin He). split; [done|by apply Hdis].
    + rewrite (Hmain _ _ Hin He). split; [|done]. intros ?. by apply (Hdis el).
  - rewrite Hb, <- Hs. pose proof (total_Remove (mc_heap c) el _ Hnd) as Hr.
    rewrite bool_decide_eq_true_2 in Hr by done. pose proof (total_nonneg (mc_heap c) (list_Remove el (elements c))). lia.
Qed.

Lemma elements_remove c el :
  cache_ok c → el ∈ elements c → elements (removeLocked el c) = list_Remove el (elements c).
Proof.
  intros Hok Hel. destruct (element_facts c el Hok Hel) as (e & He & _ & Hin & _).
  unfold removeLocked. rewrite He. unfold elements, list_Remove. simpl. rewrite filter_app.
  destruct (ce_pinned e); destruct Hin as [? ?]; f_equal; rewrite filter_all; set_solver.
Qed.

Lemma elem_Remove el x l : x ∈ list_Remove el l ↔ x ≠ el ∧ x ∈ l.
Proof. unfold list_Remove. by rewrite list_elem_of_filter. Qed.

Lemma remove_ok c el : cache_ok c → el ∈ elements c → cache_ok (removeLocked el c).
Proof.
  intros Hok Hel. pose proof (elements_remove c el Hok Hel) as Hels.
  destruct (element_facts c el Hok Hel) as (e & He & Hid & Hin & Hs & Hle).
  pose proof Hok as [Hnd Hix Hh Hhot Hmain Hnext Hb Hhb Hlim Hbd [Hst Hen]].
  assert (0 ≤ blen (ce_body e)) by (unfold blen; lia).
  assert (wrap64 (mc_bytesUsed c - blen (ce_body e)) = mc_bytesUsed c - blen (ce_body e)) as Hw
    by (apply wrap64_id; unfold is_int64; lia).
  unfold removeLocked in *. rewrite He in *. rewrite Hw in *. split; rewrite ?Hels; simpl in *; try done.
  - by apply NoDup_filter.
  - intros id x. rewrite elem_Remove, lookup_delete_Some, Hix. split.
    + intros (Hne & Hx & Hid'). split_and!; [|done|done]. intros ->. rewrite He in Hid'. simpl in Hid'. congruence.
    + intros ((Hne & Hx) & Hid'). split_and!; [|done|done]. intros Heq. subst id.
      assert (mc_index c !! ce_pieceID e = Some x) by by apply Hix. congruence.
  - intros x [_ ?]%elem_Remove. by apply Hh.
  - intros x e' Hx. apply (Hhot x). destruct (ce_pinned e); [by apply elem_Remove in Hx as [_ ?]|done].
  - intros x e' Hx. apply (Hmain x). destruct (ce_pinned e); [done|by apply elem_Remove in Hx as [_ ?]].
  - rewrite total_Remove, bool_decide_eq_true_2 by done. lia.
  - rewrite Hhb. destruct (ce_pinned e) eqn:Hp; [|done]. destruct Hin as [Hin _].
    apply NoDup_app in Hnd as (Hndh & _ & _).
    rewrite total_Remove, bool_decide_eq_true_2 by done. rewrite Hs.
    pose proof (total_nonneg (mc_heap c) (list_Remove el (mc_hot c))) as Hge.
    rewrite total_Remove, bool_decide_eq_true_2 in Hge by done.
    pose proof (total_nonneg (mc_heap c) (mc_main c)).
    unfold elements in Hb. rewrite total_app in Hb. apply wrap64_id. unfold is_int64. lia.
  - lia.
Qed.

Lemma contents_lookup c id b :
  contents c !! id = Some b ↔ ∃ el e, mc_index c !! id = Some el ∧ mc_heap c !! el = Some e ∧ ce_body e = b.
Proof.
  unfold contents. rewrite lookup_omap. split.
  - intros (el & Hel & (e & He & ->)%fmap_Some)%bind_Some. by exists el, e.
  - intros (el & e & -> & He & <-). simpl. by rewrite He.
Qed.

Lemma contents_remove c el :
  cache_ok c → el ∈ elements c → contents (removeLocked el c) ⊆ contents c.
Proof.
  intros Hok Hel. destruct (element_facts c el Hok Hel) as (e & He & _).
  apply map_subseteq_spec. intros id b. rewrite !contents_lookup. unfold removeLocked. rewrite He. simpl.
  intros (el' & e' & [_ ?]%lookup_delete_Some & ? & ?). by exists el', e'.
Qed.

(** Entries are dropped and nothing else changes. *)
Record shrinks (c c' : MemoryCache) : Prop := {
  sh_ok : cache_ok c';
  sh_policy : mc_policy c' = mc_policy c;
  sh_hotLimit : mc_hotLimit c' = mc_hotLimit c;
  sh_next : mc_next c' = mc_next c;
  sh_heap : mc_heap c' = mc_heap c;
  sh_index : mc_index c' ⊆ mc_index c
}.

Lemma shrinks_refl c : cache_ok c → shrinks c c.
Proof. by split. Qed.

Lemma shrinks_trans c c' c'' : shrinks c c' → shrinks c' c'' → shrinks c c''.
Proof. intros [] []. split; [done|congruence..|by etrans]. Qed.

Lemma shrinks_remove c el : cache_ok c → el ∈ elements c → shrinks c (removeLocked el c).
Proof.
  intros Hok Hel. split; [by apply remove_ok|..]; unfold removeLocked; destruct (mc_heap c !! el); try done.
  simpl. apply delete_subseteq.
Qed.

Lemma shrinks_contents c c' : shrinks c c' → contents c' ⊆ contents c.
Proof.
  intros [_ _ _ _ Hh Hi]. apply map_subseteq_spec. intros id b. rewrite !contents_lookup, Hh.
  intros (el & e & Hel & ?). exists el, e. split; [|done]. by eapply lookup_weaken.
Qed.

Lemma last_elem (l : list nat) x : last l = Some x → x ∈ l.
Proof. intros Hl. apply last_Some in Hl as [l' ->]. set_solver. Qed.

Lemma length_Remove el l : NoDup l → el ∈ l → S (length (list_Remove el l)) = length l.
Proof.
  intros Hnd Hin. rewrite <- (Permutation_length (MoveToFront_perm el l Hnd)).
  unfold list_MoveToFront. by rewrite bool_decide_eq_true_2.
Qed.

Lemma evict_main_ok fuel incoming c :
  cache_ok c → (length (elements c) ≤ fuel)%nat → 0 ≤ incoming ≤ ev_MaxBytes (mc_policy c) →
  let c' := evict_main fuel incoming c in
  shrinks c c' ∧ mc_bytesUsed c' + incoming ≤ ev_MaxBytes (mc_policy c').
Proof.
  revert c. induction fuel as [|fuel IH]; intros c Hok Hlen Hin; simpl.
  { split; [by apply shrinks_refl|]. destruct (elements c) eqn:He; [|simpl in Hlen; lia].
    rewrite (ok_bytes c Hok), He. simpl. lia. }
  pose proof (ok_limit c Hok). pose proof (ok_bounded c Hok).
  assert (0 ≤ mc_bytesUsed c) by (rewrite (ok_bytes c Hok); apply total_nonneg).
  rewrite wrap64_id by (unfold is_int64; lia).
  destruct (_ <? _) eqn:Hover; bool_facts; [|by split; [apply shrinks_refl|]].
  assert (∀ back, back ∈ elements c →
    let c' := evict_main fuel incoming (removeLocked back c) in
    shrinks c c' ∧ mc_bytesUsed c' + incoming ≤ ev_MaxBytes (mc_policy c')) as Hstep.
  { intros back Hback. pose proof (shrinks_remove c back Hok Hback) as Hsh.
    destruct (IH (removeLocked back c)) as [Hs Hb].
    - apply Hsh.
    - rewrite elements_remove by done. pose proof (length_Remove back _ (ok_nodup c Hok) Hback). lia.
    - by rewrite (sh_policy _ _ Hsh).
    - split; [by eapply shrinks_trans|done]. }
  destruct (last (mc_main c)) as [back|] eqn:Hm.
  { apply Hstep. apply elem_of_app. right. by apply last_elem. }
  destruct (last (mc_hot c)) as [back|] eqn:Hh.
  { apply Hstep. apply elem_of_app. left. by apply last_elem. }
  apply last_None in Hm. apply last_None in Hh.
  rewrite (ok_bytes c Hok) in Hover. unfold elements in Hover. rewrite Hm, Hh in Hover. simpl in Hover. lia.
Qed.

Lemma evict_hot_ok fuel incoming c : cache_ok c → shrinks c (evict_hot fuel incoming c).
Proof.
  revert c. induction fuel as [|fuel IH]; intros c Hok; simpl; [by apply shrinks_refl|].
  destruct (_ <? _); [|by apply shrinks_refl].
  destruct (last (mc_hot c)) as [back|] eqn:Hh; [|by apply shrinks_refl].
  assert (back ∈ elements c) by (apply elem_of_app; left; by apply last_elem).
  eapply shrinks_trans; [by apply shrinks_remove|]. by apply IH, remove_ok.
Qed.

Lemma Evict_shrinks id c : cache_ok c → shrinks c (Evict id c) ∧ mc_index (Evict id c) !! id = None.
Proof.
  intros Hok. unfold Evict. destruct (mc_index c !! id) as [el|] eqn:Hi; [|by split; [apply shrinks_refl|]].
  apply (ok_index c Hok) in Hi as [Hel Hid]. split; [by apply shrinks_remove|].
  unfold removeLocked. destruct (mc_heap c !! el) as [e|]; [|done]. injection Hid as <-. apply lookup_delete_eq.
Qed.

(** The state in which [Put] inserts the new entry. *)
Lemma make_room id n (pin : bool) c :
  cache_ok c → 0 ≤ n ≤ ev_MaxBytes (mc_policy c) →
  let c1 := Evict id c in
  let c2 := if pin then evictHotLocked n c1 else c1 in
  let c3 := evictMainLocked n c2 in
  shrinks c c3 ∧ mc_bytesUsed c3 + n ≤ ev_MaxBytes (mc_policy c3) ∧ mc_index c3 !! id = None.
Proof.
  intros Hok Hn c1 c2 c3. destruct (Evict_shrinks id c Hok) as [Hs1 Hi1].
  assert (shrinks c1 c2) as Hs2.
  { unfold c2. destruct pin; [|apply shrinks_refl, Hs1]. unfold evictHotLocked.
    destruct (_ <=? 0); [apply shrinks_refl, Hs1|apply evict_hot_ok, Hs1]. }
  pose proof (shrinks_trans _ _ _ Hs1 Hs2) as Hs12.
  assert (shrinks c2 c3 ∧ mc_bytesUsed c3 + n ≤ ev_MaxBytes (mc_policy c3)) as [Hs3 Hfit].
  { unfold c3, evictMainLocked. rewrite (sh_policy _ _ Hs12). pose proof (ok_limit c Hok).
    rewrite (proj2 (Z.leb_gt _ _)) by lia.
    apply evict_main_ok; [apply Hs12|done|]. by rewrite (sh_policy _ _ Hs12). }
  split_and!; [by eapply shrinks_trans|done|].
  eapply lookup_weaken_None; [|apply (shrinks_trans _ _ _ Hs2 Hs3)]. done.
Qed.

(** The end of [Put]. *)
Definition push (e : cacheEntry) (c : MemoryCache) : MemoryCache :=
  let el := mc_next c in
  let n := blen (ce_body e) in
  let index := <[ce_pieceID e := el]> (mc_index c) in
  let bytesUsed := wrap64 (mc_bytesUsed c + n) in
  let s := mc_stats c in
  mkMemoryCache (mc_policy c)
    (if ce_pinned e then el :: mc_hot c else mc_hot c) (if ce_pinned e then mc_main c else el :: mc_main c)
    index (<[el := e]> (mc_heap c)) (S el) bytesUsed (mc_hotLimit c)
    (if ce_pinned e then wrap64 (mc_hotBytes c + n) else mc_hotBytes c)
    (mkStats (Z.of_nat (size index)) bytesUsed (st_BytesLimit s) (st_Hits s) (st_Misses s) (st_Evictions s)).

Lemma push_elements e c : elements (push e c) ≡ₚ mc_next c :: elements c.
Proof.
  unfold elements, push. simpl. destruct (ce_pinned e); [done|]. by rewrite Permutation_middle.
Qed.

Lemma fresh_next c : cache_ok c → mc_next c ∉ elements c.
Proof. intros Hok Hin. apply (ok_heap c Hok), (ok_next c Hok) in Hin. lia. Qed.

Lemma push_ok e c :
  cache_ok c → mc_index c !! ce_pieceID e = None →
  mc_bytesUsed c + blen (ce_body e) ≤ ev_MaxBytes (mc_policy c) → cache_ok (push e c).
Proof.
  intros Hok Hnone Hfit. pose proof (fresh_next c Hok) as Hfresh. pose proof (push_elements e c) as Hels.
  pose proof Hok as [Hnd Hix Hh Hhot Hmain Hnext Hb Hhb Hlim Hbd [Hst Hen]].
  assert (0 ≤ blen (ce_body e)) by (unfold blen; lia).
  assert (0 ≤ mc_bytesUsed c) by (rewrite Hb; apply total_nonneg).
  assert (∀ l, mc_next c ∉ l → total (<[mc_next c := e]> (mc_heap c)) l = total (mc_heap c) l) as Htot.
  { intros l Hl. apply total_ext. intros el Hel. unfold size_of. rewrite lookup_insert_ne; [done|]. intros <-. done. }
  assert (size_of (<[mc_next c := e]> (mc_heap c)) (mc_next c) = blen (ce_body e)) as Hsz
    by (unfold size_of; by rewrite lookup_insert_eq).
  assert (mc_next c ∉ mc_hot c ∧ mc_next c ∉ mc_main c) as [Hfh Hfm] by (unfold elements in Hfresh; set_solver).
  split.
  - rewrite Hels. by constructor.
  - intros id el. rewrite Hels. simpl. rewrite elem_of_cons.
    destruct (decide (el = mc_next c)) as [->|Hne].
    + rewrite lookup_insert_eq. simpl. split.
      * intros [[<- _]|[Hne Hi]]%lookup_insert_Some; [by split; [left|]|]. apply Hix in Hi as [? _]. done.
      * intros [_ [= <-]]. apply lookup_insert_eq.
    + rewrite (lookup_insert_ne (mc_heap c)) by done. split.
      * intros [[_ ?]|[? Hi]]%lookup_insert_Some; [done|]. apply Hix in Hi as [? ?]. split; [by right|done].
      * intros [[?|Hin] Hid]; [done|]. assert (mc_index c !! id = Some el) as Hi by by apply Hix.
        rewrite lookup_insert_ne; [done|]. intros <-. congruence.
  - intros el. rewrite Hels, elem_of_cons. simpl. intros [->|Hin]; [by rewrite lookup_insert_eq|].
    rewrite lookup_insert_is_Some'. right. by apply Hh.
  - intros el e'. simpl. intros Hin [[<- <-]|[? ?]]%lookup_insert_Some.
    + destruct (ce_pinned e); [done|by destruct Hfh].
    + apply (Hhot el); [|done]. destruct (ce_pinned e); [set_solver|done].
  - intros el e'. simpl. intros Hin [[<- <-]|[? ?]]%lookup_insert_Some.
    + destruct (ce_pinned e) eqn:Hp; [by destruct Hfm|done].
    + apply (Hmain el); [|done]. destruct (ce_pinned e); [done|set_solver].
  - intros el. simpl. rewrite lookup_insert_is_Some'. intros [<-|Hin%Hnext]; lia.
  - rewrite (total_perm _ _ _ Hels), total_cons. simpl. rewrite Hsz, Htot by done.
    rewrite wrap64_id by (unfold is_int64; lia). lia.
  - simpl. destruct (ce_pinned e); [|by rewrite Htot]. rewrite total_cons, Hsz, Htot by done. rewrite Hhb.
    unfold elements in Hb. rewrite total_app in Hb. pose proof (total_nonneg (mc_heap c) (mc_main c)).
    pose proof (total_nonneg (mc_heap c) (mc_hot c)). rewrite wrap64_id by (unfold is_int64; lia). lia.
  - done.
  - simpl. rewrite wrap64_id by (unfold is_int64; lia). done.
  - done.
Qed.

Lemma push_contents e c :
  cache_ok c → contents (push e c) = <[ce_pieceID e := ce_body e]> (contents c).
Proof.
  intros Hok. apply map_eq. intros id. unfold contents, push. simpl. rewrite lookup_omap.
  destruct (decide (ce_pieceID e = id)) as [<-|Hne].
  - rewrite !lookup_insert_eq. simpl. by rewrite lookup_insert_eq.
  - rewrite !lookup_insert_ne, lookup_omap by done. destruct (mc_index c !! id) as [el|] eqn:Hi; [|done].
    simpl. rewrite lookup_insert_ne; [done|]. intros <-.
    apply (ok_index c Hok) in Hi as [Hin _]. by apply (fresh_next c Hok).
Qed.

(** When an entry put at [now] expires. *)
Definition expiry (now : Z) (opts : PutOptions) (policy : EvictionPolicy) : Z :=
  if 0 <? po_TTL opts then now + po_TTL opts
  else if 0 <? ev_TTL policy then now + ev_TTL policy
  else zero_time.

Definition pins (opts : PutOptions) (policy : EvictionPolicy) : bool :=
  po_PinHot opts && bool_decide (ev_Kind policy = EvictionLRUHotPin).

(** [Put] refuses, or makes room and pushes the entry. *)
Lemma Put_push now id r opts c :
  cache_ok c →
  match Put now id r opts c with
  | Err _ => id = "" ∨ r = None ∨ ∃ data, r = Some data ∧ ev_MaxBytes (mc_policy c) < blen data
  | Ok c' => ∃ data c3, r = Some data ∧ shrinks c c3 ∧ mc_index c3 !! id = None ∧
      mc_bytesUsed c3 + blen data ≤ ev_MaxBytes (mc_policy c3) ∧
      c' = push (mkCacheEntry id data (po_Hash opts) now now 0 (pins opts (mc_policy c))
                   (expiry now opts (mc_policy c))) c3
  end.
Proof.
  intros Hok. unfold Put. case_bool_decide as Hid; [by left|].
  destruct r as [data|]; [|by right; left]. pose proof (ok_limit c Hok) as Hlim.
  rewrite (proj2 (Z.ltb_lt 0 _)) by lia. simpl andb.
  destruct (_ <? blen data) eqn:Hbig; bool_facts; [by right; right; exists data|].
  fold (Evict id c). destruct (Evict_shrinks id c Hok) as [He _]. rewrite (sh_policy _ _ He).
  fold (pins opts (mc_policy c)) (expiry now opts (mc_policy c)).
  destruct (make_room id (blen data) (pins opts (mc_policy c)) c Hok) as (Hs & Hfit & Hnone);
    [unfold blen in *; lia|].
  eexists data, _. by split_and!.
Qed.

(** [Put] stores the body and drops only other entries. *)
Lemma Put_spec now id r opts c c' :
  cache_ok c → Put now id r opts c = Ok c' →
  cache_ok c' ∧ mc_policy c' = mc_policy c ∧
  ∃ data, r = Some data ∧ contents c' !! id = Some data ∧ contents c' ⊆ <[id := data]> (contents c).
Proof.
  intros Hok Hput. pose proof (Put_push now id r opts c Hok) as Hp. rewrite Hput in Hp.
  destruct Hp as (data & c3 & -> & Hs & Hnone & Hfit & ->).
  split_and!; [by apply push_ok; [apply Hs|..]|apply Hs|].
  exists data. rewrite push_contents by apply Hs. simpl.
  split_and!; [done|apply lookup_insert_eq|]. apply insert_mono. by apply shrinks_contents.
Qed.

(** Only the recency of the entry and its last access change on a hit. *)
Lemma touch_ok now el e c :
  cache_ok c → el ∈ elements c → mc_heap c !! el = Some e →
  cache_ok (mkMemoryCache (mc_policy c)
    (if ce_pinned e then list_MoveToFront el (mc_hot c) else mc_hot c)
    (if ce_pinned e then mc_main c else list_MoveToFront el (mc_main c))
    (mc_index c) (<[el := touch now e]> (mc_heap c)) (mc_next c) (mc_bytesUsed c)
    (mc_hotLimit c) (mc_hotBytes c) (count_hit (mc_stats c))).
Proof.
  intros [Hnd Hix Hh Hhot Hmain Hnext Hb Hhb Hlim Hbd [Hst Hen]] Hel He.
  pose proof Hnd as Hnd'. unfold elements in Hnd'. apply NoDup_app in Hnd' as (Hndh & _ & Hndm).
  assert ((if ce_pinned e then list_MoveToFront el (mc_hot c) else mc_hot c) ≡ₚ mc_hot c) as Hph
    by (destruct (ce_pinned e); [by apply MoveToFront_perm|done]).
  assert ((if ce_pinned e then mc_main c else list_MoveToFront el (mc_main c)) ≡ₚ mc_main c) as Hpm
    by (destruct (ce_pinned e); [done|by apply MoveToFront_perm]).
  assert (∀ l, total (<[el := touch now e]> (mc_heap c)) l = total (mc_heap c) l) as Htot.
  { intros l. apply total_ext. intros x _. unfold size_of.
    destruct (decide (el = x)) as [<-|]; [by rewrite lookup_insert_eq, He|by rewrite lookup_insert_ne]. }
  assert (∀ x e', <[el := touch now e]> (mc_heap c) !! x = Some e' →
    ∃ e0, mc_heap c !! x = Some e0 ∧ ce_pinned e' = ce_pinned e0) as Hpin.
  { intros x e' [[<- <-]|[_ ?]]%lookup_insert_Some; [by exists e|by exists e']. }
  split; unfold elements in *; simpl; rewrite ?Hph, ?Hpm, ?Htot; try done.
  - intros id x. rewrite Hix, Hph, Hpm. destruct (decide (el = x)) as [<-|]; [by rewrite lookup_insert_eq, He|by rewrite lookup_insert_ne].
  - intros x. rewrite Hph, Hpm. intros Hx. rewrite lookup_insert_is_Some'. right. by apply Hh.
  - intros x e' Hx (e0 & ? & ->)%Hpin. rewrite Hph in Hx. by apply (Hhot x).
  - intros x e' Hx (e0 & ? & ->)%Hpin. rewrite Hpm in Hx. by apply (Hmain x).
  - intros x. rewrite lookup_insert_is_Some'. intros [<-|?]; apply Hnext; [by rewrite He|done].
Qed.

Lemma set_stats_ok c : cache_ok c → cache_ok (set_stats count_miss c).
Proof. intros []. by split. Qed.

(** [Get] returns what the cache holds unless it has expired. *)
Lemma Get_spec now id c :
  cache_ok c →
  let '(r, c') := Get now id c in
  cache_ok c' ∧ mc_policy c' = mc_policy c ∧ contents c' ⊆ contents c ∧
  match r with Some b => contents c !! id = Some b | None => True end.
Proof.
  intros Hok. unfold Get. destruct (mc_index c !! id) as [el|] eqn:Hi;
    [|by split_and!; [by apply set_stats_ok|..]].
  pose proof Hi as [Hel Hid]%(ok_index c Hok). destruct (mc_heap c !! el) as [e|] eqn:He; [|by split_and!].
  destruct (expired now e).
  - pose proof (shrinks_remove c el Hok Hel) as Hs.
    split_and!; [apply set_stats_ok, Hs|exact (sh_policy _ _ Hs)|exact (shrinks_contents _ _ Hs)|done].
  - split_and!; [by apply touch_ok|done| |by apply contents_lookup; exists el, e].
    apply map_subseteq_spec. intros id' b. rewrite !contents_lookup. simpl.
    intros (x & e' & ? & [[<- <-]|[_ ?]]%lookup_insert_Some & ?); [by exists el, e|by exists x, e'].
Qed.

(** ** Runs of operations *)

Inductive op :=
| OGet (now : Z) (pieceID : string)
| OPut (now : Z) (pieceID : string) (r : option bytes) (opts : PutOptions)
| OEvict (pieceID : string).

Definition apply_op (c : MemoryCache) (o : op) : MemoryCache :=
  match o with
  | OGet now id => (Get now id c).2
  | OPut now id r opts => match Put now id r opts c with Ok c' => c' | Err _ => c end
  | OEvict id => Evict id c
  end.

Lemma apply_op_ok c o : cache_ok c → cache_ok (apply_op c o) ∧ mc_policy (apply_op c o) = mc_policy c.
Proof.
  intros Hok. destruct o as [now id|now id r opts|id]; simpl.
  - pose proof (Get_spec now id c Hok) as Hg. destruct (Get now id c). by destruct Hg as (? & ? & _).
  - destruct (Put now id r opts c) eqn:Hp; [|done]. apply Put_spec in Hp as (? & ? & _); done.
  - destruct (Evict_shrinks id c Hok) as [[] _]. done.
Qed.

Lemma new_ok policy c :
  0 < ev_MaxBytes policy < 2 ^ 62 → NewMemoryCache policy = Ok c →
  cache_ok c ∧ ev_MaxBytes (mc_policy c) = ev_MaxBytes policy.
Proof.
  intros Hmax. unfold NewMemoryCache.
  set (policy' := if bool_decide (ev_Kind policy = "") then _ else _).
  assert (ev_MaxBytes policy' = ev_MaxBytes policy) as Hp by (unfold policy'; by case_bool_decide).
  destruct (EvictionPolicy_Validate policy'); [done|]. intros [= <-]. split; [|done].
  split; simpl; rewrite ?Hp; try done; try lia.
  - constructor.
  - intros id el. rewrite lookup_empty. split; [done|]. intros [Hin _]. by apply elem_of_nil in Hin.
  - intros el Hin. by apply elem_of_nil in Hin.
  - intros el [e He]. by rewrite lookup_empty in He.
Qed.

(** The cache stays within its limit and its books are right. After any
    sequence of reads, writes (of any size, pinned or not, with bodies that fail to
    read) and evictions at any times, the bytes accounted for are those of the
    entries held, they do not exceed MaxBytes, the hot region's count is that of the
    pinned entries, and the index leads to exactly the elements of the two lists. *)
Theorem cache_stays_bounded policy c ops :
  0 < ev_MaxBytes policy < 2 ^ 62 → NewMemoryCache policy = Ok c →
  let c' := foldl apply_op c ops in
  cache_ok c' ∧ 0 ≤ st_BytesUsed (mc_stats c') ≤ ev_MaxBytes policy.
Proof.
  intros Hmax Hnew. destruct (new_ok policy c Hmax Hnew) as [Hok Hpol]. clear Hnew.
  revert c Hok Hpol. induction ops as [|o ops IH]; intros c Hok Hpol; simpl.
  - split; [done|]. destruct (ok_stats c Hok) as [-> _]. rewrite <- Hpol. split; [|apply (ok_bounded c Hok)].
    rewrite (ok_bytes c Hok). apply total_nonneg.
  - destruct (apply_op_ok c o Hok) as [Hok' Hpol']. apply IH; [done|]. by rewrite Hpol'.
Qed.


(** What is put is there: a read of a piece after a successful write, at any
    time up to the expiry of the entry (the option's time to live, or else the
    policy's, or else never), hits and returns its bytes, whatever had to be
    evicted to make room. *)
Lemma put_then_hit now now' id r opts c c' :
  cache_ok c → Put now id r opts c = Ok c' →
  (now' ≤ expiry now opts (mc_policy c) ∨ expiry now opts (mc_policy c) = zero_time) →
  (Get now' id c').1 = r.
Proof.
  intros Hok Hput Hexp. pose proof (Put_push now id r opts c Hok) as Hp. rewrite Hput in Hp.
  destruct Hp as (data & c3 & -> & _ & _ & _ & ->). unfold Get, push. simpl. rewrite !lookup_insert_eq.
  unfold expired, After. simpl. destruct Hexp as [Hle| ->]; [|done].
  rewrite (proj2 (Z.ltb_ge _ _)) by lia. by rewrite andb_false_r.
Qed.

(** The hot region is not bounded by its share: a pinned piece longer than the
    hot limit is put in the hot region all the same, whose bytes then exceed it. *)
Lemma hot_region_exceeds_share now id data opts c c' :
  cache_ok c → pins opts (mc_policy c) = true → mc_hotLimit c < blen data →
  Put now id (Some data) opts c = Ok c' → mc_hotLimit c' = mc_hotLimit c ∧ mc_hotLimit c' < mc_hotBytes c'.
Proof.
  intros Hok Hpin Hbig Hput. pose proof (Put_push now id (Some data) opts c Hok) as Hp. rewrite Hput in Hp.
  destruct Hp as (data' & c3 & [= <-] & Hs & Hnone & Hfit & ->).
  match goal with |- context [push ?e c3] =>
    pose proof (ok_hotBytes _ (push_ok e c3 (sh_ok _ _ Hs) Hnone Hfit)) as Hhb end.
  rewrite Hhb. simpl. rewrite Hpin. split; [apply Hs|]. rewrite total_cons. unfold size_of.
  rewrite lookup_insert_eq, (sh_hotLimit _ _ Hs). simpl.
  match goal with |- _ < _ + total ?h ?l => pose proof (total_nonneg h l) end. lia.
Qed.

(** ** Examples *)

Definition ex_policy : EvictionPolicy := mkEvictionPolicy EvictionLRUHotPin 10 (S754_finite false 4503599627370496 (-54)) 1 60.
Definition ex_cache : MemoryCache :=
  mkMemoryCache ex_policy [] [] ∅ ∅ 0 0 2 0 (mkStats 0 0 10 0 0 0).
Definition ex_bytes (s : string) : bytes := String.list_ascii_of_string s.
Definition ex_pin : PutOptions := mkPutOptions "" 0 true.
Definition ex_plain : PutOptions := mkPutOptions "" 0 false.

(** Four pieces of four bytes in a cache of ten: the first written is gone, the
    pinned one and the last one are there. *)
Definition ex_ops : list op :=
  [OPut 1 "a" (Some (ex_bytes "aaaa")) ex_plain; OPut 2 "p" (Some (ex_bytes "pppp")) ex_pin; OGet 3 "a";
   OPut 4 "b" (Some (ex_bytes "bbbb")) ex_plain; OPut 5 "c" (Some (ex_bytes "cccc")) ex_plain].

Lemma ex_new : NewMemoryCache ex_policy = Ok ex_cache.
Proof. vm_compute. reflexivity. Qed.

Lemma ex_cache_ok : cache_ok ex_cache.
Proof. apply (new_ok ex_policy ex_cache); [vm_compute; done|apply ex_new]. Qed.

Lemma cache_stays_bounded_witness :
  let c' := foldl apply_op ex_cache ex_ops in
  (cache_ok c' ∧ 0 ≤ st_BytesUsed (mc_stats c') ≤ 10) ∧
  (st_BytesUsed (mc_stats c'), st_Entries (mc_stats c'), st_Evictions (mc_stats c')) = (8, 2, 2) ∧
  (Get 6 "a" c').1 = None ∧ (Get 6 "p" c').1 = Some (ex_bytes "pppp") ∧ (Get 6 "c" c').1 = Some (ex_bytes "cccc").
Proof.
  split.
  - apply (cache_stays_bounded ex_policy ex_cache ex_ops); [vm_compute; done|apply ex_new].
  - vm_compute. done.
Defined.


End Lru.
