(* ===== verification/Handlers.v ===== *)
(** * The object handlers of api/s3compat

    PUT (single piece, deduplicated and erasure-coded), DELETE, and the handlers that amend a
    stored version (retention, legal hold, tags), as programs over the shared
    stores. What a handler reads outside those stores (the authenticated
    tenant, headers, the decoded XML body, the clock, placement and bucket
    configuration) is a field of its request record. The hash functions, the
    cipher, the key wrapper and the Reed-Solomon codec are parameters of the
    gateway. Billing, audit and notification events are left out. *)

From S2P Require Import Prelude Bytes GoStrings Manifest ManifestStore ContentIndex ObjectLock ErasureCoding ClientSdk EncryptionPipeline Fabric.
Local Open Scope Z_scope.
Local Open Scope prog_scope.

(** ** Paths and identifiers *)

Definition parseBucketKey (p : string) : string * string :=
  let p := match p with String "/" p' => p' | _ => p end in
  if bool_decide (p = "") then ("", "")
  else match cut_byte "/" p with None => (p, "") | Some (b, k) => (b, k) end.

(** The header value that asks to bypass a GOVERNANCE retention. *)
Definition governanceBypassRequested (header : string) : bool := bool_decide (header = "true").

Definition applyRequestObjectMetadata (h : ObjectHeaders) (m : ObjectManifest) : ObjectManifest :=
  mkObjectManifest (m_TenantID m) (m_Bucket m) (m_ObjectKey m) (m_ObjectKeyHash m)
    (m_VersionID m) (m_ObjectSize m) (m_ChunkSize m) (m_ContentHash m) (m_Encryption m)
    (m_PlacementPolicy m) (m_Pieces m) (m_MigrationState m) (m_DeleteMarker m) (m_Tags m)
    (oh_ContentType h) (oh_ContentEncoding h) (oh_ContentDisposition h) (oh_ContentLanguage h)
    (oh_CacheControl h) (oh_Expires h) (oh_UserMetadata h) (m_RetentionMode m)
    (m_RetainUntil m) (m_LegalHold m) (m_CreatedAt m).

Definition set_tags (tags : gmap string string) (m : ObjectManifest) : ObjectManifest :=
  mkObjectManifest (m_TenantID m) (m_Bucket m) (m_ObjectKey m) (m_ObjectKeyHash m)
    (m_VersionID m) (m_ObjectSize m) (m_ChunkSize m) (m_ContentHash m) (m_Encryption m)
    (m_PlacementPolicy m) (m_Pieces m) (m_MigrationState m) (m_DeleteMarker m) tags
    (m_ContentType m) (m_ContentEncoding m) (m_ContentDisposition m) (m_ContentLanguage m)
    (m_CacheControl m) (m_Expires m) (m_UserMetadata m) (m_RetentionMode m)
    (m_RetainUntil m) (m_LegalHold m) (m_CreatedAt m).

Definition set_EncryptionMode (mode : string) (p : PlacementPolicy) : PlacementPolicy :=
  mkPlacementPolicy (pp_Residency p) (pp_AllowedBackends p) (pp_MinFailureDomains p) (pp_HotCache p)
    (pp_ErasureProfile p) mode (pp_DedupPolicy p) (pp_ReplicationPolicy p).

Section handlers.
Context {G : Gateway}.

Definition hashObjectKey (key : string) : string := sha256Hex key.

Definition newPieceID (tenantID bucket key : string) (now : Z) : string :=
  sha256Hex (String.app tenantID (String.app nul (String.app bucket (String.app nul
    (String.app key (String.app nul (FormatInt now))))))).

(** ** DELETE *)

(** [deletePiecesBestEffort], then [k]. *)
Fixpoint deletePiecesBestEffort {R} (ps : list Piece) (k : prog R) : prog R :=
  match ps with
  | [] => k
  | p :: ps =>
      if registered (pc_Backend p) then
        _ <~ PieceDelete (pc_Backend p) (pc_PieceID p);; deletePiecesBestEffort ps k
      else deletePiecesBestEffort ps k
  end.

Definition NoContent : Response := mkResponse 204 "" "".

(** The part of [Delete] after the manifest is gone: reference-counted or
    direct removal of the pieces. *)
Definition delete_pieces (tenantID : string) (manifest : ObjectManifest) : prog Response :=
  if negb (bool_decide (m_ContentHash manifest = "")) && hasIndex then
    newCount <~ IdxDecrement tenantID (m_ContentHash manifest);;
    match newCount with
    | Err IdxNotFound => deletePiecesBestEffort (m_Pieces manifest) (Ret NoContent)
    | Err _ => Ret (writeError 500 "ContentIndexDecrementFailed")
    | Ok n =>
        if n =? 0 then
          delErr <~ IdxDelete tenantID (m_ContentHash manifest);;
          match delErr with
          | Ok _ => deletePiecesBestEffort (m_Pieces manifest) (Ret NoContent)
          | Err IdxNotFound => Ret NoContent
          | Err IdxRefCountNonZero => Ret NoContent
          | Err _ => Ret (writeError 500 "ContentIndexDeleteFailed")
          end
        else Ret NoContent
    end
  else deletePiecesBestEffort (m_Pieces manifest) (Ret NoContent).

(** The permanent delete of one version. *)
Definition delete_version (tenantID bucket key : string) (q : DeleteRequest) : prog Response :=
  manifest <~ ManGet (mkManifestKey tenantID bucket (hashObjectKey key) (dq_versionId q));;
  match manifest with
  | Err ErrNotFound => Ret NoContent
  | Err _ => Ret (writeError 500 "ManifestGetFailed")
  | Ok manifest =>
      if objectLockBlocksDelete manifest (dq_now_lock q) (governanceBypassRequested (dq_bypass q))
      then Ret (writeError 403 "AccessDenied")
      else
        err <~ ManDelete (mkManifestKey tenantID bucket (hashObjectKey key) (m_VersionID manifest));;
        match err with
        | Ok _ | Err ErrNotFound => delete_pieces tenantID manifest
        | Err _ => Ret (writeError 500 "ManifestDeleteFailed")
        end
  end.

Definition Delete (q : DeleteRequest) : prog Response :=
  match dq_auth q with
  | Err e => Ret e
  | Ok tenantID =>
      let '(bucket, key) := parseBucketKey (dq_path q) in
      if bool_decide (bucket = "") || bool_decide (key = "") then Ret (writeError 400 "InvalidArgument")
      else match dq_versioning q with
      | Err _ => Ret (writeError 500 "VersioningLookupFailed")
      | Ok versioning =>
          if bool_decide (versioning = "Enabled") && bool_decide (dq_versionId q = "") then
            let markerID := newPieceID tenantID bucket key (dq_now_marker q) in
            let marker := delete_marker tenantID bucket key (hashObjectKey key) markerID
                            (dq_now_created q) in
            err <~ ManPut (mkManifestKey tenantID bucket (hashObjectKey key) markerID) marker;;
            match err with
            | Err _ => Ret (writeError 500 "DeleteMarkerPutFailed")
            | Ok _ => Ret (mkResponse 204 "" markerID)
            end
          else match dq_holds q with
          | Some (Err _) => Ret (writeError 500 "LegalHoldCheckFailed")
          | Some (Ok (S _)) => Ret (writeError 403 "ObjectUnderLegalHold")
          | _ => delete_version tenantID bucket key q
          end
      end
  end.

(** ** PUT *)

Definition dedupEnabled (policy : PlacementPolicy) : bool :=
  if negb hasIndex then false
  else match pp_DedupPolicy policy with
       | None => false
       | Some dp => if negb (dp_Enabled dp) then false else true
       end.

(** [dedupResult] *)
Record dedupResult := mkDedupResult {
  dr_Hit : bool;
  dr_Existing : option ContentIndexEntry;
  dr_ContentHash : string;
  dr_CiphertextBytes : bytes;
  dr_PlaintextSize : Z;
  dr_Encryption : EncryptionConfig;
  dr_PlaintextHash : string
}.

(** The tail both patterns share: look the content hash up and, on a hit, take
    a reference. *)
Definition lookup_or_miss {R} (tenantID contentHash : string) (ciphertext : bytes)
    (plaintextHash : string) (size : Z) (enc : EncryptionConfig) (k : result unit dedupResult → prog R) : prog R :=
  existing <~ IdxLookup tenantID contentHash;;
  match existing with
  | Ok e =>
      err <~ IdxIncrement tenantID contentHash;;
      match err with
      | Err _ => k (Err ())
      | Ok _ => k (Ok (mkDedupResult true (Some e) contentHash [] size enc plaintextHash))
      end
  | Err IdxNotFound =>
      k (Ok (mkDedupResult false None contentHash ciphertext size enc plaintextHash))
  | Err _ => k (Err ())
  end.

Definition convergentOptions : Sdk.Options := Sdk.mkOptions 0 true [].

Definition prepareDedupedPutPatternB {R} (rnd : Entropy) (tenantID encMode : string) (plaintext : bytes)
    (k : result unit dedupResult → prog R) : prog R :=
  if negb hasEncryption then k (Err ())
  else match Sdk.DeriveConvergentDEK (blake3Sum plaintext) (String.list_ascii_of_string tenantID) with
  | None => k (Err ())
  | Some dek =>
      match Sdk.EncryptObject (ent_nonce rnd) dek convergentOptions plaintext with
      | Err _ => k (Err ())
      | Ok ciphertext =>
          match WrapDEK (ent_wrap rnd) dek with
          | None => k (Err ())
          | Some wrapped =>
              lookup_or_miss tenantID (formatContentHash (blake3Hex ciphertext)) ciphertext
                (formatContentHash (hexEncode (blake3Sum plaintext))) (blen plaintext)
                (sealed_config encMode wrapped "") k
          end
      end
  end.

Definition prepareDedupedPutPatternC {R} (tenantID : string) (ciphertext : bytes)
    (k : result unit dedupResult → prog R) : prog R :=
  lookup_or_miss tenantID (formatContentHash (blake3Hex ciphertext)) ciphertext ""
    (blen ciphertext) (mkEncryptionConfig StrictZK ContentAlgorithm "" [] "" false "") k.

Definition prepareDedupedPut {R} (rnd : Entropy) (tenantID encMode : string) (body : bytes)
    (k : result unit dedupResult → prog R) : prog R :=
  if IsGatewayEncrypted encMode then prepareDedupedPutPatternB rnd tenantID encMode body k
  else if bool_decide (encMode = StrictZK) then prepareDedupedPutPatternC tenantID body k
  else k (Err ()).

(** [registerDedupedPiece]: whether the race was lost, or an error. *)
Definition registerDedupedPiece {R} (now : Z) (entry : ContentIndexEntry)
    (k : result unit bool → prog R) : prog R :=
  regErr <~ IdxRegister now entry;;
  match regErr with
  | Ok _ => k (Ok false)
  | Err IdxAlreadyExists =>
      err <~ IdxIncrement (ce_TenantID entry) (ce_ContentHash entry);;
      match err with Err _ => k (Err ()) | Ok _ => k (Ok true) end
  | Err _ => k (Err ())
  end.

(** Where the bytes of the object are and what the backend said of them. *)
Record placed := mkPlaced {
  pl_PieceID : string;
  pl_Backend : string;
  pl_ETag : string;
  pl_Locator : string;
  pl_Size : Z
}.

Definition placed_of (e : ContentIndexEntry) : placed :=
  mkPlaced (ce_PieceID e) (ce_Backend e) (ce_ETag e) "" (ce_SizeBytes e).

(** The manifest of a single-piece object. *)
Definition single_piece_manifest (tenantID bucket key version : string) (objectSize : Z)
    (contentHash : string) (enc : EncryptionConfig) (policy : PlacementPolicy) (pl : placed)
    (pieceHash : string) (tags : gmap string string) (createdAt : Z) : ObjectManifest :=
  mkObjectManifest tenantID bucket key (hashObjectKey key) version objectSize (pl_Size pl)
    contentHash enc policy
    [mkPiece (pl_PieceID pl) pieceHash (pl_Backend pl) (pl_Locator pl) "active" (pl_ETag pl)
       0 (pl_Size pl) 0 0 ""]
    (mkMigrationState 1 (pl_Backend pl) "") false tags "" "" "" "" "" "" ∅ "" zero_time false
    createdAt.

(** The end of [putDeduped]: build the manifest and store it; a failure gives
    the reference back. *)
Definition put_deduped_manifest (tenantID bucket key : string) (policy : PlacementPolicy)
    (q : PutRequest) (res : dedupResult) (pl : placed) (tags : gmap string string)
    (headers : ObjectHeaders) : prog Response :=
  let objectSize :=
    if IsGatewayEncrypted (pp_EncryptionMode policy) then dr_PlaintextSize res else pl_Size pl in
  let versionID := newPieceID tenantID bucket key (pq_now_version q) in
  let manifest := applyRequestObjectMetadata headers
    (single_piece_manifest tenantID bucket key versionID objectSize (dr_ContentHash res)
       (dr_Encryption res) policy pl (dr_ContentHash res) tags (pq_now_created q)) in
  match applyDefaultObjectLockRetention (pq_lockcfg q) (pq_now_default q) manifest with
  | Err _ =>
      _ <~ IdxDecrement tenantID (dr_ContentHash res);;
      Ret (writeError 500 "ObjectLockGetFailed")
  | Ok manifest =>
      err <~ ManPut (mkManifestKey tenantID bucket (m_ObjectKeyHash manifest) (m_VersionID manifest))
               manifest;;
      match err with
      | Err _ =>
          _ <~ IdxDecrement tenantID (dr_ContentHash res);;
          Ret (writeError 500 "ManifestPutFailed")
      | Ok _ => Ret (mkResponse 200 "" (m_VersionID manifest))
      end
  end.

Definition putDeduped (tenantID bucket key backendName : string) (policy : PlacementPolicy)
    (q : PutRequest) (tags : gmap string string) (headers : ObjectHeaders) : prog Response :=
  let encMode := pp_EncryptionMode policy in
  if bool_decide (encMode = StrictZK) && bool_decide (pq_zkHeader q = "")
  then Ret (writeError 403 "EncryptionRequired")
  else match pq_body q with
  | Err e => Ret e
  | Ok body =>
      prepareDedupedPut (pq_rand q) tenantID encMode body (λ res,
        match res with
        | Err _ => Ret (writeError 500 "DedupFailed")
        | Ok res =>
            match dr_Existing res with
            | Some existing =>
                put_deduped_manifest tenantID bucket key policy q res (placed_of existing)
                  tags headers
            | None =>
                putRes <~ PiecePut backendName (newPieceID tenantID bucket key (pq_now_piece q))
                            (dr_CiphertextBytes res);;
                match putRes with
                | None => Ret (writeError 502 "BackendPutFailed")
                | Some putRes =>
                    let pieceID := pr_PieceID' putRes in
                    registerDedupedPiece (pq_now_created q)
                      (mkContentIndexEntry tenantID (dr_ContentHash res) pieceID backendName 0
                         (pr_SizeBytes' putRes) (pr_ETag putRes) [] (dr_PlaintextHash res) zero_time)
                      (λ raceLost,
                        match raceLost with
                        | Err _ =>
                            _ <~ PieceDelete backendName pieceID;;
                            Ret (writeError 500 "ContentIndexRegisterFailed")
                        | Ok false =>
                            put_deduped_manifest tenantID bucket key policy q res
                              (mkPlaced pieceID backendName (pr_ETag putRes) (pr_Locator putRes)
                                 (pr_SizeBytes' putRes)) tags headers
                        | Ok true =>
                            _ <~ PieceDelete backendName pieceID;;
                            canonical <~ IdxLookup tenantID (dr_ContentHash res);;
                            match canonical with
                            | Err _ =>
                                _ <~ IdxDecrement tenantID (dr_ContentHash res);;
                                Ret (writeError 500 "ContentIndexLookupFailed")
                            | Ok canonical =>
                                put_deduped_manifest tenantID bucket key policy q res
                                  (placed_of canonical) tags headers
                            end
                        end)
                end
            end
        end)
  end.

(** The single-piece path of [Put]: the version id is also the piece id, and
    every failure after the backend write deletes that piece again. *)
Definition put_single_piece (tenantID bucket key backendName : string) (policy : PlacementPolicy)
    (q : PutRequest) (tags : gmap string string) (headers : ObjectHeaders) : prog Response :=
  let encMode := pp_EncryptionMode policy in
  let pieceID := newPieceID tenantID bucket key (pq_now_piece q) in
  let encID := mkAadIdentity tenantID bucket (hashObjectKey key) pieceID in
  match prepareSinglePieceEncryption encMode encID q with
  | Err e => Ret e
  | Ok (_, Err e, _) => Ret e
  | Ok (encCfg, Ok body, plaintextSize) =>
      putRes <~ PiecePut backendName pieceID body;;
      match putRes with
      | None => Ret (writeError 502 "BackendPutFailed")
      | Some putRes =>
          if IsGatewayEncrypted encMode && (0 <=? pq_contentLength q)
             && negb (plaintextSize =? pq_contentLength q) then
            _ <~ PieceDelete backendName pieceID;; Ret (writeError 400 "IncompleteBody")
          else
            let objectSize :=
              if IsGatewayEncrypted encMode then plaintextSize else pr_SizeBytes' putRes in
            let manifest := applyRequestObjectMetadata headers
              (single_piece_manifest tenantID bucket key pieceID objectSize "" encCfg policy
                 (mkPlaced (pr_PieceID' putRes) backendName (pr_ETag putRes) (pr_Locator putRes)
                    (pr_SizeBytes' putRes))
                 (formatContentHash (blake3Hex body)) tags (pq_now_created q)) in
            match applyDefaultObjectLockRetention (pq_lockcfg q) (pq_now_default q) manifest with
            | Err _ =>
                _ <~ PieceDelete backendName pieceID;; Ret (writeError 500 "ObjectLockGetFailed")
            | Ok manifest =>
                err <~ ManPut (mkManifestKey tenantID bucket (m_ObjectKeyHash manifest)
                                 (m_VersionID manifest)) manifest;;
                match err with
                | Err _ =>
                    _ <~ PieceDelete backendName pieceID;; Ret (writeError 500 "ManifestPutFailed")
                | Ok _ => Ret (mkResponse 200 "" (m_VersionID manifest))
                end
            end
      end
  end.

(** ** The erasure-coded path *)

Definition maxECObjectSize : Z := 256 * 1024 * 1024.

(** [%0wd] of a non-negative number. *)
Fixpoint zeros (n : nat) : string := match n with O => "" | S n => String "0" (zeros n) end.
Definition pad0 (w : nat) (n : Z) : string :=
  let s := FormatUint n in String.app (zeros (w - String.length s)) s.

(** [fmt.Sprintf("%s-s%04d-p%03d", versionID, stripe, shard)] *)
Definition shardID (versionID : string) (sh : Shard) : string :=
  String.app versionID (String.app "-s" (String.app (pad0 4 (sh_StripeIndex sh))
    (String.app "-p" (pad0 3 (sh_ShardIndex sh))))).

(** [rollbackEC], then [k]. *)
Fixpoint rollbackEC {R} (backendName : string) (pieceIDs : list string) (k : prog R) : prog R :=
  match pieceIDs with
  | [] => k
  | pid :: pieceIDs => _ <~ PieceDelete backendName pid;; rollbackEC backendName pieceIDs k
  end.

Definition shard_piece (backendName : string) (sh : Shard) (res : PutResult) : Piece :=
  mkPiece (pr_PieceID' res) (formatContentHash (blake3Hex (sh_Bytes sh))) backendName (pr_Locator res)
    "active" (pr_ETag res) 0 (blen (sh_Bytes sh)) (sh_StripeIndex sh) (sh_ShardIndex sh)
    (match sh_Kind sh with ShardKindParity => ShardKindParity_str | ShardKindData => ShardKindData_str end).

(** The loop over the shards; a failed write deletes what was written. *)
Fixpoint put_shards (versionID backendName : string) (shards : list Shard) (pieces : list Piece)
    (k : list Piece → prog Response) : prog Response :=
  match shards with
  | [] => k pieces
  | sh :: shards =>
      res <~ PiecePut backendName (shardID versionID sh) (sh_Bytes sh);;
      match res with
      | None =>
          rollbackEC backendName (pc_PieceID <$> pieces) (Ret (writeError 502 "BackendPutFailed"))
      | Some res =>
          put_shards versionID backendName shards (pieces ++ [shard_piece backendName sh res]) k
      end
  end.

Definition ec_manifest (tenantID bucket key versionID : string) (plaintextSize shardSize : Z)
    (enc : EncryptionConfig) (policy : PlacementPolicy) (pieces : list Piece) (backendName : string)
    (tags : gmap string string) (createdAt : Z) : ObjectManifest :=
  mkObjectManifest tenantID bucket key (hashObjectKey key) versionID plaintextSize shardSize
    "" enc policy pieces (mkMigrationState 1 backendName "") false tags "" "" "" "" "" "" ∅ ""
    zero_time false createdAt.

Definition putErasureCoded (tenantID bucket key backendName : string) (policy : PlacementPolicy)
    (q : PutRequest) (tags : gmap string string) (headers : ObjectHeaders) : prog Response :=
  match ErasureRegistry with
  | None => Ret (writeError 500 "InvalidPlacement")
  | Some registry =>
      match EC.Registry_Lookup (pp_ErasureProfile policy) registry with
      | None => Ret (writeError 400 "InvalidPlacement")
      | Some encoder =>
          if maxECObjectSize <? pq_contentLength q then Ret (writeError 413 "ECObjectTooLarge")
          else match pq_body q with
          | Err e => Ret e
          | Ok body =>
              if maxECObjectSize <? blen body then Ret (writeError 413 "ECObjectTooLarge")
              else
                let versionID := newPieceID tenantID bucket key (pq_now_piece q) in
                let encID := mkAadIdentity tenantID bucket (hashObjectKey key) versionID in
                match prepareErasureCodedEncryption (pp_EncryptionMode policy) body encID q with
                | Err e => Ret e
                | Ok (encCfg, prepared) =>
                    match EC.Encode encoder prepared with
                    | Err _ => Ret (writeError 500 "ErasureEncodeFailed")
                    | Ok shards =>
                        put_shards versionID backendName shards [] (λ pieces,
                          let manifest := applyRequestObjectMetadata headers
                            (ec_manifest tenantID bucket key versionID (blen body)
                               (EC.ShardSize encoder) encCfg policy pieces backendName tags
                               (pq_now_created q)) in
                          match applyDefaultObjectLockRetention (pq_lockcfg q) (pq_now_default q)
                                  manifest with
                          | Err _ =>
                              rollbackEC backendName (pc_PieceID <$> pieces)
                                (Ret (writeError 500 "ObjectLockGetFailed"))
                          | Ok manifest =>
                              err <~ ManPut (mkManifestKey tenantID bucket (m_ObjectKeyHash manifest)
                                               (m_VersionID manifest)) manifest;;
                              match err with
                              | Err _ =>
                                  rollbackEC backendName (pc_PieceID <$> pieces)
                                    (Ret (writeError 500 "ManifestPutFailed"))
                              | Ok _ => Ret (mkResponse 200 "" (m_VersionID manifest))
                              end
                          end)
                    end
                end
          end
      end
  end.

(** [allowObjectLockOverwrite] with the answers it depends on: [refuse] with a
    response, or [k] when the write may proceed. *)
Definition objectLockOverwrite {R} (tenantID bucket key : string)
    (lockcfg : option (result unit LockConfig)) (versioning : result unit string) (now : Z) (bypass : string)
    (refuse : Response → prog R) (k : prog R) : prog R :=
  match lockcfg with
  | None => k
  | Some (Err _) => refuse (writeError 500 "ObjectLockGetFailed")
  | Some (Ok cfg) =>
      if negb (lc_Enabled cfg) then k
      else match versioning with
      | Err _ => refuse (writeError 500 "VersioningLookupFailed")
      | Ok versioning =>
          if bool_decide (versioning = "Enabled") then k
          else
            current <~ ManGet (mkManifestKey tenantID bucket (hashObjectKey key) "");;
            match current with
            | Err ErrNotFound => k
            | Err _ => refuse (writeError 500 "ObjectLockGetFailed")
            | Ok current =>
                if objectLockBlocksDelete current now (governanceBypassRequested bypass)
                then refuse (writeError 403 "AccessDenied")
                else k
            end
      end
  end.

(** The pre-flight check of a PUT. *)
Definition allowObjectLockOverwrite (tenantID bucket key : string) (q : PutRequest)
    (k : prog Response) : prog Response :=
  objectLockOverwrite tenantID bucket key (pq_lockcfg q) (pq_versioning q) (pq_now_lock q) (pq_bypass q) Ret k.

(** [effectiveEncryptionMode]; the argument is the answer of the bucket
    configuration store, [Ok true] when the bucket has a default. *)
Definition effectiveEncryptionMode (bucketDefault : option (result unit bool))
    (policy : PlacementPolicy) : result unit string :=
  if negb (bool_decide (pp_EncryptionMode policy = "")) then Ok (pp_EncryptionMode policy)
  else match bucketDefault with
       | None => Ok (pp_EncryptionMode policy)
       | Some (Err e) => Err e
       | Some (Ok false) => Ok (pp_EncryptionMode policy)
       | Some (Ok true) => if negb hasEncryption then Err () else Ok ManagedEncrypted
       end.

Definition Put (q : PutRequest) : prog Response :=
  match pq_auth q with
  | Err e => Ret e
  | Ok tenantID =>
      if pq_unverified q then Ret (writeError 403 "EmailNotVerified")
      else
      let '(bucket, key) := parseBucketKey (pq_path q) in
      if bool_decide (bucket = "") || bool_decide (key = "") then Ret (writeError 400 "InvalidArgument")
      else match pq_tags q, pq_headers q with
      | Err e, _ => Ret e
      | Ok _, Err e => Ret e
      | Ok tags, Ok headers =>
          allowObjectLockOverwrite tenantID bucket key q
            match pq_placement q with
            | Err _ => Ret (writeError 400 "InvalidPlacement")
            | Ok (backendName, policy) =>
                if negb (registered backendName) then Ret (writeError 500 "BackendNotRegistered")
                else if negb (pq_residency q) then Ret (writeError 403 "DataResidencyViolation")
                else match effectiveEncryptionMode (pq_defaultEncryption q) policy with
                | Err _ => Ret (writeError 500 "EncryptionNotConfigured")
                | Ok effMode =>
                    let policy := set_EncryptionMode effMode policy in
                    if negb (bool_decide (pp_ErasureProfile policy = ""))
                    then putErasureCoded tenantID bucket key backendName policy q tags headers
                    else if dedupEnabled policy
                            && (IsGatewayEncrypted effMode || bool_decide (effMode = StrictZK))
                    then putDeduped tenantID bucket key backendName policy q tags headers
                    else put_single_piece tenantID bucket key backendName policy q tags headers
                end
            end
      end
  end.

(** ** Amending a stored version *)

(** [authObjectLock]: the tenant, bucket and key, or the response. *)
Definition authObjectLock (q : AmendRequest) : result Response (string * string * string) :=
  match aq_auth q with
  | Err e => Err e
  | Ok tenantID =>
      let '(bucket, key) := parseBucketKey (aq_path q) in
      if bool_decide (bucket = "") || bool_decide (key = "")
      then Err (writeError 400 "InvalidArgument")
      else match aq_lockcfg q with
           | Some (Err _) => Err (writeError 500 "ObjectLockGetFailed")
           | None => Err (writeError 400 "InvalidRequest")
           | Some (Ok cfg) =>
               if negb (lc_Enabled cfg) then Err (writeError 400 "InvalidRequest")
               else Ok (tenantID, bucket, key)
           end
  end.

Definition manifestGetError (e : store_error) : Response :=
  match e with
  | ErrNotFound => writeError 404 "NoSuchKey"
  | _ => writeError 500 "ManifestGetFailed"
  end.

(** [loadObjectVersion], then [k] with the manifest and the key to amend it
    under. *)
Definition loadObjectVersion (tenantID bucket key versionId : string)
    (k : ObjectManifest → ManifestKey → prog Response) : prog Response :=
  manifest <~ ManGet (mkManifestKey tenantID bucket (hashObjectKey key) versionId);;
  match manifest with
  | Err e => Ret (manifestGetError e)
  | Ok manifest =>
      if m_DeleteMarker manifest then Ret (writeError 405 "MethodNotAllowed")
      else k manifest (mkManifestKey tenantID bucket (hashObjectKey key) (m_VersionID manifest))
  end.

(** The end of every amending handler: store the manifest under the key of the
    version it was read from. *)
Definition amend_version (status : Z) (mkey : ManifestKey) (manifest : ObjectManifest)
    : prog Response :=
  err <~ ManUpdate mkey manifest;;
  match err with
  | Err _ => Ret (writeError 500 "ManifestPutFailed")
  | Ok _ => Ret (mkResponse status "" (m_VersionID manifest))
  end.

(** [PutObjectRetention]; [doc] is the decoded body: the mode and the parsed
    date ([None] when it does not parse), or [None] for malformed XML. *)
Definition PutObjectRetention (q : AmendRequest) (doc : option (string * option Z)) : prog Response :=
  match authObjectLock q with
  | Err e => Ret e
  | Ok (tenantID, bucket, key) =>
      match doc with
      | None | Some (_, None) => Ret (writeError 400 "MalformedXML")
      | Some (mode, Some until) =>
          let newRet := mkRetention mode until in
          match Retention_Valid newRet with
          | Some _ => Ret (writeError 400 "InvalidRequest")
          | None =>
              loadObjectVersion tenantID bucket key (aq_versionId q) (λ manifest mkey,
                let existing := manifestRetention manifest in
                if Active existing (aq_now q) && weakensRetention existing newRet
                   && (bool_decide (ret_Mode existing = ModeCompliance)
                       || bool_decide (ret_Mode existing = ModeGovernance)
                          && negb (governanceBypassRequested (aq_bypass q)))
                then Ret (writeError 403 "AccessDenied")
                else amend_version 200 mkey
                       (set_retention (ret_Mode newRet) (ret_RetainUntil newRet) manifest))
          end
      end
  end.

(** [PutObjectLegalHold]; [doc] is the decoded status. *)
Definition PutObjectLegalHold (q : AmendRequest) (doc : option string) : prog Response :=
  match authObjectLock q with
  | Err e => Ret e
  | Ok (tenantID, bucket, key) =>
      match doc with
      | None => Ret (writeError 400 "MalformedXML")
      | Some status =>
          if negb (LegalHold_Valid status) then Ret (writeError 400 "MalformedXML")
          else loadObjectVersion tenantID bucket key (aq_versionId q) (λ manifest mkey,
                 amend_version 200 mkey
                   (set_legal_hold (bool_decide (status = LegalHoldOn)) manifest))
      end
  end.

(** [authObjectTagging] *)
Definition authObjectTagging (q : AmendRequest) : result Response (string * string * string) :=
  match aq_auth q with
  | Err e => Err e
  | Ok tenantID =>
      let '(bucket, key) := parseBucketKey (aq_path q) in
      if bool_decide (bucket = "") then Err (writeError 400 "InvalidArgument")
      else if bool_decide (key = "") then Err (writeError 501 "NotImplemented")
      else Ok (tenantID, bucket, key)
  end.

(** [PutObjectTagging]; [doc] is the decoded and validated tag set, or the
    response for a malformed one. *)
Definition PutObjectTagging (q : AmendRequest) (doc : result Response (gmap string string))
    : prog Response :=
  match authObjectTagging q with
  | Err e => Ret e
  | Ok (tenantID, bucket, key) =>
      match doc with
      | Err e => Ret e
      | Ok tags =>
          manifest <~ ManGet (mkManifestKey tenantID bucket (hashObjectKey key) (aq_versionId q));;
          match manifest with
          | Err e => Ret (manifestGetError e)
          | Ok manifest =>
              amend_version 200
                (mkManifestKey tenantID bucket (hashObjectKey key) (m_VersionID manifest))
                (set_tags tags manifest)
          end
      end
  end.

Definition DeleteObjectTagging (q : AmendRequest) : prog Response :=
  match authObjectTagging q with
  | Err e => Ret e
  | Ok (tenantID, bucket, key) =>
      manifest <~ ManGet (mkManifestKey tenantID bucket (hashObjectKey key) (aq_versionId q));;
      match manifest with
      | Err e => Ret (manifestGetError e)
      | Ok manifest =>
          if bool_decide (m_Tags manifest = ∅) then Ret (mkResponse 204 "" (m_VersionID manifest))
          else amend_version 204
                 (mkManifestKey tenantID bucket (hashObjectKey key) (m_VersionID manifest))
                 (set_tags ∅ manifest)
      end
  end.

End handlers.
