(* ===== verification/Worm.v ===== *)
(** * Write-once protection (Object Lock) over the handlers

    Sequences of requests against the gateway, each run to its end: what a
    COMPLIANCE retention and a legal hold guarantee, and how two amending
    requests that overlap can lose a hold. *)

From S2P Require Import Prelude Bytes Manifest ManifestStore ContentIndex ObjectLock ErasureCoding ClientSdk EncryptionPipeline Fabric Handlers.
Local Open Scope Z_scope.

Module Worm.

Inductive request :=
| RPut (q : PutRequest)
| RDelete (q : DeleteRequest)
| RRetention (q : AmendRequest) (doc : option (string * option Z))
| RLegalHold (q : AmendRequest) (doc : option string)
| RPutTagging (q : AmendRequest) (doc : result Response (gmap string string))
| RDeleteTagging (q : AmendRequest).

(** A stored manifest carries the version id it is stored under, and has one. *)
Definition versions_match (l : VersionLog.log) : Prop :=
  ∀ k m, (k, m) ∈ l → m_VersionID m = k_VersionID k ∧ k_VersionID k ≠ "".

(** The same, of the versions of the object of [k]. *)
Definition matches_at (k : ManifestKey) (l : VersionLog.log) : Prop :=
  ∀ k' m, (k', m) ∈ l → latest_of k' = latest_of k → m_VersionID m = k_VersionID k' ∧ k_VersionID k' ≠ "".

Lemma versions_match_at k l : versions_match l → matches_at k l.
Proof. intros Hl k' m Hin _. by apply Hl. Qed.

Lemma find_elem (l : VersionLog.log) k m :
  VersionLog.find k l = Some m → (k, m) ∈ l.
Proof. apply elem_of_list_to_map_2. Qed.

(** The version [k] is stored and its manifest satisfies [P]. *)
Definition holds_at (k : ManifestKey) (P : ObjectManifest → Prop) (w : World) : Prop :=
  matches_at k (wd_manifests w) ∧ ∃ m, VersionLog.find k (wd_manifests w) = Some m ∧ P m.

Lemma find_filter_ne (l : VersionLog.log) k k' :
  k' ≠ k → VersionLog.find k (filter (λ e, e.1 ≠ k') l) = VersionLog.find k l.
Proof.
  intros Hne. unfold VersionLog.find. induction l as [|[k2 m2] l IH]; [done|].
  rewrite filter_cons. case_decide as Hd; simpl in *.
  - destruct (decide (k2 = k)) as [->|].
    + by rewrite !lookup_insert_eq.
    + by rewrite !lookup_insert_ne.
  - subst k2. by rewrite lookup_insert_ne, IH.
Qed.

Lemma find_app_None (l : VersionLog.log) k k' m' :
  k' ≠ k → VersionLog.find k (l ++ [(k', m')]) = VersionLog.find k l.
Proof.
  intros Hne. unfold VersionLog.find. induction l as [|[k2 m2] l IH]; simpl.
  - by rewrite lookup_insert_ne.
  - destruct (decide (k2 = k)) as [->|]; [by rewrite !lookup_insert_eq|].
    by rewrite !lookup_insert_ne.
Qed.

Lemma find_put_ne l k k' m' : k' ≠ k → VersionLog.find k (VersionLog.put k' m' l) = VersionLog.find k l.
Proof. intros. unfold VersionLog.put. by rewrite find_app_None, find_filter_ne. Qed.

Lemma find_amend l k k' m' :
  VersionLog.find k (VersionLog.amend k' m' l) =
    if bool_decide (k = k') then (λ _, m') <$> VersionLog.find k l else VersionLog.find k l.
Proof.
  unfold VersionLog.find, VersionLog.amend. induction l as [|[k2 m2] l IH]; simpl.
  - rewrite lookup_empty. by case_bool_decide.
  - destruct (decide (k2 = k')) as [->|Hne'];
      [rewrite (bool_decide_eq_true_2 (k' = k')) by done|
       rewrite (bool_decide_eq_false_2 (k2 = k')) by done]; simpl.
    + destruct (decide (k' = k)) as [->|Hne].
      * rewrite bool_decide_eq_true_2, !lookup_insert_eq by done. done.
      * by rewrite !lookup_insert_ne.
    + destruct (decide (k2 = k)) as [->|Hne].
      * rewrite bool_decide_eq_false_2, !lookup_insert_eq by done. done.
      * by rewrite !lookup_insert_ne.
Qed.

Lemma versions_match_put l k m :
  versions_match l → m_VersionID m = k_VersionID k → k_VersionID k ≠ "" →
  versions_match (VersionLog.put k m l).
Proof.
  intros Hl Hm Hid k' m' [[_ ?]%list_elem_of_filter|Heq%list_elem_of_singleton]%elem_of_app; [by apply Hl|].
  by simplify_eq.
Qed.

Lemma versions_match_amend l k m :
  versions_match l → m_VersionID m = k_VersionID k → versions_match (VersionLog.amend k m l).
Proof.
  intros Hl Hm k' m' ([k2 m2] & Heq & Hin)%list_elem_of_fmap. apply Hl in Hin as [??].
  case_bool_decide; by simplify_eq/=.
Qed.

Lemma versions_match_filter (l : VersionLog.log) (P : ManifestKey * ObjectManifest → Prop)
    `{!∀ e, Decision (P e)} :
  versions_match l → versions_match (filter P l).
Proof. intros Hl k m [_ ?]%list_elem_of_filter. by apply Hl. Qed.

Lemma matches_put k l k' m :
  matches_at k l → (latest_of k' = latest_of k → m_VersionID m = k_VersionID k' ∧ k_VersionID k' ≠ "") →
  matches_at k (VersionLog.put k' m l).
Proof.
  intros Hl Hm k2 m2 [[_ ?]%list_elem_of_filter|Heq%list_elem_of_singleton]%elem_of_app; [by apply Hl|].
  by simplify_eq.
Qed.

Lemma matches_amend k l k' m :
  matches_at k l → m_VersionID m = k_VersionID k' → matches_at k (VersionLog.amend k' m l).
Proof.
  intros Hl Hm k2 m2 ([k3 m3] & Heq & Hin)%list_elem_of_fmap Hk. specialize (Hl k3 m3 Hin).
  case_bool_decide as Hc; injection Heq as -> ->; [|by apply Hl]. simpl in Hc. subst k3.
  destruct (Hl Hk) as [_ ?]. done.
Qed.

Lemma matches_filter k (l : VersionLog.log) (P : ManifestKey * ObjectManifest → Prop)
    `{!∀ e, Decision (P e)} :
  matches_at k l → matches_at k (filter P l).
Proof. intros Hl k' m [_ ?]%list_elem_of_filter. by apply Hl. Qed.

(** What a read returns is a version of the object. *)
Lemma get_find l key m :
  VersionLog.get key l = Ok m → ∃ k, VersionLog.find k l = Some m ∧ latest_of k = latest_of key.
Proof.
  unfold VersionLog.get, VersionLog.resolve.
  destruct (if bool_decide _ then _ else _) as [k|] eqn:Hk; simpl; [|done].
  destruct (VersionLog.find k l) as [m'|] eqn:Hf; [|done]. intros [= ->]. exists k. split; [done|].
  case_bool_decide; [by apply VersionLog.newest_Some in Hk as [? _]|by simplify_eq].
Qed.

(** It is stored under the version id it carries. *)
Lemma get_at l key m :
  matches_at key l → VersionLog.get key l = Ok m →
  VersionLog.find (mkManifestKey (k_TenantID key) (k_Bucket key) (k_ObjectKeyHash key) (m_VersionID m)) l
    = Some m.
Proof.
  intros Hl (k & Hf & Hof)%get_find. destruct (Hl k m (find_elem _ _ _ Hf) Hof) as [Hv _]. rewrite Hv.
  unfold latest_of in Hof. replace (mkManifestKey _ _ _ _) with k; [done|]. destruct k; by simplify_eq/=.
Qed.

Lemma get_at_of k l key m :
  matches_at k l → latest_of key = latest_of k → VersionLog.get key l = Ok m →
  VersionLog.find (mkManifestKey (k_TenantID key) (k_Bucket key) (k_ObjectKeyHash key) (m_VersionID m)) l
    = Some m.
Proof. intros Hl Hof. apply get_at. intros k' m'. rewrite Hof. apply Hl. Qed.

Lemma get_Ok l key m :
  versions_match l → VersionLog.get key l = Ok m →
  VersionLog.find (mkManifestKey (k_TenantID key) (k_Bucket key) (k_ObjectKeyHash key) (m_VersionID m)) l
    = Some m.
Proof. intros Hl. by apply get_at, versions_match_at. Qed.

(** A call that writes no manifest, or writes one under another version. *)
Definition spares (k : ManifestKey) A (c : call A) : Prop :=
  match c with
  | ManPut k' m' =>
      k' ≠ k ∧ (latest_of k' = latest_of k → m_VersionID m' = k_VersionID k' ∧ k_VersionID k' ≠ "")
  | ManUpdate _ _ | ManDelete _ => False
  | _ => True
  end.

Section proofs.
Context {G : Gateway}.

Lemma spares_holds_at k P A (c : call A) fault w :
  spares k A c → holds_at k P w → holds_at k P (do_call put_result fault c w).2.
Proof.
  intros Hc [Hv (m & Hm & HP)]. destruct c; simpl in *; try done;
    destruct fault; simpl; try (by split; [|eauto]).
  all: try (unfold index_write; case_match; simpl; by split; [|eauto]).
  - repeat case_match; simpl; by split; [|eauto].
  - destruct Hc as (Hne & Hid). split; simpl; [by apply matches_put|].
    exists m. by rewrite find_put_ne.
Qed.

Lemma spares_wp k P (p : prog Response) w :
  calls_ok (spares k) p → holds_at k P w → wp put_result p (λ _, holds_at k P) w.
Proof. intros Hp Hw. eapply calls_ok_wp; [|done..]. intros. by apply spares_holds_at. Qed.

(** An amendment of [k] itself keeps the property it re-establishes; one of
    another version leaves [k] alone. *)
Lemma update_holds_at k P k' m' fault w :
  m_VersionID m' = k_VersionID k' → (k' = k → P m') → holds_at k P w →
  holds_at k P (do_call put_result fault (ManUpdate k' m') w).2.
Proof.
  intros Hid HP' [Hv (m & Hm & HP)]. simpl. destruct fault; simpl; [by split; [|eauto]|].
  unfold VersionLog.update, manifest_write. destruct (VersionLog.find k' _) eqn:Hk'; simpl; [|by split; [|eauto]].
  split; simpl; [by apply matches_amend|]. rewrite find_amend.
  case_bool_decide as Heq; [|eauto]. subst k'. rewrite Hm. simpl. eauto.
Qed.

Lemma delete_holds_at k P k' fault w :
  (latest_of k' = latest_of k → k_VersionID k' ≠ "" ∧ k' ≠ k) → holds_at k P w →
  holds_at k P (do_call put_result fault (ManDelete k') w).2.
Proof.
  intros Hne [Hv (m & Hm & HP)]. simpl. destruct fault; simpl; [by split; [|eauto]|].
  unfold VersionLog.remove, manifest_write.
  destruct (VersionLog.resolve k' _) as [k2|] eqn:Hr; simpl; [|by split; [|eauto]].
  destruct (VersionLog.find k2 _) eqn:Hk2; simpl; [|by split; [|eauto]].
  split; simpl; [by apply matches_filter|]. exists m. rewrite find_filter_ne; [done|].
  intros ->. unfold VersionLog.resolve in Hr. case_bool_decide as Hnil; simplify_eq.
  - apply VersionLog.newest_Some in Hr as [Hof _]. by destruct (Hne (eq_sym Hof)).
  - by destruct (Hne eq_refl).
Qed.

(** ** The handlers *)

Definition handle (r : request) : prog Response :=
  match r with
  | RPut q => Put q
  | RDelete q => Delete q
  | RRetention q doc => PutObjectRetention q doc
  | RLegalHold q doc => PutObjectLegalHold q doc
  | RPutTagging q doc => PutObjectTagging q doc
  | RDeleteTagging q => DeleteObjectTagging q
  end.

(** Requests served one after the other; each comes with the calls that fail. *)
Fixpoint serve {Req} (handle : Req → prog Response) (rs : list (Req * list bool)) (w : World) : World :=
  match rs with
  | [] => w
  | (r, faults) :: rs => serve handle rs (exec put_result (handle r) faults w).2
  end.

(** The version ids a request may create differ from that of [k]. *)
Definition mints_other (k : ManifestKey) (r : request) : Prop :=
  match r with
  | RPut q => ∀ t b key, newPieceID t b key (pq_now_piece q) ≠ k_VersionID k ∧
                         newPieceID t b key (pq_now_version q) ≠ k_VersionID k
  | RDelete q => ∀ t b key, newPieceID t b key (dq_now_marker q) ≠ k_VersionID k
  | _ => True
  end.

Context (Hnonempty : ∀ s, sha256Hex s ≠ "").

Lemma deletePieces_spares k ps (p : prog Response) :
  calls_ok (spares k) p → calls_ok (spares k) (deletePiecesBestEffort ps p).
Proof. intros Hp. induction ps as [|pc ps IH]; simpl; [done|]. by case_match. Qed.

Lemma delete_pieces_spares k t m : calls_ok (spares k) (delete_pieces t m).
Proof.
  unfold delete_pieces. case_match; [|by apply deletePieces_spares].
  split; [done|]. intros [n|[]]; try done; [|by apply deletePieces_spares].
  case_match; [|done]. split; [done|]. intros [[]|[]]; try done. by apply deletePieces_spares.
Qed.

Lemma applyDefault_VersionID cfg now m m' :
  applyDefaultObjectLockRetention cfg now m = Ok m' → m_VersionID m' = m_VersionID m.
Proof. unfold applyDefaultObjectLockRetention. intros. by repeat case_match; simplify_eq/=. Qed.

Lemma put_deduped_manifest_spares k t b key policy q res pl tags headers :
  newPieceID t b key (pq_now_version q) ≠ k_VersionID k →
  calls_ok (spares k) (put_deduped_manifest t b key policy q res pl tags headers).
Proof using Hnonempty.
  intros Hid. unfold put_deduped_manifest. destruct (applyDefaultObjectLockRetention _ _ _) as [m|] eqn:Ha;
    [|by split]. apply applyDefault_VersionID in Ha. simpl in Ha. split.
  - simpl. rewrite Ha. split; [by intros <-|]. intros _. split; [done|apply Hnonempty].
  - intros [[]|]; simpl; [done|]. split; [done|]. done.
Qed.

Lemma putDeduped_spares k t b key backend policy q tags headers :
  newPieceID t b key (pq_now_version q) ≠ k_VersionID k →
  calls_ok (spares k) (putDeduped t b key backend policy q tags headers).
Proof using Hnonempty.
  intros Hid. pose proof (put_deduped_manifest_spares k t b key policy q) as Hput.
  unfold putDeduped. case_match; [done|]. destruct (pq_body q) as [body|]; [|done].
  assert (∀ hash ct pth size enc (kk : result () dedupResult → prog Response),
    (∀ r, calls_ok (spares k) (kk r)) →
    calls_ok (spares k) (lookup_or_miss t hash ct pth size enc kk)) as Hlookup.
  { intros hash ct pth size enc kk Hkk. unfold lookup_or_miss. split; [done|].
    intros [e|[]]; try apply Hkk. split; [done|]. intros [[]|]; apply Hkk. }
  unfold prepareDedupedPut, prepareDedupedPutPatternB, prepareDedupedPutPatternC.
  set (kk := λ res : result () dedupResult, _).
  assert (∀ r, calls_ok (spares k) (kk r)) as Hkk; [|by repeat case_match; auto].
  intros [res|]; [|done]. unfold kk. destruct (dr_Existing res); [by apply Hput|].
  split; [done|]. intros [pr|]; [|done]. unfold registerDedupedPiece. split; [done|].
  intros [[]|[]]; try (by split); [by apply Hput|]. split; [done|].
  intros [[]|]; [|by split]. split; [done|]. intros _. split; [done|].
  intros [c|]; [by apply Hput|]. by split.
Qed.

Lemma put_single_piece_spares k t b key backend policy q tags headers :
  newPieceID t b key (pq_now_piece q) ≠ k_VersionID k →
  calls_ok (spares k) (put_single_piece t b key backend policy q tags headers).
Proof using Hnonempty.
  intros Hid. unfold put_single_piece.
  destruct (prepareSinglePieceEncryption _ _ _) as [[[enc [bytes|]] size]|]; [|done..].
  split; [done|]. intros [pr|]; [|done]. case_match; [by split|].
  destruct (applyDefaultObjectLockRetention _ _ _) as [m|] eqn:Ha; [|by split].
  apply applyDefault_VersionID in Ha. simpl in Ha. split.
  - simpl. rewrite Ha. split; [by intros <-|]. intros _. split; [done|apply Hnonempty].
  - intros [[]|]; simpl; [done|]. by split.
Qed.

Lemma rollbackEC_spares k backend ids (p : prog Response) :
  calls_ok (spares k) p → calls_ok (spares k) (rollbackEC backend ids p).
Proof. intros Hp. induction ids as [|i ids IH]; simpl; done. Qed.

Lemma put_shards_spares k v backend shards pieces (p : list Piece → prog Response) :
  (∀ ps, calls_ok (spares k) (p ps)) → calls_ok (spares k) (put_shards v backend shards pieces p).
Proof.
  intros Hp. revert pieces. induction shards as [|sh shards IH]; intros pieces; simpl; [done|].
  split; [done|]. intros [pr|]; [done|]. by apply rollbackEC_spares.
Qed.

Lemma putErasureCoded_spares k t b key backend policy q tags headers :
  newPieceID t b key (pq_now_piece q) ≠ k_VersionID k →
  calls_ok (spares k) (putErasureCoded t b key backend policy q tags headers).
Proof using Hnonempty.
  intros Hid. unfold putErasureCoded. destruct ErasureRegistry as [reg|]; [|done].
  destruct (EC.Registry_Lookup _ _) as [en|]; [|done]. case_match; [done|].
  destruct (pq_body q) as [body|]; [|done]. case_match; [done|].
  destruct (prepareErasureCodedEncryption _ _ _ _) as [[enc bytes]|]; [|done].
  destruct (EC.Encode _ _) as [shards|]; [|done]. apply put_shards_spares. intros ps.
  destruct (applyDefaultObjectLockRetention _ _ _) as [m|] eqn:Ha; [|by apply rollbackEC_spares].
  apply applyDefault_VersionID in Ha. simpl in Ha. split.
  - simpl. rewrite Ha. split; [by intros <-|]. intros _. split; [done|apply Hnonempty].
  - intros [[]|]; simpl; [done|]. by apply rollbackEC_spares.
Qed.

Lemma Put_spares k q : mints_other k (RPut q) → calls_ok (spares k) (Put q).
Proof using Hnonempty.
  intros Hm. unfold Put. destruct (pq_auth q) as [t|]; [|done]. case_match; [done|].
  destruct (parseBucketKey (pq_path q)) as [b key]. destruct (Hm t b key) as [H1 H2].
  case_match; [done|]. destruct (pq_tags q) as [tags|]; [|done]. destruct (pq_headers q) as [hs|]; [|done].
  set (write := match pq_placement q with Ok _ => _ | Err _ => _ end).
  assert (calls_ok (spares k) write) as Hw.
  { unfold write. destruct (pq_placement q) as [[backend policy]|]; [|done].
    repeat (case_match; [done|]).
    destruct (effectiveEncryptionMode _ _) as [mode|]; [|done].
    case_match; [by apply putErasureCoded_spares|]. case_match; [by apply putDeduped_spares|].
    by apply put_single_piece_spares. }
  unfold allowObjectLockOverwrite, objectLockOverwrite. destruct (pq_lockcfg q) as [[cfg|]|]; [|done|done].
  case_match; [done|]. destruct (pq_versioning q); [|done]. case_match; [done|].
  split; [done|]. intros [cur|[]]; try done. by case_match.
Qed.

(** ** Deletes and amendments *)

Lemma delete_version_holds_at k P t b key q w :
  (∀ m, P m → objectLockBlocksDelete m (dq_now_lock q) (governanceBypassRequested (dq_bypass q)) = true) →
  holds_at k P w → wp put_result (delete_version t b key q) (λ _, holds_at k P) w.
Proof.
  intros HP Hw fault. unfold do_call at 1 2. destruct fault; simpl; [done|].
  destruct (VersionLog.get _ _) as [m|[]] eqn:Hget; simpl; try done.
  pose proof Hw as [Hv (m0 & Hm0 & HP0)].
  destruct (objectLockBlocksDelete m _ _) eqn:Hblock; [done|]. intros fault.
  apply (delete_holds_at k P (mkManifestKey t b (hashObjectKey key) (m_VersionID m)) fault) in Hw.
  - destruct (do_call _ fault _ w) as [[[]|[]] w']; simpl in *; try done;
      (eapply spares_wp; [apply delete_pieces_spares|done]).
  - intros Hof. apply (get_at_of k) in Hget; [|done|by rewrite <- Hof]. simpl in Hget.
    destruct (Hv _ _ (find_elem _ _ _ Hget) Hof) as [_ Hid]. split; [done|].
    intros Heq. rewrite Heq in Hget. rewrite Hget in Hm0. simplify_eq. by rewrite HP in Hblock.
Qed.

Lemma Delete_holds_at k P q w :
  mints_other k (RDelete q) →
  (∀ m, P m → objectLockBlocksDelete m (dq_now_lock q) (governanceBypassRequested (dq_bypass q)) = true) →
  holds_at k P w → wp put_result (Delete q) (λ _, holds_at k P) w.
Proof using Hnonempty.
  intros Hm HP Hw. unfold Delete. destruct (dq_auth q) as [t|]; [|done].
  destruct (parseBucketKey (dq_path q)) as [b key]. case_match; [done|].
  destruct (dq_versioning q); [|done]. case_match.
  - eapply spares_wp; [|done]. split.
    + simpl. split; [intros <-; by apply (Hm t b key)|]. intros _. split; [done|apply Hnonempty].
    + by intros [[]|].
  - pose proof (delete_version_holds_at k P t b key q w HP Hw) as Hd.
    by destruct (dq_holds q) as [[[|n]|]|].
Qed.

Lemma amend_holds_at k P status mkey m w :
  m_VersionID m = k_VersionID mkey → (mkey = k → P m) → holds_at k P w →
  wp put_result (amend_version status mkey m) (λ _, holds_at k P) w.
Proof.
  intros Hid HP Hw fault. apply (update_holds_at k P mkey m fault w Hid HP) in Hw.
  by destruct (do_call _ fault _ w) as [[[]|] w'].
Qed.

(** A handler that reads a version and amends it with [f] keeps what [f]
    keeps. *)
Lemma load_amend_holds_at k P t b key versionId w (kk : ObjectManifest → ManifestKey → prog Response) :
  holds_at k P w →
  (∀ m mkey, m_VersionID m = k_VersionID mkey → (mkey = k → P m) →
     wp put_result (kk m mkey) (λ _, holds_at k P) w) →
  wp put_result (loadObjectVersion t b key versionId kk) (λ _, holds_at k P) w.
Proof.
  intros Hw Hkk fault. unfold do_call at 1 2. destruct fault; simpl; [done|].
  destruct (VersionLog.get _ _) as [m|] eqn:Hget; simpl; [|done].
  pose proof Hw as [Hv (m0 & Hm0 & HP0)].
  case_match; [done|]. apply Hkk; [done|]. intros Heq.
  apply (get_at_of k) in Hget; [|done|by rewrite <- Heq]. simpl in Hget. rewrite Heq in Hget. congruence.
Qed.

Lemma tagging_holds_at k P t b key versionId w (kk : ObjectManifest → ManifestKey → prog Response) :
  holds_at k P w →
  (∀ m mkey, m_VersionID m = k_VersionID mkey → (mkey = k → P m) →
     wp put_result (kk m mkey) (λ _, holds_at k P) w) →
  wp put_result
    (Call (ManGet (mkManifestKey t b (hashObjectKey key) versionId)) (λ r,
       match r with
       | Err e => Ret (manifestGetError e)
       | Ok m => kk m (mkManifestKey t b (hashObjectKey key) (m_VersionID m))
       end)) (λ _, holds_at k P) w.
Proof.
  intros Hw Hkk fault. unfold do_call at 1 2. destruct fault; simpl; [done|].
  destruct (VersionLog.get _ _) as [m|] eqn:Hget; simpl; [|done].
  pose proof Hw as [Hv (m0 & Hm0 & HP0)]. apply Hkk; [done|]. intros Heq.
  apply (get_at_of k) in Hget; [|done|by rewrite <- Heq]. simpl in Hget. rewrite Heq in Hget. congruence.
Qed.

Lemma Tagging_holds_at k P q doc w :
  (∀ m tags, P m → P (set_tags tags m)) → holds_at k P w →
  wp put_result (PutObjectTagging q doc) (λ _, holds_at k P) w ∧
  wp put_result (DeleteObjectTagging q) (λ _, holds_at k P) w.
Proof.
  intros HP Hw. unfold PutObjectTagging, DeleteObjectTagging.
  destruct (authObjectTagging q) as [[[t b] key]|]; [|done]. split.
  - destruct doc as [tags|]; [|done].
    apply (tagging_holds_at k P t b key (aq_versionId q) w (λ m mkey, amend_version 200 mkey (set_tags tags m)));
      [done|]. intros m mkey Hid Hm. apply amend_holds_at; auto.
  - apply (tagging_holds_at k P t b key (aq_versionId q) w (λ m mkey,
      if bool_decide (m_Tags m = ∅) then Ret (mkResponse 204 "" (m_VersionID m))
      else amend_version 204 mkey (set_tags ∅ m))); [done|].
    intros m mkey Hid Hm. case_bool_decide; [done|]. apply amend_holds_at; auto.
Qed.

Lemma Retention_holds_at k P q doc w :
  (∀ m ret, P m → Retention_Valid ret = None →
     (Active (manifestRetention m) (aq_now q) && weakensRetention (manifestRetention m) ret = false ∨
      m_RetentionMode m = ModeGovernance ∧ governanceBypassRequested (aq_bypass q) = true) →
     P (set_retention (ret_Mode ret) (ret_RetainUntil ret) m)) →
  holds_at k P w → wp put_result (PutObjectRetention q doc) (λ _, holds_at k P) w.
Proof.
  intros HP Hw. unfold PutObjectRetention. destruct (authObjectLock q) as [[[t b] key]|]; [|done].
  destruct doc as [[mode [until|]]|]; [|done..]. destruct (Retention_Valid _) eqn:Hvalid; [done|].
  apply load_amend_holds_at; [done|]. intros m mkey Hid Hm. cbv zeta.
  destruct (_ && _ && _) eqn:Hcond; [done|]. apply amend_holds_at; [done| |done].
  intros Hk. apply (HP m (mkRetention mode until)); [auto|done|].
  destruct (Active _ _ && weakensRetention _ _) eqn:Hweak; [right|by left].
  apply andb_true_iff in Hweak as [Hact _]. apply Active_true in Hact as [Hmode _].
  unfold Mode_Valid in Hmode. simpl in Hcond, Hmode. apply orb_false_iff in Hcond as [Hc Hg].
  rewrite Hc, orb_false_r in Hmode. rewrite Hmode in Hg. simpl in Hg. bool_facts. done.
Qed.

Lemma LegalHold_holds_at k P q doc w :
  (∀ m b, P m → (b = false → doc = Some LegalHoldOff) → P (set_legal_hold b m)) →
  holds_at k P w → wp put_result (PutObjectLegalHold q doc) (λ _, holds_at k P) w.
Proof.
  intros HP Hw. unfold PutObjectLegalHold. destruct (authObjectLock q) as [[[t b] key]|]; [|done].
  destruct doc as [status|]; [|done]. destruct (LegalHold_Valid status) eqn:Hvalid; [|done].
  change (negb true) with false. cbv iota.
  apply load_amend_holds_at; [done|]. intros m mkey Hid Hm.
  apply amend_holds_at; [done| |done]. intros Hk. apply HP; [auto|].
  intros Hoff. bool_facts. f_equal. unfold LegalHold_Valid in Hvalid.
  apply orb_true_iff in Hvalid as [Hv|Hv]; bool_facts; congruence.
Qed.

(** ** Sequences of requests *)

(** What the version stores: everything but retention, hold and tags. *)
Definition payload (m : ObjectManifest) :=
  (m_Pieces m, m_ObjectSize m, m_ContentHash m, m_Encryption m, m_DeleteMarker m).

(** The clock a request compares retentions against. *)
Definition lock_clock_before (U : Z) (r : request) : Prop :=
  match r with
  | RDelete q => dq_now_lock q < U
  | RRetention q _ => aq_now q < U
  | _ => True
  end.

Definition compliant (m0 m : ObjectManifest) : Prop :=
  payload m = payload m0 ∧ m_RetentionMode m = ModeCompliance ∧ m_RetainUntil m0 ≤ m_RetainUntil m.

Lemma handle_compliant k m0 r w :
  mints_other k r → lock_clock_before (m_RetainUntil m0) r → holds_at k (compliant m0) w →
  wp put_result (handle r) (λ _, holds_at k (compliant m0)) w.
Proof using Hnonempty.
  intros Hm Hclock Hw. destruct r as [q|q|q doc|q doc|q doc|q]; simpl.
  - eapply spares_wp; [by apply Put_spares|done].
  - apply Delete_holds_at; [done| |done]. intros m (_ & Hc & Hu).
    apply objectLockBlocksDelete_compliance; [done|]. simpl in Hclock. lia.
  - apply Retention_holds_at; [|done]. intros m ret (Hp & Hc & Hu) _ Hor. simpl in Hclock.
    destruct Hor as [Hg|[Hg _]]; [|by rewrite Hc in Hg].
    assert (Active (manifestRetention m) (aq_now q) = true) as Ha.
    { apply Active_true. simpl. rewrite Hc. split; [done|lia]. }
    rewrite Ha in Hg. apply not_weakens_compliance in Hg as [? ?]; [|done].
    split_and!; [done..|]. simpl in *. lia.
  - apply LegalHold_holds_at; [|done]. by intros m b Hc _.
  - by apply (Tagging_holds_at k (compliant m0) q doc w).
  - by apply (Tagging_holds_at k (compliant m0) q (Ok ∅) w).
Qed.

Lemma serve_holds_at {Req} (hdl : Req → prog Response) k P rs w :
  (∀ r w, r ∈ rs.*1 → holds_at k P w → wp put_result (hdl r) (λ _, holds_at k P) w) →
  holds_at k P w → holds_at k P (serve hdl rs w).
Proof using Type.
  revert w. induction rs as [|[r faults] rs IH]; intros w Hr Hw; [done|]. simpl.
  apply IH; [intros r' w' Hin; apply Hr; simpl; by right|].
  apply (wp_exec put_result (hdl r) (λ _, holds_at k P)). apply Hr; [simpl; by left|done].
Qed.

(** A version on hold, with what it stored. *)
Definition held (m0 m : ObjectManifest) : Prop := payload m = payload m0 ∧ m_LegalHold m = true.

(** No request that turns a hold off. *)
Definition keeps_holds (r : request) : Prop :=
  match r with RLegalHold _ doc => doc ≠ Some LegalHoldOff | _ => True end.

Lemma handle_held k m0 r w :
  mints_other k r → keeps_holds r → holds_at k (held m0) w →
  wp put_result (handle r) (λ _, holds_at k (held m0)) w.
Proof using Hnonempty.
  intros Hmint Hoff Hw. destruct r as [q|q|q doc|q doc|q doc|q]; simpl.
  - eapply spares_wp; [by apply Put_spares|done].
  - apply Delete_holds_at; [done| |done]. intros m' [_ Hh]. unfold objectLockBlocksDelete. by rewrite Hh.
  - apply Retention_holds_at; [|done]. by intros m' ret ? _ _.
  - apply LegalHold_holds_at; [|done]. intros m' b [Hp Hh] Hb. split; [done|].
    destruct b; [done|]. exfalso. by apply Hoff, Hb.
  - by apply (Tagging_holds_at k _ q doc w).
  - by apply (Tagging_holds_at k _ q (Ok ∅) w).
Qed.

(** ** Overlapping amendments *)

Lemma get_exact l t b h v m :
  v ≠ "" → VersionLog.find (mkManifestKey t b h v) l = Some m →
  VersionLog.get (mkManifestKey t b h v) l = Ok m.
Proof.
  intros Hv Hm. unfold VersionLog.get, VersionLog.resolve.
  rewrite bool_decide_eq_false_2 by done. simpl. by rewrite Hm.
Qed.

Lemma update_exact l k m m' :
  VersionLog.find k l = Some m → VersionLog.update k m' l = Ok (VersionLog.amend k m' l).
Proof. intros Hm. unfold VersionLog.update. by rewrite Hm. Qed.

(** Amendments are read-modify-write without a guard. When a tagging
    request reads a version, a legal-hold request for the same version is then
    served completely and answers 200, and the tagging request finishes with
    200 as well, the stored manifest is the one the tagging request had read,
    with its tags: the legal hold that was acknowledged is gone. *)
Theorem overlapping_tagging_drops_legal_hold t b key v tags m qt qh w :
  v ≠ "" → VersionLog.find (mkManifestKey t b (hashObjectKey key) v) (wd_manifests w) = Some m →
  m_VersionID m = v → m_DeleteMarker m = false →
  authObjectTagging qt = Ok (t, b, key) → aq_versionId qt = v →
  authObjectLock qh = Ok (t, b, key) → aq_versionId qh = v →
  ∃ w', run_schedule put_result [(0%nat, false); (1%nat, false); (1%nat, false); (0%nat, false)]
      (mkConfig w [PutObjectTagging qt (Ok tags); PutObjectLegalHold qh (Some LegalHoldOn)]) =
    Some (mkConfig w' [Ret (mkResponse 200 "" v); Ret (mkResponse 200 "" v)]) ∧
    VersionLog.find (mkManifestKey t b (hashObjectKey key) v) (wd_manifests w') =
      Some (set_tags tags m).
Proof.
  intros Hv Hm Hid Hdm Hat Hqt Hah Hqh.
  set (k := mkManifestKey t b (hashObjectKey key) v) in *.
  pose proof (get_exact (wd_manifests w) t b (hashObjectKey key) v m Hv Hm) as Hget. fold k in Hget.
  assert (∀ l mx, VersionLog.find k l = Some mx →
    ∀ m', VersionLog.find k (VersionLog.amend k m' l) = Some m') as Ham.
  { intros l mx Hmx m'. rewrite find_amend, bool_decide_eq_true_2 by done. by rewrite Hmx. }
  unfold PutObjectTagging, PutObjectLegalHold. rewrite Hat, Hah, Hqt, Hqh.
  change (negb (LegalHold_Valid LegalHoldOn)) with false.
  change (bool_decide (LegalHoldOn = LegalHoldOn)) with true. cbv iota.
  unfold loadObjectVersion, amend_version.
  set (l1 := VersionLog.amend k (set_legal_hold true m) (wd_manifests w)).
  exists (set_manifests (VersionLog.amend k (set_tags tags m) l1) w).
  split; [|by simpl; eapply Ham, Ham].
  cbn -[VersionLog.get VersionLog.update VersionLog.amend hashObjectKey]. fold k. rewrite Hget.
  cbn -[VersionLog.get VersionLog.update VersionLog.amend hashObjectKey]. fold k. rewrite Hdm.
  cbn -[VersionLog.get VersionLog.update VersionLog.amend hashObjectKey]. rewrite Hid. fold k.
  rewrite (update_exact (wd_manifests w) k m) by done.
  cbn -[VersionLog.get VersionLog.update VersionLog.amend hashObjectKey]. fold k.
  rewrite (update_exact _ k (set_legal_hold true m)) by by eapply Ham.
  reflexivity.
Qed.

End proofs.

(** ** An example gateway for the witnesses *)

(** One backend that stores a piece under the id it is given, hashes that only
    tag their input, the example cipher and codec, and keys wrapped as they are. *)
#[local] Instance ex_gateway : Gateway := {
  sha256Hex s := String "s" s;
  blake3Sum b := b;
  gw_AEAD := Sdk.plain_aead;
  gw_RSCodec := EC.xor_codec;
  WrapDEK _ dek := Some (mkWrappedDEK "kek" ContentAlgorithm dek "plain");
  UnwrapDEK w := Some (wd_WrappedKey w);
  ErasureRegistry := Some {["2+1" := EC.ex_encoder]};
  hasIndex := true;
  hasEncryption := true;
  registered b := bool_decide (b = "wasabi");
  put_result _ id body := mkPutResult id "etag" (blen body) ""
}.

Lemma ex_nonempty : ∀ s, sha256Hex s ≠ "".
Proof. done. Qed.

Definition ex_lock : option (result unit LockConfig) := Some (Ok (mkLockConfig true "" 0 0)).
Definition ex_amend (versionId bypass : string) (now : Z) : AmendRequest :=
  mkAmendRequest (Ok "t1") "/photos/cat" versionId bypass ex_lock now.
Definition ex_delete (versionId bypass : string) (now : Z) : DeleteRequest :=
  mkDeleteRequest (Ok "t1") "/photos/cat" versionId bypass (Ok "Enabled") None now now now.
Definition ex_k : ManifestKey := mkManifestKey "t1" "photos" (hashObjectKey "cat") "v1".
Definition ex_version : ObjectManifest :=
  single_piece_manifest "t1" "photos" "cat" "v1" 3 "" zero_EncryptionConfig zero_PlacementPolicy
    (mkPlaced "p1" "wasabi" "etag" "" 3) "h" ∅ 0.
Definition ex_log (m : ObjectManifest) : World := mkWorld [(ex_k, m)] ∅ {[("wasabi", "p1") := String.list_ascii_of_string "abc"]} ∅.

Lemma ex_versions_match m : m_VersionID m = "v1" → versions_match (wd_manifests (ex_log m)).
Proof. intros Hm k m' Heq%list_elem_of_singleton. by simplify_eq. Qed.

Lemma overlapping_tagging_drops_legal_hold_witness :
  ∃ w', run_schedule put_result [(0%nat, false); (1%nat, false); (1%nat, false); (0%nat, false)]
      (mkConfig (ex_log ex_version)
         [PutObjectTagging (ex_amend "v1" "" 0) (Ok {["k" := "v"]});
          PutObjectLegalHold (ex_amend "v1" "" 0) (Some LegalHoldOn)]) =
    Some (mkConfig w' [Ret (mkResponse 200 "" "v1"); Ret (mkResponse 200 "" "v1")]) ∧
    VersionLog.find ex_k (wd_manifests w') = Some (set_tags {["k" := "v"]} ex_version) ∧
    m_LegalHold (set_tags {["k" := "v"]} ex_version) = false.
Proof.
  destruct (overlapping_tagging_drops_legal_hold "t1" "photos" "cat" "v1" {["k" := "v"]} ex_version
    (ex_amend "v1" "" 0) (ex_amend "v1" "" 0) (ex_log ex_version)) as (w' & H1 & H2); try done.
  by exists w'.
Defined.

End Worm.
