(* ===== verification/RefCounting.v ===== *)
(** * Reference counting under interleaved requests

    PUT (deduplicated or not), DELETE and the amending handlers run
    concurrently; every call on a store is atomic and anything may happen
    between two calls. The handlers are verified one by one against a protocol
    of tokens: a [TRef] is one reference of an index row that the request
    holds, a [TOwn] a piece only the request knows of. The invariant ties the
    tokens of all requests to the shared state. *)

From S2P Require Import Prelude Bytes Manifest ManifestStore ContentIndex ObjectLock ErasureCoding ClientSdk EncryptionPipeline Fabric Handlers Worm.
Local Open Scope Z_scope.

Module Dedup.

Abbreviation piece := (string * string)%type.      (* backend, piece id *)

Definition row_piece (e : ContentIndexEntry) : piece := (ce_Backend e, ce_PieceID e).
Definition piece_of (p : Piece) : piece := (pc_Backend p, pc_PieceID p).

Inductive tok :=
| TRef (t h : string) (bp : piece)
| TOwn (bp : piece).

(** What a request has learnt and nobody can invalidate. *)
Inductive fact :=
| FHist (k : ManifestKey) (h : string) (ps : list Piece)   (* what version [k] was stored with *)
| FReg (bp : piece) (t h : string)                         (* [bp] was registered for content [h] *)
| FDead (bp : piece).                                      (* nothing will reference [bp] again *)

(** The piece a request saw when it last looked the content up or read a version
    of it. *)
Definition saw := option (string * string * piece).

(** The history of the shared state: versions stored so far, pieces written so
    far, pieces registered so far and those whose row is gone. *)
Record ghost := mkGhost {
  g_hist : gmap ManifestKey (string * list Piece);
  g_used : gset piece;
  g_reg : gmap piece (string * string);
  g_dead : gset piece
}.

Definition fact_holds (g : ghost) (f : fact) : Prop :=
  match f with
  | FHist k h ps => g_hist g !! k = Some (h, ps)
  | FReg bp t h => g_reg g !! bp = Some (t, h)
  | FDead bp => bp ∈ g_dead g
  end.

Record ghost_le (g g' : ghost) : Prop := {
  le_hist : g_hist g ⊆ g_hist g';
  le_used : g_used g ⊆ g_used g';
  le_reg : g_reg g ⊆ g_reg g';
  le_dead : g_dead g ⊆ g_dead g'
}.

#[export] Instance ghost_le_preorder : PreOrder ghost_le.
Proof.
  split; [by intros g|]. intros g1 g2 g3 [] []. split; by etrans.
Qed.

Lemma fact_holds_mono g g' f : ghost_le g g' → fact_holds g f → fact_holds g' f.
Proof.
  intros [Hh _ Hr Hd]. destruct f; simpl; [|  |set_solver].
  - intros ?. by eapply lookup_weaken.
  - intros ?. by eapply lookup_weaken.
Qed.

(** Reading a deduplicated version shows the piece of its content. *)
Definition saw_version (key : ManifestKey) (m : ObjectManifest) (s : saw) : saw :=
  match m_Pieces m with
  | [pc] => if bool_decide (m_ContentHash m = "") then s
            else Some (k_TenantID key, m_ContentHash m, piece_of pc)
  | _ => s
  end.

(** ** The protocol of a request *)

(** [proto p T s F]: a request that holds the tokens [T], saw [s] and knows
    [F] may run [p]. Tokens may be dropped, never invented. *)
Fixpoint proto {R} (p : prog R) (T : list tok) (s : saw) (F : list fact) : Prop :=
  match p with
  | Ret _ => True
  | Call c k =>
      match c in call A return (A → prog R) → (∀ (a : A), list tok → saw → list fact → Prop) → Prop with
      | IdxLookup t h => λ k rec,
          (∀ e, (∀ bp, TRef t h bp ∈ T → row_piece e = bp) →
             rec (Ok e) T (Some (t, h, row_piece e)) F) ∧
          (∀ x, rec (Err x) T None F)
      | IdxRegister now e => λ k rec,
          ce_RefCount e ≤ 0 ∧ ce_ContentHash e ≠ "" ∧
          (∃ T', T ≡ₚ TOwn (row_piece e) :: T' ∧
             rec (Ok ()) (TRef (ce_TenantID e) (ce_ContentHash e) (row_piece e) :: T') s F) ∧
          (∀ x, rec (Err x) T s F)
      | IdxIncrement t h => λ k rec,
          (∀ bp, (∀ bp', s = Some (t, h, bp') → bp = bp') →
             rec (Ok ()) (TRef t h bp :: T) s F) ∧
          (∀ x, rec (Err x) T s F)
      | IdxDecrement t h => λ k rec,
          ∃ bp T', T ≡ₚ TRef t h bp :: T' ∧
            (∀ n, rec (Ok n) T' s F) ∧ rec (Err IdxUnavailable) T' s F
      | IdxDelete t h => λ k rec,
          (∀ F', (∀ bp, FReg bp t h ∈ F → FDead bp ∈ F') → rec (Ok ()) T s F') ∧
          (∀ x, rec (Err x) T s F)
      | ManGet key => λ k rec,
          (∀ m, m_VersionID m ≠ "" →
             (m_ContentHash m ≠ "" → ∃ pc, m_Pieces m = [pc] ∧ pc_PieceID pc ≠ "") →
             rec (Ok m) T (saw_version key m s)
               (FHist (mkManifestKey (k_TenantID key) (k_Bucket key) (k_ObjectKeyHash key)
                         (m_VersionID m)) (m_ContentHash m) (m_Pieces m) :: F)) ∧
          (∀ x, rec (Err x) T s F)
      | ManPut key m => λ k rec,
          m_VersionID m = k_VersionID key ∧ k_VersionID key ≠ "" ∧
          (∃ T',
             (if bool_decide (m_ContentHash m = "")
              then T ≡ₚ (TOwn ∘ piece_of <$> m_Pieces m) ++ T'
              else ∃ pc, m_Pieces m = [pc] ∧
                     T ≡ₚ TRef (k_TenantID key) (m_ContentHash m) (piece_of pc) :: T') ∧
             rec (Ok ()) T' s F) ∧
          (∀ x, rec (Err x) T s F)
      | ManUpdate key m => λ k rec,
          FHist key (m_ContentHash m) (m_Pieces m) ∈ F ∧ m_VersionID m = k_VersionID key ∧
          (∀ r, rec r T s F)
      | ManDelete key => λ k rec,
          k_VersionID key ≠ "" ∧
          ∃ h ps, FHist key h ps ∈ F ∧
            (if bool_decide (h = "")
             then rec (Ok ()) ((TOwn ∘ piece_of <$> ps) ++ T) s F
             else ∀ pc, ps = [pc] →
                    rec (Ok ()) (TRef (k_TenantID key) h (piece_of pc) :: T) s
                      (FReg (piece_of pc) (k_TenantID key) h :: F)) ∧
            rec (Err ErrUnavailable) T s F
      | PiecePut b id body => λ k rec,
          id ≠ "" ∧ (∀ pr, pr_PieceID' pr = id → rec (Some pr) (TOwn (b, id) :: T) s F) ∧ rec None T s F
      | PieceGet b id _ => λ k rec, ∀ r, rec r T s F
      | CacheGet _ => λ k rec, ∀ r, rec r T s F
      | CachePut _ _ => λ k rec, ∀ r, rec r T s F
      | TryAcquire _ => λ k rec, ∀ r, rec r T s F
      | PieceCopy b _ dst => λ k rec,
          dst ≠ "" ∧ (∀ pr, rec (Some pr) (TOwn (b, dst) :: T) s F) ∧ rec None T s F
      | PieceDelete b id => λ k rec,
          (∃ T', T ≡ₚ TOwn (b, id) :: T' ∧ ∀ r, rec r T' s F) ∨
          (FDead (b, id) ∈ F ∧ ∀ r, rec r T s F)
      end k (λ a T s F, proto (k a) T s F)
  end.

(** The order of the tokens does not matter. *)
Lemma proto_perm {R} (p : prog R) T T' s F : T ≡ₚ T' → proto p T' s F → proto p T s F.
Proof.
  revert T T' s F. induction p as [r|A c k IH]; intros T T' s F HT; [done|].
  destruct c; simpl.
  - intros [H1 H2]. split; [|intros x; by apply (IH _ T T')].
    intros e He. apply (IH _ T T'); [done|]. apply H1. intros bp. rewrite <- HT. apply He.
  - intros (? & ? & (T0 & HT0 & H1) & H2). split_and!; try done.
    + exists T0. by rewrite HT.
    + intros x. by apply (IH _ T T').
  - intros [H1 H2]. split; intros.
    + eapply IH; [|by apply H1]. by rewrite HT.
    + by apply (IH _ T T').
  - intros (bp & T0 & HT0 & H1 & H2). exists bp, T0. by rewrite HT.
  - intros [H1 H2]. split; intros; apply (IH _ T T'); auto.
  - intros [H1 H2]. split; intros; apply (IH _ T T'); auto.
  - intros (? & ? & (T0 & HT0 & H1) & H2). split_and!; try done.
    + exists T0. split; [|done]. case_bool_decide; [by rewrite HT|].
      destruct HT0 as (pc & ? & ?). exists pc. by rewrite HT.
    + intros x. by apply (IH _ T T').
  - intros (? & ? & H1). split_and!; try done. intros r. by apply (IH _ T T').
  - intros (? & h & ps & ? & H1 & H2). split; [done|]. exists h, ps. split_and!; [done| |].
    + case_bool_decide.
      * eapply IH; [|exact H1]. by rewrite HT.
      * intros pc Hpc. eapply IH; [|by apply H1]. by rewrite HT.
    + by apply (IH _ T T').
  - intros (Hid & H1 & H2). split; [done|]. split; intros.
    + eapply IH; [|by apply H1]. by rewrite HT.
    + by apply (IH _ T T').
  - intros H1 r. by apply (IH _ T T').
  - intros [(T0 & HT0 & H1)|[? H1]]; [left; exists T0; by rewrite HT|right].
    split; [done|]. intros r. by apply (IH _ T T').
  - intros H1 r. by apply (IH _ T T').
  - intros H1 r. by apply (IH _ T T').
  - intros H1 r. by apply (IH _ T T').
  - intros (Hid & H1 & H2). split; [done|]. split; intros.
    + eapply IH; [|by apply H1]. by rewrite HT.
    + by apply (IH _ T T').
Qed.

(** ** The invariant *)

(** What the invariant needs to know of a stored version. *)
Definition shape (e : ManifestKey * ObjectManifest) : ManifestKey * string * list Piece :=
  (e.1, m_ContentHash e.2, m_Pieces e.2).
Abbreviation shapes := (list (ManifestKey * string * list Piece)).

Definition is_ref (t h : string) (x : tok) : Prop :=
  match x with TRef t' h' _ => t' = t ∧ h' = h | TOwn _ => False end.
#[export] Instance is_ref_dec t h x : Decision (is_ref t h x).
Proof. destruct x; simpl; apply _. Defined.

(** References to the content [(t, h)]: stored versions and tokens. *)
Definition man_refs (t h : string) (l : shapes) : nat :=
  length (filter (λ x, k_TenantID x.1.1 = t ∧ x.1.2 = h) l).
Definition tok_refs (t h : string) (toks : list tok) : nat := length (filter (is_ref t h) toks).

(** Pieces with one owner: those of versions without content hash, and those
    of requests in progress. *)
Definition man_owned (l : shapes) : list piece :=
  concat ((λ x, if bool_decide (x.1.2 = "") then piece_of <$> x.2 else []) <$> l).
Definition tok_owned (toks : list tok) : list piece :=
  omap (λ x, match x with TOwn bp => Some bp | TRef _ _ _ => None end) toks.

Arguments man_refs : simpl never.
Arguments tok_refs : simpl never.
Arguments man_owned : simpl never.

Record inv (w : World) (g : ghost) (toks : list tok) : Prop := {
  inv_keyed : Index.keyed (wd_index w);
  inv_nodup : NoDup (wd_manifests w).*1;
  inv_versions : Worm.versions_match (wd_manifests w);
  inv_counts t h : h ≠ "" →
    match wd_index w !! (t, h) with
    | Some e => Z.of_nat (man_refs t h (shape <$> wd_manifests w) + tok_refs t h toks) ≤ ce_RefCount e
                < 2 ^ 63
    | None => (man_refs t h (shape <$> wd_manifests w) + tok_refs t h toks = 0)%nat
    end;
  inv_row t h e : wd_index w !! (t, h) = Some e →
    h ≠ "" ∧ is_Some (wd_pieces w !! row_piece e) ∧ g_reg g !! row_piece e = Some (t, h) ∧
    row_piece e ∉ g_dead g;
  inv_reg bp t h : g_reg g !! bp = Some (t, h) →
    bp ∈ g_dead g ∨ ∃ e, wd_index w !! (t, h) = Some e ∧ row_piece e = bp;
  inv_hist k h ps : (k, h, ps) ∈ shape <$> wd_manifests w → g_hist g !! k = Some (h, ps);
  inv_man k h ps : (k, h, ps) ∈ shape <$> wd_manifests w → h ≠ "" →
    ∃ e pc, wd_index w !! (k_TenantID k, h) = Some e ∧ ps = [pc] ∧ row_piece e = piece_of pc;
  inv_ref t h bp : TRef t h bp ∈ toks →
    h ≠ "" ∧ ∃ e, wd_index w !! (t, h) = Some e ∧ row_piece e = bp;
  inv_own : NoDup (man_owned (shape <$> wd_manifests w) ++ tok_owned toks);
  inv_owned bp : bp ∈ man_owned (shape <$> wd_manifests w) ++ tok_owned toks →
    is_Some (wd_pieces w !! bp) ∧ g_reg g !! bp = None ∧ bp ∉ g_dead g ∧ bp ∈ g_used g;
  inv_used bp : is_Some (g_reg g !! bp) ∨ bp ∈ g_dead g → bp ∈ g_used g;
  inv_named bp : bp ∈ g_used g → bp.2 ≠ ""
}.

(** Everything of the invariant but the counts is about which tokens there
    are, not in what order. *)
Lemma tok_refs_perm t h T T' : T ≡ₚ T' → tok_refs t h T = tok_refs t h T'.
Proof. intros HT. unfold tok_refs. by rewrite HT. Qed.

Lemma inv_perm w g T T' : T ≡ₚ T' → inv w g T → inv w g T'.
Proof.
  intros HT [? ? ? Hc ? ? ? ? Hr Ho Hod ? ?]. split; try done.
  - intros t h Hh. specialize (Hc t h Hh). by rewrite <- (tok_refs_perm t h T T' HT).
  - intros t h bp. rewrite <- HT. apply Hr.
  - unfold tok_owned in *. by rewrite <- HT.
  - intros bp. unfold tok_owned in *. rewrite <- HT. apply Hod.
Qed.

#[export] Instance inv_proper w g : Proper ((≡ₚ) ==> iff) (inv w g).
Proof. intros T T' HT. split; by apply inv_perm. Qed.

(** Tokens may be dropped. *)
Lemma inv_drop w g T1 T2 : inv w g (T1 ++ T2) → inv w g T2.
Proof.
  intros [? ? ? Hc ? ? ? ? Hr Ho Hod ? ?]. split; try done.
  - intros t h Hh. specialize (Hc t h Hh). unfold tok_refs in *. rewrite filter_app, length_app in Hc.
    destruct (wd_index w !! (t, h)); lia.
  - intros t h bp Hin. apply (Hr t h bp). set_solver.
  - unfold tok_owned in *. rewrite omap_app in Ho. rewrite (Permutation_app_comm (omap _ T1)) in Ho.
    rewrite app_assoc in Ho. by apply NoDup_app in Ho as [? _].
  - intros bp Hin. apply Hod. unfold tok_owned in *. rewrite omap_app. set_solver.
Qed.

Lemma inv_empty : inv (mkWorld [] ∅ ∅ ∅) (mkGhost ∅ ∅ ∅ ∅) [].
Proof.
  split; simpl; try done;
    first [apply map_Forall_empty | by constructor | by intros ?? ?%elem_of_nil
          |by intros ??? ?%elem_of_nil | by intros ? ?%elem_of_nil | idtac].
  by intros bp [[? ?]|?%elem_of_empty].
Qed.

(** ** Calls on the index *)

Lemma tok_refs_cons t h x T :
  tok_refs t h (x :: T) = ((if decide (is_ref t h x) then 1 else 0) + tok_refs t h T)%nat.
Proof. unfold tok_refs. rewrite filter_cons. by case_decide. Qed.

(** Changing the count of a row and the tokens for it. *)
Lemma inv_recount w g T T' t h e n :
  inv w g T → wd_index w !! (t, h) = Some e →
  (∀ t' h', (t', h') ≠ (t, h) → tok_refs t' h' T' = tok_refs t' h' T) →
  tok_owned T' = tok_owned T →
  (∀ t' h' bp, TRef t' h' bp ∈ T' → TRef t' h' bp ∈ T ∨ (t', h', bp) = (t, h, row_piece e)) →
  Z.of_nat (man_refs t h (shape <$> wd_manifests w) + tok_refs t h T') ≤ n < 2 ^ 63 →
  inv (set_index (<[(t, h) := with_RefCount n e]> (wd_index w)) w) g T'.
Proof.
  intros [Hk Hnd Hv Hc Hrow Hreg Hhist Hman Href Ho Hod Hu Hnm] He Hother Hown HT Hn.
  pose proof (Hrow t h e He) as (Hh & _ & _ & _).
  assert (∀ t' h' e', <[(t, h) := with_RefCount n e]> (wd_index w) !! (t', h') = Some e' →
    ∃ e0, wd_index w !! (t', h') = Some e0 ∧ row_piece e' = row_piece e0) as Hold.
  { intros t' h' e' [[[= <- <-] <-]|[_ ?]]%lookup_insert_Some; eauto. }
  assert (∀ t' h' e0, wd_index w !! (t', h') = Some e0 →
    ∃ e', <[(t, h) := with_RefCount n e]> (wd_index w) !! (t', h') = Some e' ∧
      row_piece e' = row_piece e0) as Hnew.
  { intros t' h' e0 He0. destruct (decide ((t, h) = (t', h'))) as [[= <- <-]|Hne].
    - rewrite lookup_insert_eq. simplify_eq. eauto.
    - rewrite lookup_insert_ne by done. eauto. }
  split; simpl; try done.
  - apply Index.keyed_insert; [done|]. by apply Hk in He.
  - intros t' h' Hh'. destruct (decide ((t, h) = (t', h'))) as [[= <- <-]|Hne].
    + by rewrite lookup_insert_eq.
    + rewrite lookup_insert_ne by done. rewrite Hother by congruence. by apply Hc.
  - intros t' h' e' (e0 & He0 & ->)%Hold. by apply Hrow.
  - intros bp t' h' [?|(e0 & He0 & <-)]%Hreg; [by left|right].
    destruct (Hnew _ _ _ He0) as (e' & ? & ?). eauto.
  - intros k h' ps Hin Hh'. destruct (Hman k h' ps Hin Hh') as (e0 & pc & He0 & -> & Hpc).
    destruct (Hnew _ _ _ He0) as (e' & ? & Heq). exists e', pc. by rewrite Heq.
  - intros t' h' bp [Hin|Heq]%HT.
    + destruct (Href _ _ _ Hin) as (? & e0 & He0 & <-). split; [done|].
      destruct (Hnew _ _ _ He0) as (e' & ? & ?). eauto.
    + simplify_eq. split; [done|]. destruct (Hnew _ _ _ He) as (e' & ? & ?). eauto.
  - by rewrite Hown.
  - intros bp. rewrite Hown. apply Hod.
Qed.

Lemma inv_increment w g T t h e :
  inv w g T → wd_index w !! (t, h) = Some e → ce_RefCount e < 2 ^ 63 - 1 →
  inv (set_index (<[(t, h) := with_RefCount (wrap64 (ce_RefCount e + 1)) e]> (wd_index w)) w) g
    (TRef t h (row_piece e) :: T).
Proof.
  intros Hi He Hlt. pose proof (inv_row _ _ _ Hi t h e He) as (Hh & _).
  pose proof (inv_counts _ _ _ Hi t h Hh) as Hc. rewrite He in Hc.
  rewrite wrap64_id by (unfold is_int64; lia).
  apply (inv_recount w g T); try done.
  - intros t' h' Hne. rewrite tok_refs_cons. rewrite decide_False; [done|]. simpl. naive_solver.
  - intros t' h' bp [Heq|Hin]%elem_of_cons; [right; congruence|by left].
  - rewrite tok_refs_cons, decide_True by done. lia.
Qed.

Lemma inv_decrement w g T t h bp :
  inv w g (TRef t h bp :: T) →
  ∃ e, wd_index w !! (t, h) = Some e ∧ 0 < ce_RefCount e < 2 ^ 63 ∧
    inv (set_index (<[(t, h) := with_RefCount (wrap64 (ce_RefCount e - 1)) e]> (wd_index w)) w) g T.
Proof.
  intros Hi. destruct (inv_ref _ _ _ Hi t h bp) as (Hh & e & He & _); [set_solver|].
  exists e. split; [done|]. pose proof (inv_counts _ _ _ Hi t h Hh) as Hc. rewrite He in Hc.
  rewrite tok_refs_cons, decide_True in Hc by done. split; [lia|].
  rewrite wrap64_id by (unfold is_int64; lia).
  apply (inv_recount w g (TRef t h bp :: T)); try done.
  - intros t' h' Hne. rewrite tok_refs_cons. rewrite decide_False; [done|]. simpl. naive_solver.
  - intros t' h' bp' Hin. left. set_solver.
  - lia.
Qed.

(** No row: a fresh piece becomes the canonical one. *)
Lemma inv_register w g T t h e :
  inv w g (TOwn (row_piece e) :: T) → wd_index w !! (t, h) = None → h ≠ "" →
  ce_TenantID e = t → ce_ContentHash e = h → ce_RefCount e = 1 →
  inv (set_index (<[(t, h) := e]> (wd_index w)) w)
    (mkGhost (g_hist g) (g_used g) (<[row_piece e := (t, h)]> (g_reg g)) (g_dead g))
    (TRef t h (row_piece e) :: T).
Proof.
  intros [Hk Hnd Hv Hc Hrow Hreg Hhist Hman Href Ho Hod Hu Hnm] Hnone Hh Ht Hhe Hcnt.
  assert (row_piece e ∈ man_owned (shape <$> wd_manifests w) ++ tok_owned (TOwn (row_piece e) :: T))
    as Hown by (simpl; set_solver).
  destruct (Hod _ Hown) as (Hp & Hr0 & Hd0 & Hu0).
  pose proof (Hc t h Hh) as Hc0. rewrite Hnone in Hc0. rewrite tok_refs_cons in Hc0. simpl in Hc0.
  assert (row_piece e ∉ man_owned (shape <$> wd_manifests w) ++ tok_owned T) as Hni.
  { simpl in Ho. rewrite <- Permutation_middle in Ho. by apply NoDup_cons in Ho as [? _]. }
  split; simpl; try done.
  - apply Index.keyed_insert; [done|]. by rewrite Ht, Hhe.
  - intros t' h' Hh'. rewrite tok_refs_cons. destruct (decide ((t, h) = (t', h'))) as [[= <- <-]|Hne].
    + rewrite lookup_insert_eq, decide_True by done. lia.
    + rewrite lookup_insert_ne, decide_False by (simpl; naive_solver). by apply (Hc t' h').
  - intros t' h' e' [[[= <- <-] <-]|[Hne He']]%lookup_insert_Some.
    + rewrite lookup_insert_eq. done.
    + destruct (Hrow _ _ _ He') as (? & ? & Hr & ?). split_and!; [done..| |done].
      rewrite lookup_insert_ne by congruence. done.
  - intros bp t' h' [[<- [= <- <-]]|[Hne Hr]]%lookup_insert_Some.
    + right. rewrite lookup_insert_eq. eauto.
    + destruct (Hreg _ _ _ Hr) as [?|(e' & He' & ?)]; [by left|right].
      exists e'. rewrite lookup_insert_ne by congruence. done.
  - intros k h' ps Hin Hh'. destruct (Hman k h' ps Hin Hh') as (e0 & pc & He0 & -> & Hpc).
    exists e0, pc. rewrite lookup_insert_ne by congruence. done.
  - intros t' h' bp [[= -> -> ->]|Hin]%elem_of_cons.
    + split; [done|]. rewrite lookup_insert_eq. eauto.
    + destruct (Href t' h' bp) as (? & e0 & He0 & ?); [set_solver|]. split; [done|].
      exists e0. rewrite lookup_insert_ne by congruence. done.
  - simpl in Ho. rewrite <- Permutation_middle in Ho. by apply NoDup_cons in Ho as [_ ?].
  - intros bp Hin. destruct (Hod bp) as (? & ? & ? & ?); [simpl; set_solver|].
    split_and!; [done| |done..]. rewrite lookup_insert_ne; [done|]. intros <-. done.
  - intros bp [[x Hx]|?]; [|by apply Hu; right].
    apply lookup_insert_Some in Hx as [[<- _]|[_ Hx]]; [done|]. apply Hu. left. by eexists.
Qed.

(** The row of an unreferenced content goes; its piece is dead. *)
Lemma inv_index_delete w g T t h e :
  inv w g T → wd_index w !! (t, h) = Some e → ce_RefCount e ≤ 0 →
  inv (set_index (delete (t, h) (wd_index w)) w)
    (mkGhost (g_hist g) (g_used g) (g_reg g) ({[row_piece e]} ∪ g_dead g)) T.
Proof.
  intros [Hk Hnd Hv Hc Hrow Hreg Hhist Hman Href Ho Hod Hu Hnm] He Hcnt.
  destruct (Hrow _ _ _ He) as (Hh & Hp & Hr & Hd).
  pose proof (Hc t h Hh) as Hc0. rewrite He in Hc0.
  assert (man_refs t h (shape <$> wd_manifests w) = 0 ∧ tok_refs t h T = 0)%nat as [Hm0 Ht0] by lia.
  assert (∀ t' h' e', wd_index w !! (t', h') = Some e' → (t', h') ≠ (t, h) → row_piece e' ≠ row_piece e)
    as Hdiff.
  { intros t' h' e' He' Hne Heq. destruct (Hrow _ _ _ He') as (_ & _ & Hr' & _). congruence. }
  split; simpl; try done.
  - by apply Index.keyed_delete.
  - intros t' h' Hh'. destruct (decide ((t, h) = (t', h'))) as [[= <- <-]|Hne].
    + rewrite lookup_delete_eq. lia.
    + rewrite lookup_delete_ne by done. by apply Hc.
  - intros t' h' e' [Hne He']%lookup_delete_Some.
    destruct (Hrow _ _ _ He') as (? & ? & ? & ?). split_and!; [done..|].
    intros [Heq%elem_of_singleton|?]%elem_of_union; [|done].
    by apply (Hdiff _ _ _ He' (not_eq_sym Hne)).
  - intros bp t' h' Hbp. destruct (Hreg _ _ _ Hbp) as [?|(e' & He' & <-)].
    { left. apply elem_of_union. by right. }
    destruct (decide ((t, h) = (t', h'))) as [[= <- <-]|Hne].
    { left. simplify_eq. apply elem_of_union. left. by apply elem_of_singleton. }
    right. exists e'. by rewrite lookup_delete_ne.
  - intros k h' ps Hin Hh'. destruct (Hman k h' ps Hin Hh') as (e0 & pc & He0 & -> & Hpc).
    exists e0, pc. rewrite lookup_delete_ne; [done|]. intros [= -> ->].
    apply (Nat.neq_succ_0 0). assert (man_refs (k_TenantID k) h' (shape <$> wd_manifests w) ≠ 0%nat); [|lia].
    unfold man_refs. intros Hz%length_zero_iff_nil. eapply (elem_of_nil (k, h', [pc])). rewrite <- Hz.
    by apply list_elem_of_filter.
  - intros t' h' bp Hin. destruct (Href _ _ _ Hin) as (? & e0 & He0 & ?). split; [done|].
    exists e0. rewrite lookup_delete_ne; [done|]. intros [= -> ->].
    assert (tok_refs t' h' T ≠ 0%nat); [|lia].
    unfold tok_refs. intros Hz%length_zero_iff_nil. eapply (elem_of_nil (TRef t' h' bp)). rewrite <- Hz.
    by apply list_elem_of_filter.
  - intros bp Hin. destruct (Hod bp Hin) as (? & ? & ? & ?). split_and!; [done..| |done].
    intros [Heq%elem_of_singleton|?]%elem_of_union; [congruence|done].
  - intros bp [?|[->%elem_of_singleton|?]%elem_of_union]; apply Hu; eauto.
Qed.

(** ** Calls on manifests and pieces *)

Lemma man_refs_perm t h l l' : l ≡ₚ l' → man_refs t h l = man_refs t h l'.
Proof. intros Hl. unfold man_refs. by rewrite Hl. Qed.

Lemma man_owned_perm l l' : l ≡ₚ l' → man_owned l ≡ₚ man_owned l'.
Proof. intros Hl. unfold man_owned. by rewrite Hl. Qed.

Lemma man_refs_cons t h x l :
  man_refs t h (x :: l) =
    ((if decide (k_TenantID x.1.1 = t ∧ x.1.2 = h) then 1 else 0) + man_refs t h l)%nat.
Proof. unfold man_refs. rewrite filter_cons. by case_decide. Qed.

Lemma man_owned_cons x l :
  man_owned (x :: l) = (if bool_decide (x.1.2 = "") then piece_of <$> x.2 else []) ++ man_owned l.
Proof. done. Qed.

Lemma tok_owned_own T bps : tok_owned ((TOwn <$> bps) ++ T) = bps ++ tok_owned T.
Proof.
  induction bps as [|bp bps IH]; [done|]. rewrite fmap_cons, <- app_comm_cons.
  change (bp :: tok_owned ((TOwn <$> bps) ++ T) = bp :: bps ++ tok_owned T). by rewrite IH.
Qed.

Lemma tok_refs_own t h T bps : tok_refs t h ((TOwn <$> bps) ++ T) = tok_refs t h T.
Proof.
  induction bps as [|bp bps IH]; [done|]. rewrite fmap_cons, <- app_comm_cons, tok_refs_cons, IH.
  by rewrite decide_False by (intros []).
Qed.

(** The tokens a version is worth: its reference, or its pieces. *)
Definition version_toks (k : ManifestKey) (h : string) (ps : list Piece) : list tok :=
  if bool_decide (h = "") then TOwn <$> (piece_of <$> ps)
  else (λ pc, TRef (k_TenantID k) h (piece_of pc)) <$> ps.

(** Moving a version between the log and the tokens leaves the sums alone. *)
Lemma version_toks_balance k h ps l T t' h' :
  (h ≠ "" → ∃ pc, ps = [pc]) → h' ≠ "" →
  (man_refs t' h' ((k, h, ps) :: l) + tok_refs t' h' T =
   man_refs t' h' l + tok_refs t' h' (version_toks k h ps ++ T))%nat ∧
  man_owned ((k, h, ps) :: l) ++ tok_owned T ≡ₚ man_owned l ++ tok_owned (version_toks k h ps ++ T).
Proof.
  intros Hps Hh'. unfold version_toks. rewrite man_refs_cons, man_owned_cons. simpl.
  case_bool_decide as Hh.
  - subst h. rewrite tok_refs_own, tok_owned_own, decide_False by naive_solver. split; [done|].
    rewrite !app_assoc. f_equiv. apply Permutation_app_comm.
  - destruct (Hps Hh) as [pc ->]. simpl. rewrite tok_refs_cons. split; [|done].
    destruct (decide (k_TenantID k = t' ∧ h = h')) as [[-> ->]|Hn].
    + rewrite decide_True by done. lia.
    + rewrite decide_False by (simpl; naive_solver). lia.
Qed.

(** A version enters the log against its tokens. *)
Lemma inv_man_put w g T k m :
  inv w g (version_toks k (m_ContentHash m) (m_Pieces m) ++ T) → g_hist g !! k = None →
  m_VersionID m = k_VersionID k → k_VersionID k ≠ "" →
  (m_ContentHash m ≠ "" → ∃ pc, m_Pieces m = [pc]) →
  inv (set_manifests (VersionLog.put k m (wd_manifests w)) w)
    (mkGhost (<[k := (m_ContentHash m, m_Pieces m)]> (g_hist g)) (g_used g) (g_reg g) (g_dead g)) T.
Proof.
  intros [Hk Hnd Hv Hc Hrow Hreg Hhist Hman Href Ho Hod Hu Hnm] Hfresh Hid Hnil Hps.
  set (l := wd_manifests w) in *. set (h := m_ContentHash m) in *. set (ps := m_Pieces m) in *.
  assert (k ∉ l.*1) as Hni.
  { intros ([k' m'] & Heq & Hin)%list_elem_of_fmap. simpl in Heq. subst k'.
    apply (list_elem_of_fmap_2 shape), Hhist in Hin. simpl in Hin. congruence. }
  assert (VersionLog.put k m l = l ++ [(k, m)]) as Hput.
  { unfold VersionLog.put. f_equal. apply filter_all. intros e He Heq. subst k.
    apply Hni. by apply list_elem_of_fmap_2. }
  assert (shape <$> VersionLog.put k m l ≡ₚ (k, h, ps) :: (shape <$> l)) as Hsh.
  { rewrite Hput, fmap_app. simpl. by rewrite <- Permutation_cons_append. }
  assert (∀ t' h', h' ≠ "" → (man_refs t' h' (shape <$> VersionLog.put k m l) + tok_refs t' h' T =
    man_refs t' h' (shape <$> l) + tok_refs t' h' (version_toks k h ps ++ T))%nat) as Hbal.
  { intros t' h' Hh'. rewrite (man_refs_perm _ _ _ _ Hsh). by apply version_toks_balance. }
  assert (man_owned (shape <$> VersionLog.put k m l) ++ tok_owned T ≡ₚ
    man_owned (shape <$> l) ++ tok_owned (version_toks k h ps ++ T)) as Hown.
  { rewrite (man_owned_perm _ _ Hsh). by apply (version_toks_balance k h ps _ T "" "x"). }
  split; simpl; try done.
  - rewrite Hput, fmap_app. apply NoDup_app. split_and!; [done| |apply NoDup_singleton].
    intros x Hx ->%list_elem_of_singleton. done.
  - by apply Worm.versions_match_put.
  - intros t' h' Hh'. rewrite Hbal by done. by apply Hc.
  - intros k' h' ps'. rewrite Hsh. intros [[= -> -> ->]|Hin]%elem_of_cons.
    + apply lookup_insert_eq.
    + apply Hhist in Hin. rewrite lookup_insert_ne by congruence. done.
  - intros k' h' ps'. rewrite Hsh. intros [[= -> -> ->]|Hin]%elem_of_cons Hh'; [|by apply Hman].
    destruct (Hps Hh') as [pc Hpc]. fold ps in Hpc. destruct (Href (k_TenantID k) h (piece_of pc))
      as (_ & e & He & Hrp).
    { unfold version_toks. rewrite bool_decide_eq_false_2, Hpc by done. simpl. apply elem_of_cons. by left. }
    exists e, pc. done.
  - intros t' h' bp Hin. apply (Href t' h' bp). apply elem_of_app. by right.
  - by rewrite Hown.
  - intros bp. rewrite Hown. apply Hod.
Qed.

(** An amendment that keeps hashes and pieces is invisible to the invariant. *)
Lemma inv_reshape w g T l' :
  inv w g T → shape <$> l' = shape <$> wd_manifests w → Worm.versions_match l' →
  inv (set_manifests l' w) g T.
Proof.
  intros [Hk Hnd Hv Hc Hrow Hreg Hhist Hman Href Ho Hod Hu Hnm] Hsh Hv'.
  split; simpl; rewrite ?Hsh; try done.
  assert (∀ l : VersionLog.log, l.*1 = (shape <$> l).*1.*1) as Hkeys.
  { intros l. rewrite <- !list_fmap_compose. apply list_fmap_ext. done. }
  by rewrite Hkeys, Hsh, <- Hkeys.
Qed.

Lemma inv_man_update w g T k m m' :
  inv w g T → VersionLog.find k (wd_manifests w) = Some m →
  g_hist g !! k = Some (m_ContentHash m', m_Pieces m') → m_VersionID m' = k_VersionID k →
  inv (set_manifests (VersionLog.amend k m' (wd_manifests w)) w) g T.
Proof.
  intros Hi Hm Hh Hid. apply inv_reshape; [done| |].
  - unfold VersionLog.amend. rewrite <- list_fmap_compose. apply list_fmap_ext.
    intros i [k0 m0] Hin%list_elem_of_lookup_2. simpl. case_bool_decide as Heq; [|done].
    subst k0. apply (list_elem_of_fmap_2 shape), (inv_hist _ _ _ Hi) in Hin. simpl in Hin.
    rewrite Hh in Hin. unfold shape. simpl. congruence.
  - apply Worm.versions_match_amend; [apply Hi|done].
Qed.

Lemma log_split (l : VersionLog.log) k m :
  NoDup l.*1 → (k, m) ∈ l → l ≡ₚ (k, m) :: filter (λ e, e.1 ≠ k) l.
Proof.
  induction l as [|[k' m'] l IH]; [set_solver|]. rewrite fmap_cons, NoDup_cons. intros [Hni Hnd].
  intros [Heq|Hin]%elem_of_cons.
  - simplify_eq. rewrite filter_cons_False by (intros Hne; by apply Hne). f_equiv.
    apply reflexive_eq. symmetry. apply filter_all. intros e He Heq. apply Hni.
    simpl. rewrite <- Heq. by apply list_elem_of_fmap_2.
  - rewrite filter_cons_True.
    + rewrite (IH Hnd Hin) at 1. apply Permutation_swap.
    + simpl. intros ->. apply Hni. by apply (list_elem_of_fmap_2 fst) in Hin.
Qed.

(** A version leaves the log and its tokens go to the request. *)
Lemma inv_man_delete w g T k m :
  inv w g T → (k, m) ∈ wd_manifests w →
  inv (set_manifests (filter (λ e, e.1 ≠ k) (wd_manifests w)) w) g
    (version_toks k (m_ContentHash m) (m_Pieces m) ++ T).
Proof.
  intros [Hk Hnd Hv Hc Hrow Hreg Hhist Hman Href Ho Hod Hu Hnm] Hin.
  pose proof (log_split _ _ _ Hnd Hin) as Hsplit.
  assert ((k, m_ContentHash m, m_Pieces m) ∈ shape <$> wd_manifests w) as Hshin
    by (by apply (list_elem_of_fmap_2 shape) in Hin).
  set (l := wd_manifests w) in *. set (h := m_ContentHash m) in *. set (ps := m_Pieces m) in *.
  set (l' := filter (λ e, e.1 ≠ k) l) in *.
  assert (shape <$> l ≡ₚ (k, h, ps) :: (shape <$> l')) as Hsh by (by rewrite Hsplit at 1).
  assert (h ≠ "" → ∃ pc, ps = [pc]) as Hps.
  { intros Hh. destruct (Hman _ _ _ Hshin Hh) as (e & pc & _ & ? & _). eauto. }
  assert (∀ t' h', h' ≠ "" → (man_refs t' h' (shape <$> l') + tok_refs t' h' (version_toks k h ps ++ T) =
    man_refs t' h' (shape <$> l) + tok_refs t' h' T)%nat) as Hbal.
  { intros t' h' Hh'. rewrite (man_refs_perm _ _ _ _ Hsh). symmetry. by apply version_toks_balance. }
  assert (man_owned (shape <$> l') ++ tok_owned (version_toks k h ps ++ T) ≡ₚ
    man_owned (shape <$> l) ++ tok_owned T) as Hown.
  { rewrite (man_owned_perm _ _ Hsh). symmetry. by apply (version_toks_balance k h ps _ T "" "x"). }
  split; simpl; try done.
  - by apply NoDup_fmap_filter.
  - by apply Worm.versions_match_filter.
  - intros t' h' Hh'. rewrite Hbal by done. by apply Hc.
  - intros k' h' ps' Hin'. apply Hhist. rewrite Hsh. apply elem_of_cons. by right.
  - intros k' h' ps' Hin'. apply Hman. rewrite Hsh. apply elem_of_cons. by right.
  - intros t' h' bp [Hin'|Hin']%elem_of_app; [|by apply Href].
    unfold version_toks in Hin'. case_bool_decide as Hh.
    + apply list_elem_of_fmap in Hin' as (? & ? & _). done.
    + destruct (Hman _ _ _ Hshin Hh) as (e & pc & He & Hpc & Hrp). fold ps in Hpc. rewrite Hpc in Hin'.
      apply list_elem_of_singleton in Hin'. simplify_eq. split; [done|]. eauto.
  - by rewrite Hown.
  - intros bp. rewrite Hown. apply Hod.
Qed.

Lemma inv_piece_put w g T bp body :
  inv w g T → bp ∉ g_used g → bp.2 ≠ "" →
  inv (set_pieces (<[bp := body]> (wd_pieces w)) w)
    (mkGhost (g_hist g) ({[bp]} ∪ g_used g) (g_reg g) (g_dead g)) (TOwn bp :: T).
Proof.
  intros [Hk Hnd Hv Hc Hrow Hreg Hhist Hman Href Ho Hod Hu Hnm] Hfresh Hname.
  assert (∀ x, is_Some (wd_pieces w !! x) → is_Some (<[bp := body]> (wd_pieces w) !! x)) as Hp.
  { intros x Hx. destruct (decide (bp = x)) as [->|]; [rewrite lookup_insert_eq; by eexists|].
    by rewrite lookup_insert_ne. }
  split; simpl; try done.
  - intros t h e He. destruct (Hrow _ _ _ He) as (? & ? & ? & ?). auto.
  - intros t h x [?|Hin]%elem_of_cons; [done|]. by apply Href.
  - rewrite <- Permutation_middle. apply NoDup_cons. split; [|done]. intros Hin.
    by apply Hod in Hin as (_ & _ & _ & ?).
  - intros x. rewrite <- Permutation_middle, elem_of_cons, elem_of_union, elem_of_singleton.
    intros [->|Hin].
    + rewrite lookup_insert_eq. split_and!; [by eexists| | |by left].
      * destruct (g_reg g !! bp) eqn:Hr; [|done]. exfalso. apply Hfresh, Hu. left. by eexists.
      * intros Hd. apply Hfresh, Hu. by right.
    + destruct (Hod _ Hin) as (? & ? & ? & ?). auto.
  - intros x Hx. apply elem_of_union. right. by apply Hu.
  - intros x [->%elem_of_singleton|Hx]%elem_of_union; [done|by apply Hnm].
Qed.

(** Deleting a piece that no row and no other owner has. *)
Lemma inv_piece_delete w g T bp :
  inv w g T → (∀ t h e, wd_index w !! (t, h) = Some e → row_piece e ≠ bp) →
  bp ∉ man_owned (shape <$> wd_manifests w) ++ tok_owned T →
  inv (set_pieces (delete bp (wd_pieces w)) w) g T.
Proof.
  intros [Hk Hnd Hv Hc Hrow Hreg Hhist Hman Href Ho Hod Hu Hnm] Hnorow Hni. split; simpl; try done.
  - intros t h e He. destruct (Hrow _ _ _ He) as (? & ? & ? & ?).
    rewrite lookup_delete_ne by (apply not_eq_sym, (Hnorow _ _ _ He)). done.
  - intros x Hx. destruct (Hod _ Hx) as (? & ? & ? & ?). split_and!; try done.
    rewrite lookup_delete_ne; [done|]. by intros <-.
Qed.

Lemma inv_piece_delete_own w g T bp :
  inv w g (TOwn bp :: T) → inv (set_pieces (delete bp (wd_pieces w)) w) g T.
Proof.
  intros Hi. apply inv_piece_delete; [by apply (inv_drop w g [TOwn bp])| |].
  - intros t h e He Heq. destruct (inv_row _ _ _ Hi _ _ _ He) as (_ & _ & Hr & _).
    destruct (inv_owned _ _ _ Hi bp) as (_ & Hr' & _); [|congruence].
    simpl. apply elem_of_app. right. apply elem_of_cons. by left.
  - pose proof (inv_own _ _ _ Hi) as Ho. simpl in Ho. rewrite <- Permutation_middle in Ho.
    by apply NoDup_cons in Ho as [? _].
Qed.

Lemma inv_piece_delete_dead w g T bp :
  inv w g T → bp ∈ g_dead g → inv (set_pieces (delete bp (wd_pieces w)) w) g T.
Proof.
  intros Hi Hd. apply inv_piece_delete; [done| |].
  - intros t h e He Heq. destruct (inv_row _ _ _ Hi _ _ _ He) as (_ & _ & _ & Hnd). congruence.
  - intros Hin. by destruct (inv_owned _ _ _ Hi bp Hin) as (_ & _ & ? & _).
Qed.

(** The cache is not part of the account. *)
Lemma inv_cache w g T c : inv w g T → inv (set_cache c w) g T.
Proof. intros []. by constructor. Qed.

(** ** One call of one request *)

Section steps.
Context {G : Gateway}.

(** What the analysis asks of a schedule when a call takes effect: version and
    piece ids are new, a DELETE finds the version it has read still stored, and
    the row a PUT or COPY takes a reference on is the one it has seen. *)
Definition guard {A} (c : call A) (s : saw) (w : World) (versions : gset ManifestKey)
    (used : gset piece) : bool :=
  match c with
  | ManPut k _ => bool_decide (k ∉ versions)
  | PiecePut b id _ => bool_decide ((b, id) ∉ used)
  | PieceCopy b _ id => bool_decide ((b, id) ∉ used)
  | ManDelete k => bool_decide (is_Some (VersionLog.find k (wd_manifests w)))
  | IdxIncrement t h =>
      match wd_index w !! (t, h) with
      | None => true
      | Some e =>
          (ce_RefCount e <? 2 ^ 63 - 1) &&
          match s with
          | Some (t', h', bp) =>
              if bool_decide ((t', h') = (t, h)) then bool_decide (row_piece e = bp) else true
          | None => true
          end
      end
  | _ => true
  end.

Definition saw_after {A} (c : call A) (a : A) (s : saw) : saw :=
  match c in call A return A → saw with
  | IdxLookup t h => λ a, match a with Ok e => Some (t, h, row_piece e) | Err _ => None end
  | ManGet key => λ a, match a with Ok m => saw_version key m s | Err _ => s end
  | _ => λ _, s
  end a.

Definition versions_after {A} (c : call A) (fault : bool) (vs : gset ManifestKey)
    : gset ManifestKey :=
  match c with ManPut k _ => if fault then vs else {[k]} ∪ vs | _ => vs end.

(** The new piece a call writes. *)
Definition written {A} (c : call A) (w : World) : option piece :=
  match c with
  | PiecePut b id _ => Some (b, id)
  | PieceCopy b src id => if wd_pieces w !! (b, src) then Some (b, id) else None
  | _ => None
  end.

Definition used_after {A} (c : call A) (fault : bool) (w : World) (us : gset piece) : gset piece :=
  match written c w with Some bp => if fault then us else {[bp]} ∪ us | None => us end.

(** After the call the request still follows the protocol and the invariant
    holds, with tokens, facts and history that account for the effect. *)
Definition step_ok {R A} (c : call A) (k : A → prog R) (X : list tok) (s : saw) (w : World)
    (g : ghost) (fault : bool) : Prop :=
  let a := (do_call put_result fault c w).1 in
  ∃ T' F' g', proto (k a) T' (saw_after c a s) F' ∧
    inv (do_call put_result fault c w).2 g' (T' ++ X) ∧ Forall (fact_holds g') F' ∧
    ghost_le g g' ∧ dom (g_hist g') = versions_after c fault (dom (g_hist g)) ∧
    g_used g' = used_after c fault w (g_used g).

(** The call changed nothing but the tokens and facts of the request. *)
Lemma step_ok_pure {R A} (c : call A) (k : A → prog R) X s w g fault T' F' :
  proto (k (do_call put_result fault c w).1) T' (saw_after c (do_call put_result fault c w).1 s) F' →
  inv (do_call put_result fault c w).2 g (T' ++ X) → Forall (fact_holds g) F' →
  versions_after c fault (dom (g_hist g)) = dom (g_hist g) →
  used_after c fault w (g_used g) = g_used g →
  step_ok c k X s w g fault.
Proof. intros. exists T', F', g. split_and!; done. Qed.

Lemma facts_mono g g' F : ghost_le g g' → Forall (fact_holds g) F → Forall (fact_holds g') F.
Proof. intros Hle HF. eapply Forall_impl; [exact HF|]. intros f. by apply fact_holds_mono. Qed.

Section one_call.
Context {R : Type} (T X : list tok) (s : saw) (F : list fact) (w : World) (g : ghost).
Hypothesis Hinv : inv w g (T ++ X).
Hypothesis HF : Forall (fact_holds g) F.

(** The call is refused, by a fault or by the store: nothing changes. *)
Lemma step_refused {A} (c : call A) (k : A → prog R) fault a :
  do_call put_result fault c w = (a, w) → proto (k a) T (saw_after c a s) F →
  versions_after c fault (dom (g_hist g)) = dom (g_hist g) →
  used_after c fault w (g_used g) = g_used g →
  step_ok c k X s w g fault.
Proof using Hinv HF. intros Ha Hk Hv Hu. apply step_ok_pure with T F; rewrite ?Ha; done. Qed.

Lemma step_lookup t h fault (k : _ → prog R) :
  proto (Call (IdxLookup t h) k) T s F → step_ok (IdxLookup t h) k X s w g fault.
Proof using Hinv HF.
  intros [Hok Herr]. eapply step_refused; try done. destruct fault; simpl; [apply Herr|].
  unfold Index.Lookup. destruct (wd_index w !! (t, h)) as [e|] eqn:He; [|apply Herr].
  apply Hok. intros bp Hin. destruct (inv_ref _ _ _ Hinv t h bp) as (_ & e' & He' & <-).
  - apply elem_of_app. by left.
  - congruence.
Qed.

Lemma step_register now e fault (k : _ → prog R) :
  proto (Call (IdxRegister now e) k) T s F → step_ok (IdxRegister now e) k X s w g fault.
Proof using Hinv HF.
  intros (Hcnt & Hh & (T' & HT & Hok) & Herr).
  destruct fault; [by eapply step_refused; [|apply Herr|..]|].
  destruct (Index.Register now e (wd_index w)) as [idx|x] eqn:Hreg.
  2:{ eapply step_refused; [simpl; by rewrite Hreg|apply Herr|done..]. }
  pose proof Hreg as (Hnone & e' & -> & Ht & Hhe & Hpid & Hb & Hc')%Index.Register_Ok.
  assert (row_piece e' = row_piece e) as Hrp by (unfold row_piece; congruence).
  rewrite (proj2 (Z.leb_le _ 0) Hcnt) in Hc'.
  assert (inv w g (TOwn (row_piece e') :: (T' ++ X))) as Hi
    by (rewrite Hrp; apply (inv_perm w g (T ++ X)); [by rewrite HT|done]).
  destruct (inv_owned _ _ _ Hi (row_piece e')) as (_ & Hnr & _).
  { simpl. apply elem_of_app. right. apply elem_of_cons. by left. }
  pose proof (inv_register w g (T' ++ X) _ _ e' Hi Hnone Hh Ht Hhe Hc') as Hi'.
  rewrite Hrp in *. unfold step_ok. simpl. rewrite Hreg. simpl.
  assert (ghost_le g (mkGhost (g_hist g) (g_used g)
    (<[row_piece e := (ce_TenantID e, ce_ContentHash e)]> (g_reg g)) (g_dead g))) as Hle
    by (split; try done; by apply insert_subseteq).
  eexists _, F, _. split_and!; [exact Hok|exact Hi'|by eapply facts_mono|done..].
Qed.

Lemma step_increment t h fault (k : _ → prog R) :
  (fault = false → Is_true (guard (IdxIncrement t h) s w (dom (g_hist g)) (g_used g))) →
  proto (Call (IdxIncrement t h) k) T s F → step_ok (IdxIncrement t h) k X s w g fault.
Proof using Hinv HF.
  intros Hg [Hok Herr].
  destruct fault; [by eapply step_refused; [|apply Herr|..]|].
  destruct (wd_index w !! (t, h)) as [e|] eqn:He.
  2:{ eapply step_refused; [simpl; unfold Index.IncrementRef; by rewrite He|apply Herr|done..]. }
  specialize (Hg eq_refl). simpl in Hg. rewrite He in Hg. apply andb_prop_elim in Hg as [Hlt Hsaw].
  apply Is_true_true, Z.ltb_lt in Hlt.
  apply step_ok_pure with (TRef t h (row_piece e) :: T) F;
    simpl; unfold Index.IncrementRef; rewrite ?He; simpl; try done.
  - apply Hok. intros bp' ->. rewrite bool_decide_eq_true_2 in Hsaw by done. by apply bool_decide_unpack in Hsaw.
  - by apply inv_increment.
Qed.

Lemma step_decrement t h fault (k : _ → prog R) :
  proto (Call (IdxDecrement t h) k) T s F → step_ok (IdxDecrement t h) k X s w g fault.
Proof using Hinv HF.
  intros (bp & T' & HT & Hok & Herr).
  assert (inv w g (TRef t h bp :: (T' ++ X))) as Hi by (apply (inv_perm w g (T ++ X)); [by rewrite HT|done]).
  destruct fault.
  { apply step_ok_pure with T' F; try done. by apply (inv_drop w g [TRef t h bp]). }
  destruct (inv_decrement w g (T' ++ X) t h bp Hi) as (e & He & Hpos & Hi').
  apply step_ok_pure with T' F; simpl; unfold Index.DecrementRef; rewrite ?He;
    rewrite ?(proj2 (Z.leb_gt (ce_RefCount e) 0)) by lia; simpl; done.
Qed.

Lemma step_index_delete t h fault (k : _ → prog R) :
  proto (Call (IdxDelete t h) k) T s F → step_ok (IdxDelete t h) k X s w g fault.
Proof using Hinv HF.
  intros [Hok Herr].
  destruct fault; [by eapply step_refused; [|apply Herr|..]|].
  destruct (Index.Delete t h (wd_index w)) as [idx|x] eqn:Hdel.
  2:{ eapply step_refused; [simpl; by rewrite Hdel|apply Herr|done..]. }
  pose proof Hdel as (e & He & Hcnt & ->)%Index.Delete_Ok.
  pose proof (inv_index_delete w g _ _ _ e Hinv He Hcnt) as Hi'.
  set (g' := mkGhost _ _ _ _) in Hi'.
  assert (ghost_le g g') as Hle by (split; try done; apply union_subseteq_r).
  set (F' := omap (λ f, match f with
    | FReg bp t' h' => if bool_decide (t' = t ∧ h' = h) then Some (FDead bp) else None
    | _ => None end) F).
  unfold step_ok. simpl. rewrite Hdel. simpl. exists T, F', g'. split_and!; [|exact Hi'| |done..].
  - apply Hok. intros bp Hin. apply list_elem_of_omap. exists (FReg bp t h).
    by rewrite bool_decide_eq_true_2.
  - apply Forall_forall. intros f (f' & Hin & Hf)%list_elem_of_omap.
    rewrite Forall_forall in HF. specialize (HF f' Hin).
    destruct f' as [|bp t' h'|]; try done. case_bool_decide as Heq; [|done].
    destruct Heq as [-> ->]. injection Hf as <-. simpl in *. apply elem_of_union.
    destruct (inv_reg _ _ _ Hinv bp t h HF) as [?|(e' & He' & <-)]; [by right|left].
    apply elem_of_singleton. congruence.
Qed.

Lemma step_get key fault (k : _ → prog R) :
  proto (Call (ManGet key) k) T s F → step_ok (ManGet key) k X s w g fault.
Proof using Hinv HF.
  intros [Hok Herr]. destruct fault; [eapply step_refused; [reflexivity|apply Herr|done..]|].
  destruct (VersionLog.get key (wd_manifests w)) as [m|x] eqn:Hget.
  2:{ eapply step_refused; [simpl; by rewrite Hget|apply Herr|done..]. }
  pose proof (Worm.get_Ok _ _ _ (inv_versions _ _ _ Hinv) Hget) as Hfind%Worm.find_elem.
  destruct (inv_versions _ _ _ Hinv _ _ Hfind) as [_ Hid].
  apply (list_elem_of_fmap_2 shape) in Hfind.
  eapply step_ok_pure; [..|done|done]; simpl; rewrite ?Hget.
  - apply Hok; [done|]. intros Hh.
    destruct (inv_man _ _ _ Hinv _ _ _ Hfind Hh) as (e & pc & He & Hps & Hrow). exists pc. split; [done|].
    destruct (inv_row _ _ _ Hinv _ _ _ He) as (_ & _ & Hreg & _). rewrite Hrow in Hreg.
    apply (inv_named _ _ _ Hinv (piece_of pc)), (inv_used _ _ _ Hinv). left. by eexists.
  - done.
  - constructor; [|done]. by apply (inv_hist _ _ _ Hinv) in Hfind.
Qed.

Lemma version_toks_ref k h pc : h ≠ "" → version_toks k h [pc] = [TRef (k_TenantID k) h (piece_of pc)].
Proof. intros Hh. unfold version_toks. by rewrite bool_decide_eq_false_2. Qed.

Lemma version_toks_own k ps : version_toks k "" ps = TOwn ∘ piece_of <$> ps.
Proof. unfold version_toks. simpl. by rewrite list_fmap_compose. Qed.

Lemma step_put key m fault (k : _ → prog R) :
  (fault = false → Is_true (guard (ManPut key m) s w (dom (g_hist g)) (g_used g))) →
  proto (Call (ManPut key m) k) T s F → step_ok (ManPut key m) k X s w g fault.
Proof using Hinv HF.
  intros Hg (Hid & Hnil & (T' & HT & Hok) & Herr).
  destruct fault; [by eapply step_refused; [|apply Herr|..]|].
  apply (λ H, bool_decide_unpack _ (H eq_refl)), not_elem_of_dom in Hg.
  assert (T ≡ₚ version_toks key (m_ContentHash m) (m_Pieces m) ++ T' ∧
    (m_ContentHash m ≠ "" → ∃ pc, m_Pieces m = [pc])) as [HT' Hps].
  { case_bool_decide as Hh.
    - rewrite Hh, version_toks_own. done.
    - destruct HT as (pc & -> & HT). rewrite version_toks_ref by done. eauto. }
  pose proof (inv_man_put w g (T' ++ X) key m) as Hi'. rewrite app_assoc, <- HT' in Hi'.
  specialize (Hi' Hinv Hg Hid Hnil Hps). set (g' := mkGhost _ _ _ _) in Hi'.
  assert (ghost_le g g') as Hle by (split; try done; by apply insert_subseteq).
  exists T', F, g'. split_and!; [done..|by eapply facts_mono|done| |done].
  simpl. by rewrite dom_insert_L.
Qed.

Lemma step_update key m fault (k : _ → prog R) :
  proto (Call (ManUpdate key m) k) T s F → step_ok (ManUpdate key m) k X s w g fault.
Proof using Hinv HF.
  intros (Hin & Hid & Hok). destruct fault; [by eapply step_refused; [|apply Hok|..]|].
  destruct (VersionLog.find key (wd_manifests w)) as [m0|] eqn:Hfind.
  2:{ eapply step_refused; [simpl; unfold VersionLog.update; by rewrite Hfind|apply Hok|done..]. }
  apply step_ok_pure with T F; simpl; unfold VersionLog.update; rewrite ?Hfind; simpl; try done.
  rewrite Forall_forall in HF. apply inv_man_update with m0; try done. exact (HF _ Hin).
Qed.

Lemma step_delete key fault (k : _ → prog R) :
  (fault = false → Is_true (guard (ManDelete key) s w (dom (g_hist g)) (g_used g))) →
  proto (Call (ManDelete key) k) T s F → step_ok (ManDelete key) k X s w g fault.
Proof using Hinv HF.
  intros Hg (Hnil & h & ps & Hin & Hok & Herr).
  destruct fault; [by eapply step_refused; [|apply Herr|..]|].
  destruct (bool_decide_unpack _ (Hg eq_refl)) as [m Hfind].
  rewrite Forall_forall in HF. pose proof (HF _ Hin) as Hhist. simpl in Hhist.
  pose proof (Worm.find_elem _ _ _ Hfind) as Helem.
  pose proof (list_elem_of_fmap_2 shape _ _ Helem) as Hsh.
  pose proof (inv_hist _ _ _ Hinv key _ _ Hsh) as Hhist'. rewrite Hhist in Hhist'.
  injection Hhist' as -> ->.
  pose proof (inv_man_delete w g (T ++ X) key m Hinv Helem) as Hi'. rewrite app_assoc in Hi'.
  assert (VersionLog.remove key (wd_manifests w) = Ok (filter (λ e, e.1 ≠ key) (wd_manifests w))) as Hrem.
  { unfold VersionLog.remove, VersionLog.resolve. rewrite bool_decide_eq_false_2 by done.
    simpl. by rewrite Hfind. }
  case_bool_decide as Hh.
  - rewrite Hh, version_toks_own in Hi'.
    eapply step_ok_pure; [..|done|done]; simpl; rewrite ?Hrem; simpl; [exact Hok|done|].
    by apply Forall_forall.
  - destruct (inv_man _ _ _ Hinv key _ _ Hsh Hh) as (e & pc & He & Hps & Hrow).
    simpl in Hps, Hrow. rewrite Hps in Hi'.
    destruct (inv_row _ _ _ Hinv _ _ _ He) as (_ & _ & Hreg & _). rewrite Hrow in Hreg.
    rewrite version_toks_ref in Hi' by done.
    eapply step_ok_pure; [..|done|done]; simpl; rewrite ?Hrem; simpl; [by apply Hok|done|].
    constructor; [done|by apply Forall_forall].
Qed.

Lemma step_piece_put b id body fault (k : _ → prog R) :
  (∀ b id body, pr_PieceID' (put_result b id body) = id) →
  (fault = false → Is_true (guard (PiecePut b id body) s w (dom (g_hist g)) (g_used g))) →
  proto (Call (PiecePut b id body) k) T s F → step_ok (PiecePut b id body) k X s w g fault.
Proof using Hinv HF.
  intros Hpid Hg (Hid & Hok & Herr). destruct fault; [by eapply step_refused; [|apply Herr|..]|].
  apply (λ H, bool_decide_unpack _ (H eq_refl)) in Hg.
  pose proof (inv_piece_put w g (T ++ X) (b, id) body Hinv Hg Hid) as Hi'.
  set (g' := mkGhost _ _ _ _) in Hi'.
  assert (ghost_le g g') as Hle by (split; try done; apply union_subseteq_r).
  exists (TOwn (b, id) :: T), F, g'. simpl. rewrite Hpid.
  split_and!; [by apply Hok|done|by eapply facts_mono|done..].
Qed.

Lemma step_piece_copy b src id fault (k : _ → prog R) :
  (fault = false → Is_true (guard (PieceCopy b src id) s w (dom (g_hist g)) (g_used g))) →
  proto (Call (PieceCopy b src id) k) T s F → step_ok (PieceCopy b src id) k X s w g fault.
Proof using Hinv HF.
  intros Hg (Hid & Hok & Herr).
  destruct fault; [eapply step_refused; [done|apply Herr|done|unfold used_after; by case_match]|].
  apply (λ H, bool_decide_unpack _ (H eq_refl)) in Hg.
  destruct (wd_pieces w !! (b, src)) as [body|] eqn:Hsrc.
  2:{ eapply step_refused; [simpl; by rewrite Hsrc|apply Herr|done|]. unfold used_after. simpl. by rewrite Hsrc. }
  pose proof (inv_piece_put w g (T ++ X) (b, id) body Hinv Hg Hid) as Hi'.
  set (g' := mkGhost _ _ _ _) in Hi'.
  assert (ghost_le g g') as Hle by (split; try done; apply union_subseteq_r).
  exists (TOwn (b, id) :: T), F, g'. unfold used_after. simpl. rewrite Hsrc. simpl.
  split_and!; [by apply Hok|done|by eapply facts_mono|done..].
Qed.

Lemma step_piece_delete b id fault (k : _ → prog R) :
  proto (Call (PieceDelete b id) k) T s F → step_ok (PieceDelete b id) k X s w g fault.
Proof using Hinv HF.
  intros [(T' & HT & Hok)|[Hdead Hok]].
  - assert (inv w g (TOwn (b, id) :: (T' ++ X))) as Hi
      by (apply (inv_perm w g (T ++ X)); [by rewrite HT|done]).
    apply step_ok_pure with T' F; destruct fault; simpl; try done; [|by apply inv_piece_delete_own].
    by apply (inv_drop w g [TOwn (b, id)]).
  - apply step_ok_pure with T F; destruct fault; simpl; try done. apply inv_piece_delete_dead; [done|].
    rewrite Forall_forall in HF. exact (HF _ Hdead).
Qed.

(** The call of a request that follows the protocol. *)
Lemma call_step {A} (c : call A) fault (k : A → prog R) :
  (∀ b id body, pr_PieceID' (put_result b id body) = id) →
  (fault = false → Is_true (guard c s w (dom (g_hist g)) (g_used g))) →
  proto (Call c k) T s F → step_ok c k X s w g fault.
Proof using Hinv HF.
  intros Hpid Hg Hp. destruct c.
  - by apply step_lookup.
  - by apply step_register.
  - by apply step_increment.
  - by apply step_decrement.
  - by apply step_index_delete.
  - by apply step_get.
  - by apply step_put.
  - by apply step_update.
  - by apply step_delete.
  - by apply step_piece_put.
  - eapply step_refused; [reflexivity|apply Hp|done..].
  - by apply step_piece_delete.
  - eapply step_refused; [reflexivity|apply Hp|done..].
  - apply step_ok_pure with T F; destruct fault; simpl; try done. by apply inv_cache.
  - eapply step_refused; [reflexivity|apply Hp|done..].
  - by apply step_piece_copy.
Qed.

End one_call.
End steps.

End Dedup.
