(* ===== verification/DedupSafety.v ===== *)
(** * Deduplicated storage is safe under interleaved requests

    The handlers follow the token protocol of [RefCounting], so whatever the
    interleaving of any number of requests and whichever calls fail, a stored
    version never loses a piece and a reference count never falls below the
    number of versions that use the row. The schedules excluded by the guard are
    the ones where the code does go wrong; two of them are exhibited. *)

From S2P Require Import Prelude Bytes Manifest ManifestStore ContentIndex ObjectLock ErasureCoding ClientSdk EncryptionPipeline Fabric Handlers Worm.
From S2P Require Import RefCounting.
Local Open Scope Z_scope.

Module Safety.
Import Dedup.

(** ** The system *)

(** The shared stores, the history the guard needs, and the requests in
    progress with what each saw in its last lookup. *)
Record sys := mkSys {
  sy_world : World;
  sy_versions : gset ManifestKey;
  sy_used : gset piece;
  sy_threads : list (prog Response * saw)
}.

Definition init : sys := mkSys (mkWorld [] ∅ ∅ ∅) ∅ ∅ [].

(** A request arrives, or one in progress makes its next call. *)
Inductive action (Req : Type) :=
| Arrive (r : Req)
| Advance (i : nat) (fault : bool).
Arguments Arrive {Req} r.
Arguments Advance {Req} i fault.

Section system.
Context {G : Gateway} {Req : Type} (handle : Req → prog Response).

Definition act (a : action Req) (σ : sys) : option sys :=
  match a with
  | Arrive r =>
      Some (mkSys (sy_world σ) (sy_versions σ) (sy_used σ)
              (sy_threads σ ++ [(handle r, None)]))
  | Advance i fault =>
      match sy_threads σ !! i with
      | Some (Call c k, s) =>
          if fault || guard c s (sy_world σ) (sy_versions σ) (sy_used σ) then
            let '(a, w) := do_call put_result fault c (sy_world σ) in
            Some (mkSys w (versions_after c fault (sy_versions σ)) (used_after c fault (sy_world σ) (sy_used σ))
                    (<[i := (k a, saw_after c a s)]> (sy_threads σ)))
          else None
      | _ => None
      end
  end.

Fixpoint acts (l : list (action Req)) (σ : sys) : option sys :=
  match l with
  | [] => Some σ
  | a :: l => match act a σ with Some σ' => acts l σ' | None => None end
  end.

End system.

(** ** The handlers follow the protocol *)

Section protocol.
Context {G : Gateway}.

Lemma proto_delete_own {R} ps (r : R) T T0 s F :
  T ≡ₚ (TOwn ∘ piece_of <$> ps) ++ T0 → proto (deletePiecesBestEffort ps (Ret r)) T s F.
Proof.
  revert T T0. induction ps as [|p ps IH]; intros T T0 HT; [done|]. cbn [deletePiecesBestEffort].
  destruct (registered _).
  - left. exists ((TOwn ∘ piece_of <$> ps) ++ T0). split; [done|]. intros _. by eapply IH.
  - eapply IH. rewrite HT. rewrite fmap_cons. simpl. apply Permutation_middle.
Qed.

Lemma proto_delete_dead {R} ps (r : R) T s F :
  Forall (λ p, FDead (piece_of p) ∈ F) ps → proto (deletePiecesBestEffort ps (Ret r)) T s F.
Proof.
  induction 1 as [|p ps Hp Hps IH]; [done|]. cbn [deletePiecesBestEffort].
  destruct (registered _); [|done]. by right.
Qed.

Hypothesis Hidx : hasIndex = true.
Hypothesis Hnonempty : ∀ s, sha256Hex s ≠ "".

Lemma proto_delete_pieces_own t m s F :
  m_ContentHash m = "" → proto (delete_pieces t m) ((TOwn ∘ piece_of <$> m_Pieces m) ++ []) s F.
Proof. intros Hh. unfold delete_pieces. rewrite Hh. simpl. by eapply proto_delete_own. Qed.

Lemma proto_delete_pieces_ref t m pc s F :
  m_ContentHash m ≠ "" → m_Pieces m = [pc] → FReg (piece_of pc) t (m_ContentHash m) ∈ F →
  proto (delete_pieces t m) [TRef t (m_ContentHash m) (piece_of pc)] s F.
Proof using Hidx.
  intros Hh Hps HF. unfold delete_pieces. rewrite Hidx, bool_decide_eq_false_2, Hps by done.
  change (negb false && true) with true. cbv iota.
  exists (piece_of pc), []. split; [done|]. split; [|done]. intros n.
  destruct (n =? 0); [|done]. split; [|by intros []]. intros F' HF'.
  apply proto_delete_dead. constructor; [|done]. by apply HF'.
Qed.

Lemma proto_delete_version t b key q : proto (delete_version t b key q) [] None [].
Proof using Hidx.
  split; [|by intros []]. intros m Hid Hps. destruct (objectLockBlocksDelete _ _ _); [done|].
  split; [done|]. exists (m_ContentHash m), (m_Pieces m). split; [apply elem_of_cons; by left|].
  split; [|done]. case_bool_decide as Hh.
  - by apply proto_delete_pieces_own.
  - intros pc Hpc. apply proto_delete_pieces_ref; [done..|]. apply elem_of_cons. by left.
Qed.

Lemma proto_Delete q : proto (Delete q) [] None [].
Proof using Hidx Hnonempty.
  unfold Delete. destruct (dq_auth q) as [t|]; [|done]. destruct (parseBucketKey _) as [b key].
  destruct (_ || _); [done|]. destruct (dq_versioning q) as [v|]; [|done].
  destruct (_ && _).
  - split; [done|]. split; [apply Hnonempty|]. split; [|done]. exists []. split; [|done].
    by rewrite bool_decide_eq_true_2.
  - destruct (dq_holds q) as [[[]|]|]; try done; apply proto_delete_version.
Qed.

(** A reference on the content of the manifest is what storing it takes. *)
Lemma applyDefault_shape cfg now m m' :
  applyDefaultObjectLockRetention cfg now m = Ok m' →
  (m_VersionID m', m_ObjectKeyHash m', m_ContentHash m', m_Pieces m') =
  (m_VersionID m, m_ObjectKeyHash m, m_ContentHash m, m_Pieces m).
Proof. unfold applyDefaultObjectLockRetention. intros. by repeat case_match; simplify_eq/=. Qed.

Lemma proto_put_deduped_manifest t b key policy q res pl tags hd s F :
  dr_ContentHash res ≠ "" →
  proto (put_deduped_manifest t b key policy q res pl tags hd)
    [TRef t (dr_ContentHash res) (pl_Backend pl, pl_PieceID pl)] s F.
Proof using Hnonempty.
  intros Hh. unfold put_deduped_manifest.
  destruct (applyDefaultObjectLockRetention _ _ _) as [m|] eqn:Ha.
  - apply applyDefault_shape in Ha. simpl in Ha. injection Ha as Hv Hk Hc Hp.
    split; [done|]. split; [simpl; rewrite Hv; apply Hnonempty|]. split.
    + exists []. split; [|done]. rewrite Hc, bool_decide_eq_false_2 by done.
      rewrite Hp. eexists. split; [reflexivity|]. done.
    + intros x. eexists _, []. split; [done|]. done.
  - eexists _, []. split; [done|]. done.
Qed.

Lemma proto_placed_of t b key policy q res e tags hd s F bp :
  dr_ContentHash res ≠ "" → row_piece e = bp →
  proto (put_deduped_manifest t b key policy q res (placed_of e) tags hd)
    [TRef t (dr_ContentHash res) bp] s F.
Proof using Hnonempty. intros Hh <-. by apply proto_put_deduped_manifest. Qed.

(** What the rest of [putDeduped] is told by the lookup. *)
Lemma proto_lookup_or_miss {R} t h ct pth size enc (k : result unit dedupResult → prog R) s F :
  proto (k (Err ())) [] None F →
  (∀ e, proto (k (Err ())) [] (Some (t, h, row_piece e)) F) →
  (∀ e, proto (k (Ok (mkDedupResult true (Some e) h [] size enc pth))) [TRef t h (row_piece e)]
     (Some (t, h, row_piece e)) F) →
  proto (k (Ok (mkDedupResult false None h ct size enc pth))) [] None F →
  proto (lookup_or_miss t h ct pth size enc k) [] s F.
Proof.
  intros Herr Herr' Hhit Hmiss. split; [|by intros []]. intros e _. split; [|done].
  intros bp Hbp. rewrite (Hbp (row_piece e)) by done. apply Hhit.
Qed.

Lemma proto_register {R} now e (k : result unit bool → prog R) F :
  ce_RefCount e ≤ 0 → ce_ContentHash e ≠ "" →
  proto (k (Ok false)) [TRef (ce_TenantID e) (ce_ContentHash e) (row_piece e)] None F →
  (∀ bp, proto (k (Ok true)) [TRef (ce_TenantID e) (ce_ContentHash e) bp; TOwn (row_piece e)] None F) →
  proto (k (Err ())) [TOwn (row_piece e)] None F →
  proto (registerDedupedPiece now e k) [TOwn (row_piece e)] None F.
Proof.
  intros Hc Hh Hwon Hlost Herr. split; [done|]. split; [done|]. split; [by exists []|].
  by intros [].
Qed.

Lemma proto_prepareDedupedPut {R} rnd t mode body (k : result unit dedupResult → prog R) s F :
  (∀ s, proto (k (Err ())) [] s F) →
  (∀ h size enc pth e, h ≠ "" →
     proto (k (Ok (mkDedupResult true (Some e) h [] size enc pth))) [TRef t h (row_piece e)]
       (Some (t, h, row_piece e)) F) →
  (∀ h ct size enc pth, h ≠ "" →
     proto (k (Ok (mkDedupResult false None h ct size enc pth))) [] None F) →
  proto (prepareDedupedPut rnd t mode body k) [] s F.
Proof.
  intros Herr Hhit Hmiss.
  unfold prepareDedupedPut, prepareDedupedPutPatternB, prepareDedupedPutPatternC.
  destruct (IsGatewayEncrypted mode).
  - destruct (negb _); [done|]. destruct (Sdk.DeriveConvergentDEK _ _) as [dek|]; [|done].
    destruct (Sdk.EncryptObject _ _ _ _) as [ct|]; [|done]. destruct (WrapDEK _ _) as [wr|]; [|done].
    apply proto_lookup_or_miss; [done|done|intros e; by apply Hhit|by apply Hmiss].
  - case_bool_decide; [|done].
    apply proto_lookup_or_miss; [done|done|intros e; by apply Hhit|by apply Hmiss].
Qed.

Lemma proto_putDeduped t b key be policy q tags hd s F :
  proto (putDeduped t b key be policy q tags hd) [] s F.
Proof using Hnonempty.
  unfold putDeduped. destruct (_ && _); [done|]. destruct (pq_body q) as [body|]; [|done].
  apply proto_prepareDedupedPut; [done| |].
  - intros h size enc pth e Hh. by apply proto_placed_of.
  - intros h ct size enc pth Hh. split; [apply Hnonempty|]. split; [|done]. intros pr Hpr. rewrite <- Hpr.
    apply (proto_register _ (mkContentIndexEntry _ _ _ _ _ _ _ _ _ _)); try done.
    + by apply proto_put_deduped_manifest.
    + intros bp. left. exists [TRef t h bp]. split; [apply Permutation_swap|]. intros _. split.
      * intros e He. apply proto_placed_of; [done|]. apply He. apply elem_of_cons. by left.
      * intros x. by exists bp, [].
    + left. by exists [].
Qed.

Lemma proto_put_single_piece t b key be policy q tags hd s F :
  proto (put_single_piece t b key be policy q tags hd) [] s F.
Proof using Hnonempty.
  unfold put_single_piece.
  destruct (prepareSinglePieceEncryption _ _ _) as [[[enc [bytes|]] size]|]; [|done..].
  set (pid := newPieceID _ _ _ _).
  assert (∀ (r : Response), proto (Call (PieceDelete be pid) (λ _, Ret r)) [TOwn (be, pid)] s F)
    as Hundo by (intros r; left; by exists []).
  split; [apply Hnonempty|]. split; [|done]. intros pr Hpr. destruct (_ && _); [apply Hundo|].
  destruct (applyDefaultObjectLockRetention _ _ _) as [m|] eqn:Ha; [|apply Hundo].
  apply applyDefault_shape in Ha. simpl in Ha. injection Ha as Hv Hk Hc Hp.
  split; [done|]. split; [simpl; rewrite Hv; apply Hnonempty|]. split; [|intros x; apply Hundo].
  exists []. split; [|done]. rewrite Hc, Hp. simpl. by rewrite Hpr.
Qed.

(** The pieces written so far are the request's own until the manifest is
    stored; a rollback deletes them. *)
Lemma proto_rollbackEC {R} be (ps : list Piece) (r : R) T s F :
  Forall (λ p, pc_Backend p = be) ps → T ≡ₚ TOwn ∘ piece_of <$> ps →
  proto (rollbackEC be (pc_PieceID <$> ps) (Ret r)) T s F.
Proof.
  intros Hbe. revert T. induction Hbe as [|p ps Hp Hps IH]; intros T HT; [done|].
  left. exists (TOwn ∘ piece_of <$> ps). split; [by rewrite HT; subst be|]. intros _. by apply IH.
Qed.

Lemma shardID_nonempty v sh : v ≠ "" → shardID v sh ≠ "".
Proof. by destruct v. Qed.

Lemma proto_put_shards v be shards ps (k : list Piece → prog Response) s F :
  (∀ ps, Forall (λ p, pc_Backend p = be) ps → proto (k ps) (TOwn ∘ piece_of <$> ps) s F) →
  v ≠ "" → Forall (λ p, pc_Backend p = be) ps →
  proto (put_shards v be shards ps k) (TOwn ∘ piece_of <$> ps) s F.
Proof.
  intros Hk Hv. revert ps. induction shards as [|sh shards IH]; intros ps Hps; [by apply Hk|].
  split; [by apply shardID_nonempty|]. split.
  - intros pr Hpr. eapply proto_perm; [|apply IH, Forall_app; split; [exact Hps|by constructor]].
    rewrite fmap_app. simpl. rewrite <- Permutation_cons_append. unfold piece_of at 2. simpl.
    by rewrite Hpr.
  - by apply proto_rollbackEC.
Qed.

Lemma proto_putErasureCoded t b key be policy q tags hd s F :
  proto (putErasureCoded t b key be policy q tags hd) [] s F.
Proof using Hnonempty.
  unfold putErasureCoded. destruct ErasureRegistry as [reg|]; [|done].
  destruct (EC.Registry_Lookup _ _) as [en|]; [|done]. destruct (_ <? _); [done|].
  destruct (pq_body q) as [body|]; [|done]. destruct (_ <? _); [done|].
  destruct (prepareErasureCodedEncryption _ _ _ _) as [[enc bytes]|]; [|done].
  destruct (EC.Encode _ _) as [shards|]; [|done].
  apply (proto_put_shards _ _ _ []); [|apply Hnonempty|done]. intros ps Hps.
  destruct (applyDefaultObjectLockRetention _ _ _) as [m|] eqn:Ha; [|by apply proto_rollbackEC].
  apply applyDefault_shape in Ha. simpl in Ha. injection Ha as Hv Hk Hc Hp.
  split; [done|]. split; [simpl; rewrite Hv; apply Hnonempty|].
  split; [|intros x; by apply proto_rollbackEC].
  exists []. split; [|done]. rewrite Hc, Hp. simpl. by rewrite app_nil_r.
Qed.

Lemma proto_lockOverwrite t b key lockcfg versioning now bypass k :
  (∀ s F, proto k [] s F) → proto (objectLockOverwrite t b key lockcfg versioning now bypass Ret k) [] None [].
Proof.
  intros Hk. unfold objectLockOverwrite. repeat case_match; try done.
  split; [|by intros []]. intros m _ _. by destruct (objectLockBlocksDelete _ _ _).
Qed.

Lemma proto_Put q : proto (Put q) [] None [].
Proof using Hnonempty.
  unfold Put. destruct (pq_auth q) as [t|]; [|done]. destruct (pq_unverified q); [done|].
  destruct (parseBucketKey _) as [b key]. destruct (_ || _); [done|].
  destruct (pq_tags q) as [tags|]; [|done]. destruct (pq_headers q) as [hd|]; [|done].
  apply proto_lockOverwrite. intros s F. destruct (pq_placement q) as [[be policy]|]; [|done].
  destruct (negb _); [done|]. destruct (negb _); [done|].
  destruct (effectiveEncryptionMode _ _) as [mode|]; [|done]. cbv zeta.
  destruct (negb _); [apply proto_putErasureCoded|]. destruct (_ && _); [apply proto_putDeduped|].
  apply proto_put_single_piece.
Qed.

(** An amendment keeps the content hash and the pieces it has read. *)
Lemma proto_amend status t b kh m m' s :
  m_VersionID m' = m_VersionID m → m_ContentHash m' = m_ContentHash m → m_Pieces m' = m_Pieces m →
  proto (amend_version status (mkManifestKey t b kh (m_VersionID m)) m') [] s
    [FHist (mkManifestKey t b kh (m_VersionID m)) (m_ContentHash m) (m_Pieces m)].
Proof.
  intros Hv Hc Hp. split; [rewrite Hc, Hp; apply elem_of_cons; by left|]. split; [done|]. by intros [].
Qed.

Lemma proto_handle r : proto (Worm.handle r) [] None [].
Proof using Hidx Hnonempty.
  destruct r as [q|q|q doc|q doc|q doc|q]; cbn [Worm.handle].
  - apply proto_Put.
  - apply proto_Delete.
  - unfold PutObjectRetention, loadObjectVersion. repeat case_match; try done.
    split; [|done]. intros m _ _. repeat case_match; try done. by apply proto_amend.
  - unfold PutObjectLegalHold, loadObjectVersion. repeat case_match; try done.
    split; [|done]. intros m _ _. repeat case_match; try done. by apply proto_amend.
  - unfold PutObjectTagging. repeat case_match; try done.
    split; [|done]. intros m _ _. by apply proto_amend.
  - unfold DeleteObjectTagging. repeat case_match; try done.
    split; [|done]. intros m _ _. repeat case_match; try done. by apply proto_amend.
Qed.

End protocol.

(** ** Every reachable state *)

Section reachable.
Context {G : Gateway} {Req : Type} (handle : Req → prog Response).
Hypothesis Hproto : ∀ r, proto (handle r) [] None [].

(** A request in progress: it follows the protocol with the tokens and facts of
    its entry. *)
Definition follows (g : ghost) (th : prog Response * saw) (l : list tok * list fact) : Prop :=
  proto th.1 l.1 th.2 l.2 ∧ Forall (fact_holds g) l.2.

Definition sys_inv (σ : sys) : Prop :=
  ∃ g (L : list (list tok * list fact)),
    Forall2 (follows g) (sy_threads σ) L ∧ inv (sy_world σ) g (concat L.*1) ∧
    dom (g_hist g) = sy_versions σ ∧ g_used g = sy_used σ.

Lemma follows_mono g g' th l : ghost_le g g' → follows g th l → follows g' th l.
Proof. intros Hle [? ?]. split; [done|]. by eapply facts_mono. Qed.

Lemma concat_pick (L : list (list tok * list fact)) i l l' :
  L !! i = Some l → ∃ X, concat L.*1 ≡ₚ l.1 ++ X ∧ concat (<[i := l']> L).*1 ≡ₚ l'.1 ++ X.
Proof.
  intros Hl. exists (concat (take i L).*1 ++ concat (drop (S i) L).*1).
  assert (i < length L)%nat as Hlt by by eapply lookup_lt_Some.
  rewrite (insert_take_drop L i l' Hlt). rewrite <- (take_drop_middle L i l Hl) at 1.
  rewrite !fmap_app, !fmap_cons, !concat_app. simpl.
  split; rewrite !app_assoc; f_equiv; apply Permutation_app_comm.
Qed.

Lemma act_inv a σ σ' :
  (∀ b id body, pr_PieceID' (put_result b id body) = id) →
  sys_inv σ → act handle a σ = Some σ' → sys_inv σ'.
Proof using Hproto.
  intros Hpid (g & L & Hth & Hi & Hv & Hu). destruct a as [r|i fault]; simpl.
  - intros [= <-]. exists g, (L ++ [([], [])]). simpl. split_and!; [| |done..].
    + apply Forall2_app; [done|]. constructor; [|done]. split; [apply Hproto|by constructor].
    + rewrite fmap_app, concat_app. simpl. by rewrite app_nil_r.
  - destruct (sy_threads σ !! i) as [[[r|A c k] s]|] eqn:Hlk; [done| |done].
    destruct (fault || _) eqn:Hg; [|done].
    destruct (Forall2_lookup_l _ _ _ _ _ Hth Hlk) as ([T F] & HL & Hp & HF). simpl in *.
    destruct (concat_pick L i (T, F) (T, F) HL) as (X & HX & _).
    rewrite HX in Hi. rewrite <- Hv, <- Hu in Hg.
    destruct (call_step T X s F (sy_world σ) g Hi HF c fault k Hpid) as
      (T' & F' & g' & Hp' & Hi' & HF' & Hle & Hv' & Hu'); [|done|].
    { intros ->. by apply Is_true_true. }
    destruct (do_call put_result fault c (sy_world σ)) as [a w'] eqn:Hdo. intros [= <-].
    exists g', (<[i := (T', F')]> L). simpl in *. rewrite Hv', Hu', Hv, Hu. split_and!; try done.
    + apply Forall2_insert; [|done]. eapply Forall2_impl; [exact Hth|]. intros ??. by apply follows_mono.
    + destruct (concat_pick L i (T, F) (T', F') HL) as (X' & HX' & ->). simpl in *.
      rewrite HX in HX'. apply Permutation_app_inv_l in HX'. by rewrite <- HX'.
Qed.

Lemma acts_inv l σ σ' :
  (∀ b id body, pr_PieceID' (put_result b id body) = id) →
  sys_inv σ → acts handle l σ = Some σ' → sys_inv σ'.
Proof using Hproto.
  intros Hpid. revert σ. induction l as [|a l IH]; intros σ Hi; simpl; [by intros [= <-]|].
  destruct (act handle a σ) as [σ1|] eqn:Ha; [|done]. apply IH. by eapply act_inv.
Qed.

Lemma init_inv : sys_inv init.
Proof. exists (mkGhost ∅ ∅ ∅ ∅), []. split_and!; [done|apply inv_empty|done..]. Qed.

(** How many stored versions of the tenant carry the content hash. *)
Definition references (t h : string) (w : World) : nat :=
  length (filter (λ e, k_TenantID e.1 = t ∧ m_ContentHash e.2 = h) (wd_manifests w)).

Lemma references_man_refs t h w : references t h w = man_refs t h (shape <$> wd_manifests w).
Proof.
  unfold references, man_refs. induction (wd_manifests w) as [|[k m] l IH]; [done|].
  rewrite fmap_cons, !filter_cons. simpl. case_decide; simpl; by rewrite IH.
Qed.

(** Every piece of a stored version is on its backend, and the row of its
    content, if it has one, is counted for every version that uses it. *)
Definition safe (w : World) : Prop :=
  ∀ k m, (k, m) ∈ wd_manifests w →
    (∀ p, p ∈ m_Pieces m → is_Some (wd_pieces w !! (pc_Backend p, pc_PieceID p))) ∧
    (m_ContentHash m ≠ "" →
     ∃ e, wd_index w !! (k_TenantID k, m_ContentHash m) = Some e ∧
       Z.of_nat (references (k_TenantID k) (m_ContentHash m) w) ≤ ce_RefCount e).

Lemma inv_safe w g T : inv w g T → safe w.
Proof.
  intros Hi k m Hin. pose proof (list_elem_of_fmap_2 shape _ _ Hin) as Hsh.
  destruct (decide (m_ContentHash m = "")) as [Hh|Hh].
  - split; [|done]. intros p Hp. apply (inv_owned _ _ _ Hi). apply elem_of_app. left.
    unfold man_owned. apply list_elem_of_In, in_concat. exists (piece_of <$> m_Pieces m).
    rewrite <- !list_elem_of_In. split; [|by apply (list_elem_of_fmap_2 piece_of)].
    apply list_elem_of_fmap. exists (shape (k, m)). split; [|done]. simpl.
    by rewrite bool_decide_eq_true_2.
  - destruct (inv_man _ _ _ Hi k _ _ Hsh Hh) as (e & pc & He & Hps & Hrow). simpl in *.
    destruct (inv_row _ _ _ Hi _ _ _ He) as (_ & Hpc & _). rewrite Hrow in Hpc. split.
    + rewrite Hps. by intros p ->%list_elem_of_singleton.
    + intros _. exists e. split; [done|]. rewrite references_man_refs.
      pose proof (inv_counts _ _ _ Hi (k_TenantID k) _ Hh) as Hc. rewrite He in Hc. lia.
Qed.

(** Handlers that follow the protocol keep the store safe, however their calls
    are interleaved. *)
Lemma acts_safe (l : list (action Req)) (σ : sys) :
  (∀ b id body, pr_PieceID' (put_result b id body) = id) →
  acts handle l init = Some σ → safe (sy_world σ).
Proof using Hproto.
  intros Hpid Hl. destruct (acts_inv l init σ Hpid init_inv Hl) as (g & L & _ & Hi & _).
  by eapply inv_safe.
Qed.

End reachable.

(** ** Outside the guard *)

Section races.
Context {G : Gateway}.

Lemma find_removed (l : VersionLog.log) k : VersionLog.find k (filter (λ e, e.1 ≠ k) l) = None.
Proof.
  apply not_elem_of_list_to_map_1. intros ([k' m] & -> & Hin)%list_elem_of_fmap.
  by apply list_elem_of_filter in Hin as [? _].
Qed.

(** The next call of a schedule, its reply found by rewriting with [H]. *)
Tactic Notation "next" uconstr(H) :=
  erewrite run_call; [|reflexivity|
    cbn [do_call index_write manifest_write set_manifests set_index set_pieces set_cache wd_manifests
         wd_index wd_pieces wd_cache]; unfold Index.DecrementRef, Index.Delete; rewrite ?H; reflexivity];
  cbv beta iota.

(** The manifest of a DELETE may be gone before it removes it, and the code
    goes on as if it had removed it: a DELETE that is retried while the first
    attempt is in flight gives back the reference of one version twice, and the
    piece that another version uses is deleted. *)
Theorem retried_delete_loses_shared_piece t b key v h q w m p m2 k2 e :
  let k := mkManifestKey t b (hashObjectKey key) v in
  hasIndex = true → registered (pc_Backend p) = true →
  Delete q = delete_version t b key q → dq_versionId q = v → v ≠ "" → h ≠ "" →
  VersionLog.find k (wd_manifests w) = Some m → m_VersionID m = v →
  objectLockBlocksDelete m (dq_now_lock q) (governanceBypassRequested (dq_bypass q)) = false →
  m_ContentHash m = h → m_Pieces m = [p] →
  VersionLog.find k2 (wd_manifests w) = Some m2 → k2 ≠ k → k_TenantID k2 = t → m_ContentHash m2 = h →
  wd_index w !! (t, h) = Some e → ce_RefCount e = 2 →
  ∃ w', run_schedule put_result
      [(0%nat, false); (1%nat, false); (0%nat, false); (0%nat, false);
       (1%nat, false); (1%nat, false); (1%nat, false); (1%nat, false)]
      (mkConfig w [Delete q; Delete q]) = Some (mkConfig w' [Ret NoContent; Ret NoContent]) ∧
    ¬ safe w'.
Proof.
  intros k Hidx Hreg -> Hqv Hv Hh Hm Hid Hlock Hmh Hps Hm2 Hk2 Ht2 Hm2h He Hcnt.
  destruct e as [et eh epid ebk ecnt esz eetag eps eph ect]. simpl in Hcnt. subst ecnt.
  unfold delete_version. rewrite Hqv. fold k.
  set (l1 := filter (λ e, e.1 ≠ k) (wd_manifests w)).
  set (e := mkContentIndexEntry _ _ _ _ _ _ _ _ _ _) in *.
  set (e1 := with_RefCount (wrap64 (ce_RefCount e - 1)) e).
  set (e2 := with_RefCount (wrap64 (ce_RefCount e1 - 1)) e1).
  exists (mkWorld l1 (delete (t, h) (<[(t, h) := e2]> (<[(t, h) := e1]> (wd_index w)))) (delete (pc_Backend p, pc_PieceID p) (wd_pieces w)) (wd_cache w)). split.
  - assert (VersionLog.get k (wd_manifests w) = Ok m) as Hget by by apply Worm.get_exact.
    assert (VersionLog.remove k (wd_manifests w) = Ok l1) as Hrem.
    { unfold VersionLog.remove, VersionLog.resolve. rewrite bool_decide_eq_false_2 by done.
      simpl. by rewrite Hm. }
    assert (VersionLog.remove k l1 = Err ErrNotFound) as Hrem'.
    { unfold VersionLog.remove, VersionLog.resolve. rewrite bool_decide_eq_false_2 by done.
      simpl. by rewrite (find_removed (wd_manifests w) k : VersionLog.find k l1 = None). }
    next Hget. rewrite Hlock, Hid. next Hget. rewrite Hlock, Hid.
    fold k. unfold delete_pieces. rewrite Hidx, Hmh, Hps, (bool_decide_eq_false_2 (h = "")) by done.
    cbn [deletePiecesBestEffort negb andb]. rewrite Hreg.
    next Hrem. next He. change (wrap64 (ce_RefCount e - 1) =? 0) with false. cbv iota.
    next Hrem'. next lookup_insert_eq. change (wrap64 (ce_RefCount e1 - 1) =? 0) with true. cbv iota.
    next lookup_insert_eq. next He. reflexivity.
  - intros Hs. assert ((k2, m2) ∈ l1) as Hin.
    { apply list_elem_of_filter. split; [done|]. by apply Worm.find_elem. }
    destruct (Hs k2 m2 Hin) as [_ Hrow]. rewrite Hm2h, Ht2 in Hrow.
    destruct (Hrow Hh) as (e' & He' & _). simpl in He'. by rewrite lookup_delete_eq in He'.
Qed.

(** A test for the pieces of the stored versions. *)
Definition pieces_present (w : World) : bool :=
  forallb (λ km : ManifestKey * ObjectManifest,
    forallb (λ p, bool_decide (is_Some (wd_pieces w !! (pc_Backend p, pc_PieceID p)))) (m_Pieces km.2))
    (wd_manifests w).

Lemma safe_pieces_present w : safe w → pieces_present w = true.
Proof.
  intros Hs. apply forallb_forall. intros [k m] Hin%list_elem_of_In. apply forallb_forall.
  intros p Hp%list_elem_of_In. apply bool_decide_eq_true_2. by apply (Hs k m Hin).
Qed.

End races.

(** ** Concrete runs *)

Section examples.
#[local] Existing Instance Worm.ex_gateway.

Definition ex_policy : PlacementPolicy :=
  mkPlacementPolicy [] [] 0 false "" ManagedEncrypted (Some (mkDedupPolicy true "tenant" "object")) None.
Definition ex_put (path body : string) (now : Z) : PutRequest :=
  mkPutRequest (Ok "t1") false path (Ok (String.list_ascii_of_string body)) 3 "" "" (Ok ∅)
    (Ok (mkObjectHeaders "" "" "" "" "" "" ∅)) None (Ok "Enabled") (Ok ("wasabi", ex_policy)) true None
    now now now now now (mkEntropy (Some Sdk.ex_dek) Sdk.ex_nonce []).
Definition ex_vid (key : string) (now : Z) : string := newPieceID "t1" "photos" key now.
Definition ex_del (path versionId : string) : DeleteRequest :=
  mkDeleteRequest (Ok "t1") path versionId "" (Ok "Enabled") None 9 9 9.

(** Two versions of the same content. *)
Definition ex_shared (key version : string) : ManifestKey * ObjectManifest :=
  (mkManifestKey "t1" "photos" (hashObjectKey key) version,
   single_piece_manifest "t1" "photos" key version 3 "blake3:h" zero_EncryptionConfig ex_policy
     (mkPlaced "p1" "wasabi" "etag" "" 3) "blake3:h" ∅ 0).
Definition ex_shared_world : World :=
  mkWorld [ex_shared "cat" "v1"; ex_shared "dog" "v2"]
    {[("t1", "blake3:h") :=
        mkContentIndexEntry "t1" "blake3:h" "p1" "wasabi" 2 3 "etag" [] "" 0]}
    {[("wasabi", "p1") := String.list_ascii_of_string "abc"]} ∅.

Lemma retried_delete_loses_shared_piece_witness :
  let q := ex_del "/photos/cat" "v1" in
  ∃ w', run_schedule put_result
      [(0%nat, false); (1%nat, false); (0%nat, false); (0%nat, false);
       (1%nat, false); (1%nat, false); (1%nat, false); (1%nat, false)]
      (mkConfig ex_shared_world [Delete q; Delete q]) =
      Some (mkConfig w' [Ret NoContent; Ret NoContent]) ∧ ¬ safe w'.
Proof.
  intros q. apply (retried_delete_loses_shared_piece "t1" "photos" "cat" "v1" "blake3:h" q
    ex_shared_world (ex_shared "cat" "v1").2 (mkPiece "p1" "blake3:h" "wasabi" "" "active" "etag" 0 3 0 0 "")
    (ex_shared "dog" "v2").2 (ex_shared "dog" "v2").1
    (mkContentIndexEntry "t1" "blake3:h" "p1" "wasabi" 2 3 "etag" [] "" 0));
    first [reflexivity|discriminate].
Defined.

(** The result of a thread that has returned. *)
Definition outcome {R} (p : prog R) : option R := match p with Ret r => Some r | Call _ _ => None end.

Lemma outcomes {R} (ps : list (prog R)) rs : outcome <$> ps = Some <$> rs → ps = Ret <$> rs.
Proof.
  revert rs. induction ps as [|[r|] ps IH]; intros [|r' rs]; simpl; intros [=]; [done|].
  f_equal; [congruence|by apply IH].
Qed.

(** Between the lookup that finds the canonical piece and the increment of
    its count, the last version of the content may be deleted and the content
    uploaded again under another piece; the first upload then counts on the new
    row and stores a manifest that names the deleted piece. *)
Theorem stale_lookup_loses_piece :
  let w0 := (exec put_result (Put (ex_put "/photos/cat" "abc" 1)) [] (mkWorld [] ∅ ∅ ∅)).2 in
  ∃ c, run_schedule put_result
      ([(0, false)] ++ replicate 5 (1, false) ++ replicate 4 (2, false) ++ replicate 2 (0, false))%nat
      (mkConfig w0 [Put (ex_put "/photos/dog" "abc" 2);
                    Delete (ex_del "/photos/cat" (ex_vid "cat" 1));
                    Put (ex_put "/photos/emu" "abc" 3)]) = Some c ∧
    cf_threads c = [Ret (mkResponse 200 "" (ex_vid "dog" 2)); Ret NoContent;
                    Ret (mkResponse 200 "" (ex_vid "emu" 3))] ∧
    pieces_present w0 = true ∧ ¬ safe (cf_world c).
Proof.
  intros w0. set (run := run_schedule _ _ _).
  assert (option_map (λ c, (outcome <$> cf_threads c, pieces_present (cf_world c))) run =
    Some ([Some (mkResponse 200 "" (ex_vid "dog" 2)); Some NoContent;
           Some (mkResponse 200 "" (ex_vid "emu" 3))], false)) as H by (vm_compute; reflexivity).
  destruct run as [c|]; [|discriminate]. injection H as Hout Hpp. exists c. split; [done|].
  split; [by apply (outcomes _ [_; _; _])|]. split; [vm_compute; reflexivity|].
  intros Hs%safe_pieces_present. congruence.
Qed.

End examples.
End Safety.
