(* ===== verification/Unversioned.v ===== *)
(** * Deleting from a bucket without versioning

    A PUT stores a new version whether or not the bucket has versioning, and a
    DELETE without a version id in a bucket without versioning removes the
    newest version only. *)

From S2P Require Import Prelude Bytes Manifest ManifestStore ContentIndex ObjectLock ErasureCoding ClientSdk EncryptionPipeline Fabric Handlers Worm.
Local Open Scope Z_scope.

Module Unversioned.
Section proofs.
Context {G : Gateway}.

(** Calls that leave the manifest store alone. *)
Definition no_manifest_write A (c : call A) : Prop :=
  match c with ManPut _ _ | ManUpdate _ _ | ManDelete _ => False | _ => True end.

Lemma no_manifest_write_log A (c : call A) fault w :
  no_manifest_write A c → wd_manifests (do_call put_result fault c w).2 = wd_manifests w.
Proof.
  intros Hc. destruct c; simpl in *; try done; destruct fault; simpl; try done;
    unfold index_write; by repeat case_match.
Qed.

Lemma deletePieces_no_write ps (r : Response) :
  calls_ok no_manifest_write (deletePiecesBestEffort ps (Ret r)).
Proof. induction ps as [|p ps IH]; simpl; [done|]. by case_match. Qed.

Lemma delete_pieces_no_write t m : calls_ok no_manifest_write (delete_pieces t m).
Proof.
  unfold delete_pieces. case_match; [|by apply deletePieces_no_write].
  split; [done|]. intros [n|[]]; try done; [|by apply deletePieces_no_write].
  case_match; [|done]. split; [done|]. intros [[]|[]]; try done. by apply deletePieces_no_write.
Qed.

Lemma delete_pieces_log t m faults w :
  wd_manifests (exec put_result (delete_pieces t m) faults w).2 = wd_manifests w.
Proof.
  apply (wp_exec put_result _ (λ _ w', wd_manifests w' = wd_manifests w)).
  eapply (calls_ok_wp put_result no_manifest_write (λ w', wd_manifests w' = wd_manifests w)).
  - intros A c fault w' Hc <-. by apply no_manifest_write_log.
  - apply delete_pieces_no_write.
  - done.
Qed.

Lemma versions_filter_ne (l : VersionLog.log) lk k :
  VersionLog.versions lk (filter (λ e, e.1 ≠ k) l) = filter (λ e, e.1 ≠ k) (VersionLog.versions lk l).
Proof.
  unfold VersionLog.versions. rewrite !list_filter_filter. apply list_filter_iff. tauto.
Qed.

Lemma versions_elem (l : VersionLog.log) lk e : e ∈ VersionLog.versions lk l → e ∈ l ∧ latest_of e.1 = lk.
Proof. unfold VersionLog.versions. rewrite list_elem_of_filter. tauto. Qed.

(** A plain read finds the last version. *)
Lemma get_last (l : VersionLog.log) t b h older k m :
  NoDup l.*1 → VersionLog.versions (mkLatestKey t b h) l = older ++ [(k, m)] →
  VersionLog.get (mkManifestKey t b h "") l = Ok m.
Proof.
  intros Hnd Hvs. unfold VersionLog.get, VersionLog.resolve. rewrite bool_decide_eq_true_2 by done.
  unfold VersionLog.newest. change (latest_of _) with (mkLatestKey t b h). rewrite Hvs, last_snoc. simpl.
  unfold VersionLog.find. erewrite elem_of_list_to_map_1; [reflexivity|done|].
  apply (versions_elem l (mkLatestKey t b h)). rewrite Hvs. apply elem_of_app. right.
  by apply list_elem_of_singleton.
Qed.

(** An object of a bucket without versioning that was written twice is not
    gone after it is deleted: the DELETE is acknowledged and a plain GET finds
    the version the second write was meant to replace. *)
Theorem unversioned_delete_uncovers_overwritten t b key q w older k1 m1 k2 m2 faults :
  let cur := mkManifestKey t b (hashObjectKey key) "" in
  Delete q = delete_version t b key q → dq_versionId q = "" →
  NoDup (wd_manifests w).*1 → Worm.versions_match (wd_manifests w) →
  VersionLog.versions (latest_of cur) (wd_manifests w) = older ++ [(k1, m1); (k2, m2)] →
  objectLockBlocksDelete m2 (dq_now_lock q) (governanceBypassRequested (dq_bypass q)) = false →
  let w' := (exec put_result (Delete q) (false :: false :: faults) w).2 in
  VersionLog.get cur (wd_manifests w') = Ok m1 ∧
  VersionLog.get k2 (wd_manifests w') = Err ErrNotFound.
Proof.
  intros cur HD Hq Hnd Hvm Hvs Hlock w'.
  set (l := wd_manifests w) in *. set (l' := filter (λ e, e.1 ≠ k2) l).
  assert ((k2, m2) ∈ VersionLog.versions (latest_of cur) l) as [Hin Hlk]%versions_elem.
  { rewrite Hvs. apply elem_of_app. right. apply elem_of_cons. right. by apply list_elem_of_singleton. }
  destruct (Hvm k2 m2 Hin) as [Hid Hne].
  assert (mkManifestKey t b (hashObjectKey key) (m_VersionID m2) = k2) as Hk2
    by (destruct k2; simpl in *; unfold latest_of in Hlk; simpl in Hlk; by simplify_eq).
  assert (VersionLog.find k2 l = Some m2) as Hfind by by apply elem_of_list_to_map_1.
  assert (VersionLog.get cur l = Ok m2) as Hget.
  { apply (get_last l t b _ (older ++ [(k1, m1)]) k2); [done|]. rewrite <- app_assoc. exact Hvs. }
  assert (VersionLog.remove k2 l = Ok l') as Hrem.
  { unfold VersionLog.remove, VersionLog.resolve. rewrite bool_decide_eq_false_2 by done.
    simpl. by rewrite Hfind. }
  assert (wd_manifests w' = l') as ->.
  { unfold w'. rewrite HD. unfold delete_version. rewrite Hq. cbn [exec head tail default from_option id do_call]. fold cur l. rewrite Hget. cbv beta iota.
    rewrite Hlock, Hk2. cbn [exec head tail default from_option id do_call]. fold l. rewrite Hrem.
    cbn [manifest_write]. cbv beta iota. by rewrite delete_pieces_log. }
  assert (NoDup l'.*1) as Hnd' by by apply NoDup_fmap_filter.
  split.
  - apply (get_last l' t b _ older k1); [done|]. unfold l'.
    rewrite versions_filter_ne. change (mkLatestKey _ _ _) with (latest_of cur). rewrite Hvs.
    assert (NoDup (older ++ [(k1, m1); (k2, m2)]).*1) as Hnd2.
    { rewrite <- Hvs. by apply NoDup_fmap_filter. }
    rewrite fmap_app, NoDup_app in Hnd2. simpl in Hnd2. destruct Hnd2 as (_ & Hd & Hd2).
    assert (k1 ≠ k2) as Hk12 by (apply NoDup_cons in Hd2 as [Hd2 _]; by intros ->; apply Hd2, list_elem_of_singleton).
    rewrite filter_app, filter_cons_True by done. rewrite filter_cons_False by (by intros H; apply H).
    f_equal. apply filter_all. intros e He Heq. apply (Hd k2).
    + rewrite <- Heq. by apply list_elem_of_fmap_2.
    + apply elem_of_cons. right. by apply list_elem_of_singleton.
  - unfold VersionLog.get, VersionLog.resolve. rewrite bool_decide_eq_false_2 by done. simpl.
    unfold VersionLog.find. rewrite not_elem_of_list_to_map_1; [done|].
    intros ([k' m] & -> & Hin')%list_elem_of_fmap. by apply list_elem_of_filter in Hin' as [? _].
Qed.

End proofs.
(** A photo written twice in a bucket without versioning. *)
Section examples.
#[local] Existing Instance Worm.ex_gateway.

Definition ex_photo (version : string) : ManifestKey * ObjectManifest :=
  (mkManifestKey "t1" "photos" (hashObjectKey "cat") version,
   single_piece_manifest "t1" "photos" "cat" version 3 "" zero_EncryptionConfig zero_PlacementPolicy
     (mkPlaced version "wasabi" "etag" "" 3) "h" ∅ 0).
Definition ex_twice : World :=
  mkWorld [ex_photo "v1"; ex_photo "v2"] ∅ {[("wasabi", "v1") := String.list_ascii_of_string "old";
                                              ("wasabi", "v2") := String.list_ascii_of_string "new"]} ∅.
Definition ex_plain_delete : DeleteRequest :=
  mkDeleteRequest (Ok "t1") "/photos/cat" "" "" (Ok "") None 9 9 9.

Lemma unversioned_delete_uncovers_overwritten_witness :
  let w' := (exec put_result (Delete ex_plain_delete) [false; false] ex_twice).2 in
  VersionLog.get (mkManifestKey "t1" "photos" (hashObjectKey "cat") "") (wd_manifests w') =
    Ok (ex_photo "v1").2 ∧
  VersionLog.get (ex_photo "v2").1 (wd_manifests w') = Err ErrNotFound.
Proof.
  apply (unversioned_delete_uncovers_overwritten "t1" "photos" "cat" ex_plain_delete ex_twice []
    (ex_photo "v1").1 (ex_photo "v1").2 (ex_photo "v2").1 (ex_photo "v2").2 []); try reflexivity.
  - apply (bool_decide_unpack _). vm_compute. exact I.
  - intros k m [Heq|[Heq|Hin]%elem_of_cons]%elem_of_cons; [injection Heq as -> ->; split; [reflexivity|discriminate]..|].
    by apply elem_of_nil in Hin.
Defined.

End examples.
End Unversioned.
