(* ===== verification/Reads.v ===== *)
(** * The read path: GET and HEAD

    Integrity of pieces (metadata/pieceintegrity/integrity.go), the lazy read
    repair (migration/lazy_read_repair/repair.go), the reconstruction of
    erasure-coded and multipart objects (api/s3compat/erasure_coding.go), the
    object metadata headers (api/s3compat/object_metadata.go) and the GET and
    HEAD handlers (api/s3compat/handler.go), as programs over the shared stores.
    Billing, audit, metrics, logs and promotion signals are left out. *)

From S2P Require Import Prelude Bytes GoStrings Ranges Manifest Conditionals ManifestStore ContentIndex.
From S2P Require Import ErasureCoding ClientSdk EncryptionPipeline Fabric Handlers.
Local Open Scope Z_scope.
Local Open Scope prog_scope.

(** ** Piece integrity *)

Definition is_hex_lower (c : ascii) : bool :=
  let n := N_of_ascii c in ((48 <=? n) && (n <=? 57) || (97 <=? n) && (n <=? 102))%N.

Fixpoint all_hex (s : string) : bool :=
  match s with "" => true | String c s' => is_hex_lower c && all_hex s' end.

Definition isSHA256Hex (s : string) : bool := (slen s =? 64) && all_hex s.

(** Without the surrounding double quotes. *)
Definition stripQuotes (s : string) : string :=
  if (2 <=? slen s) && HasPrefix s dq && HasSuffix s dq then
    String.substring 1 (String.length s - 2) s
  else s.

Inductive verify_error := ErrIntegrityCheckFailed | ErrIntegrityClaimUnrecognized.

(** A read configuration: [http.ParseTime] and the HTTP date format, whether a
    cache and a read repair are wired, and the budget of the cache-warming
    semaphore ([None] when it is disabled). *)
Class Reader := {
  ParseTime : string → option Z;
  FormatHTTPTime : Z → string;
  hasCache : bool;
  hasReadRepair : bool;
  cacheWarmBudget : option Z
}.

Abbreviation headers := (gmap string string).

(** A body that is read: its bytes, or those before it breaks. *)
Abbreviation stream := (result bytes bytes).

Section reads.
Context {G : Gateway} {Rd : Reader}.

Definition Verify (body : bytes) (piece : Piece) : option verify_error :=
  if bool_decide (pc_Hash piece = "") then None
  else match CutPrefix "blake3:" (pc_Hash piece) with
  | Some expected =>
      if bool_decide (blake3Hex body = expected) then None else Some ErrIntegrityCheckFailed
  | None =>
      let expected := stripQuotes (pc_Hash piece) in
      if negb (isSHA256Hex expected) then Some ErrIntegrityClaimUnrecognized
      else if bool_decide (sha256Hex (String.string_of_list_ascii body) = expected) then None
      else Some ErrIntegrityCheckFailed
  end.

(** The bytes do not match a hash that could be recomputed. *)
Definition mismatch (body : bytes) (piece : Piece) : bool :=
  match Verify body piece with Some ErrIntegrityCheckFailed => true | _ => false end.

(** ** Responses *)

Record ReadResponse := mkReadResponse {
  rr_status : Z;
  rr_code : string;                   (* the S3 error code, [""] on success *)
  rr_headers : gmap string string;
  rr_body : bytes;
  rr_aborted : bool                   (* the body broke off after the status line *)
}.

Definition defaultContentType : string := "binary/octet-stream".
Definition userMetadataHeaderPrefix : string := "x-amz-meta-".

Definition systemMetadataHeaders (m : ObjectManifest) : list (string * string) :=
  [("Content-Type", m_ContentType m); ("Content-Encoding", m_ContentEncoding m);
   ("Content-Disposition", m_ContentDisposition m); ("Content-Language", m_ContentLanguage m);
   ("Cache-Control", m_CacheControl m); ("Expires", m_Expires m)].

Definition setObjectMetadataHeaders (m : ObjectManifest) (h : headers) : headers :=
  let contentType := if bool_decide (m_ContentType m = "") then defaultContentType else m_ContentType m in
  let h := <["Content-Type" := contentType]> h in
  let h := foldl (λ h hf, if bool_decide (hf.1 = "Content-Type") || bool_decide (hf.2 = "") then h
                          else <[hf.1 := hf.2]> h) h (systemMetadataHeaders m) in
  map_fold (λ k v h, <[String.app userMetadataHeaderPrefix k := v]> h) h (m_UserMetadata m).

Definition clearObjectMetadataHeaders (h : headers) : headers :=
  let h := foldl (λ h hf, if bool_decide (hf.1 = "Content-Type") then h else delete hf.1 h) h
             (systemMetadataHeaders zero_ObjectManifest) in
  filter (λ kv, HasPrefix kv.1 userMetadataHeaderPrefix = false) h.

(** The response-* query parameters, by the header they override. *)
Definition applyResponseOverrideHeaders (overrides : gmap string string) (h : headers) : headers :=
  foldl (λ h hf, match overrides !! hf.1 with Some v => <[hf.1 := v]> h | None => h end) h
    (systemMetadataHeaders zero_ObjectManifest).

(** [writeError] on a response whose headers so far are [h]. *)
Definition read_error (h : headers) (status : Z) (code : string) : ReadResponse :=
  mkReadResponse status code (<["Content-Type" := "application/xml"]> (clearObjectMetadataHeaders h))
    [] false.

Definition set_content_range (r : ByteRange) (total len : Z) (h : headers) : headers :=
  <["Content-Length" := FormatInt len]> (<["Content-Range" := formatContentRange r total]> h).

Definition set_multipart (ranges : list ByteRange) (total : Z) (boundary : string) (h : headers) : headers :=
  <["Content-Length" := FormatInt (multipartByteRangesLength ranges total boundary
                                     (default "" (h !! "Content-Type")))]>
    (<["Content-Type" := String.app "multipart/byteranges; boundary=" boundary]> h).

(** ** The request *)

Record GetRequest := mkGetRequest {
  gq_auth : result Response string;
  gq_path : string;
  gq_versionId : string;
  gq_cond : CondHeaders;
  gq_overrides : gmap string string;
  gq_boundary : string               (* newRangeBoundary *)
}.

Definition MaxInMemoryObjectBytes : Z := 256 * 1024 * 1024.
Definition maxMultipartInMemoryBytes : Z := 256 * 1024 * 1024.

Definition isErasureCodedManifest (m : ObjectManifest) : bool :=
  existsb (λ p, negb (bool_decide (pc_ShardKind p = ""))) (m_Pieces m).

Definition isMultipartManifest (m : ObjectManifest) : bool :=
  if blen (m_Pieces m) <? 2 then false
  else forallb (λ p, negb (pc_PartNumber p =? 0)) (m_Pieces m).

Definition condETagForRead (m : ObjectManifest) (piece : Piece) : string :=
  if isErasureCodedManifest m || isMultipartManifest m then ""
  else quote (pieceETag piece).

Definition delete_marker_headers (m : ObjectManifest) : headers :=
  let h := {["x-amz-delete-marker" := "true"]} in
  if bool_decide (m_VersionID m = "") then h else <["x-amz-version-id" := m_VersionID m]> h.

(** [resolve], then [k] on the manifest, its first piece, tenant and bucket. *)
Definition resolve (q : GetRequest) (k : ObjectManifest → Piece → string → string → prog ReadResponse)
    : prog ReadResponse :=
  match gq_auth q with
  | Err e => Ret (read_error ∅ (rs_status e) (rs_code e))
  | Ok tenantID =>
      let '(bucket, key) := parseBucketKey (gq_path q) in
      if bool_decide (bucket = "") || bool_decide (key = "") then
        Ret (read_error ∅ 400 "InvalidArgument")
      else
        got <~ ManGet (mkManifestKey tenantID bucket (hashObjectKey key) (gq_versionId q));;
        match got with
        | Err ErrNotFound => Ret (read_error ∅ 404 "NoSuchKey")
        | Err _ => Ret (read_error ∅ 500 "ManifestGetFailed")
        | Ok manifest =>
            if m_DeleteMarker manifest then
              if negb (bool_decide (gq_versionId q = ""))
              then Ret (read_error (delete_marker_headers manifest) 405 "MethodNotAllowed")
              else Ret (read_error (delete_marker_headers manifest) 404 "NoSuchKey")
            else match m_Pieces manifest with
            | [] => Ret (read_error ∅ 500 "EmptyManifest")
            | piece :: _ =>
                if negb (registered (pc_Backend piece)) then Ret (read_error ∅ 500 "BackendNotRegistered")
                else k manifest piece tenantID bucket
            end
        end
  end.

(** [applyReadConditionals]: the response that diverts the read, or the headers
    so far and the Range header to honour. *)
Definition applyReadConditionals (q : GetRequest) (m : ObjectManifest) (piece : Piece)
    : ReadResponse + headers * string :=
  let condETag := condETagForRead m piece in
  let h : headers := {["Last-Modified" := FormatHTTPTime (m_CreatedAt m)]} in
  match evaluateConditionalRead ParseTime (gq_cond q) condETag (m_CreatedAt m) with
  | None => inr (h, applyIfRange ParseTime (gq_cond q) condETag (m_CreatedAt m))
  | Some status =>
      if status =? 304 then
        let h := if bool_decide (condETag = "") then h else <["ETag" := condETag]> h in
        inl (mkReadResponse 304 "" (<["x-amz-version-id" := m_VersionID m]> h) [] false)
      else inl (read_error h 412 "PreconditionFailed")
  end.

(** ** Read repair *)

Definition set_pieces_of (m : ObjectManifest) (ps : list Piece) : ObjectManifest :=
  mkObjectManifest (m_TenantID m) (m_Bucket m) (m_ObjectKey m) (m_ObjectKeyHash m)
    (m_VersionID m) (m_ObjectSize m) (m_ChunkSize m) (m_ContentHash m) (m_Encryption m)
    (m_PlacementPolicy m) ps (m_MigrationState m) (m_DeleteMarker m) (m_Tags m)
    (m_ContentType m) (m_ContentEncoding m) (m_ContentDisposition m) (m_ContentLanguage m)
    (m_CacheControl m) (m_Expires m) (m_UserMetadata m) (m_RetentionMode m)
    (m_RetainUntil m) (m_LegalHold m) (m_CreatedAt m).

(** [m.Pieces[i].Backend = backend], and the locator when the backend has one. *)
Definition move_piece (p : Piece) (backend locator : string) : Piece :=
  mkPiece (pc_PieceID p) (pc_Hash p) backend
    (if bool_decide (locator = "") then pc_Locator p else locator) (pc_State p) (pc_ProviderETag p)
    (pc_PartNumber p) (pc_SizeBytes p) (pc_StripeIndex p) (pc_ShardIndex p) (pc_ShardKind p).

(** [ReadRepair.Repair], then [k] on the repaired body; [None] is an error. *)
Definition Repair {R} (key : ManifestKey) (m : ObjectManifest) (pieceIdx : nat)
    (k : option bytes → prog R) : prog R :=
  match m_Pieces m !! pieceIdx with
  | None => k None
  | Some piece =>
      let targetBackend :=
        if bool_decide (ms_PrimaryBackend (m_MigrationState m) = "") then pc_Backend piece
        else ms_PrimaryBackend (m_MigrationState m) in
      if bool_decide (pc_Backend piece = targetBackend) then k None
      else if negb (registered (pc_Backend piece)) then k None
      else if negb (registered targetBackend) then k None
      else
        rc <~ PieceGet (pc_Backend piece) (pc_PieceID piece) None;;
        match rc with
        | None | Some (Err _) => k None
        | Some (Ok body) =>
            if mismatch body piece then k None
            else
              putRes <~ PiecePut targetBackend (pc_PieceID piece) body;;
              match putRes with
              | None => k None
              | Some putRes =>
                  let m' := set_pieces_of m
                    (<[pieceIdx := move_piece piece targetBackend (pr_Locator putRes)]> (m_Pieces m)) in
                  err <~ ManPut key m';;
                  match err with Err _ => k None | Ok _ => k (Some body) end
              end
        end
  end.

Definition tryReadRepair {R} (mkey : ManifestKey) (m : ObjectManifest) (byteRange : option ByteRange)
    (k : option bytes → prog R) : prog R :=
  if negb hasReadRepair then k None
  else if ms_Generation (m_MigrationState m) <=? 1 then k None
  else if blen (m_Pieces m) =? 0 then k None
  else Repair mkey m 0 (λ res,
    match res, byteRange with
    | None, _ => k None
    | Some data, None => k (Some data)
    | Some data, Some r => k (slice_range r data)
    end).

(** ** Fetching a piece *)

Inductive fetch_error := FetchIntegrity | FetchFailed.

(** The tail of [fetchPiece] once the full piece is buffered and accepted. *)
Definition slice_or_fail {R} (byteRange : option ByteRange) (served : bool) (buf : bytes)
    (k : result fetch_error (stream * bool) → prog R) : prog R :=
  match byteRange with
  | None => k (Ok (Ok buf, served))
  | Some r => match slice_range r buf with
              | None => k (Err FetchFailed)
              | Some sliced => k (Ok (Ok sliced, served))
              end
  end.

Definition piece_size (m : ObjectManifest) (piece : Piece) : Z :=
  if pc_SizeBytes piece <=? 0 then m_ObjectSize m else pc_SizeBytes piece.

(** Buffer, verify, warm the cache and slice. *)
Definition buffer_and_verify {R} (piece : Piece) (byteRange : option ByteRange) (body : stream)
    (preVerified : bool) (k : result fetch_error (stream * bool) → prog R) : prog R :=
  match body with
  | Err _ => k (Err FetchFailed)
  | Ok buf =>
      if negb preVerified && mismatch buf piece then k (Err FetchIntegrity)
      else if hasCache then
        _ <~ CachePut (pc_PieceID piece) buf;; slice_or_fail byteRange false buf k
      else slice_or_fail byteRange false buf k
  end.

(** The piece does not fit the cache-warming budget: serve it unbuffered. *)
Definition budget_rejected {R} (piece : Piece) (byteRange : option ByteRange) (body : stream)
    (preVerified : bool) (k : result fetch_error (stream * bool) → prog R) : prog R :=
  match byteRange with
  | None => k (Ok (body, false))
  | Some r =>
      if preVerified then
        match body with
        | Err _ => k (Err FetchFailed)
        | Ok buf => slice_or_fail byteRange false buf k
        end
      else
        ranged <~ PieceGet (pc_Backend piece) (pc_PieceID piece) (Some r);;
        match ranged with None => k (Err FetchFailed) | Some s => k (Ok (s, false)) end
  end.

Definition fetch_miss {R} (mkey : ManifestKey) (m : ObjectManifest) (piece : Piece)
    (byteRange : option ByteRange) (k : result fetch_error (stream * bool) → prog R) : prog R :=
  let pieceSize := piece_size m piece in
  let wantFullPiece :=
    bool_decide (byteRange = None)
    || (negb (bool_decide (pc_Hash piece = "")) && (pieceSize <=? MaxInMemoryObjectBytes)) in
  let fetchRange := if wantFullPiece then None else byteRange in
  let serve body preVerified :=
    if negb wantFullPiece then k (Ok (body, false))
    else if MaxInMemoryObjectBytes <? pieceSize then k (Ok (body, false))
    else match cacheWarmBudget with
    | None => buffer_and_verify piece byteRange body preVerified k
    | Some budget =>
        if budget <? pieceSize then budget_rejected piece byteRange body preVerified k
        else
          acquired <~ TryAcquire pieceSize;;
          if acquired : bool then buffer_and_verify piece byteRange body preVerified k
          else budget_rejected piece byteRange body preVerified k
    end in
  got <~ PieceGet (pc_Backend piece) (pc_PieceID piece) fetchRange;;
  match got with
  | Some body => serve body false
  | None =>
      tryReadRepair mkey m fetchRange (λ repaired,
        match repaired with
        | None => k (Err FetchFailed)
        | Some data => serve (Ok data) true
        end)
  end.

(** [fetchPiece]: the body and whether it came from the cache. *)
Definition fetchPiece {R} (mkey : ManifestKey) (m : ObjectManifest) (piece : Piece)
    (byteRange : option ByteRange) (k : result fetch_error (stream * bool) → prog R) : prog R :=
  if hasCache then
    cached <~ CacheGet (pc_PieceID piece);;
    match cached with
    | Some body =>
        match byteRange, body with
        | None, _ => k (Ok (body, true))
        | Some _, Err _ => k (Err FetchFailed)
        | Some _, Ok buf => slice_or_fail byteRange true buf k
        end
    | None => fetch_miss mkey m piece byteRange k
    end
  else fetch_miss mkey m piece byteRange k.

(** [openCiphertextStream]: the ciphertext, whether it came from the cache, and
    whether it still has to be checked after it is drained. *)
Definition openCiphertextStream {R} (mkey : ManifestKey) (m : ObjectManifest) (piece : Piece)
    (k : option (stream * bool * bool) → prog R) : prog R :=
  let miss :=
    got <~ PieceGet (pc_Backend piece) (pc_PieceID piece) None;;
    match got with
    | Some body => k (Some (body, false, true))
    | None =>
        tryReadRepair mkey m None (λ repaired,
          match repaired with
          | None => k None
          | Some data => k (Some (Ok data, false, false))
          end)
    end in
  if hasCache then
    cached <~ CacheGet (pc_PieceID piece);;
    match cached with
    | Some body => k (Some (body, true, false))
    | None => miss
    end
  else miss.

(** ** Serving *)

(** A fetch that fails before the status line. *)
Definition fetch_error_response (h : headers) (e : fetch_error) : ReadResponse :=
  match e with
  | FetchIntegrity => read_error h 502 "IntegrityCheckFailed"
  | FetchFailed => read_error h 502 "BackendGetFailed"
  end.

Definition stream_bytes (s : stream) : bytes := match s with Ok b => b | Err b => b end.
Definition stream_broken (s : stream) : bool := match s with Ok _ => false | Err _ => true end.

(** A buffered object, whole or by its ranges. *)
Definition serve_buffer (h : headers) (d : disposition) (m : ObjectManifest) (boundary : string)
    (plaintext : bytes) : ReadResponse :=
  match d with
  | Multi ranges =>
      match writeMultipartByteRangesFromBuffer ranges (m_ObjectSize m) boundary
              (default "" (h !! "Content-Type")) plaintext with
      | None => read_error h 502 "BackendGetFailed"
      | Some body => mkReadResponse 206 "" (set_multipart ranges (m_ObjectSize m) boundary h) body false
      end
  | Single r =>
      match slice_range r plaintext with
      | None => read_error h 416 "InvalidRange"
      | Some out =>
          mkReadResponse 206 "" (set_content_range r (m_ObjectSize m) (blen out) h) out false
      end
  | Whole => mkReadResponse 200 "" (<["Content-Length" := FormatInt (blen plaintext)]> h) plaintext false
  end.

(** [decryptReader] on a stream that may break: the plaintext delivered and
    whether it is complete. *)
Fixpoint stream_frames (dek : bytes) (o : Sdk.Options) (broken : bool) (fuel : nat) (src : bytes)
    (chunkIndex : Z) : bytes * bool :=
  match fuel with
  | O => ([], false)
  | S fuel =>
      if blen src =? 0 then ([], negb broken)
      else if blen src <? Sdk.chunkHeaderSize then ([], false)
      else
        let nonce := slice 0 NonceSizeX src in
        let ctLen := Uint32 (slice NonceSizeX Sdk.chunkHeaderSize src) in
        let maxCT := Sdk.wrapu32 (Sdk.chunkSize o + Overhead) in
        if (ctLen =? 0) || (maxCT <? ctLen) then ([], false)
        else
          let src := drop (Z.to_nat Sdk.chunkHeaderSize) src in
          if blen src <? ctLen then ([], false)
          else
            let ct := take (Z.to_nat ctLen) src in
            match aead_Open dek nonce ct (Sdk.chunkAADBytes (Sdk.o_ChunkAAD o) chunkIndex) with
            | None => ([], false)
            | Some pt =>
                if blen pt <? Sdk.chunkSize o then (pt, true)
                else
                  let '(rest, complete) :=
                    stream_frames dek o broken fuel (drop (Z.to_nat ctLen) src) (chunkIndex + 1) in
                  (pt ++ rest, complete)
            end
  end.

(** [streamDecryptFromStorage] and draining the reader it returns; [None] is an
    error before the first byte. *)
Definition streamDecryptFromStorage (ciphertext : stream) (enc : EncryptionConfig) (i : aadIdentity)
    : option (bytes * bool) :=
  if negb hasEncryption then None
  else match UnwrapDEK (wrapped_of enc) with
  | None => None
  | Some dek =>
      if negb (blen dek =? KeySize) then None
      else Some (stream_frames dek (gatewayDecryptOptions enc i) (stream_broken ciphertext)
                   (S (length (stream_bytes ciphertext))) (stream_bytes ciphertext) 0)
  end.

Definition set_etag (piece : Piece) (h : headers) : headers :=
  if bool_decide (pieceETag piece = "") then h else <["ETag" := quote (pieceETag piece)]> h.

Definition set_version (m : ObjectManifest) (h : headers) : headers :=
  <["x-amz-version-id" := m_VersionID m]> h.

Definition streamGatewayDecryptedGet (h : headers) (mkey : ManifestKey) (m : ObjectManifest)
    (piece : Piece) : prog ReadResponse :=
  openCiphertextStream mkey m piece (λ opened,
    match opened with
    | None => Ret (read_error h 502 "BackendGetFailed")
    | Some (ciphertext, _, _) =>
        match streamDecryptFromStorage ciphertext (m_Encryption m) (aadIdentityOf m) with
        | None => Ret (read_error h 500 "DEKUnwrapFailed")
        | Some (plaintext, complete) =>
            Ret (mkReadResponse 200 ""
              (<["Content-Length" := FormatInt (m_ObjectSize m)]> (set_version m (set_etag piece h)))
              plaintext (negb complete))
        end
    end).

Definition bufferedGatewayDecryptedGet (h : headers) (boundary : string) (mkey : ManifestKey)
    (m : ObjectManifest) (piece : Piece) (d : disposition) : prog ReadResponse :=
  if MaxInMemoryObjectBytes <? m_ObjectSize m then
    Ret (read_error h 507 "RangeRequestTooLargeForBufferedDecrypt")
  else fetchPiece mkey m piece None (λ fetched,
    match fetched with
    | Err e => Ret (fetch_error_response h e)
    | Ok (Err _, _) => Ret (read_error h 502 "BackendGetFailed")
    | Ok (Ok ciphertext, _) =>
        match decryptFromStorage ciphertext (m_Encryption m) (aadIdentityOf m) with
        | None => Ret (read_error h 500 "DEKUnwrapFailed")
        | Some plaintext => Ret (serve_buffer (set_version m (set_etag piece h)) d m boundary plaintext)
        end
    end).

(** The parts after the first of [writeMultipartByteRanges]; the status line is
    already out. [acc] is the body so far. *)
Fixpoint serve_parts (h : headers) (boundary ct : string) (mkey : ManifestKey) (m : ObjectManifest)
    (piece : Piece) (ranges : list ByteRange) (acc : bytes) : prog ReadResponse :=
  match ranges with
  | [] => Ret (mkReadResponse 206 "" h (acc ++ str (closing_boundary boundary)) false)
  | r :: ranges =>
      fetchPiece mkey m piece (Some r) (λ fetched,
        match fetched with
        | Err _ => Ret (mkReadResponse 206 "" h acc true)
        | Ok (body, _) =>
            let acc := acc ++ str (rangePartHeader boundary ct r (m_ObjectSize m)) ++ stream_bytes body in
            if stream_broken body then Ret (mkReadResponse 206 "" h acc true)
            else serve_parts h boundary ct mkey m piece ranges (acc ++ str crlf)
        end)
  end.

Definition serveMultipartSinglePiece (h : headers) (boundary : string) (mkey : ManifestKey)
    (m : ObjectManifest) (piece : Piece) (multi : list ByteRange) : prog ReadResponse :=
  let h := set_version m (set_etag piece h) in
  let ct := default "" (h !! "Content-Type") in
  let h' := set_multipart multi (m_ObjectSize m) boundary h in
  match multi with
  | [] => Ret (read_error h 500 "panic")          (* ranges[0] *)
  | r :: ranges =>
      fetchPiece mkey m piece (Some r) (λ fetched,
        match fetched with
        | Err e => Ret (fetch_error_response h e)
        | Ok (body, _) =>
            let acc := str (rangePartHeader boundary ct r (m_ObjectSize m)) ++ stream_bytes body in
            if stream_broken body then Ret (mkReadResponse 206 "" h' acc true)
            else serve_parts h' boundary ct mkey m piece ranges (acc ++ str crlf)
        end)
  end.

(** ** Reconstruction *)

Record reconstructError := mkReconstructError {
  re_status : Z;
  re_s3code : string
}.

Definition shardKindFromManifest (s : string) : ShardKind :=
  if bool_decide (s = ShardKindParity_str) then ShardKindParity else ShardKindData.

Definition piece_shard (p : Piece) (body : bytes) : Shard :=
  mkShard (pc_StripeIndex p) (pc_ShardIndex p) (shardKindFromManifest (pc_ShardKind p)) body.

Definition piece_less (p q : Piece) : bool :=
  if negb (pc_StripeIndex p =? pc_StripeIndex q) then pc_StripeIndex p <? pc_StripeIndex q
  else pc_ShardIndex p <? pc_ShardIndex q.

(** The loop over the pieces: shards so far and losses per stripe. *)
Fixpoint fetch_shards {R} (tolerance : Z) (ps : list Piece) (losses : gmap Z Z) (shards : list Shard)
    (k : result reconstructError (list Shard) → prog R) : prog R :=
  match ps with
  | [] => k (Ok shards)
  | p :: ps =>
      let lost code :=
        let n := default 0 (losses !! pc_StripeIndex p) + 1 in
        if pc_StripeIndex p <? 0 then k (Err (mkReconstructError 500 "panic"))   (* losses[-1] *)
        else if tolerance <? n then k (Err (mkReconstructError 502 code))
        else fetch_shards tolerance ps (<[pc_StripeIndex p := n]> losses) (shards ++ [piece_shard p []]) k in
      if negb (registered (pc_Backend p)) then lost "DataLoss"
      else
        got <~ PieceGet (pc_Backend p) (pc_PieceID p) None;;
        match got with
        | None => lost "DataLoss"
        | Some (Err _) => k (Err (mkReconstructError 502 "BackendGetFailed"))
        | Some (Ok buf) =>
            if mismatch buf p then lost "IntegrityCheckFailed"
            else fetch_shards tolerance ps losses (shards ++ [piece_shard p buf]) k
        end
  end.

Definition num_stripes_of (ps : list Piece) : Z :=
  foldl (λ n p, if n <? pc_StripeIndex p + 1 then pc_StripeIndex p + 1 else n) 0 ps.

Definition reconstructErasureCoded {R} (m : ObjectManifest)
    (k : result reconstructError bytes → prog R) : prog R :=
  match ErasureRegistry with
  | None => k (Err (mkReconstructError 500 "ErasureCodingNotConfigured"))
  | Some registry =>
      let profile := pp_ErasureProfile (m_PlacementPolicy m) in
      if bool_decide (profile = "") then k (Err (mkReconstructError 500 "ErasureProfileMissing"))
      else match EC.Registry_Lookup profile registry with
      | None => k (Err (mkReconstructError 500 "ErasureProfileNotRegistered"))
      | Some encoder =>
          if num_stripes_of (m_Pieces m) =? 0 then k (Err (mkReconstructError 500 "EmptyManifest"))
          else fetch_shards (ep_ParityShards (EC.en_profile encoder))
                 (sort_slice piece_less (m_Pieces m)) ∅ [] (λ fetched,
            match fetched with
            | Err e => k (Err e)
            | Ok shards =>
                match EC.Decode encoder shards with
                | Err _ => k (Err (mkReconstructError 502 "ErasureDecodeFailed"))
                | Ok decoded =>
                    if IsGatewayEncrypted (enc_Mode (m_Encryption m)) then
                      match decryptFromStorage decoded (m_Encryption m) (aadIdentityOf m) with
                      | None => k (Err (mkReconstructError 500 "DEKUnwrapFailed"))
                      | Some decrypted => k (Ok decrypted)
                      end
                    else k (Ok decoded)
                end
            end)
      end
  end.

(** The pre-fetch of the parts, in ascending part order. *)
Fixpoint fetch_parts {R} (ps : list Piece) (bodies : list bytes)
    (k : result reconstructError (list bytes) → prog R) : prog R :=
  match ps with
  | [] => k (Ok bodies)
  | p :: ps =>
      got <~ PieceGet (pc_Backend p) (pc_PieceID p) None;;
      match got with
      | None | Some (Err _) => k (Err (mkReconstructError 502 "BackendGetFailed"))
      | Some (Ok buf) =>
          if mismatch buf p then k (Err (mkReconstructError 502 "IntegrityCheckFailed"))
          else fetch_parts ps (bodies ++ [buf]) k
      end
  end.

Fixpoint decrypt_parts (dek : bytes) (enc : EncryptionConfig) (i : aadIdentity) (bodies : list bytes)
    : option (list bytes) :=
  match bodies with
  | [] => Some []
  | b :: bodies =>
      match decryptWithDEK b dek enc i with
      | None => None
      | Some pt => cons pt <$> decrypt_parts dek enc i bodies
      end
  end.

Definition total_length (bodies : list bytes) : Z := foldl (λ n b, wrap64 (n + blen b)) 0 bodies.

Definition part_less (p q : Piece) : bool := pc_PartNumber p <? pc_PartNumber q.

Definition reconstructMultipart {R} (m : ObjectManifest)
    (k : result reconstructError (list bytes) → prog R) : prog R :=
  if maxMultipartInMemoryBytes <? m_ObjectSize m then k (Err (mkReconstructError 507 "MultipartTooLarge"))
  else
    let pieces := sort_slice part_less (m_Pieces m) in
    if existsb (λ p, negb (registered (pc_Backend p))) pieces then
      k (Err (mkReconstructError 502 "BackendNotRegistered"))
    else fetch_parts pieces [] (λ fetched,
      match fetched with
      | Err e => k (Err e)
      | Ok bodies =>
          let finish bodies :=
            if negb (m_ObjectSize m =? 0) && negb (total_length bodies =? m_ObjectSize m)
            then k (Err (mkReconstructError 502 "ManifestIntegrityMismatch"))
            else k (Ok bodies) in
          if IsGatewayEncrypted (enc_Mode (m_Encryption m)) then
            if negb hasEncryption then k (Err (mkReconstructError 500 "EncryptionNotConfigured"))
            else match UnwrapDEK (wrapped_of (m_Encryption m)) with
            | None => k (Err (mkReconstructError 500 "DEKUnwrapFailed"))
            | Some dek =>
                match decrypt_parts dek (m_Encryption m) (aadIdentityOf m) bodies with
                | None => k (Err (mkReconstructError 500 "DecryptionFailed"))
                | Some plaintexts => finish plaintexts
                end
            end
          else finish bodies
      end).

Definition getErasureCoded (h : headers) (boundary range : string) (m : ObjectManifest)
    : prog ReadResponse :=
  match parseObjectRanges range (m_ObjectSize m) with
  | None => Ret (read_error h 416 "InvalidRange")
  | Some d => reconstructErasureCoded m (λ rec,
      match rec with
      | Err e => Ret (read_error h (re_status e) (re_s3code e))
      | Ok plaintext => Ret (serve_buffer (set_version m h) d m boundary plaintext)
      end)
  end.

Definition getMultipart (h : headers) (boundary range : string) (m : ObjectManifest)
    : prog ReadResponse :=
  match parseObjectRanges range (m_ObjectSize m) with
  | None => Ret (read_error h 416 "InvalidRange")
  | Some d => reconstructMultipart m (λ rec,
      match rec with
      | Err e => Ret (read_error h (re_status e) (re_s3code e))
      | Ok bodies => Ret (serve_buffer (set_version m h) d m boundary (concat bodies))
      end)
  end.

(** ** GET *)

Definition Get (q : GetRequest) : prog ReadResponse :=
  resolve q (λ m piece tenantID bucket,
    match applyReadConditionals q m piece with
    | inl diverted => Ret diverted
    | inr (h, range) =>
        let h := applyResponseOverrideHeaders (gq_overrides q) (setObjectMetadataHeaders m h) in
        if isErasureCodedManifest m then getErasureCoded h (gq_boundary q) range m
        else if isMultipartManifest m then getMultipart h (gq_boundary q) range m
        else match parseObjectRanges range (m_ObjectSize m) with
        | None => Ret (read_error h 416 "InvalidRange")
        | Some d =>
            let mkey := mkManifestKey tenantID bucket (m_ObjectKeyHash m) (m_VersionID m) in
            if IsGatewayEncrypted (enc_Mode (m_Encryption m)) then
              match d with
              | Whole => streamGatewayDecryptedGet h mkey m piece
              | _ => bufferedGatewayDecryptedGet h (gq_boundary q) mkey m piece d
              end
            else match d with
            | Multi ranges => serveMultipartSinglePiece h (gq_boundary q) mkey m piece ranges
            | _ =>
                let byteRange := match d with Single r => Some r | _ => None end in
                fetchPiece mkey m piece byteRange (λ fetched,
                  match fetched with
                  | Err e => Ret (fetch_error_response h e)
                  | Ok (body, _) =>
                      let h := set_version m (set_etag piece h) in
                      match byteRange with
                      | Some r =>
                          Ret (mkReadResponse 206 ""
                            (set_content_range r (m_ObjectSize m)
                               (wrap64 (range_end r (m_ObjectSize m) - rg_Start r + 1)) h)
                            (stream_bytes body) (stream_broken body))
                      | None =>
                          Ret (mkReadResponse 200 ""
                            (<["Content-Length" := FormatInt (m_ObjectSize m)]> h)
                            (stream_bytes body) (stream_broken body))
                      end
                  end)
            end
        end
    end).

(** ** HEAD *)

(** The status and headers of a HEAD for each way of serving. *)
Definition head_response (h : headers) (boundary : string) (m : ObjectManifest) (d : disposition)
    : ReadResponse :=
  match d with
  | Multi ranges => mkReadResponse 206 "" (set_multipart ranges (m_ObjectSize m) boundary h) [] false
  | Single r =>
      mkReadResponse 206 ""
        (set_content_range r (m_ObjectSize m)
           (wrap64 (range_end r (m_ObjectSize m) - rg_Start r + 1)) h) [] false
  | Whole => mkReadResponse 200 "" (<["Content-Length" := FormatInt (m_ObjectSize m)]> h) [] false
  end.

Definition headErasureCoded (h : headers) (boundary range : string) (m : ObjectManifest) : ReadResponse :=
  match ErasureRegistry with
  | None => read_error h 500 "ErasureCodingNotConfigured"
  | Some registry =>
      let profile := pp_ErasureProfile (m_PlacementPolicy m) in
      if bool_decide (profile = "") then read_error h 500 "ErasureProfileMissing"
      else match EC.Registry_Lookup profile registry with
      | None => read_error h 500 "ErasureProfileNotRegistered"
      | Some _ =>
          match parseObjectRanges range (m_ObjectSize m) with
          | None => read_error h 416 "InvalidRange"
          | Some d => head_response (set_version m h) boundary m d
          end
      end
  end.

Definition headMultipart (h : headers) (boundary range : string) (m : ObjectManifest) : ReadResponse :=
  match parseObjectRanges range (m_ObjectSize m) with
  | None => read_error h 416 "InvalidRange"
  | Some d =>
      if maxMultipartInMemoryBytes <? m_ObjectSize m then read_error h 507 "MultipartTooLarge"
      else if existsb (λ p, negb (registered (pc_Backend p))) (m_Pieces m)
      then read_error h 502 "BackendNotRegistered"
      else head_response (set_version m h) boundary m d
  end.

Definition Head (q : GetRequest) : prog ReadResponse :=
  resolve q (λ m piece tenantID bucket,
    match applyReadConditionals q m piece with
    | inl diverted => Ret diverted
    | inr (h, range) =>
        let h := applyResponseOverrideHeaders (gq_overrides q) (setObjectMetadataHeaders m h) in
        if isErasureCodedManifest m then Ret (headErasureCoded h (gq_boundary q) range m)
        else if isMultipartManifest m then Ret (headMultipart h (gq_boundary q) range m)
        else match parseObjectRanges range (m_ObjectSize m) with
        | None => Ret (read_error h 416 "InvalidRange")
        | Some d =>
            if IsGatewayEncrypted (enc_Mode (m_Encryption m))
               && (match d with Whole => false | _ => true end)
               && (MaxInMemoryObjectBytes <? m_ObjectSize m)
            then Ret (read_error h 507 "RangeRequestTooLargeForBufferedDecrypt")
            else Ret (head_response (set_version m (set_etag piece h)) (gq_boundary q) m d)
        end
    end).

End reads.
