(* ===== verification/HeadMirror.v ===== *)
(** * HEAD answers what GET would

    GET and HEAD share their resolution, preconditions and range parsing, and
    then part: GET fetches, verifies and decrypts, HEAD writes headers. *)

From S2P Require Import Prelude Bytes GoStrings Ranges Manifest Conditionals ManifestStore.
From S2P Require Import ErasureCoding ClientSdk EncryptionPipeline Fabric Handlers Worm Reads.
Local Open Scope Z_scope.
Local Open Scope prog_scope.

Module HeadMirror.

Section mirror.
Context {G : Gateway} {Rd : Reader}.

(** Whatever the calls reply, the program ends in [Q]. *)
Fixpoint always {R} (Q : R → Prop) (p : prog R) : Prop :=
  match p with
  | Ret r => Q r
  | Call c k => ∀ a, always Q (k a)
  end.

Lemma always_exec {R} (Q : R → Prop) p faults w : always Q p → Q (exec put_result p faults w).1.
Proof.
  revert faults w. induction p as [r|A c k IH]; intros faults w Hp; simpl in *; [done|].
  destruct (do_call _ _ _ _) as [a w']. by apply IH.
Qed.

(** Go functions in continuation-passing style: whatever they pass on. *)
Section passes.
Context {R : Type} (Q : R → Prop).

Lemma always_Repair key m i k : (∀ a, always Q (k a)) → always Q (Repair key m i k).
Proof. intros Hk. unfold Repair. repeat (case_match; simpl; intros; try apply Hk). Qed.

Lemma always_tryReadRepair key m br k : (∀ a, always Q (k a)) → always Q (tryReadRepair key m br k).
Proof.
  intros Hk. unfold tryReadRepair. repeat (case_match; [apply Hk|]).
  apply always_Repair. intros a. repeat case_match; apply Hk.
Qed.

Lemma always_slice br served buf k :
  (∀ a, always Q (k a)) → always Q (slice_or_fail br served buf k).
Proof. intros Hk. unfold slice_or_fail. repeat case_match; apply Hk. Qed.

Lemma always_buffer piece br body pv k :
  (∀ a, always Q (k a)) → always Q (buffer_and_verify piece br body pv k).
Proof.
  intros Hk. unfold buffer_and_verify. repeat case_match; simpl; intros; first [apply Hk|by apply always_slice].
Qed.

Lemma always_budget piece br body pv k :
  (∀ a, always Q (k a)) → always Q (budget_rejected piece br body pv k).
Proof.
  intros Hk. unfold budget_rejected.
  repeat (case_match; simpl; intros; try first [apply Hk|by apply always_slice]).
Qed.

Lemma always_fetchPiece key m piece br k :
  (∀ a, always Q (k a)) → always Q (fetchPiece key m piece br k).
Proof.
  intros Hk.
  assert (always Q (fetch_miss key m piece br k)) as Hmiss.
  { unfold fetch_miss. simpl. intros got.
    destruct got; [|apply always_tryReadRepair; intros [data|]; [|apply Hk]].
    all: repeat (case_match; simpl; intros; try first [apply Hk|by apply always_slice|by apply always_buffer|by apply always_budget]). }
  unfold fetchPiece. destruct hasCache; [|done]. simpl. intros [body|]; [|done].
  repeat (case_match; try apply Hk). by apply always_slice.
Qed.

Lemma always_open key m piece k :
  (∀ a, always Q (k a)) → always Q (openCiphertextStream key m piece k).
Proof.
  intros Hk. unfold openCiphertextStream.
  assert (∀ got : option stream, always Q match got with
    | Some body => k (Some (body, false, true))
    | None => tryReadRepair key m None (λ repaired,
        match repaired with None => k None | Some data => k (Some (Ok data, false, false)) end)
    end) as Hmiss.
  { intros [body|]; [apply Hk|]. apply always_tryReadRepair. intros [data|]; apply Hk. }
  destruct hasCache; simpl; [|done]. intros [body|]; [apply Hk|done].
Qed.

(** A reconstruction fails only with a server error. *)
Definition server_error (e : reconstructError) : Prop := 500 ≤ re_status e.

Lemma always_fetch_shards tol ps losses shards k :
  (∀ e, server_error e → always Q (k (Err e))) → (∀ l, always Q (k (Ok l))) →
  always Q (fetch_shards tol ps losses shards k).
Proof.
  intros He Hk. revert losses shards.
  induction ps as [|p ps IH]; intros losses shards; simpl; [apply Hk|].
  repeat (case_match; simpl; intros; try first [apply IH|apply He; unfold server_error; simpl; lia]).
Qed.

Lemma always_erasure m k :
  (∀ e, server_error e → always Q (k (Err e))) → (∀ l, always Q (k (Ok l))) →
  always Q (reconstructErasureCoded m k).
Proof.
  intros He Hk. unfold reconstructErasureCoded.
  repeat (case_match; try (apply He; unfold server_error; simpl; lia)).
  all: apply always_fetch_shards; [done|]; intros l;
    repeat (case_match; try first [apply Hk|apply He; unfold server_error; simpl; lia]).
Qed.

Lemma always_fetch_parts ps bodies k :
  (∀ e, server_error e → always Q (k (Err e))) → (∀ l, always Q (k (Ok l))) →
  always Q (fetch_parts ps bodies k).
Proof.
  intros He Hk. revert bodies. induction ps as [|p ps IH]; intros bodies; simpl; [apply Hk|]. intros got.
  repeat (case_match; simpl; intros; try first [apply IH|apply He; unfold server_error; simpl; lia]).
Qed.

Lemma always_multipart m k :
  (∀ e, server_error e → always Q (k (Err e))) → (∀ l, always Q (k (Ok l))) →
  always Q (reconstructMultipart m k).
Proof.
  intros He Hk. unfold reconstructMultipart.
  destruct (_ <? _); [apply He; unfold server_error; simpl; lia|].
  destruct (existsb _ _); [apply He; unfold server_error; simpl; lia|].
  apply always_fetch_parts; [done|]. intros l.
  repeat (case_match; try first [apply Hk|apply He; unfold server_error; simpl; lia]).
Qed.

End passes.

Lemma existsb_sorted {A} (less : A → A → bool) f (l : list A) :
  existsb f (sort_slice less l) = existsb f l.
Proof.
  apply eq_bool_prop_intro. unfold sort_slice.
  rewrite !Is_true_true, !existsb_exists. setoid_rewrite <- list_elem_of_In.
  by setoid_rewrite merge_sort_Permutation.
Qed.

(** ** GET and HEAD *)

(** A GET that succeeds has the status and headers of the HEAD; the length is
    apart, which GET counts where HEAD takes the manifest's word. *)
Definition mirrors (head get : ReadResponse) : Prop :=
  rr_status get < 400 →
  rr_status head = rr_status get ∧
  delete "Content-Length" (rr_headers head) = delete "Content-Length" (rr_headers get).

Lemma mirrors_error head h status code : 400 ≤ status → mirrors head (read_error h status code).
Proof. unfold mirrors. simpl. lia. Qed.

Lemma mirrors_refl r : mirrors r r.
Proof. done. Qed.

Lemma mirrors_fetch_error head h e : mirrors head (fetch_error_response h e).
Proof. by destruct e; apply mirrors_error. Qed.

Lemma mirrors_buffer h boundary m d plaintext :
  mirrors (head_response h boundary m d) (serve_buffer h d m boundary plaintext).
Proof.
  destruct d as [|r|rs]; simpl.
  - intros _. simpl. by rewrite !delete_insert_eq.
  - destruct (slice_range _ _); [|by apply mirrors_error].
    intros _. simpl. unfold set_content_range. by rewrite !delete_insert_eq.
  - destruct (writeMultipartByteRangesFromBuffer _ _ _ _ _); [|by apply mirrors_error]. done.
Qed.

Lemma mirrors_parts head h boundary ct key m piece ranges acc :
  rr_status head = 206 → rr_headers head = h →
  always (mirrors head) (serve_parts h boundary ct key m piece ranges acc).
Proof.
  intros Hs Hh.
  assert (∀ acc aborted, mirrors head (mkReadResponse 206 "" h acc aborted)) as Hend
    by (intros ? ?; unfold mirrors; by rewrite Hs, Hh).
  revert acc. induction ranges as [|r ranges IH]; intros acc; simpl; [apply Hend|].
  apply always_fetchPiece. intros [[body ?]|]; [|apply Hend]. case_match; [apply Hend|apply IH].
Qed.

Lemma erasure_mirrors h boundary range m :
  always (mirrors (headErasureCoded h boundary range m)) (getErasureCoded h boundary range m).
Proof.
  unfold getErasureCoded, headErasureCoded.
  destruct (parseObjectRanges _ _) as [d|] eqn:Hd; [|by apply mirrors_error].
  unfold reconstructErasureCoded.
  destruct ErasureRegistry as [registry|]; [|by apply mirrors_error].
  case_bool_decide; [by apply mirrors_error|].
  destruct (EC.Registry_Lookup _ _); [|by apply mirrors_error].
  destruct (_ =? 0); [by apply mirrors_error|].
  apply always_fetch_shards; [intros ? He; apply mirrors_error; unfold server_error in He; lia|].
  intros l. destruct (EC.Decode _ _); [|by apply mirrors_error].
  repeat case_match; first [by apply mirrors_error|apply mirrors_buffer].
Qed.

Lemma multipart_mirrors h boundary range m :
  always (mirrors (headMultipart h boundary range m)) (getMultipart h boundary range m).
Proof.
  unfold getMultipart, headMultipart.
  destruct (parseObjectRanges _ _) as [d|] eqn:Hd; [|by apply mirrors_error].
  unfold reconstructMultipart. destruct (_ <? m_ObjectSize m); [by apply mirrors_error|].
  rewrite existsb_sorted. destruct (existsb _ _); [by apply mirrors_error|].
  apply always_fetch_parts; [intros ? He; apply mirrors_error; unfold server_error in He; lia|].
  intros l. repeat case_match; first [by apply mirrors_error|apply mirrors_buffer].
Qed.

Lemma stream_mirrors h boundary key m piece :
  always (mirrors (head_response (set_version m (set_etag piece h)) boundary m Whole))
    (streamGatewayDecryptedGet h key m piece).
Proof.
  apply always_open. intros [[[ct ?] ?]|]; [|by apply mirrors_error].
  destruct (streamDecryptFromStorage _ _ _) as [[]|]; [done|by apply mirrors_error].
Qed.

Lemma buffered_mirrors h boundary key m piece d :
  always (mirrors (if MaxInMemoryObjectBytes <? m_ObjectSize m
                   then read_error h 507 "RangeRequestTooLargeForBufferedDecrypt"
                   else head_response (set_version m (set_etag piece h)) boundary m d))
    (bufferedGatewayDecryptedGet h boundary key m piece d).
Proof.
  unfold bufferedGatewayDecryptedGet. destruct (_ <? _); [by apply mirrors_error|].
  apply always_fetchPiece. intros [[[ct|] ?]|e]; [|by apply mirrors_error|apply mirrors_fetch_error].
  destruct (decryptFromStorage _ _ _); [apply mirrors_buffer|by apply mirrors_error].
Qed.

Lemma ranges_mirror h boundary key m piece ranges :
  always (mirrors (head_response (set_version m (set_etag piece h)) boundary m (Multi ranges)))
    (serveMultipartSinglePiece h boundary key m piece ranges).
Proof.
  unfold serveMultipartSinglePiece. destruct ranges as [|r ranges]; [by apply mirrors_error|].
  apply always_fetchPiece. intros [[body ?]|e]; [|apply mirrors_fetch_error].
  destruct (stream_broken body); [done|by apply mirrors_parts].
Qed.


End mirror.
End HeadMirror.
