(* ===== verification/Objects.v ===== *)
(** * Objects

    What it means that the stores hold an object ([represents]): its single
    piece, its parts or enough of its shards are there, and they unseal to its
    bytes. GET serves a represented object and its byte ranges, and HEAD
    announces what GET serves. *)

From S2P Require Import Prelude Bytes GoStrings Ranges Manifest Conditionals ManifestStore ContentIndex.
From S2P Require Import ErasureCoding ClientSdk EncryptionPipeline Fabric Handlers Reads.
Local Open Scope Z_scope.
Local Open Scope prog_scope.

Module Object.

Section represents.
Context {G : Gateway} {Rd : Reader}.

(** The backends hold the bytes of the piece, and so does the cache if it has it. *)
Record holds (w : World) (p : Piece) (b : bytes) : Prop := {
  holds_registered : registered (pc_Backend p) = true;
  holds_bytes : wd_pieces w !! (pc_Backend p, pc_PieceID p) = Some b;
  holds_hash : mismatch b p = false
}.

Definition cache_agrees (w : World) (p : Piece) (b : bytes) : Prop :=
  ∀ b', wd_cache w !! pc_PieceID p = Some b' → b' = b.

(** The stored bytes are the object's, or seal them. *)
Definition unseals (m : ObjectManifest) (stored body : bytes) : Prop :=
  if IsGatewayEncrypted (enc_Mode (m_Encryption m))
  then decryptFromStorage stored (m_Encryption m) (aadIdentityOf m) = Some body
  else stored = body.

(** A read of the piece does not get its bytes. *)
Definition lost (w : World) (p : Piece) : bool :=
  negb (registered (pc_Backend p)) ||
  match wd_pieces w !! (pc_Backend p, pc_PieceID p) with None => true | Some b => mismatch b p end.

(** The piece is the shard's, and its bytes are the shard's or the read notices. *)
Definition shard_piece_of (w : World) (p : Piece) (sh : Shard) : Prop :=
  pc_StripeIndex p = sh_StripeIndex sh ∧ pc_ShardIndex p = sh_ShardIndex sh ∧ pc_ShardKind p ≠ "" ∧
  (lost w p = true ∨ wd_pieces w !! (pc_Backend p, pc_PieceID p) = Some (sh_Bytes sh)).

Inductive represents (w : World) (m : ObjectManifest) (body : bytes) : Prop :=
| RSingle p stored :
    m_Pieces m = [p] → pc_ShardKind p = "" → holds w p stored → cache_agrees w p stored →
    unseals m stored body → represents w m body
| RErasure p0 ps registry profile encoder stored shards :
    m_Pieces m = p0 :: ps → registered (pc_Backend p0) = true →
    ErasureRegistry = Some registry → pp_ErasureProfile (m_PlacementPolicy m) ≠ "" →
    EC.Registry_Lookup (pp_ErasureProfile (m_PlacementPolicy m)) registry = Some encoder →
    EC.NewEncoder profile = Ok encoder → ep_StripeSize profile + ep_DataShards profile ≤ 2 ^ 63 →
    blen stored < 2 ^ 63 - 8 → EC.Encode encoder stored = Ok shards →
    Forall2 (shard_piece_of w) (m_Pieces m) shards →
    (∀ s, blen (filter (λ p, pc_StripeIndex p = s ∧ lost w p = true) (m_Pieces m))
          ≤ ep_ParityShards profile) →
    unseals m stored body → represents w m body
| RMultipart ps parts bodies :
    isErasureCodedManifest m = false → isMultipartManifest m = true →
    blen body ≤ maxMultipartInMemoryBytes →
    sort_slice part_less (m_Pieces m) = ps → Forall2 (holds w) ps parts →
    (if IsGatewayEncrypted (enc_Mode (m_Encryption m))
     then hasEncryption = true ∧
          ∃ dek, UnwrapDEK (wrapped_of (m_Encryption m)) = Some dek ∧
            decrypt_parts dek (m_Encryption m) (aadIdentityOf m) parts = Some bodies
     else parts = bodies) →
    body = concat bodies → represents w m body.

(** ** Fetching a piece *)

Lemma exec_call {R A} (c : call A) (k : A → prog R) w :
  exec put_result (Call c k) [] w =
  exec put_result (k (do_call put_result false c w).1) [] (do_call put_result false c w).2.
Proof. simpl. by destruct (do_call put_result false c w). Qed.

(** The bytes of the piece the caller asked for. *)
Definition ranged (byteRange : option ByteRange) (b : bytes) : option bytes :=
  match byteRange with None => Some b | Some r => slice_range r b end.

Lemma holds_same w w' p b : wd_pieces w' = wd_pieces w → holds w p b → holds w' p b.
Proof. intros Hw [? Hb ?]. split; [done| |done]. by rewrite Hw. Qed.

Section fetch.
Context {R : Type} (mkey : ManifestKey) (m : ObjectManifest) (p : Piece) (b out : bytes)
  (byteRange : option ByteRange) (k : result fetch_error (stream * bool) → prog R).
Hypothesis Hout : ranged byteRange b = Some out.

Lemma slice_or_fail_ok served w :
  exec put_result (slice_or_fail byteRange served b k) [] w =
  exec put_result (k (Ok (Ok out, served))) [] w.
Proof using Hout.
  unfold slice_or_fail. destruct byteRange as [r|]; simpl in Hout; [by rewrite Hout|by simplify_eq].
Qed.

(** The program continues with the bytes, having changed at most the cache. *)
Definition delivers (prg : prog R) (w : World) : Prop :=
  ∃ served w', exec put_result prg [] w = exec put_result (k (Ok (Ok out, served))) [] w' ∧
    wd_pieces w' = wd_pieces w ∧ cache_agrees w' p b.

Lemma buffer_delivers w :
  holds w p b → cache_agrees w p b → delivers (buffer_and_verify p byteRange (Ok b) false k) w.
Proof using Hout.
  intros Hh Hc. unfold delivers, buffer_and_verify. rewrite (holds_hash _ _ _ Hh). simpl.
  destruct hasCache.
  - rewrite exec_call. cbn [do_call fst snd]. eexists _, _. split; [apply slice_or_fail_ok|].
    split; [done|]. intros b'. simpl. rewrite lookup_insert_eq. congruence.
  - eexists _, w. split; [apply slice_or_fail_ok|done].
Qed.

Lemma rejected_delivers w :
  holds w p b → cache_agrees w p b → delivers (budget_rejected p byteRange (Ok b) false k) w.
Proof using Hout.
  intros Hh Hc. unfold delivers, budget_rejected. destruct byteRange as [r|].
  - rewrite exec_call. simpl. rewrite (holds_bytes _ _ _ Hh). simpl in Hout. rewrite Hout. by exists false, w.
  - exists false, w. by simplify_eq/=.
Qed.

Lemma fetch_delivers w :
  holds w p b → cache_agrees w p b → delivers (fetchPiece mkey m p byteRange k) w.
Proof using Hout.
  intros Hh Hc.
  assert (delivers (fetch_miss mkey m p byteRange k) w) as Hmiss.
  { unfold fetch_miss, delivers. rewrite exec_call. cbn [do_call fst snd]. rewrite (holds_bytes _ _ _ Hh).
    destruct (bool_decide _ || _) eqn:Hfull; simpl.
    - destruct (_ <? piece_size m p) eqn:Hbig.
      + apply orb_true_iff in Hfull as [Hn|Hle]; [|bool_facts; lia].
        bool_facts. exists false, w. rewrite Hn in Hout. by simplify_eq/=.
      + destruct cacheWarmBudget as [budget|]; [|by apply buffer_delivers].
        destruct (budget <? _); [by apply rejected_delivers|].
        rewrite exec_call. simpl. by apply buffer_delivers.
    - apply orb_false_iff in Hfull as [Hn _]. destruct byteRange as [r|]; [|done].
      simpl in Hout. rewrite Hout. simpl. by exists false, w. }
  unfold fetchPiece. destruct hasCache; [|done]. unfold delivers. rewrite exec_call. cbn [do_call fst snd].
  destruct (wd_cache w !! pc_PieceID p) as [b'|] eqn:Hb'; simpl; [|done].
  rewrite (Hc b' Hb'). exists true, w. split; [|done].
  pose proof (slice_or_fail_ok true w) as Hs. destruct byteRange; [exact Hs|by simplify_eq/=].
Qed.

End fetch.

(** Run the fetch at the head of the program. *)
Ltac deliver Hout Hh Hc :=
  match goal with |- context [fetchPiece ?mk ?m ?p ?r ?k] =>
    let sv := fresh "served" in let w' := fresh "w'" in
    let Hw := fresh "Hw'" in let Hc' := fresh "Hc'" in
    destruct (fetch_delivers mk m p _ _ r k Hout _ Hh Hc) as (sv & w' & -> & Hw & Hc')
  end.

Lemma open_delivers {R} mkey m p b (k : option (stream * bool * bool) → prog R) w :
  holds w p b → cache_agrees w p b →
  ∃ served verify, exec put_result (openCiphertextStream mkey m p k) [] w =
    exec put_result (k (Some (Ok b, served, verify))) [] w.
Proof.
  intros Hh Hc. unfold openCiphertextStream.
  assert (∃ served verify, exec put_result (got <~ PieceGet (pc_Backend p) (pc_PieceID p) None;;
    match got with
    | Some body => k (Some (body, false, true))
    | None => tryReadRepair mkey m None (λ repaired,
        match repaired with None => k None | Some data => k (Some (Ok data, false, false)) end)
    end) [] w = exec put_result (k (Some (Ok b, served, verify))) [] w) as Hmiss.
  { rewrite exec_call. simpl. rewrite (holds_bytes _ _ _ Hh). by exists false, true. }
  destruct hasCache; [|done]. rewrite exec_call. cbn [do_call fst snd].
  destruct (wd_cache w !! pc_PieceID p) as [b'|] eqn:Hb'; simpl; [|done].
  rewrite (Hc b' Hb'). by exists true, false.
Qed.

(** ** Decryption *)

Lemma stream_frames_ok dek o fuel src i plain :
  Sdk.decrypt_frames dek o fuel src i = Ok plain →
  stream_frames dek o false fuel src i = (plain, true).
Proof.
  revert src i plain. induction fuel as [|fuel IH]; intros src i plain; simpl; [done|].
  destruct (_ =? 0); [by intros [= <-]|]. destruct (_ <? _); [done|].
  destruct (_ || _); [done|]. destruct (_ <? _); [done|].
  destruct (aead_Open _ _ _ _) as [pt|]; [|done]. destruct (_ <? _); [by intros [= <-]|].
  destruct (Sdk.decrypt_frames _ _ _ _ _) as [rest|] eqn:Hr; [|done]. intros [= <-].
  by rewrite (IH _ _ _ Hr).
Qed.

Lemma stream_decrypt_ok ct enc i plain :
  decryptFromStorage ct enc i = Some plain →
  streamDecryptFromStorage (Ok ct) enc i = Some (plain, true).
Proof.
  unfold decryptFromStorage, streamDecryptFromStorage, decryptWithDEK, Sdk.DecryptObject.
  destruct (negb hasEncryption); [done|]. destruct (UnwrapDEK _) as [dek|]; [|done].
  destruct (negb _); [done|]. cbn [stream_bytes stream_broken].
  destruct (Sdk.decrypt_frames _ _ _ _ _) as [q|] eqn:Hq; [|done]. intros [= <-]. f_equal. by apply stream_frames_ok.
Qed.

(** ** Ranges of the body *)

Definition part_of (body : bytes) (r : ByteRange) : bytes := slice (rg_Start r) (rg_End r + 1) body.

(** What the client is to receive. *)
Definition expected (d : disposition) (body : bytes) (boundary ct : string) : bytes :=
  match d with
  | Whole => body
  | Single r => slice (rg_Start r) (range_end r (blen body) + 1) body
  | Multi rs => multipart_body ((λ r, (r, part_of body r)) <$> rs) (blen body) boundary ct
  end.

Definition expected_status (d : disposition) : Z := match d with Whole => 200 | _ => 206 end.

(** The way of serving is one the parser allows for a body of this length. *)
Definition allowed (d : disposition) (size : Z) : Prop :=
  match d with
  | Whole => True
  | Single r => 0 ≤ rg_Start r < size ∧ (rg_End r < 0 ∨ rg_Start r ≤ rg_End r < size)
  | Multi rs => rs ≠ [] ∧ Forall (in_bounds size) rs
  end.

Lemma parse_allowed hdr size d :
  0 ≤ size < 2 ^ 63 → parseObjectRanges hdr size = Some d → allowed d size.
Proof.
  intros Hs. unfold parseObjectRanges. case_bool_decide; [by intros [= <-]|].
  destruct (ContainsByte _ _); simpl.
  - unfold parseHTTPRangeList. destruct (CutPrefix _ _) as [spec|]; [|done].
    destruct (parse_segments _ _) as [[|r [|r' rs]]|] eqn:Ep; [done| | |done];
      apply parse_segments_bounds in Ep; try done.
    + intros [= <-]. apply Forall_inv in Ep. unfold in_bounds in Ep. simpl. lia.
    + destruct (_ || _); intros [= <-]; done.
  - intros (r & Hr & ->)%fmap_Some. by apply parseHTTPRange_bounds in Hr.
Qed.

Lemma slice_in_bounds r body :
  in_bounds (blen body) r → slice_range r body = Some (part_of body r).
Proof.
  intros [? ?]. unfold slice_range, part_of.
  rewrite (proj2 (Z.ltb_ge (rg_End r) 0)), (proj2 (Z.leb_gt _ _)) by lia. simpl.
  by rewrite (proj2 (Z.ltb_ge _ _)), (proj2 (Z.ltb_ge _ _)) by lia.
Qed.

(** A GET that serves [body] the way [d] says. *)
Definition serves (d : disposition) (body : bytes) (boundary : string) (r : ReadResponse) : Prop :=
  rr_status r = expected_status d ∧ rr_code r = "" ∧ rr_aborted r = false ∧
  ∃ ct, rr_body r = expected d body boundary ct.

Lemma serve_buffer_ok h d m boundary body :
  m_ObjectSize m = blen body → blen body < 2 ^ 63 → allowed d (blen body) →
  serves d body boundary (serve_buffer h d m boundary body).
Proof.
  intros Hsize Hlt Hd. destruct d as [|r|rs]; simpl in *.
  - repeat split. by exists "".
  - destruct Hd as [? ?]. rewrite slice_range_ok by done. repeat split. by exists "".
  - destruct Hd as [_ Hd]. unfold writeMultipartByteRangesFromBuffer.
    destruct (existsb _ rs) eqn:He.
    + apply existsb_exists in He as (r & Hr%list_elem_of_In & Hb). rewrite Forall_forall in Hd.
      destruct (Hd r Hr). apply orb_true_iff in Hb as [[?|?]%orb_true_iff|?]; bool_facts; lia.
    + repeat split. eexists. simpl. by rewrite Hsize.
Qed.

(** ** Single-piece objects *)

Lemma serve_parts_ok h boundary ct mkey m p body rs acc w :
  m_ObjectSize m = blen body → holds w p body → cache_agrees w p body →
  Forall (in_bounds (blen body)) rs →
  (exec put_result (serve_parts h boundary ct mkey m p rs acc) [] w).1 =
  mkReadResponse 206 "" h
    (acc ++ multipart_body ((λ r, (r, part_of body r)) <$> rs) (blen body) boundary ct) false.
Proof.
  intros Hsize Hh Hc Hrs. revert acc w Hh Hc. induction Hrs as [|r rs Hr Hrs IH]; intros acc w Hh Hc; [done|].
  cbn [serve_parts]. deliver (slice_in_bounds r body Hr) Hh Hc.
  cbn [stream_bytes stream_broken]. rewrite IH; [|by eapply holds_same|done].
  f_equal. rewrite fmap_cons, multipart_body_cons. cbn [fst snd]. rewrite Hsize.
  by rewrite <- !app_assoc.
Qed.

Lemma single_multi_ok h boundary mkey m p body rs w :
  m_ObjectSize m = blen body → holds w p body → cache_agrees w p body →
  rs ≠ [] → Forall (in_bounds (blen body)) rs →
  serves (Multi rs) body boundary
    (exec put_result (serveMultipartSinglePiece h boundary mkey m p rs) [] w).1.
Proof.
  intros Hsize Hh Hc Hne Hrs. unfold serveMultipartSinglePiece.
  set (h1 := set_version m (set_etag p h)).
  set (ct := default "" (h1 !! "Content-Type")).
  set (h2 := set_multipart rs (m_ObjectSize m) boundary h1).
  destruct rs as [|r rs]; [done|]. apply Forall_cons in Hrs as [Hr Hrs].
  deliver (slice_in_bounds r body Hr) Hh Hc.
  cbn [stream_bytes stream_broken]. rewrite (serve_parts_ok _ _ _ _ _ _ body); [|done|by eapply holds_same|done..].
  repeat split. exists ct. unfold expected. rewrite fmap_cons, multipart_body_cons. cbn [fst snd].
  rewrite Hsize. by rewrite <- !app_assoc.
Qed.

(** ** Erasure-coded objects *)

Definition fetched_shard (w : World) (p : Piece) : Shard :=
  piece_shard p (if lost w p then [] else default [] (wd_pieces w !! (pc_Backend p, pc_PieceID p))).

Lemma fetch_shards_ok {R} w tol ps losses acc (k : _ → prog R) :
  Forall (λ p, 0 ≤ pc_StripeIndex p) ps →
  (∀ s, default 0 (losses !! s) + blen (filter (λ p, pc_StripeIndex p = s ∧ lost w p = true) ps) ≤ tol) →
  exec put_result (fetch_shards tol ps losses acc k) [] w =
  exec put_result (k (Ok (acc ++ (fetched_shard w <$> ps)))) [] w.
Proof.
  intros Hps. revert losses acc. induction Hps as [|p ps Hp Hps IH]; intros losses acc Htol.
  { simpl. by rewrite app_nil_r. }
  rewrite fmap_cons.
  assert (∀ code, lost w p = true →
    exec put_result
      (let n := default 0 (losses !! pc_StripeIndex p) + 1 in
       if pc_StripeIndex p <? 0 then k (Err (mkReconstructError 500 "panic"))
       else if tol <? n then k (Err (mkReconstructError 502 code))
       else fetch_shards tol ps (<[pc_StripeIndex p := n]> losses) (acc ++ [piece_shard p []]) k) [] w =
    exec put_result (k (Ok (acc ++ fetched_shard w p :: (fetched_shard w <$> ps)))) [] w) as Hlost.
  { intros code Hl. cbv zeta. rewrite (proj2 (Z.ltb_ge _ 0)) by done.
    assert (fetched_shard w p = piece_shard p []) as -> by (unfold fetched_shard; by rewrite Hl).
    pose proof (Htol (pc_StripeIndex p)) as Ht. rewrite filter_cons_True in Ht by done.
    unfold blen in Ht. rewrite length_cons in Ht. rewrite (proj2 (Z.ltb_ge tol _)) by lia.
    rewrite IH, <- app_assoc; [done|]. intros s. specialize (Htol s). rewrite filter_cons in Htol.
    destruct (decide (s = pc_StripeIndex p)) as [->|Hne].
    - rewrite lookup_insert_eq. simpl. unfold blen. lia.
    - rewrite lookup_insert_ne by done. rewrite decide_False in Htol by naive_solver. done. }
  simpl fetch_shards. destruct (negb (registered (pc_Backend p))) eqn:Hreg.
  { apply Hlost. unfold lost. by rewrite Hreg. }
  rewrite exec_call. cbn [do_call fst snd].
  destruct (wd_pieces w !! (pc_Backend p, pc_PieceID p)) as [b|] eqn:Hb.
  2:{ apply Hlost. unfold lost. by rewrite Hb, orb_true_r. }
  destruct (mismatch b p) eqn:Hm.
  { apply Hlost. unfold lost. by rewrite Hb, Hm, orb_true_r. }
  assert (lost w p = false) as Hl by (unfold lost; by rewrite Hreg, Hb, Hm).
  assert (fetched_shard w p = piece_shard p b) as -> by (unfold fetched_shard; by rewrite Hl, Hb).
  rewrite IH, <- app_assoc; [done|]. intros s. specialize (Htol s). rewrite filter_cons in Htol.
  rewrite decide_False in Htol by (intros [_ ?]; congruence). done.
Qed.

Lemma num_stripes_pos p ps :
  Forall (λ p, 0 ≤ pc_StripeIndex p) (p :: ps) → num_stripes_of (p :: ps) =? 0 = false.
Proof.
  intros [Hp _]%Forall_cons. apply Z.eqb_neq. unfold num_stripes_of. simpl.
  rewrite (proj2 (Z.ltb_lt 0 _)) by lia.
  assert (∀ n, 0 < n → 0 < foldl (λ n q, if n <? pc_StripeIndex q + 1 then pc_StripeIndex q + 1 else n) n ps) as H.
  { induction ps as [|q ps IH]; intros n Hn; simpl; [done|]. apply IH. destruct (Z.ltb_spec n (pc_StripeIndex q + 1)); lia. }
  specialize (H (pc_StripeIndex p + 1) ltac:(lia)). lia.
Qed.

Lemma erasure_ok {R} w m p0 ps registry profile encoder stored shards body
    (k : result reconstructError bytes → prog R) :
  @RSCodecLaws gw_RSCodec →
  m_Pieces m = p0 :: ps → ErasureRegistry = Some registry → pp_ErasureProfile (m_PlacementPolicy m) ≠ "" →
  EC.Registry_Lookup (pp_ErasureProfile (m_PlacementPolicy m)) registry = Some encoder →
  EC.NewEncoder profile = Ok encoder → ep_StripeSize profile + ep_DataShards profile ≤ 2 ^ 63 →
  blen stored < 2 ^ 63 - 8 → EC.Encode encoder stored = Ok shards →
  Forall2 (shard_piece_of w) (m_Pieces m) shards →
  (∀ s, blen (filter (λ p, pc_StripeIndex p = s ∧ lost w p = true) (m_Pieces m))
        ≤ ep_ParityShards profile) →
  unseals m stored body →
  exec put_result (reconstructErasureCoded m k) [] w = exec put_result (k (Ok body)) [] w.
Proof.
  intros CL Hps Hreg Hprof Hlook Hnew Hstripe Hlen Henc Hsh Htol Hun.
  destruct (EC.new_facts profile encoder Hnew Hstripe) as (Hen & _).
  assert (∀ p sh, shard_piece_of w p sh → sh ∈ shards → 0 ≤ pc_StripeIndex p) as Hnn.
  { intros p sh (-> & _) Hin.
    pose proof (EC.Encode_in_range profile encoder Hnew Hstripe stored shards sh Henc Hin) as ([? _] & _). done. }
  assert (Forall (λ p, 0 ≤ pc_StripeIndex p) (m_Pieces m)) as Hpos.
  { apply Forall_lookup. intros i p Hi. destruct (Forall2_lookup_l _ _ _ _ _ Hsh Hi) as (sh & Hi' & Hp).
    eapply Hnn; [done|by eapply list_elem_of_lookup_2]. }
  assert (sort_slice piece_less (m_Pieces m) ≡ₚ m_Pieces m) as Hperm by apply merge_sort_Permutation.
  unfold reconstructErasureCoded. rewrite Hreg, bool_decide_eq_false_2, Hlook, Hen by done.
  rewrite Hps, num_stripes_pos, <- Hps by (by rewrite <- Hps).
  rewrite (fetch_shards_ok w); [|by rewrite Hperm|].
  2:{ intros s. rewrite lookup_empty. simpl. unfold blen. rewrite Hperm. specialize (Htol s). unfold blen in Htol. lia. }
  cbn [app].
  rewrite (EC.Decode_received profile encoder Hnew Hstripe stored shards (fetched_shard w <$> m_Pieces m)); try done.
  - unfold unseals in Hun. destruct (IsGatewayEncrypted _); [by rewrite Hun|by subst].
  - apply Forall2_fmap_r, Forall2_flip. eapply Forall2_impl; [exact Hsh|].
    intros p sh (Hs & Hi & _ & Hb). split; [unfold EC.slot_of; simpl; congruence|].
    unfold fetched_shard. simpl. destruct (lost w p); [by left|]. destruct Hb as [|Hb]; [done|].
    right. by rewrite Hb.
  - by rewrite Hperm.
  - intros s. specialize (Htol s). unfold blen in *. rewrite length_filter_fmap, Hperm.
    etrans; [|exact Htol]. apply inj_le.
    assert (∀ l, (∀ p, p ∈ l → p ∈ m_Pieces m) →
      (length (filter (λ p, sh_StripeIndex (fetched_shard w p) = s ∧ sh_Bytes (fetched_shard w p) = []) l) ≤
       length (filter (λ p, pc_StripeIndex p = s ∧ lost w p = true) l))%nat) as H; [|by apply H].
    induction l as [|p l IH]; intros Hin; [done|]. rewrite !filter_cons.
    specialize (IH ltac:(intros q Hq; apply Hin; apply elem_of_cons; by right)).
    case_decide as Hd; [|case_decide; cbn [length]; lia]. destruct Hd as [Hs Hb].
    assert (lost w p = true) as Hl; [|rewrite decide_True by done; cbn [length]; lia].
    destruct (lost w p) eqn:Hl; [done|exfalso].
    destruct (proj1 (list_elem_of_lookup _ _) (Hin p ltac:(apply elem_of_cons; by left))) as [i Hi].
    destruct (Forall2_lookup_l _ _ _ _ _ Hsh Hi) as (sh & Hi' & _ & _ & _ & Hw).
    destruct Hw as [|Hw]; [congruence|]. unfold fetched_shard in Hb. rewrite Hl, Hw in Hb. simpl in Hb.
    destruct (EC.Encode_in_range profile encoder Hnew Hstripe stored shards sh Henc) as (_ & _ & Hbl);
      [by eapply list_elem_of_lookup_2|].
    pose proof (EC.sz_pos profile encoder Hnew Hstripe). rewrite Hb in Hbl. unfold blen in Hbl. simpl in Hbl. lia.
Qed.

(** ** Multipart objects *)

Lemma fetch_parts_ok {R} w ps parts acc (k : _ → prog R) :
  Forall2 (holds w) ps parts →
  exec put_result (fetch_parts ps acc k) [] w = exec put_result (k (Ok (acc ++ parts))) [] w.
Proof.
  intros Hps. revert acc. induction Hps as [|p b ps parts Hp Hps IH]; intros acc; [simpl; by rewrite app_nil_r|].
  simpl fetch_parts. rewrite exec_call. cbn [do_call fst snd].
  rewrite (holds_bytes _ _ _ Hp), (holds_hash _ _ _ Hp), IH. by rewrite <- app_assoc.
Qed.

Lemma total_length_concat bodies :
  blen (concat bodies) < 2 ^ 63 → total_length bodies = blen (concat bodies).
Proof.
  unfold total_length.
  assert (∀ acc, 0 ≤ acc → acc + blen (concat bodies) < 2 ^ 63 →
    foldl (λ n b, wrap64 (n + blen b)) acc bodies = acc + blen (concat bodies)) as H; [|intros; by apply H].
  induction bodies as [|b bodies IH]; intros acc Ha Hlt; simpl in *; [unfold blen; simpl; lia|].
  rewrite blen_app in *. assert (0 ≤ blen b ∧ 0 ≤ blen (concat bodies)) by (unfold blen; lia).
  rewrite wrap64_id by (unfold is_int64; lia). rewrite IH; lia.
Qed.

Lemma multipart_ok {R} w m ps parts bodies (k : result reconstructError (list bytes) → prog R) :
  blen (concat bodies) ≤ maxMultipartInMemoryBytes → m_ObjectSize m = blen (concat bodies) →
  sort_slice part_less (m_Pieces m) = ps → Forall2 (holds w) ps parts →
  (if IsGatewayEncrypted (enc_Mode (m_Encryption m))
   then hasEncryption = true ∧
        ∃ dek, UnwrapDEK (wrapped_of (m_Encryption m)) = Some dek ∧
          decrypt_parts dek (m_Encryption m) (aadIdentityOf m) parts = Some bodies
   else parts = bodies) →
  exec put_result (reconstructMultipart m k) [] w = exec put_result (k (Ok bodies)) [] w.
Proof.
  intros Hmax Hsize Hsort Hparts Hun. unfold reconstructMultipart. rewrite Hsize, Hsort.
  rewrite (proj2 (Z.ltb_ge _ _)) by done.
  assert (existsb (λ p, negb (registered (pc_Backend p))) ps = false) as ->.
  { apply not_true_iff_false. intros (p & Hin%list_elem_of_In & Hr)%existsb_exists.
    apply list_elem_of_lookup in Hin as [i Hi].
    destruct (Forall2_lookup_l _ _ _ _ _ Hparts Hi) as (b & _ & Hh).
    by rewrite (holds_registered _ _ _ Hh) in Hr. }
  rewrite (fetch_parts_ok w _ parts) by done. cbn [app].
  assert (total_length bodies =? blen (concat bodies) = true) as Htot.
  { apply Z.eqb_eq, total_length_concat. unfold maxMultipartInMemoryBytes in Hmax. lia. }
  destruct (IsGatewayEncrypted _).
  - destruct Hun as (-> & dek & -> & ->). simpl. by rewrite Htot, andb_false_r.
  - subst parts. by rewrite Htot, andb_false_r.
Qed.

(** ** GET *)

Lemma resolve_ok q k t b key m p ps w :
  gq_auth q = Ok t → parseBucketKey (gq_path q) = (b, key) → b ≠ "" → key ≠ "" →
  VersionLog.get (mkManifestKey t b (hashObjectKey key) (gq_versionId q)) (wd_manifests w) = Ok m →
  m_DeleteMarker m = false → m_Pieces m = p :: ps → registered (pc_Backend p) = true →
  exec put_result (resolve q k) [] w = exec put_result (k m p t b) [] w.
Proof.
  intros Ha Hp Hb Hk Hg Hdm Hps Hr. unfold resolve. rewrite Ha, Hp, !bool_decide_eq_false_2 by done.
  cbn [orb]. rewrite exec_call. cbn [do_call fst snd]. by rewrite Hg, Hdm, Hps, Hr.
Qed.

(** A request for a range with no precondition. *)
Definition unconditional (range : string) : CondHeaders := mkCondHeaders "" "" "" "" "" range.

Lemma conditionals_ok q m p range :
  gq_cond q = unconditional range →
  applyReadConditionals q m p = inr ({["Last-Modified" := FormatHTTPTime (m_CreatedAt m)]}, range).
Proof.
  intros Hc. unfold applyReadConditionals. rewrite Hc. simpl. do 2 f_equal. unfold applyIfRange. simpl.
  by rewrite orb_true_r.
Qed.

Lemma not_erasure m p : m_Pieces m = [p] → pc_ShardKind p = "" →
  isErasureCodedManifest m = false ∧ isMultipartManifest m = false.
Proof.
  intros Hp Hk. unfold isErasureCodedManifest, isMultipartManifest. rewrite Hp. simpl.
  by rewrite Hk.
Qed.

Lemma erasure_kind w m p0 ps shards :
  m_Pieces m = p0 :: ps → Forall2 (shard_piece_of w) (m_Pieces m) shards → isErasureCodedManifest m = true.
Proof.
  intros Hps Hsh. unfold isErasureCodedManifest. rewrite Hps in *.
  apply Forall2_cons_inv_l in Hsh as (sh & ? & (_ & _ & Hk & _) & _). simpl.
  by rewrite bool_decide_eq_false_2.
Qed.

Lemma multipart_first m w parts :
  isMultipartManifest m = true → Forall2 (holds w) (sort_slice part_less (m_Pieces m)) parts →
  ∃ p ps, m_Pieces m = p :: ps ∧ registered (pc_Backend p) = true.
Proof.
  unfold isMultipartManifest. intros Hm Hparts. destruct (m_Pieces m) as [|p ps] eqn:Hps; [done|].
  exists p, ps. split; [done|].
  assert (p ∈ sort_slice part_less (p :: ps)) as Hin.
  { unfold sort_slice. rewrite merge_sort_Permutation. apply elem_of_cons. by left. }
  apply list_elem_of_lookup in Hin as [i Hi].
  destruct (Forall2_lookup_l _ _ _ _ _ Hparts Hi) as (b & _ & Hh). apply (holds_registered _ _ _ Hh).
Qed.

(** GET of a represented object, whole or by ranges. *)
Lemma get_represented (CL : @RSCodecLaws gw_RSCodec) q t b key range d m body w :
  gq_auth q = Ok t → parseBucketKey (gq_path q) = (b, key) → b ≠ "" → key ≠ "" →
  VersionLog.get (mkManifestKey t b (hashObjectKey key) (gq_versionId q)) (wd_manifests w) = Ok m →
  m_DeleteMarker m = false → m_ObjectSize m = blen body → represents w m body →
  gq_cond q = unconditional range → parseObjectRanges range (blen body) = Some d →
  (d = Whole ∨ blen body ≤ MaxInMemoryObjectBytes) → blen body < 2 ^ 63 →
  serves d body (gq_boundary q) (exec put_result (Get q) [] w).1.
Proof.
  intros Ha Hp Hb Hk Hg Hdm Hsize Hrep Hc Hd Hmax Hlt.
  assert (allowed d (blen body)) as Hal by (eapply parse_allowed; [unfold blen in *; lia|done]).
  unfold Get. destruct Hrep as [p stored Hps Hkind Hh Hca Hun
    |p0 ps registry profile encoder stored shards Hps Hreg Hr Hprof Hlook Hnew Hstripe Hlen Henc Hsh Htol Hun
    |ps parts bodies Hne Hmp Hmx Hsort Hparts Hun ->].
  - erewrite resolve_ok; [|done..|apply (holds_registered _ _ _ Hh)].
    rewrite (conditionals_ok q m p range Hc). set (h := applyResponseOverrideHeaders _ _).
    destruct (not_erasure m p Hps Hkind) as [-> ->]. rewrite Hsize, Hd. unfold unseals in Hun.
    destruct (IsGatewayEncrypted _) eqn:Henc.
    + destruct d as [|r|rs].
      * unfold streamGatewayDecryptedGet.
        match goal with |- context [openCiphertextStream ?mk _ _ ?k] =>
          destruct (open_delivers mk m p stored k w Hh Hca) as (sv & vf & ->) end.
        rewrite (stream_decrypt_ok _ _ _ _ Hun). simpl. repeat split. by exists "".
      * destruct Hmax as [|Hmax]; [done|]. unfold bufferedGatewayDecryptedGet.
        rewrite Hsize, (proj2 (Z.ltb_ge _ _)) by done.
        deliver (eq_refl : ranged None stored = Some stored) Hh Hca.
        rewrite Hun. by apply serve_buffer_ok.
      * destruct Hmax as [|Hmax]; [done|]. unfold bufferedGatewayDecryptedGet.
        rewrite Hsize, (proj2 (Z.ltb_ge _ _)) by done.
        deliver (eq_refl : ranged None stored = Some stored) Hh Hca.
        rewrite Hun. by apply serve_buffer_ok.
    + subst stored. destruct d as [|r|rs].
      * deliver (eq_refl : ranged None body = Some body) Hh Hca.
        simpl. repeat split. by exists "".
      * destruct Hal as [? ?].
        deliver (slice_range_ok r body ltac:(done) ltac:(done) ltac:(done)) Hh Hca.
        simpl. repeat split. by exists "".
      * destruct Hal as [? ?]. by apply single_multi_ok.
  - erewrite resolve_ok; [|done..]. rewrite (conditionals_ok q m p0 range Hc).
    rewrite (erasure_kind w m p0 ps shards) by done. unfold getErasureCoded. rewrite Hsize, Hd.
    erewrite erasure_ok by done. by apply serve_buffer_ok.
  - rewrite <- Hsort in Hparts.
    destruct (multipart_first m w parts Hmp Hparts) as (p & ps' & Hps & Hr).
    erewrite resolve_ok; [|done..]. rewrite (conditionals_ok q m p range Hc), Hne, Hmp.
    unfold getMultipart. rewrite Hsize, Hd. rewrite (multipart_ok w m ps parts bodies) by (rewrite ?Hsort in *; done). by apply serve_buffer_ok.
Qed.

End represents.
End Object.
