(* ===== verification/Roundtrip.v ===== *)
(** * What is put can be got

    A PUT that answers 200 leaves the object in the stores, however its bytes
    were laid out (one piece, a shared deduplicated piece, erasure-coded shards)
    and whichever calls failed on the way, and a GET returns the bytes. *)

From Stdlib Require Import DecimalString.
From S2P Require Import Prelude Bytes GoStrings Ranges Manifest Conditionals ManifestStore ContentIndex ObjectLock.
From S2P Require Import ErasureCoding ClientSdk EncryptionPipeline Fabric Handlers Worm Reads Objects.
Local Open Scope Z_scope.
Local Open Scope prog_scope.

Module Roundtrip.
Import Object.

(** ** Shard identifiers *)

Definition decimal (s : string) : option N := N.of_uint <$> NilEmpty.uint_of_string s.

Lemma decimal_zeros n s : decimal (String.app (zeros n) s) = decimal s.
Proof.
  unfold decimal. induction n as [|n IH]; simpl; [done|].
  destruct (NilEmpty.uint_of_string (String.app (zeros n) s)) as [d|] eqn:E; simpl in *; done.
Qed.

Lemma decimal_FormatUint n : decimal (FormatUint n) = Some (Z.to_N n).
Proof.
  unfold decimal, FormatUint, NilZero.string_of_uint. pose proof (to_uint_nonnil (Z.to_N n)) as Hn.
  assert (match N.to_uint (Z.to_N n) with Decimal.Nil => "0" | _ => NilEmpty.string_of_uint (N.to_uint (Z.to_N n)) end
    = NilEmpty.string_of_uint (N.to_uint (Z.to_N n))) as -> by by destruct (N.to_uint (Z.to_N n)).
  rewrite NilEmpty.usu. simpl. by rewrite DecimalN.Unsigned.of_to.
Qed.

Lemma pad0_inj w n n' : 0 ≤ n → 0 ≤ n' → pad0 w n = pad0 w n' → n = n'.
Proof.
  intros ?? Heq. apply (f_equal decimal) in Heq. unfold pad0 in Heq.
  rewrite !decimal_zeros, !decimal_FormatUint in Heq. injection Heq as Heq. lia.
Qed.

Lemma pad0_digits w n : all_digits (pad0 w n) = true.
Proof.
  unfold pad0. generalize (w - String.length (FormatUint n))%nat as k.
  induction k as [|k IH]; simpl; [apply FormatUint_digits|done].
Qed.

Lemma app_inj_l p s s' : String.app p s = String.app p s' → s = s'.
Proof. intros Heq. apply (f_equal (CutPrefix p)) in Heq. rewrite !CutPrefix_app in Heq. congruence. Qed.

(** Shards of one version in different slots have different piece ids. *)
Lemma shardID_inj v sh sh' :
  0 ≤ sh_StripeIndex sh → 0 ≤ sh_StripeIndex sh' → 0 ≤ sh_ShardIndex sh → 0 ≤ sh_ShardIndex sh' →
  shardID v sh = shardID v sh' → EC.slot_of sh = EC.slot_of sh'.
Proof.
  intros ???? Heq. unfold shardID in Heq. apply app_inj_l, app_inj_l in Heq.
  assert (∀ n, ContainsByte "-" (pad0 4 n) = false) as Hno
    by (intros n; apply all_digits_no_byte; [done|apply pad0_digits]).
  apply (f_equal (cut_byte "-")) in Heq.
  assert (∀ n t, cut_byte "-" (String.app (pad0 4 n) (String.app "-p" t)) = Some (pad0 4 n, String.app "p" t)) as Hcut
    by (intros n t; exact (cut_byte_app "-" _ (String.app "p" t) (Hno n))).
  rewrite !Hcut in Heq.
  injection Heq as Hs Hi. unfold EC.slot_of. f_equal; eapply pad0_inj; eauto.
Qed.

Section roundtrip.
Context {G : Gateway} {Rd : Reader}.
Context {AL : @AEADLaws gw_AEAD} {CL : @RSCodecLaws gw_RSCodec}.

(** The key wrapper opens what it wrapped, from the fields a manifest keeps. *)
Hypothesis Hwrap : ∀ n dek wr, WrapDEK n dek = Some wr →
  UnwrapDEK (mkWrappedDEK (wd_KeyID wr) ContentAlgorithm (wd_WrappedKey wr) (wd_WrapAlgorithm wr)) = Some dek.
(** Backends store a piece under the id they are given and report its size. *)
Hypothesis Hput : ∀ be id body,
  pr_PieceID' (put_result be id body) = id ∧ pr_SizeBytes' (put_result be id body) = blen body.
Hypothesis Hnonempty : ∀ s, sha256Hex s ≠ "".
(** The registry holds encoders of valid profiles. *)
Hypothesis Hregistry : ∀ registry name encoder,
  ErasureRegistry = Some registry → EC.Registry_Lookup name registry = Some encoder →
  ∃ profile, EC.NewEncoder profile = Ok encoder ∧ ep_StripeSize profile + ep_DataShards profile ≤ 2 ^ 63.

(** ** What a manifest keeps of the object *)

(** The fields a read of the object depends on. *)
Definition core (m : ObjectManifest) :=
  (m_TenantID m, m_Bucket m, m_ObjectKeyHash m, m_VersionID m, m_ObjectSize m, m_Encryption m,
   m_PlacementPolicy m, m_Pieces m, m_DeleteMarker m).

Lemma core_metadata h m : core (applyRequestObjectMetadata h m) = core m.
Proof. done. Qed.

Lemma core_default cfg now m m' :
  applyDefaultObjectLockRetention cfg now m = Ok m' → core m' = core m.
Proof. unfold applyDefaultObjectLockRetention. intros. by repeat case_match; simplify_eq/=. Qed.

Lemma represents_core w m m' body : core m' = core m → represents w m body → represents w m' body.
Proof.
  destruct m, m'. unfold core. simpl. intros [= -> -> -> -> -> -> -> -> ->] Hrep.
  destruct Hrep; [eapply RSingle|eapply RErasure|eapply RMultipart]; done.
Qed.

(** ** Encryption *)

Lemma sealed_unseals rnd dek i mode wr body ct :
  (∀ j nonce, ent_nonce rnd j = Some nonce → blen nonce = NonceSizeX) → hasEncryption = true →
  Sdk.EncryptObject (ent_nonce rnd) dek (gatewayEncryptOptions v1EncryptionConfig i) body = Ok ct →
  WrapDEK (ent_wrap rnd) dek = Some wr →
  decryptFromStorage ct (sealed_config mode wr AADVersionV1) i = Some body.
Proof using AL Hwrap.
  intros Hrand Henc Hct Hwr. unfold decryptFromStorage, decryptWithDEK. rewrite Henc.
  pose proof (Hwrap _ _ _ Hwr : UnwrapDEK (wrapped_of (sealed_config mode wr AADVersionV1)) = Some dek) as ->.
  simpl negb. cbv iota.
  change (gatewayDecryptOptions (sealed_config mode wr AADVersionV1) i)
    with (gatewayEncryptOptions v1EncryptionConfig i).
  by erewrite (Sdk.Decrypt_Encrypt (A := gw_AEAD)) by done.
Qed.

(** The same for a body sealed under its convergent key. *)
Lemma convergent_unseals rnd dek i mode wr body ct :
  (∀ j nonce, ent_nonce rnd j = Some nonce → blen nonce = NonceSizeX) → hasEncryption = true →
  Sdk.EncryptObject (ent_nonce rnd) dek convergentOptions body = Ok ct →
  WrapDEK (ent_wrap rnd) dek = Some wr →
  decryptFromStorage ct (sealed_config mode wr "") i = Some body.
Proof using AL Hwrap.
  intros Hrand Henc Hct Hwr. unfold decryptFromStorage, decryptWithDEK. rewrite Henc.
  pose proof (Hwrap _ _ _ Hwr : UnwrapDEK (wrapped_of (sealed_config mode wr "")) = Some dek) as ->.
  simpl negb. cbv iota.
  assert (Sdk.DecryptObject dek (gatewayDecryptOptions (sealed_config mode wr "") i) ct = Ok body) as ->;
    [|done].
  exact (Sdk.Decrypt_Encrypt (A := gw_AEAD) (ent_nonce rnd) dek convergentOptions Hrand eq_refl _ _ Hct).
Qed.

Definition good_nonces (q : PutRequest) : Prop :=
  ∀ j nonce, ent_nonce (pq_rand q) j = Some nonce → blen nonce = NonceSizeX.

(** What is handed to the backend seals the body, with the record the manifest
    keeps. *)
Lemma single_unseals mode i q enc stored size body :
  good_nonces q → pq_body q = Ok body → prepareSinglePieceEncryption mode i q = Ok (enc, Ok stored, size) →
  if IsGatewayEncrypted mode
  then IsGatewayEncrypted (enc_Mode enc) = true ∧ size = blen body ∧ decryptFromStorage stored enc i = Some body
  else IsGatewayEncrypted (enc_Mode enc) = false ∧ stored = body.
Proof using AL Hwrap.
  intros Hn Hb. unfold prepareSinglePieceEncryption. rewrite Hb.
  destruct (IsGatewayEncrypted mode) eqn:Hm.
  - destruct hasEncryption eqn:He; [|done]. simpl.
    destruct (0 <=? pq_contentLength q).
    + destruct (Sdk.EncryptedSize _ _) as [|[]]; try done.
      unfold streamEncryptForStorage, GenerateDEK. rewrite He. simpl.
      destruct (ent_dek _) as [dek|]; [|done].
      destruct (Sdk.EncryptObject _ _ _ _) as [ct|[]] eqn:Hct; try done;
        destruct (WrapDEK _ _) as [wr|] eqn:Hw; try done.
      intros [= <- <- <-]. split_and!; [done..|]. by eapply sealed_unseals.
    + unfold encryptForStorage, GenerateDEK. rewrite He. simpl.
      destruct (ent_dek _) as [dek|]; [|done].
      destruct (Sdk.EncryptObject _ _ _ _) as [ct|] eqn:Hct; [|done].
      destruct (WrapDEK _ _) as [wr|] eqn:Hw; [|done].
      intros [= <- <- <-]. split_and!; [done..|]. by eapply sealed_unseals.
  - case_bool_decide as Hz; [case_bool_decide; [done|]|]; intros [= <- <- _]; [|done].
    subst mode. done.
Qed.

(** Its refusals are errors. *)
Lemma single_refuses mode i q body :
  pq_body q = Ok body →
  match prepareSinglePieceEncryption mode i q with
  | Err e | Ok (_, Err e, _) => rs_status e ≠ 200
  | _ => True
  end.
Proof.
  intros Hb. unfold prepareSinglePieceEncryption. rewrite Hb.
  repeat (case_match; simplify_eq/=; try done).
Qed.

Lemma erasure_refuses mode plaintext i q e :
  prepareErasureCodedEncryption mode plaintext i q = Err e → rs_status e ≠ 200.
Proof. unfold prepareErasureCodedEncryption. intros. repeat (case_match; simplify_eq/=; try done). Qed.

Lemma erasure_unseals mode i q enc stored body :
  good_nonces q → prepareErasureCodedEncryption mode body i q = Ok (enc, stored) →
  blen stored ≤ 45 * blen body ∧
  if IsGatewayEncrypted (enc_Mode enc) then decryptFromStorage stored enc i = Some body else stored = body.
Proof using AL Hwrap.
  intros Hn. unfold prepareErasureCodedEncryption. destruct (IsGatewayEncrypted mode) eqn:Hm.
  - destruct hasEncryption eqn:He; [|done]. simpl.
    unfold encryptForStorage, GenerateDEK. rewrite He. simpl.
    destruct (ent_dek _) as [dek|]; [|done].
    destruct (Sdk.EncryptObject _ _ _ _) as [ct|] eqn:Hct; [|done].
    destruct (WrapDEK _ _) as [wr|] eqn:Hw; [|done].
    intros [= <- <-]. split; [by eapply (Sdk.Encrypt_bound (A := gw_AEAD))|].
    simpl. rewrite Hm. by eapply sealed_unseals.
  - case_bool_decide as Hz; [case_bool_decide; [done|]|]; intros [= <- <-];
      (split; [unfold blen; lia|]); [|done].
    subst mode. done.
Qed.

(** ** The object is stored *)

Definition stored_as (t b key : string) (body : bytes) (r : Response) (w : World) : Prop :=
  ∃ l m, wd_manifests w = VersionLog.put (mkManifestKey t b (hashObjectKey key) (rs_version r)) m l ∧
    rs_version r ≠ "" ∧ m_DeleteMarker m = false ∧ m_ObjectSize m = blen body ∧ represents w m body.

(** A successful PUT stores the object. *)
Definition puts (t b key : string) (body : bytes) (p : prog Response) (w : World) : Prop :=
  wp put_result p (λ r w', rs_status r = 200 → stored_as t b key body r w') w.

Lemma verify_own b p : pc_Hash p = formatContentHash (blake3Hex b) → mismatch b p = false.
Proof.
  intros Hh. unfold mismatch, Verify. rewrite Hh, bool_decide_eq_false_2 by done.
  pose proof (CutPrefix_app "blake3:" (blake3Hex b)
    : CutPrefix "blake3:" (formatContentHash (blake3Hex b)) = Some (blake3Hex b)) as ->.
  by rewrite bool_decide_eq_true_2.
Qed.

(** The last call of every path: the manifest is stored. *)
Lemma stored_last t b key body (m m' : ObjectManifest) l w :
  core m' = core m → m_ObjectKeyHash m = hashObjectKey key → m_VersionID m ≠ "" →
  m_DeleteMarker m = false → m_ObjectSize m = blen body → represents w m body →
  stored_as t b key body (mkResponse 200 "" (m_VersionID m'))
    (set_manifests (VersionLog.put (mkManifestKey t b (m_ObjectKeyHash m') (m_VersionID m')) m' l) w).
Proof.
  intros Hc Hk Hne Hdm Hsz Hrep. pose proof Hc as Hc'. unfold core in Hc'.
  injection Hc' as _ _ Hk' Hv' Hsz' _ _ _ Hdm'.
  eexists _, m'. simpl. rewrite Hk', Hk. split_and!; [done|congruence..|].
  apply (represents_core _ m); [done|].
  destruct Hrep; [eapply RSingle|eapply RErasure|eapply RMultipart]; try done.
  - destruct H1 as [? ? ?]. by split.
  - eapply Forall2_impl; [done|]. intros p sh []. by split.
Qed.

(** *** One piece *)

Lemma single_represents w m p stored body :
  m_Pieces m = [p] → pc_ShardKind p = "" → registered (pc_Backend p) = true →
  wd_pieces w !! (pc_Backend p, pc_PieceID p) = Some stored →
  pc_Hash p = formatContentHash (blake3Hex stored) →
  cache_agrees w p stored → unseals m stored body → represents w m body.
Proof.
  intros Hp Hk Hr Hw Hh Hc Hu. eapply RSingle; [done..| |done|done].
  split; [done..|]. by apply verify_own.
Qed.

Lemma put_single_piece_stores t b key be policy q tags hd body w :
  good_nonces q → pq_body q = Ok body → registered be = true →
  wd_cache w !! newPieceID t b key (pq_now_piece q) = None →
  puts t b key body (put_single_piece t b key be policy q tags hd) w.
Proof using AL Hwrap Hput Hnonempty.
  intros Hn Hb Hr Hcache. unfold puts, put_single_piece.
  pose proof (single_refuses (pp_EncryptionMode policy)
    (mkAadIdentity t b (hashObjectKey key) (newPieceID t b key (pq_now_piece q))) q body Hb) as Herr.
  destruct (prepareSinglePieceEncryption _ _ _) as [[[enc [stored|]] size]|] eqn:Hprep; [|by simpl; intros; contradiction..].
  pose proof (single_unseals _ _ _ _ _ _ _ Hn Hb Hprep) as Hun.
  intros fault. destruct fault; [done|]. simpl.
  destruct (Hput be (newPieceID t b key (pq_now_piece q)) stored) as [Hid Hsz]. rewrite Hid, Hsz.
  destruct (_ && _) eqn:Hinc; [by intros []|].
  destruct (applyDefaultObjectLockRetention _ _ _) as [m'|] eqn:Hd; [|by intros []].
  apply core_default in Hd. rewrite core_metadata in Hd.
  intros fault. destruct fault; [by intros []|]. simpl. intros _.
  eapply stored_last; [exact Hd|done|apply Hnonempty|done|..].
  - simpl. destruct (IsGatewayEncrypted _); [by destruct Hun as (_ & -> & _)|by destruct Hun as (_ & ->)].
  - eapply (single_represents _ _ _ stored); [reflexivity|done|done|simpl..].
    + by rewrite lookup_insert_eq.
    + done.
    + intros b'. simpl. by rewrite Hcache.
    + unfold unseals. simpl. destruct (IsGatewayEncrypted (pp_EncryptionMode policy)).
      * destruct Hun as (-> & _ & ?). done.
      * by destruct Hun as (-> & ->).
Qed.

(** *** Erasure-coded shards *)

Lemma rollbackEC_ends {R} be ids (r : R) (Q : R → World → Prop) w :
  (∀ w', Q r w') → wp put_result (rollbackEC be ids (Ret r)) Q w.
Proof. intros HQ. revert w. induction ids as [|id ids IH]; intros w; simpl; [done|]. intros fault. apply IH. Qed.

(** The piece a shard becomes. *)
Definition piece_for (v be : string) (sh : Shard) : Piece :=
  shard_piece be sh (put_result be (shardID v sh) (sh_Bytes sh)).

Definition indexed (sh : Shard) : Prop := 0 ≤ sh_StripeIndex sh ∧ 0 ≤ sh_ShardIndex sh.

(** When the loop over the shards ends, every shard is on the backend. *)
Lemma put_shards_stores v be todo k (Q : Response → World → Prop) :
  (∀ w', Q (writeError 502 "BackendPutFailed") w') →
  ∀ done w,
    NoDup (EC.slot_of <$> done ++ todo) → Forall indexed (done ++ todo) →
    Forall (λ sh, wd_pieces w !! (be, shardID v sh) = Some (sh_Bytes sh)) done →
    (∀ w', wd_cache w' = wd_cache w →
       Forall (λ sh, wd_pieces w' !! (be, shardID v sh) = Some (sh_Bytes sh)) (done ++ todo) →
       wp put_result (k (piece_for v be <$> done ++ todo)) Q w') →
    wp put_result (put_shards v be todo (piece_for v be <$> done) k) Q w.
Proof using Hput.
  intros Herr. induction todo as [|sh todo IH]; intros done w Hnd Hix Hw Hk; simpl.
  { rewrite app_nil_r in Hk. by apply Hk. }
  intros fault. destruct fault; simpl; [by apply rollbackEC_ends|].
  replace ((piece_for v be <$> done) ++ _) with (piece_for v be <$> done ++ [sh]) by by rewrite fmap_app.
  assert (done ++ sh :: todo = (done ++ [sh]) ++ todo) as Happ by by rewrite <- app_assoc.
  destruct (Hput be (shardID v sh) (sh_Bytes sh)) as [Hid _]. rewrite Hid.
  apply IH; rewrite <- ?Happ; [done..| |by intros w' ?; apply Hk].
  apply Forall_app. split.
  - apply Forall_forall. intros sh' Hsh'. simpl. rewrite lookup_insert_ne; [by apply (proj1 (Forall_forall _ _) Hw)|].
    apply Forall_app in Hix as [Hd Hs%Forall_inv]. pose proof (proj1 (Forall_forall _ _) Hd _ Hsh') as Hd'.
    intros [= Heq]. apply shardID_inj in Heq; [|by first [apply Hs|apply Hd']..].
    rewrite fmap_app, NoDup_app in Hnd. destruct Hnd as (_ & Hnd & _).
    apply (Hnd (EC.slot_of sh')); [by apply list_elem_of_fmap_2|]. simpl. rewrite Heq. left.
  - apply Forall_singleton. simpl. by rewrite lookup_insert_eq.
Qed.

Lemma put_shards_start v be todo k (Q : Response → World → Prop) w :
  (∀ w', Q (writeError 502 "BackendPutFailed") w') →
  NoDup (EC.slot_of <$> todo) → Forall indexed todo →
  (∀ w', Forall (λ sh, wd_pieces w' !! (be, shardID v sh) = Some (sh_Bytes sh)) todo →
     wp put_result (k (piece_for v be <$> todo)) Q w') →
  wp put_result (put_shards v be todo [] k) Q w.
Proof using Hput. intros ????. by apply (put_shards_stores v be todo k Q ltac:(done) []); [..|intros w' _; auto]. Qed.

Lemma present_not_lost v be sh w :
  (∀ id body, pr_PieceID' (put_result be id body) = id) → registered be = true →
  wd_pieces w !! (be, shardID v sh) = Some (sh_Bytes sh) → lost w (piece_for v be sh) = false.
Proof.
  intros Hid Hr Hw. unfold lost. simpl. rewrite Hr, Hid, Hw. simpl. by apply verify_own.
Qed.

Lemma erasure_represents w m v be registry profile encoder stored shards body :
  m_Pieces m = piece_for v be <$> shards → registered be = true → ErasureRegistry = Some registry →
  pp_ErasureProfile (m_PlacementPolicy m) ≠ "" →
  EC.Registry_Lookup (pp_ErasureProfile (m_PlacementPolicy m)) registry = Some encoder →
  EC.NewEncoder profile = Ok encoder → ep_StripeSize profile + ep_DataShards profile ≤ 2 ^ 63 →
  blen stored < 2 ^ 63 - 8 → EC.Encode encoder stored = Ok shards →
  Forall (λ sh, wd_pieces w !! (be, shardID v sh) = Some (sh_Bytes sh)) shards →
  unseals m stored body → represents w m body.
Proof using CL Hput.
  intros Hps Hr Hreg Hprof Hlook Hnew Hstripe Hlen Henc Hw Hun.
  assert (∀ id b, pr_PieceID' (put_result be id b) = id) as Hid by (intros; apply Hput).
  destruct (EC.Encode_ok (C := gw_RSCodec) _ _ Hnew Hstripe stored) as (out & Henc' & Hout & _).
  destruct (EC.num_stripes_bounds _ _ Hnew Hstripe stored) as [Hn _].
  destruct (EC.new_facts _ _ Hnew Hstripe) as (_ & Hk & Hm & _).
  rewrite Henc in Henc'. injection Henc' as <-.
  assert (0 < blen shards) as Hpos by (rewrite Hout; apply Z.mul_pos_pos; lia).
  destruct shards as [|sh0 shards']; [done|].
  eapply (RErasure _ _ _ (piece_for v be sh0) (piece_for v be <$> shards') registry profile encoder stored);
    try done.
  - rewrite Hps. apply Forall2_fmap_l, Forall_Forall2_diag.
    eapply Forall_impl; [done|]. intros sh Hsh. unfold shard_piece_of. simpl. rewrite Hid.
    split_and!; [done..|by destruct (sh_Kind sh)|by right].
  - intros s. rewrite Hps, filter_none; [unfold blen; simpl; lia|].
    apply Forall_fmap. eapply Forall_impl; [done|]. intros sh Hsh [_ Hl].
    by rewrite present_not_lost in Hl.
Qed.

Lemma putErasureCoded_stores t b key be policy q tags hd body w :
  good_nonces q → pq_body q = Ok body → registered be = true → pp_ErasureProfile policy ≠ "" →
  puts t b key body (putErasureCoded t b key be policy q tags hd) w.
Proof using AL CL Hwrap Hput Hnonempty Hregistry.
  intros Hn Hb Hr Hprof. unfold puts, putErasureCoded.
  destruct ErasureRegistry as [registry|] eqn:Hreg; [|done].
  destruct (EC.Registry_Lookup _ _) as [encoder|] eqn:Hlook; [|done].
  destruct (Hregistry _ _ _ eq_refl Hlook) as (profile & Hnew & Hstripe).
  destruct (_ <? pq_contentLength q); [done|]. rewrite Hb. destruct (_ <? blen body) eqn:Hmax; [done|].
  apply Z.ltb_ge in Hmax. unfold maxECObjectSize in Hmax.
  destruct (prepareErasureCodedEncryption _ _ _ _) as [[enc stored]|e] eqn:Hprep;
    [|by apply erasure_refuses in Hprep; simpl; intros].
  destruct (erasure_unseals _ _ _ _ _ _ Hn Hprep) as [Hlen Hun].
  destruct (EC.Encode _ _) as [shards|] eqn:Henc; [|done].
  apply put_shards_start; [done|by eapply (EC.Encode_slots_NoDup (C := gw_RSCodec))| |].
  { apply Forall_forall. intros sh Hsh.
    destruct (EC.Encode_in_range (C := gw_RSCodec) _ _ Hnew Hstripe _ _ _ Henc Hsh) as ([? _] & [? _] & _).
    done. }
  intros w' Hw'. simpl.
  destruct (applyDefaultObjectLockRetention _ _ _) as [m'|] eqn:Hd; [|by apply rollbackEC_ends].
  apply core_default in Hd. rewrite core_metadata in Hd.
  intros fault. destruct fault; [by apply rollbackEC_ends|]. simpl. intros _.
  eapply stored_last; [exact Hd|done|apply Hnonempty|done|done|].
  eapply erasure_represents; try done. simpl. lia.
Qed.

(** *** A deduplicated piece *)

(** Every row of the content index leads to the bytes it is the hash of. *)
Definition index_ok (w : World) : Prop :=
  ∀ t h e, wd_index w !! (t, h) = Some e →
    ∃ b, registered (ce_Backend e) = true ∧ wd_pieces w !! (ce_Backend e, ce_PieceID e) = Some b ∧
      h = formatContentHash (blake3Hex b) ∧ ce_SizeBytes e = blen b ∧
      (∀ b', wd_cache w !! ce_PieceID e = Some b' → b' = b).

(** The bytes a deduplicated PUT stores. *)
Definition dedup_bytes (rnd : Entropy) (t mode : string) (body : bytes) : option bytes :=
  if IsGatewayEncrypted mode then
    match Sdk.DeriveConvergentDEK (blake3Sum body) (String.list_ascii_of_string t) with
    | None => None
    | Some dek =>
        match Sdk.EncryptObject (ent_nonce rnd) dek convergentOptions body with
        | Ok ct => Some ct
        | Err _ => None
        end
    end
  else Some body.

(** No stored piece has the hash of other bytes this request is about to store. *)
Definition no_collision (w : World) (stored : bytes) : Prop :=
  ∀ loc b, wd_pieces w !! loc = Some b → blake3Hex b = blake3Hex stored → b = stored.

(** The stored bytes open to the body, under any identity. *)
Definition seals (mode : string) (enc : EncryptionConfig) (size : Z) (stored body : bytes) : Prop :=
  if IsGatewayEncrypted mode
  then IsGatewayEncrypted (enc_Mode enc) = true ∧ size = blen body ∧
       ∀ i, decryptFromStorage stored enc i = Some body
  else IsGatewayEncrypted (enc_Mode enc) = false ∧ stored = body.

Lemma formatContentHash_inj h h' : formatContentHash h = formatContentHash h' → h = h'.
Proof. apply (app_inj_l "blake3:"). Qed.

Lemma deduped_manifest_stores t b key policy q res pl tags hd stored body w :
  registered (pl_Backend pl) = true → wd_pieces w !! (pl_Backend pl, pl_PieceID pl) = Some stored →
  dr_ContentHash res = formatContentHash (blake3Hex stored) → pl_Size pl = blen stored →
  (∀ b', wd_cache w !! pl_PieceID pl = Some b' → b' = stored) →
  seals (pp_EncryptionMode policy) (dr_Encryption res) (dr_PlaintextSize res) stored body →
  puts t b key body (put_deduped_manifest t b key policy q res pl tags hd) w.
Proof using Hnonempty.
  intros Hr Hw Hh Hsz Hc Hun. unfold puts, put_deduped_manifest. unfold seals in Hun.
  destruct (applyDefaultObjectLockRetention _ _ _) as [m'|] eqn:Hd; [|by intros []].
  apply core_default in Hd. rewrite core_metadata in Hd.
  intros fault. destruct fault; [by intros []|]. simpl. intros _.
  eapply stored_last; [exact Hd|done|apply Hnonempty|done|..].
  - simpl. destruct (IsGatewayEncrypted _); [by destruct Hun as (_ & -> & _)|by destruct Hun as (_ & <-)].
  - eapply (single_represents _ _ _ stored); [reflexivity|done..|].
    unfold unseals. simpl. destruct (IsGatewayEncrypted (pp_EncryptionMode policy)).
    + destruct Hun as (-> & _ & Hu). apply Hu.
    + destruct Hun as (-> & ?). done.
Qed.

(** What the lookup finds: bytes equal to those the request would store. *)
Definition found (e : ContentIndexEntry) (stored : bytes) (w : World) : Prop :=
  registered (ce_Backend e) = true ∧ wd_pieces w !! (ce_Backend e, ce_PieceID e) = Some stored ∧
  ce_SizeBytes e = blen stored ∧ (∀ b', wd_cache w !! ce_PieceID e = Some b' → b' = stored).

Lemma lookup_or_miss_wp {R} t stored ph size enc (k : result unit dedupResult → prog R) Q w :
  index_ok w → no_collision w stored →
  let h := formatContentHash (blake3Hex stored) in
  (∀ w', wp put_result (k (Err ())) Q w') →
  (∀ e w', found e stored w' → wp put_result (k (Ok (mkDedupResult true (Some e) h [] size enc ph))) Q w') →
  (wd_index w !! (t, h) = None → wp put_result (k (Ok (mkDedupResult false None h stored size enc ph))) Q w) →
  wp put_result (lookup_or_miss t h stored ph size enc k) Q w.
Proof.
  intros Hix Hnc h Herr Hhit Hmiss. assert (h = formatContentHash (blake3Hex stored)) as Hdef by done.
  clearbody h. unfold lookup_or_miss. simpl. intros fault.
  destruct fault; [apply Herr|]. unfold Index.Lookup. destruct (wd_index w !! (t, h)) as [e|] eqn:He; [|by apply Hmiss].
  destruct (Hix _ _ _ He) as (b & Hr & Hb & Hh & Hsz & Hc). rewrite Hdef in Hh.
  apply formatContentHash_inj in Hh. assert (b = stored) as -> by by eapply Hnc.
  intros fault. destruct fault; [apply Herr|]. simpl. unfold Index.IncrementRef. rewrite He. simpl.
  by apply Hhit.
Qed.

Lemma prepareDedupedPut_wp {R} q t mode body (k : result unit dedupResult → prog R) Q w :
  good_nonces q → index_ok w → (∀ st, dedup_bytes (pq_rand q) t mode body = Some st → no_collision w st) →
  (∀ w', wp put_result (k (Err ())) Q w') →
  (∀ stored enc size ph, seals mode enc size stored body →
     let h := formatContentHash (blake3Hex stored) in
     (∀ e w', found e stored w' → wp put_result (k (Ok (mkDedupResult true (Some e) h [] size enc ph))) Q w') ∧
     (wd_index w !! (t, h) = None →
        wp put_result (k (Ok (mkDedupResult false None h stored size enc ph))) Q w)) →
  wp put_result (prepareDedupedPut (pq_rand q) t mode body k) Q w.
Proof using AL Hwrap.
  intros Hn Hix Hnc Herr Hk. unfold prepareDedupedPut. unfold dedup_bytes in Hnc. unfold seals in Hk.
  destruct (IsGatewayEncrypted mode) eqn:Hm.
  - unfold prepareDedupedPutPatternB. destruct hasEncryption eqn:He; [|apply Herr]. simpl negb. cbv iota.
    destruct (Sdk.DeriveConvergentDEK _ _) as [dek|]; [|apply Herr].
    destruct (Sdk.EncryptObject _ _ _ _) as [ct|] eqn:Hct; [|apply Herr].
    destruct (WrapDEK _ _) as [wr|] eqn:Hw; [|apply Herr].
    edestruct (Hk ct (sealed_config mode wr "") (blen body)) as [Hhit Hmiss].
    { split_and!; [done|done|]. intros i. by eapply convergent_unseals. }
    apply lookup_or_miss_wp; try done. by apply Hnc.
  - case_bool_decide as Hz; [|apply Herr]. subst mode.
    edestruct (Hk body (mkEncryptionConfig StrictZK ContentAlgorithm "" [] "" false "") (blen body)) as [Hhit Hmiss];
      [done|].
    apply lookup_or_miss_wp; try done. by apply Hnc.
Qed.

Lemma putDeduped_stores t b key be policy q tags hd body w :
  good_nonces q → pq_body q = Ok body → registered be = true →
  wd_cache w !! newPieceID t b key (pq_now_piece q) = None → index_ok w →
  (∀ st, dedup_bytes (pq_rand q) t (pp_EncryptionMode policy) body = Some st → no_collision w st) →
  puts t b key body (putDeduped t b key be policy q tags hd) w.
Proof using AL Hwrap Hput Hnonempty.
  intros Hn Hb Hr Hcache Hix Hnc. unfold puts, putDeduped. destruct (_ && _); [done|]. rewrite Hb.
  apply prepareDedupedPut_wp; [done..|]. intros stored enc size ph Hseal h. split; simpl.
  - intros e w' (? & ? & ? & ?). by eapply deduped_manifest_stores.
  - intros Hnone fault. destruct fault; [done|]. simpl.
    destruct (Hput be (newPieceID t b key (pq_now_piece q)) stored) as [Hid Hsz]. rewrite !Hid, Hsz.
    intros fault. destruct fault; [by intros []|]. simpl. unfold Index.Register. simpl. fold h. rewrite Hnone. simpl.
    eapply deduped_manifest_stores; simpl; try done.
    + by rewrite lookup_insert_eq.
    + by rewrite Hcache.
Qed.

(** ** PUT, then GET *)

Lemma lock_overwrite_wp t b key lockcfg versioning now bypass k (Q : Response → World → Prop) w :
  (∀ status code w', status ≠ 200 → Q (writeError status code) w') → wp put_result k Q w →
  wp put_result (objectLockOverwrite t b key lockcfg versioning now bypass Ret k) Q w.
Proof.
  intros Herr Hk. unfold objectLockOverwrite.
  destruct lockcfg as [[cfg|]|]; [|by apply Herr|done].
  destruct (negb _); [done|]. destruct versioning; [|by apply Herr].
  case_bool_decide; [done|]. intros fault.
  destruct (do_call put_result fault (ManGet _) w).1 as [cur|[]] eqn:Hc; simpl.
  all: by first [destruct (objectLockBlocksDelete _ _ _); [by apply Herr|by destruct fault]
                |apply Herr|destruct fault].
Qed.

(** A request for the key with a body, in a state of the stores in which the
    index and the cache agree with the backends, the random source delivers whole
    nonces and no hash collides. *)
Record put_ready (q : PutRequest) (t b key : string) (body : bytes) (w : World) : Prop := {
  pr_auth : pq_auth q = Ok t;
  pr_path : parseBucketKey (pq_path q) = (b, key);
  pr_body : pq_body q = Ok body;
  pr_refusals : ∀ e, pq_tags q = Err e ∨ pq_headers q = Err e → rs_status e ≠ 200;
  pr_nonces : good_nonces q;
  pr_uncached : wd_cache w !! newPieceID t b key (pq_now_piece q) = None;
  pr_index : index_ok w;
  pr_collision : ∀ mode st, dedup_bytes (pq_rand q) t mode body = Some st → no_collision w st
}.

Lemma Put_stores q t b key body w :
  put_ready q t b key body w →
  wp put_result (Put q) (λ r w', rs_status r = 200 → b ≠ "" ∧ key ≠ "" ∧ stored_as t b key body r w') w.
Proof using AL CL Hwrap Hput Hnonempty Hregistry.
  intros [Ha Hp Hb Href Hn Hcache Hix Hnc]. unfold Put. rewrite Ha.
  destruct (pq_unverified q); [done|]. rewrite Hp.
  case_bool_decide as Hbe; [done|]. case_bool_decide as Hke; [done|]. simpl.
  destruct (pq_tags q) as [tags|e] eqn:Ht; [|intros ?; by destruct (Href e (or_introl eq_refl))].
  destruct (pq_headers q) as [hd|e] eqn:Hh; [|intros ?; by destruct (Href e (or_intror eq_refl))].
  apply lock_overwrite_wp; [by intros|].
  destruct (pq_placement q) as [[be policy]|]; [|done].
  destruct (registered be) eqn:Hr; [|done]. destruct (pq_residency q); [|done]. simpl.
  destruct (effectiveEncryptionMode _ _) as [mode|] eqn:Hmode; [|done].
  eapply (wp_mono _ _ (λ r w', rs_status r = 200 → stored_as t b key body r w'));
    [by intros r w' Hs H200; split_and!; [..|apply Hs]|].
  case_bool_decide as Hprof; simpl.
  - destruct (_ && _); [by apply putDeduped_stores; [..|apply Hnc]|by apply put_single_piece_stores].
  - by apply putErasureCoded_stores.
Qed.

Lemma find_put_eq k m l : VersionLog.find k (VersionLog.put k m l) = Some m.
Proof.
  unfold VersionLog.find, VersionLog.put. rewrite list_to_map_app, lookup_union_r; [simpl; apply lookup_insert_eq|].
  apply not_elem_of_list_to_map_1. intros ([] & -> & Hin)%list_elem_of_fmap.
  apply list_elem_of_filter in Hin as [Hk _]. by destruct Hk.
Qed.

Lemma get_put_version t b h v v' m l :
  v ≠ "" → v' = "" ∨ v' = v →
  VersionLog.get (mkManifestKey t b h v') (VersionLog.put (mkManifestKey t b h v) m l) = Ok m.
Proof.
  intros Hv [-> | ->]; [|by apply Worm.get_exact; [|apply find_put_eq]].
  unfold VersionLog.get, VersionLog.resolve. simpl. rewrite VersionLog.newest_put, bool_decide_eq_true_2 by done.
  simpl. by rewrite find_put_eq.
Qed.


(** ** Losses after the PUT *)

(** The pieces of the version are as they were, or a read of them fails or finds
    bytes of another hash; no stripe has more of the latter than parity shards. *)
Record degraded (m : ObjectManifest) (encoder : EC.Encoder) (w w' : World) : Prop := {
  dg_manifests : wd_manifests w' = wd_manifests w;
  dg_pieces : Forall (λ p, lost w' p = true ∨
    wd_pieces w' !! (pc_Backend p, pc_PieceID p) = wd_pieces w !! (pc_Backend p, pc_PieceID p)) (m_Pieces m);
  dg_losses : ∀ s, blen (filter (λ p, pc_StripeIndex p = s ∧ lost w' p = true) (m_Pieces m))
    ≤ ep_ParityShards (EC.en_profile encoder)
}.

Lemma degraded_represents w w' m body registry encoder :
  isErasureCodedManifest m = true → ErasureRegistry = Some registry →
  EC.Registry_Lookup (pp_ErasureProfile (m_PlacementPolicy m)) registry = Some encoder →
  degraded m encoder w w' → represents w m body → represents w' m body.
Proof.
  intros Hec Hreg Hlook [_ Hps Hloss] Hrep.
  destruct Hrep as [p stored Hp Hk|p0 ps reg profile enc stored shards Hp Hr Hreg' Hprof Hlook' Hnew Hstripe
    Hlen Henc Hsh _ Hun|ps parts bodies Hne]; [|simplify_eq|congruence].
  { by rewrite (proj1 (not_erasure _ _ Hp Hk)) in Hec. }
  destruct (EC.new_facts _ _ Hnew Hstripe) as (Hprofile & _). rewrite Hprofile in Hloss.
  eapply RErasure; try done.
  apply Forall2_same_length_lookup_2; [by eapply Forall2_length|]. intros i p sh Hi Hj.
  destruct (Forall2_lookup_lr _ _ _ _ _ _ Hsh Hi Hj) as (? & ? & ? & Hb).
  unfold shard_piece_of. split_and!; [done..|].
  destruct (Forall_lookup_1 _ _ _ _ Hps Hi) as [?|Heq]; [by left|]. unfold lost. rewrite Heq. done.
Qed.

(** C5: an erasure-coded object survives its losses. After a PUT that answers 200,
    delete, corrupt or make unreadable any shards of the version, as many in each
    stripe as the profile has parity shards: a GET still answers 200 or 206 with
    exactly the bytes that were put. *)
Theorem erasure_put_survives_losses q t b key body faults w w'' m registry encoder g range d :
  put_ready q t b key body w →
  let '(r, w') := exec put_result (Put q) faults w in
  rs_status r = 200 →
  VersionLog.get (mkManifestKey t b (hashObjectKey key) (gq_versionId g)) (wd_manifests w') = Ok m →
  isErasureCodedManifest m = true → ErasureRegistry = Some registry →
  EC.Registry_Lookup (pp_ErasureProfile (m_PlacementPolicy m)) registry = Some encoder →
  degraded m encoder w' w'' →
  gq_auth g = Ok t → parseBucketKey (gq_path g) = (b, key) →
  gq_versionId g = "" ∨ gq_versionId g = rs_version r →
  gq_cond g = unconditional range → parseObjectRanges range (blen body) = Some d →
  (d = Whole ∨ blen body ≤ MaxInMemoryObjectBytes) → blen body < 2 ^ 63 →
  serves d body (gq_boundary g) (exec put_result (Get g) [] w'').1.
Proof using AL CL Hwrap Hput Hnonempty Hregistry.
  intros Hq. pose proof (wp_exec _ _ _ faults _ (Put_stores _ _ _ _ _ _ Hq)) as Hs.
  destruct (exec put_result (Put q) faults w) as [r w']. simpl in Hs.
  intros H200 Hg Hec Hreg Hlook Hdeg Ha Hp Hv Hc Hd Hmax Hlt.
  destruct (Hs H200) as (Hb & Hk & l & m' & Hl & Hne & Hdm & Hsz & Hrep).
  rewrite Hl, (get_put_version _ _ _ _ _ _ _ Hne Hv) in Hg. injection Hg as ->.
  eapply (get_represented CL); [done..| | | | |done|done|done|done]; [|done|done|by eapply degraded_represents].
  rewrite (dg_manifests _ _ _ _ Hdeg), Hl. by apply get_put_version.
Qed.

End roundtrip.
(** ** Examples *)

Section examples.
#[local] Existing Instance Worm.ex_gateway.
#[local] Existing Instance EC.xor_codec_laws.
#[local] Existing Instance Sdk.plain_aead_laws.

#[local] Instance ex_reader : Reader := {
  ParseTime _ := None;
  FormatHTTPTime _ := "";
  hasCache := true;
  hasReadRepair := true;
  cacheWarmBudget := Some (64 * 1024 * 1024)
}.

(** A managed-encrypted upload laid out over two data shards and one parity shard. *)
Definition ex_policy : PlacementPolicy :=
  mkPlacementPolicy [] [] 0 false "2+1" ManagedEncrypted None None.
Definition ex_body : bytes := String.list_ascii_of_string "hello".
Definition ex_put : PutRequest :=
  mkPutRequest (Ok "t1") false "/photos/cat" (Ok ex_body) 5 "" "" (Ok ∅)
    (Ok (mkObjectHeaders "" "" "" "" "" "" ∅)) None (Ok "Enabled") (Ok ("wasabi", ex_policy)) true None
    1 1 1 1 1 (mkEntropy (Some Sdk.ex_dek) Sdk.ex_nonce []).
Definition ex_world : World := mkWorld [] ∅ ∅ ∅.
Definition ex_get (range : string) : GetRequest :=
  mkGetRequest (Ok "t1") "/photos/cat" "" (unconditional range) ∅ "B".

Lemma ex_wrap n dek wr : WrapDEK n dek = Some wr →
  UnwrapDEK (mkWrappedDEK (wd_KeyID wr) ContentAlgorithm (wd_WrappedKey wr) (wd_WrapAlgorithm wr)) = Some dek.
Proof. by intros [= <-]. Qed.

Lemma ex_registry registry name encoder :
  ErasureRegistry = Some registry → EC.Registry_Lookup name registry = Some encoder →
  ∃ profile, EC.NewEncoder profile = Ok encoder ∧ ep_StripeSize profile + ep_DataShards profile ≤ 2 ^ 63.
Proof.
  intros [= <-]. unfold EC.Registry_Lookup. intros [_ <-]%lookup_singleton_Some. exists EC.ex_profile. split; [done|]. vm_compute. discriminate.
Qed.

Lemma ex_ready : put_ready ex_put "t1" "photos" "cat" ex_body ex_world.
Proof.
  split; try done.
  - by intros e [|].
  - intros j nonce. apply Sdk.ex_nonce_length.
Qed.


(** The first shard of the first stripe is deleted. *)
Definition ex_stored : World := (exec put_result (Put ex_put) [] ex_world).2.
Definition ex_lossy : World :=
  set_pieces (delete ("wasabi", String.app (newPieceID "t1" "photos" "cat" 1) "-s0000-p000")
                (wd_pieces ex_stored)) ex_stored.
Definition ex_manifest : ObjectManifest :=
  match VersionLog.get (mkManifestKey "t1" "photos" (hashObjectKey "cat") "") (wd_manifests ex_stored) with
  | Ok m => m
  | Err _ => Worm.ex_version
  end.

Lemma delete_degraded (m : ObjectManifest) encoder w loc :
  let w' := set_pieces (delete loc (wd_pieces w)) w in
  blen (filter (λ p, lost w' p = true) (m_Pieces m)) ≤ ep_ParityShards (EC.en_profile encoder) →
  degraded m encoder w w'.
Proof.
  intros w' Hloss. split; [done| |].
  - apply Forall_forall. intros p _. destruct (decide (loc = (pc_Backend p, pc_PieceID p))) as [->|].
    + left. unfold lost. simpl. rewrite lookup_delete_eq. apply orb_true_r.
    + right. simpl. by rewrite lookup_delete_ne.
  - intros s. rewrite <- list_filter_filter. unfold blen in *.
    etrans; [apply inj_le, length_filter|done].
Qed.

Lemma ex_degraded : degraded ex_manifest EC.ex_encoder ex_stored ex_lossy.
Proof. apply delete_degraded. vm_compute. discriminate. Qed.

Lemma erasure_put_survives_losses_witness :
  serves Whole ex_body "B" (exec put_result (Get (ex_get "")) [] ex_lossy).1.
Proof.
  pose proof (erasure_put_survives_losses ex_wrap (λ _ _ _, conj eq_refl eq_refl) Worm.ex_nonempty ex_registry
    ex_put "t1" "photos" "cat" ex_body [] ex_world ex_lossy ex_manifest {["2+1" := EC.ex_encoder]} EC.ex_encoder
    (ex_get "") "" Whole ex_ready) as H.
  assert (rs_status (exec put_result (Put ex_put) [] ex_world).1 = 200) as H200 by (vm_compute; reflexivity).
  pose proof ex_degraded as Hdeg. unfold ex_stored in Hdeg.
  assert (VersionLog.get (mkManifestKey "t1" "photos" (hashObjectKey "cat") "")
    (wd_manifests (exec put_result (Put ex_put) [] ex_world).2) = Ok ex_manifest) as Hg by (vm_compute; reflexivity).
  destruct (exec put_result (Put ex_put) [] ex_world) as [r w'].
  apply H; [exact H200|exact Hg|vm_compute; reflexivity|reflexivity|vm_compute; reflexivity|exact Hdeg
    |done|done|by left|done|done|by left|vm_compute; reflexivity].
Defined.

End examples.

End Roundtrip.
