(* ===== verification/Tagging.v ===== *)
(** * Object tags and object metadata of a request

    The tag sets of api/s3compat/tagging_handler.go (limits, the x-amz-tagging
    header, the tagging directive of a copy, the ?tagging handlers) and the
    metadata headers of api/s3compat/object_metadata.go. The headers of a request
    are a map from lower-case names to values. *)

From S2P Require Import Prelude Bytes GoStrings Ranges Manifest ManifestStore ContentIndex ObjectLock.
From S2P Require Import ErasureCoding ClientSdk EncryptionPipeline Fabric Handlers Worm Reads.
Local Open Scope Z_scope.
Local Open Scope prog_scope.

Abbreviation Header := (gmap string (list string)).

(** [Header.Get] *)
Definition Header_Get (name : string) (h : Header) : string := Values_Get name h.

Module Tags.

Definition maxObjectTags : Z := 10.
Definition maxTagKeyLength : Z := 128.
Definition maxTagValueLength : Z := 256.

Record tagEntry := mkTagEntry { te_Key : string; te_Value : string }.

(** The loop of [validateTagSet]. *)
Fixpoint validate_entries (entries : list tagEntry) (tags : gmap string string)
    : result Response (gmap string string) :=
  match entries with
  | [] => Ok tags
  | e :: entries =>
      if bool_decide (te_Key e = "") || (maxTagKeyLength <? slen (te_Key e)) then Err (writeError 400 "InvalidTag")
      else if maxTagValueLength <? slen (te_Value e) then Err (writeError 400 "InvalidTag")
      else match tags !! te_Key e with
           | Some _ => Err (writeError 400 "InvalidTag")
           | None => validate_entries entries (<[te_Key e := te_Value e]> tags)
           end
  end.

Definition validateTagSet (entries : list tagEntry) : result Response (gmap string string) :=
  if maxObjectTags <? Z.of_nat (length entries) then Err (writeError 400 "BadRequest")
  else validate_entries entries ∅.

(** The pairs of a header as entries; a repeated key is refused. Go visits the
    map in any order, which no outcome depends on. *)
Fixpoint header_entries (values : list (string * list string)) : option (list tagEntry) :=
  match values with
  | [] => Some []
  | (k, [v]) :: values => cons (mkTagEntry k v) <$> header_entries values
  | _ :: _ => None
  end.

Definition parseObjectTaggingHeader (header : string) : result Response (gmap string string) :=
  let header := TrimSpace header in
  if bool_decide (header = "") then Ok ∅
  else
    let '(values, bad) := ParseQuery header in
    if bad : bool then Err (writeError 400 "InvalidArgument")
    else match header_entries (map_to_list values) with
         | None => Err (writeError 400 "InvalidTag")
         | Some entries => validateTagSet entries
         end.

Definition requestObjectTags (header : string) : gmap string string :=
  match parseObjectTaggingHeader header with Ok tags => tags | Err _ => ∅ end.

Definition resolveCopyTags (hdr : Header) (srcTags : gmap string string)
    : result Response (gmap string string) :=
  let directive := Header_Get "x-amz-tagging-directive" hdr in
  if bool_decide (directive = "") || bool_decide (directive = "COPY") then Ok srcTags
  else if bool_decide (directive = "REPLACE") then parseObjectTaggingHeader (Header_Get "x-amz-tagging" hdr)
  else Err (writeError 400 "InvalidArgument").

Definition copyDestinationTags (hdr : Header) (srcTags : gmap string string) : gmap string string :=
  match resolveCopyTags hdr srcTags with Ok tags => tags | Err _ => ∅ end.

(** The entries of a tag set, in the order of their keys. *)
Definition tagsToEntries (tags : gmap string string) : list tagEntry :=
  sort_slice (key_less te_Key String.ltb) ((λ kv, mkTagEntry kv.1 kv.2) <$> map_to_list tags).

(** ** Metadata headers *)

Definition maxUserMetadataBytes : Z := 2 * 1024.

(** The key of an x-amz-meta-* header. *)
Definition user_key (name : string) : option string :=
  match CutPrefix userMetadataHeaderPrefix name with
  | Some key => if bool_decide (key = "") then None else Some key
  | None => None
  end.

Definition validateRequestObjectMetadata (h : Header) : option Response :=
  let total := map_fold (λ name vals total,
    match user_key name with
    | None => total
    | Some key => total + slen key + Z.of_nat (sum_list_with String.length vals)
    end) 0 h in
  if maxUserMetadataBytes <? total then Some (writeError 400 "MetadataTooLarge") else None.

(** [strings.Join] with a comma *)
Fixpoint join_comma (vals : list string) : string :=
  match vals with
  | [] => ""
  | [v] => v
  | v :: vals => String.app v (String.app "," (join_comma vals))
  end.

Definition collectUserMetadata (h : Header) : gmap string string :=
  map_fold (λ name vals out,
    match vals, user_key name with
    | [], _ | _, None => out
    | _, Some key => <[key := join_comma vals]> out
    end) ∅ h.

(** The system headers and the user metadata [applyRequestObjectMetadata] takes
    from a request. *)
Definition request_metadata (h : Header) : ObjectHeaders :=
  mkObjectHeaders (Header_Get "content-type" h) (Header_Get "content-encoding" h)
    (Header_Get "content-disposition" h) (Header_Get "content-language" h)
    (Header_Get "cache-control" h) (Header_Get "expires" h) (collectUserMetadata h).

Definition metadataDirectiveHeader : string := "x-amz-metadata-directive".

Definition validateCopyMetadataDirective (hdr : Header) : option Response :=
  let directive := Header_Get metadataDirectiveHeader hdr in
  if bool_decide (directive = "") || bool_decide (directive = "COPY") then None
  else if bool_decide (directive = "REPLACE") then validateRequestObjectMetadata hdr
  else Some (writeError 400 "InvalidArgument").

(** The metadata a manifest has. *)
Definition manifest_metadata (m : ObjectManifest) : ObjectHeaders :=
  mkObjectHeaders (m_ContentType m) (m_ContentEncoding m) (m_ContentDisposition m) (m_ContentLanguage m)
    (m_CacheControl m) (m_Expires m) (m_UserMetadata m).

Definition applyCopyObjectMetadata (hdr : Header) (src m : ObjectManifest) : ObjectManifest :=
  if bool_decide (Header_Get metadataDirectiveHeader hdr = "REPLACE")
  then applyRequestObjectMetadata (request_metadata hdr) m
  else applyRequestObjectMetadata (manifest_metadata src) m.

Section handlers.
Context {G : Gateway}.

(** [GetObjectTagging]: the entries of the document and the version, or the error. *)
Definition GetObjectTagging (q : AmendRequest) : prog (result Response (list tagEntry * string)) :=
  match authObjectTagging q with
  | Err e => Ret (Err e)
  | Ok (tenantID, bucket, key) =>
      manifest <~ ManGet (mkManifestKey tenantID bucket (hashObjectKey key) (aq_versionId q));;
      match manifest with
      | Err e => Ret (Err (manifestGetError e))
      | Ok manifest => Ret (Ok (tagsToEntries (m_Tags manifest), m_VersionID manifest))
      end
  end.

End handlers.

(** ** Valid tag sets *)

Lemma validate_entries_spec entries tags out :
  validate_entries entries tags = Ok out ↔
  out = list_to_map ((λ e, (te_Key e, te_Value e)) <$> entries) ∪ tags ∧
  NoDup (te_Key <$> entries) ∧
  Forall (λ e, tags !! te_Key e = None ∧ te_Key e ≠ "" ∧ slen (te_Key e) ≤ maxTagKeyLength ∧
               slen (te_Value e) ≤ maxTagValueLength) entries.
Proof.
  revert tags. induction entries as [|e entries IH]; intros tags; simpl.
  { rewrite (left_id_L ∅ (∪)). split; [intros [= ->]; by repeat constructor|by intros [-> _]]. }
  rewrite NoDup_cons, Forall_cons. destruct (_ || _) eqn:Hk.
  { split; [done|]. intros (_ & _ & (_ & ? & ? & _) & _). apply orb_true_iff in Hk as [Hk|Hk]; bool_facts; [done|lia]. }
  apply orb_false_iff in Hk as [Hne Hlen]. bool_facts.
  destruct (Z.ltb_spec maxTagValueLength (slen (te_Value e))); [split; [done|]; intros (_ & _ & (_ & _ & _ & ?) & _); lia|].
  destruct (tags !! te_Key e) eqn:Ht; [split; [done|]; by intros (_ & _ & (? & _) & _)|].
  rewrite IH. split.
  - intros (-> & Hnd & Hall). rewrite Forall_forall in Hall.
    assert (te_Key e ∉ te_Key <$> entries) as Hni.
    { intros (e' & He' & Hin)%list_elem_of_fmap. destruct (Hall e' Hin) as [Hl _].
      rewrite He', lookup_insert_eq in Hl. done. }
    split_and!; [|done|done|done..| ].
    + rewrite <- insert_union_l, <- insert_union_r; [done|].
      apply not_elem_of_list_to_map_1. by rewrite <- list_fmap_compose.
    + apply Forall_forall. intros e' Hin. destruct (Hall e' Hin) as (Hl & ?). split; [|done].
      rewrite lookup_insert_ne in Hl; [done|]. intros Heq. apply Hni. rewrite Heq. by apply list_elem_of_fmap_2.
  - intros (-> & [Hni Hnd] & _ & Hall). split_and!; [|done|].
    + rewrite <- insert_union_l, <- insert_union_r; [done|].
      apply not_elem_of_list_to_map_1. by rewrite <- list_fmap_compose.
    + eapply Forall_impl; [apply Forall_and; split; [exact Hall|apply Forall_forall; intros x; exact (λ H, H)]|].
      intros e' [(? & ?) Hin]. split; [|done]. rewrite lookup_insert_ne; [done|]. intros Heq. apply Hni. rewrite Heq.
      by apply list_elem_of_fmap_2.
Qed.

Lemma validateTagSet_Ok entries tags :
  validateTagSet entries = Ok tags →
  tags = list_to_map ((λ e, (te_Key e, te_Value e)) <$> entries) ∧ NoDup (te_Key <$> entries).
Proof.
  unfold validateTagSet. destruct (_ <? _); [done|]. rewrite validate_entries_spec, (right_id_L ∅ (∪)).
  by intros (-> & ? & _).
Qed.

Lemma validate_refuses entries e : validateTagSet entries = Err e → rs_status e ≠ 200.
Proof.
  unfold validateTagSet. destruct (_ <? _); [by intros [= <-]|]. generalize (∅ : gmap string string).
  induction entries as [|x entries IH]; intros tags; simpl; [done|].
  destruct (_ || _); [by intros [= <-]|]. destruct (_ <? _); [by intros [= <-]|].
  destruct (tags !! _); [by intros [= <-]|]. apply IH.
Qed.

(** Reading back a validated set gives its entries in the order of the keys. *)
Lemma tagsToEntries_validated entries tags :
  validateTagSet entries = Ok tags → tagsToEntries tags = sort_slice (key_less te_Key String.ltb) entries.
Proof.
  intros [-> Hnd]%validateTagSet_Ok. unfold tagsToEntries.
  rewrite (sort_slice_order_irrelevant te_Key String.ltb _ entries); [done| |].
  - rewrite <- list_fmap_compose. change (te_Key ∘ _) with (@fst string string).
    rewrite map_to_list_to_map; rewrite <- list_fmap_compose; done.
  - rewrite map_to_list_to_map by (by rewrite <- list_fmap_compose).
    rewrite <- list_fmap_compose. rewrite (list_fmap_ext _ id); [by rewrite list_fmap_id|]. by intros ? [].
Qed.

Section roundtrip.
Context {G : Gateway}.

(** An amendment is what the next read of the version, or of the key, finds. *)
Lemma get_amended l key m m' :
  Worm.versions_match l → VersionLog.get key l = Ok m → m_VersionID m' = m_VersionID m →
  let k := mkManifestKey (k_TenantID key) (k_Bucket key) (k_ObjectKeyHash key) (m_VersionID m) in
  VersionLog.get key (VersionLog.amend k m' l) = Ok m'.
Proof.
  intros Hv Hget Hid k. pose proof (Worm.get_Ok _ _ _ Hv Hget) as Hf. fold k in Hf.
  revert Hget. unfold VersionLog.get.
  assert (VersionLog.resolve key (VersionLog.amend k m' l) = VersionLog.resolve key l) as ->.
  { unfold VersionLog.resolve. by rewrite VersionLog.newest_amend. }
  destruct (VersionLog.resolve key l) as [k'|] eqn:Hr; simpl; [|done].
  destruct (VersionLog.find k' l) as [m0|] eqn:Hf'; [|done]. intros [= ->].
  assert (k' = k) as ->; [|by rewrite Worm.find_amend, bool_decide_eq_true_2, Hf].
  destruct (Hv _ _ (Worm.find_elem _ _ _ Hf')) as [Hvid _]. unfold k. rewrite Hvid.
  unfold VersionLog.resolve in Hr. case_bool_decide.
  - apply VersionLog.newest_Some in Hr as [Hof _]. unfold latest_of in Hof. destruct k'; by simplify_eq/=.
  - injection Hr as <-. by destruct key.
Qed.

(** A tag set that was stored is read back. A PUT of a tagging document
    that answers 200, whichever calls failed, is followed by a GET that returns
    exactly the entries of the document in the order of their keys, with the
    version id the PUT named, for an explicit version and for the current one. *)
Theorem tagging_roundtrip q entries faults w :
  Worm.versions_match (wd_manifests w) → (∀ e, aq_auth q = Err e → rs_status e ≠ 200) →
  let '(r, w') := exec put_result (PutObjectTagging q (validateTagSet entries)) faults w in
  rs_status r = 200 →
  (exec put_result (GetObjectTagging q) [] w').1 =
    Ok (sort_slice (key_less te_Key String.ltb) entries, rs_version r).
Proof.
  intros Hv Hauth. destruct (exec _ (PutObjectTagging _ _) _ _) as [r w'] eqn:He. intros H200.
  pose proof (wp_exec put_result (PutObjectTagging q (validateTagSet entries))
    (λ r w', rs_status r = 200 → (exec put_result (GetObjectTagging q) [] w').1 =
       Ok (sort_slice (key_less te_Key String.ltb) entries, rs_version r)) faults w) as Hwp.
  rewrite He in Hwp. simpl in Hwp. apply Hwp; [|done]. clear He Hwp H200.
  unfold PutObjectTagging, GetObjectTagging.
  destruct (authObjectTagging q) as [[[t b] key]|e] eqn:Ha.
  2:{ simpl. intros Hs. unfold authObjectTagging in Ha. destruct (aq_auth q) as [t|e'] eqn:Hq.
      - by repeat case_match; simplify_eq/=.
      - simplify_eq. by destruct (Hauth e). }
  destruct (validateTagSet entries) as [tags|e] eqn:Htags.
  2:{ simpl. intros Hs. exfalso. by apply (validate_refuses entries e). }
  intros fault. destruct fault; [done|]. cbn [do_call fst snd].
  destruct (VersionLog.get _ _) as [m|e] eqn:Hget; [|by destruct e].
  intros fault. destruct fault; [done|]. cbn [do_call fst snd]. unfold VersionLog.update.
  pose proof (Worm.get_Ok _ _ _ Hv Hget) as Hf. simpl in Hf. rewrite Hf. simpl. intros _.
  pose proof (get_amended _ _ _ (set_tags tags m) Hv Hget eq_refl) as Hg. simpl in Hg. rewrite Hg. simpl.
  by rewrite (tagsToEntries_validated _ _ Htags).
Qed.

End roundtrip.

Section examples.
#[local] Existing Instance Worm.ex_gateway.

Lemma tagging_roundtrip_witness :
  let entries := [mkTagEntry "team" "storage"; mkTagEntry "env" "prod"] in
  let '(r, w') := exec put_result (PutObjectTagging (Worm.ex_amend "v1" "" 0) (validateTagSet entries)) []
                    (Worm.ex_log Worm.ex_version) in
  rs_status r = 200 ∧
  (exec put_result (GetObjectTagging (Worm.ex_amend "v1" "" 0)) [] w').1 =
    Ok ([mkTagEntry "env" "prod"; mkTagEntry "team" "storage"], "v1").
Proof.
  intros entries.
  pose proof (tagging_roundtrip (Worm.ex_amend "v1" "" 0) entries [] (Worm.ex_log Worm.ex_version)
    (Worm.ex_versions_match Worm.ex_version eq_refl) ltac:(intros e; discriminate)) as H.
  assert (rs_status (exec put_result (PutObjectTagging (Worm.ex_amend "v1" "" 0) (validateTagSet entries)) []
    (Worm.ex_log Worm.ex_version)).1 = 200) as H200 by (vm_compute; reflexivity).
  assert (rs_version (exec put_result (PutObjectTagging (Worm.ex_amend "v1" "" 0) (validateTagSet entries)) []
    (Worm.ex_log Worm.ex_version)).1 = "v1") as Hv by (vm_compute; reflexivity).
  destruct (exec _ _ _ _) as [r w']. split; [exact H200|]. simpl in Hv.
  rewrite (H H200), Hv. reflexivity.
Defined.

End examples.
End Tags.
