(* ===== verification/CopyObject.v ===== *)
(** * CopyObject (api/s3compat/copy.go)

    The handler of a PUT with x-amz-copy-source, with its five ways of making the
    copy: a further reference on a deduplicated piece, the server-side copy of the
    backend, a read and a write, a re-encryption under the new identity, and the
    reconstruction of an erasure-coded or multipart source. Whether a backend
    copies server-side is a parameter; events and the XML of the reply are left
    out. *)

From S2P Require Import Prelude Bytes GoStrings Ranges Manifest Conditionals ManifestStore ContentIndex ObjectLock.
From S2P Require Import ErasureCoding ClientSdk EncryptionPipeline Fabric Handlers Reads Tagging.
Local Open Scope Z_scope.
Local Open Scope prog_scope.

(** A backend reports the capability and implements [PieceCopier]. *)
Class Copier := { serverSideCopy : string → bool }.

Module Copying.

(** [parseCopySource]: bucket, key and version; [None] is an error. *)
Definition parseCopySource (raw : string) : option (string * string * string) :=
  if bool_decide (raw = "") then None
  else
    let split (src version : string) :=
      match QueryUnescape (TrimPrefix src "/") with
      | None => None
      | Some src =>
          match cut_byte "/" src with
          | None => None
          | Some (bucket, key) =>
              if bool_decide (bucket = "") || bool_decide (key = "") then None else Some (bucket, key, version)
          end
      end in
    match cut_byte "?" raw with
    | None => split raw ""
    | Some (src, query) =>
        let '(q, bad) := ParseQuery query in
        if bad : bool then None else split src (Values_Get "versionId" q)
    end.

Record CopyRequest := mkCopyRequest {
  cq_auth : result Response string;
  cq_path : string;
  cq_headers : Header;
  cq_lockcfg : option (result unit LockConfig);
  cq_versioning : result unit string;
  cq_defaultEncryption : option (result unit bool);
  cq_now_lock : Z;
  cq_now_piece : Z;
  cq_now_created : Z;
  cq_now_default : Z;
  cq_rand : Entropy
}.

Section copying.
Context {G : Gateway} {Rd : Reader} {Cp : Copier}.

(** Whether a precondition on the source fails. *)
Definition evaluateCopySourceConditionals (hdr : Header) (etag : string) (lastModified : Z) : bool :=
  let im := Header_Get "x-amz-copy-source-if-match" hdr in
  let ius := Header_Get "x-amz-copy-source-if-unmodified-since" hdr in
  let inm := Header_Get "x-amz-copy-source-if-none-match" hdr in
  let ims := Header_Get "x-amz-copy-source-if-modified-since" hdr in
  let positive :=
    if negb (bool_decide (im = ""))
    then negb (bool_decide (TrimSpace im = "*")) && negb (etagListMatch im etag true)
    else if negb (bool_decide (ius = ""))
    then let '(modified, ok) := modifiedAfter ParseTime lastModified ius in ok && modified
    else false in
  if positive then true
  else if negb (bool_decide (inm = ""))
  then bool_decide (TrimSpace inm = "*") || etagListMatch inm etag false
  else if negb (bool_decide (ims = ""))
  then let '(modified, ok) := modifiedAfter ParseTime lastModified ims in ok && negb modified
  else false.

Definition clear_ErasureProfile (p : PlacementPolicy) : PlacementPolicy :=
  mkPlacementPolicy (pp_Residency p) (pp_AllowedBackends p) (pp_MinFailureDomains p) (pp_HotCache p)
    "" (pp_EncryptionMode p) (pp_DedupPolicy p) (pp_ReplicationPolicy p).

(** The manifest of the copy. *)
Definition copy_manifest (tenantID dstBucket dstKey : string) (src : ObjectManifest) (piece : Piece)
    (backend : string) (enc : EncryptionConfig) (dedupCopy : bool) (q : CopyRequest) : ObjectManifest :=
  Tags.applyCopyObjectMetadata (cq_headers q) src
    (mkObjectManifest tenantID dstBucket dstKey (hashObjectKey dstKey) (pc_PieceID piece)
       (m_ObjectSize src) (if pc_SizeBytes piece =? 0 then m_ChunkSize src else pc_SizeBytes piece)
       (if dedupCopy then m_ContentHash src else "") enc (clear_ErasureProfile (m_PlacementPolicy src)) [piece]
       (mkMigrationState 1 backend "") false (Tags.copyDestinationTags (cq_headers q) (m_Tags src))
       "" "" "" "" "" "" ∅ "" zero_time false (cq_now_created q)).

(** Undo the copy, then [k]. *)
Definition rollbackCopyPiece {R} (tenantID backend : string) (src : ObjectManifest) (piece : Piece)
    (dedupCopy : bool) (k : prog R) : prog R :=
  if negb dedupCopy then
    if registered backend then _ <~ PieceDelete backend (pc_PieceID piece);; k else k
  else if hasIndex && negb (bool_decide (m_ContentHash src = "")) then
    _ <~ IdxDecrement tenantID (m_ContentHash src);; k
  else k.

Definition writeCopyManifest (tenantID dstBucket dstKey : string) (src : ObjectManifest) (piece : Piece)
    (backend : string) (enc : EncryptionConfig) (dedupCopy : bool) (q : CopyRequest) : prog Response :=
  let manifest := copy_manifest tenantID dstBucket dstKey src piece backend enc dedupCopy q in
  match applyDefaultObjectLockRetention (cq_lockcfg q) (cq_now_default q) manifest with
  | Err _ => rollbackCopyPiece tenantID backend src piece dedupCopy (Ret (writeError 500 "ObjectLockGetFailed"))
  | Ok manifest =>
      err <~ ManPut (mkManifestKey tenantID dstBucket (hashObjectKey dstKey) (pc_PieceID piece)) manifest;;
      match err with
      | Err _ => rollbackCopyPiece tenantID backend src piece dedupCopy (Ret (writeError 500 "ManifestPutFailed"))
      | Ok _ => Ret (mkResponse 200 "" (m_VersionID manifest))
      end
  end.

(** [io.ReadAll] of the stream limited to [n] bytes. *)
Definition read_limited (n : Z) (s : stream) : option bytes :=
  match s with
  | Ok b => Some (take (Z.to_nat n) b)
  | Err b => if n <=? blen b then Some (take (Z.to_nat n) b) else None
  end.

(** Encrypt under a fresh key and the identity of the copy, and store. *)
Definition storeReencryptedCopy (tenantID dstBucket dstKey : string) (src : ObjectManifest)
    (dstBackend : string) (plaintext : bytes) (mode : string) (manifestEncrypted : bool) (q : CopyRequest)
    : prog Response :=
  let dstPieceID := newPieceID tenantID dstBucket dstKey (cq_now_piece q) in
  let dstID := mkAadIdentity tenantID dstBucket (hashObjectKey dstKey) dstPieceID in
  match encryptForStorage (cq_rand q) plaintext dstID with
  | None => Ret (writeError 500 "EncryptionFailed")
  | Some (newCiphertext, wrapped) =>
      putRes <~ PiecePut dstBackend dstPieceID newCiphertext;;
      match putRes with
      | None => Ret (writeError 502 "BackendPutFailed")
      | Some putRes =>
          let newPiece :=
            mkPiece dstPieceID (formatContentHash (blake3Hex newCiphertext)) dstBackend (pr_Locator putRes)
              "active" (pr_ETag putRes) 0 (pr_SizeBytes' putRes) 0 0 "" in
          let dstEnc :=
            mkEncryptionConfig mode ContentAlgorithm (wd_KeyID wrapped) (wd_WrappedKey wrapped)
              (wd_WrapAlgorithm wrapped) manifestEncrypted AADVersionV1 in
          writeCopyManifest tenantID dstBucket dstKey src newPiece dstBackend dstEnc false q
      end
  end.

Definition storeVerbatimCopy (tenantID dstBucket dstKey : string) (src : ObjectManifest)
    (dstBackend : string) (content : bytes) (enc : EncryptionConfig) (q : CopyRequest) : prog Response :=
  let dstPieceID := newPieceID tenantID dstBucket dstKey (cq_now_piece q) in
  putRes <~ PiecePut dstBackend dstPieceID content;;
  match putRes with
  | None => Ret (writeError 502 "BackendPutFailed")
  | Some putRes =>
      let newPiece :=
        mkPiece dstPieceID (formatContentHash (blake3Hex content)) dstBackend (pr_Locator putRes)
          "active" (pr_ETag putRes) 0 (pr_SizeBytes' putRes) 0 0 "" in
      writeCopyManifest tenantID dstBucket dstKey src newPiece dstBackend enc false q
  end.

(** The source of an AAD v1 object is opened and sealed again. *)
Definition copyReencrypt (tenantID dstBucket dstKey : string) (src : ObjectManifest) (srcPiece : Piece)
    (q : CopyRequest) : prog Response :=
  if negb hasEncryption then Ret (writeError 500 "EncryptionNotConfigured")
  else if MaxInMemoryObjectBytes <? m_ObjectSize src then Ret (writeError 413 "CopyReencryptObjectTooLarge")
  else
    got <~ PieceGet (pc_Backend srcPiece) (pc_PieceID srcPiece) None;;
    match got with
    | None => Ret (writeError 502 "BackendGetFailed")
    | Some body =>
        match read_limited (MaxInMemoryObjectBytes + 1) body with
        | None => Ret (writeError 502 "BackendGetFailed")
        | Some ciphertext =>
            if MaxInMemoryObjectBytes <? blen ciphertext
            then Ret (writeError 413 "CopyReencryptObjectTooLarge")
            else match decryptFromStorage ciphertext (m_Encryption src) (aadIdentityOf src) with
            | None => Ret (writeError 500 "DEKUnwrapFailed")
            | Some plaintext =>
                storeReencryptedCopy tenantID dstBucket dstKey src (pc_Backend srcPiece) plaintext
                  (enc_Mode (m_Encryption src)) (enc_ManifestEncrypted (m_Encryption src)) q
            end
        end
    end.

(** A plaintext source is sealed for a bucket with default encryption. *)
Definition copyEncryptForDefault (tenantID dstBucket dstKey : string) (src : ObjectManifest)
    (srcPiece : Piece) (dstMode : string) (q : CopyRequest) : prog Response :=
  if negb hasEncryption then Ret (writeError 500 "EncryptionNotConfigured")
  else if MaxInMemoryObjectBytes <? m_ObjectSize src then Ret (writeError 413 "CopyEncryptObjectTooLarge")
  else
    got <~ PieceGet (pc_Backend srcPiece) (pc_PieceID srcPiece) None;;
    match got with
    | None => Ret (writeError 502 "BackendGetFailed")
    | Some body =>
        match read_limited (MaxInMemoryObjectBytes + 1) body with
        | None => Ret (writeError 502 "BackendGetFailed")
        | Some plaintext =>
            if MaxInMemoryObjectBytes <? blen plaintext
            then Ret (writeError 413 "CopyEncryptObjectTooLarge")
            else storeReencryptedCopy tenantID dstBucket dstKey src (pc_Backend srcPiece) plaintext
                   dstMode false q
        end
    end.

(** The backend for a copy that is reconstructed. *)
Definition copyDestinationBackend (m : ObjectManifest) : option string :=
  let anchor :=
    if bool_decide (ms_PrimaryBackend (m_MigrationState m) = "")
    then match m_Pieces m with [] => "" | p :: _ => pc_Backend p end
    else ms_PrimaryBackend (m_MigrationState m) in
  if negb (bool_decide (anchor = "")) && registered anchor then Some anchor
  else pc_Backend <$> head (filter (λ p, registered (pc_Backend p) = true) (m_Pieces m)).

(** The end of [copyReconstructedSource], on the bytes of the object. *)
Definition copy_content (tenantID dstBucket dstKey : string) (src : ObjectManifest) (content : bytes)
    (q : CopyRequest) : prog Response :=
  match copyDestinationBackend src with
  | None => Ret (writeError 500 "BackendNotRegistered")
  | Some dstBackend =>
      if IsGatewayEncrypted (enc_Mode (m_Encryption src)) then
        storeReencryptedCopy tenantID dstBucket dstKey src dstBackend content
          (enc_Mode (m_Encryption src)) (enc_ManifestEncrypted (m_Encryption src)) q
      else if bool_decide (enc_Mode (m_Encryption src) = "") then
        match effectiveEncryptionMode (cq_defaultEncryption q) (m_PlacementPolicy src) with
        | Err _ => Ret (writeError 500 "EncryptionNotConfigured")
        | Ok dstMode =>
            if IsGatewayEncrypted dstMode
            then storeReencryptedCopy tenantID dstBucket dstKey src dstBackend content dstMode false q
            else storeVerbatimCopy tenantID dstBucket dstKey src dstBackend content zero_EncryptionConfig q
        end
      else storeVerbatimCopy tenantID dstBucket dstKey src dstBackend content (m_Encryption src) q
  end.

Definition copyReconstructedSource (tenantID dstBucket dstKey : string) (src : ObjectManifest)
    (q : CopyRequest) : prog Response :=
  if IsGatewayEncrypted (enc_Mode (m_Encryption src)) && negb hasEncryption then
    Ret (writeError 500 "EncryptionNotConfigured")
  else if isErasureCodedManifest src then
    reconstructErasureCoded src (λ rec,
      match rec with
      | Err e => Ret (writeError (re_status e) (re_s3code e))
      | Ok decoded => copy_content tenantID dstBucket dstKey src decoded q
      end)
  else
    reconstructMultipart src (λ rec,
      match rec with
      | Err e => Ret (writeError (re_status e) (re_s3code e))
      | Ok bodies => copy_content tenantID dstBucket dstKey src (concat bodies) q
      end).

(** The size, hash and ETag of the new piece, then [k]; [None] is an error. *)
Definition copyViaGetPut {R} (backend srcPieceID dstPieceID : string)
    (k : option (Z * string * string) → prog R) : prog R :=
  got <~ PieceGet backend srcPieceID None;;
  match got with
  | None | Some (Err _) => k None
  | Some (Ok body) =>
      res <~ PiecePut backend dstPieceID body;;
      match res with
      | None => k None
      | Some res => k (Some (pr_SizeBytes' res, formatContentHash (blake3Hex body), pr_ETag res))
      end
  end.

(** The copy under a new piece id, on the backend of the source. *)
Definition copy_piece (tenantID dstBucket dstKey : string) (src : ObjectManifest) (srcPiece : Piece)
    (q : CopyRequest) : prog Response :=
  let dstPieceID := newPieceID tenantID dstBucket dstKey (cq_now_piece q) in
  let finish newSize newHash newETag :=
    writeCopyManifest tenantID dstBucket dstKey src
      (mkPiece dstPieceID newHash (pc_Backend srcPiece) (pc_Locator srcPiece) "active" newETag 0 newSize 0 0 "")
      (pc_Backend srcPiece) (m_Encryption src) false q in
  if serverSideCopy (pc_Backend srcPiece) then
    res <~ PieceCopy (pc_Backend srcPiece) (pc_PieceID srcPiece) dstPieceID;;
    match res with
    | None => Ret (writeError 502 "BackendCopyFailed")
    | Some res => finish (pr_SizeBytes' res) (pc_Hash srcPiece) (pr_ETag res)
    end
  else copyViaGetPut (pc_Backend srcPiece) (pc_PieceID srcPiece) dstPieceID (λ res,
    match res with
    | None => Ret (writeError 502 "BackendCopyFailed")
    | Some (newSize, newHash, newETag) => finish newSize newHash newETag
    end).

(** A source that is stored as one piece and is not bound to its identity. *)
Definition copy_verbatim (tenantID dstBucket dstKey : string) (src : ObjectManifest) (srcPiece : Piece)
    (q : CopyRequest) : prog Response :=
  if negb (bool_decide (m_ContentHash src = "")) && hasIndex then
    err <~ IdxIncrement tenantID (m_ContentHash src);;
    match err with
    | Ok _ =>
        writeCopyManifest tenantID dstBucket dstKey src srcPiece (pc_Backend srcPiece) (m_Encryption src) true q
    | Err IdxNotFound => copy_piece tenantID dstBucket dstKey src srcPiece q
    | Err _ => Ret (writeError 500 "ContentIndexIncrementFailed")
    end
  else copy_piece tenantID dstBucket dstKey src srcPiece q.

(** [Copy] once the source manifest is read. *)
Definition copy_source (tenantID dstBucket dstKey srcVersion : string) (src : ObjectManifest)
    (q : CopyRequest) : prog Response :=
  if m_DeleteMarker src then
    if negb (bool_decide (srcVersion = "")) then Ret (writeError 405 "MethodNotAllowed")
    else Ret (writeError 404 "NoSuchKey")
  else match m_Pieces src with
  | [] => Ret (writeError 500 "EmptyManifest")
  | srcPiece :: _ =>
      if evaluateCopySourceConditionals (cq_headers q) (condETagForRead src srcPiece) (m_CreatedAt src)
      then Ret (writeError 412 "PreconditionFailed")
      else match Tags.resolveCopyTags (cq_headers q) (m_Tags src), Tags.validateCopyMetadataDirective (cq_headers q) with
      | Err e, _ => Ret e
      | Ok _, Some e => Ret e
      | Ok _, None =>
          if isErasureCodedManifest src || isMultipartManifest src
          then copyReconstructedSource tenantID dstBucket dstKey src q
          else if negb (registered (pc_Backend srcPiece)) then Ret (writeError 500 "BackendNotRegistered")
          else if bool_decide (enc_AADVersion (m_Encryption src) = AADVersionV1)
          then copyReencrypt tenantID dstBucket dstKey src srcPiece q
          else if bool_decide (enc_Mode (m_Encryption src) = "") then
            match effectiveEncryptionMode (cq_defaultEncryption q) (m_PlacementPolicy src) with
            | Err _ => Ret (writeError 500 "EncryptionNotConfigured")
            | Ok dstMode =>
                if IsGatewayEncrypted dstMode
                then copyEncryptForDefault tenantID dstBucket dstKey src srcPiece dstMode q
                else copy_verbatim tenantID dstBucket dstKey src srcPiece q
            end
          else copy_verbatim tenantID dstBucket dstKey src srcPiece q
      end
  end.

Definition Copy (q : CopyRequest) : prog Response :=
  match cq_auth q with
  | Err e => Ret e
  | Ok tenantID =>
      let '(dstBucket, dstKey) := parseBucketKey (cq_path q) in
      if bool_decide (dstBucket = "") || bool_decide (dstKey = "") then Ret (writeError 400 "InvalidArgument")
      else objectLockOverwrite tenantID dstBucket dstKey (cq_lockcfg q) (cq_versioning q) (cq_now_lock q)
             (Header_Get "x-amz-bypass-governance-retention" (cq_headers q)) Ret
        match parseCopySource (Header_Get "x-amz-copy-source" (cq_headers q)) with
        | None => Ret (writeError 400 "InvalidArgument")
        | Some (srcBucket, srcKey, srcVersion) =>
            got <~ ManGet (mkManifestKey tenantID srcBucket (hashObjectKey srcKey) srcVersion);;
            match got with
            | Err ErrNotFound => Ret (writeError 404 "NoSuchKey")
            | Err _ => Ret (writeError 500 "ManifestGetFailed")
            | Ok src => copy_source tenantID dstBucket dstKey srcVersion src q
            end
        end
  end.

End copying.
End Copying.
