(* ===== verification/CopySafety.v ===== *)
(** * The object requests together

    PUT, COPY, DELETE and the amending requests: interleaved call by call they
    keep the deduplicated store safe; served one after the other they respect
    Object Lock, except that a copy may replace a locked version of the key it
    writes to. *)

From S2P Require Import Prelude Bytes GoStrings Ranges Manifest Conditionals ManifestStore ContentIndex ObjectLock.
From S2P Require Import ErasureCoding ClientSdk EncryptionPipeline Fabric Handlers Worm RefCounting DedupSafety.
From S2P Require Import Reads Objects Roundtrip Tagging CopyObject.
Local Open Scope Z_scope.

Module Requests.
Import Dedup Safety Copying.

Inductive request :=
| RObject (r : Worm.request)
| RCopy (q : CopyRequest).

Section requests.
Context {G : Gateway} {Rd : Reader} {Cp : Copier}.

Definition handle (r : request) : prog Response :=
  match r with RObject r => Worm.handle r | RCopy q => Copy q end.

(** ** Reconstruction only reads *)

(** A program that reads pieces and goes on with [k]. *)
Inductive reads_then {R A} (k : A → prog R) : prog R → Prop :=
| reads_done a : reads_then k (k a)
| reads_get b id r f : (∀ x, reads_then k (f x)) → reads_then k (Call (PieceGet b id r) f).

Lemma reads_trans {R A B} (k : A → prog R) (k' : B → prog R) p :
  reads_then k p → (∀ a, reads_then k' (k a)) → reads_then k' p.
Proof. induction 1; intros Hk; [apply Hk|]. constructor. auto. Qed.

Lemma fetch_shards_reads {R} tol ps losses acc (k : _ → prog R) :
  reads_then k (fetch_shards tol ps losses acc k).
Proof.
  revert losses acc. induction ps as [|p ps IH]; intros losses acc; simpl; [apply reads_done|].
  assert (∀ code, reads_then k (if pc_StripeIndex p <? 0 then k (Err (mkReconstructError 500 "panic"))
    else if tol <? default 0 (losses !! pc_StripeIndex p) + 1 then k (Err (mkReconstructError 502 code))
    else fetch_shards tol ps (<[pc_StripeIndex p := default 0 (losses !! pc_StripeIndex p) + 1]> losses)
           (acc ++ [piece_shard p []]) k)) as Hlost.
  { intros code. destruct (_ <? 0); [apply reads_done|]. destruct (_ <? _); [apply reads_done|apply IH]. }
  destruct (negb _); [apply Hlost|]. constructor. intros [[buf|]|]; [|apply reads_done|apply Hlost].
  destruct (mismatch _ _); [apply Hlost|apply IH].
Qed.

Lemma fetch_parts_reads {R} ps acc (k : _ → prog R) : reads_then k (fetch_parts ps acc k).
Proof.
  revert acc. induction ps as [|p ps IH]; intros acc; simpl; [apply reads_done|].
  constructor. intros [[buf|]|]; [|apply reads_done..]. destruct (mismatch _ _); [apply reads_done|apply IH].
Qed.

Lemma reconstructErasureCoded_reads {R} m (k : _ → prog R) : reads_then k (reconstructErasureCoded m k).
Proof.
  unfold reconstructErasureCoded. destruct ErasureRegistry; [|apply reads_done].
  destruct (bool_decide _); [apply reads_done|]. destruct (EC.Registry_Lookup _ _); [|apply reads_done].
  destruct (_ =? 0); [apply reads_done|]. eapply reads_trans; [apply fetch_shards_reads|].
  intros [shards|]; [|apply reads_done]. destruct (EC.Decode _ _); [|apply reads_done].
  destruct (IsGatewayEncrypted _); [|apply reads_done]. destruct (decryptFromStorage _ _ _); apply reads_done.
Qed.

Lemma reconstructMultipart_reads {R} m (k : _ → prog R) : reads_then k (reconstructMultipart m k).
Proof.
  unfold reconstructMultipart. destruct (_ <? _); [apply reads_done|]. destruct (existsb _ _); [apply reads_done|].
  eapply reads_trans; [apply fetch_parts_reads|]. intros [bodies|]; [|apply reads_done].
  destruct (IsGatewayEncrypted _); [|destruct (_ && _); apply reads_done].
  destruct (negb _); [apply reads_done|]. destruct (UnwrapDEK _); [|apply reads_done].
  destruct (decrypt_parts _ _ _ _); [|apply reads_done]. destruct (_ && _); apply reads_done.
Qed.

(** ** Copies follow the protocol of references *)

Lemma copy_manifest_shape t b key src piece backend enc dedup q :
  let m := copy_manifest t b key src piece backend enc dedup q in
  (m_VersionID m, m_ObjectKeyHash m, m_ContentHash m, m_Pieces m) =
  (pc_PieceID piece, hashObjectKey key, if dedup then m_ContentHash src else "", [piece]).
Proof. unfold copy_manifest, Tags.applyCopyObjectMetadata. by case_bool_decide. Qed.

Lemma written_shape t b key src piece backend enc dedup q m :
  applyDefaultObjectLockRetention (cq_lockcfg q) (cq_now_default q)
    (copy_manifest t b key src piece backend enc dedup q) = Ok m →
  m_VersionID m = pc_PieceID piece ∧ m_ContentHash m = (if dedup then m_ContentHash src else "") ∧
  m_Pieces m = [piece].
Proof.
  intros Ha%applyDefault_shape. pose proof (copy_manifest_shape t b key src piece backend enc dedup q) as Hs.
  simpl in Hs. injection Ha as -> _ -> ->. by injection Hs as -> _ -> ->.
Qed.

Lemma proto_write_own t b key src piece enc q s F :
  pc_PieceID piece ≠ "" →
  proto (writeCopyManifest t b key src piece (pc_Backend piece) enc false q) [TOwn (piece_of piece)] s F.
Proof.
  intros Hid. unfold writeCopyManifest. cbv zeta.
  assert (∀ (r : Response), proto (rollbackCopyPiece t (pc_Backend piece) src piece false (Ret r))
    [TOwn (piece_of piece)] s F) as Hundo.
  { intros r. unfold rollbackCopyPiece. simpl. destruct (registered _); [|done]. left. by exists []. }
  destruct (applyDefaultObjectLockRetention _ _ _) as [m|] eqn:Ha; [|apply Hundo].
  apply written_shape in Ha as (Hv & Hc & Hp). split; [done|]. split; [done|]. split; [|intros x; apply Hundo].
  exists []. split; [|done]. rewrite Hc, Hp. by rewrite bool_decide_eq_true_2.
Qed.

Lemma proto_write_ref t b key src piece enc q s F :
  pc_PieceID piece ≠ "" → m_ContentHash src ≠ "" →
  proto (writeCopyManifest t b key src piece (pc_Backend piece) enc true q)
    [TRef t (m_ContentHash src) (piece_of piece)] s F.
Proof.
  intros Hid Hh. unfold writeCopyManifest. cbv zeta.
  assert (∀ (r : Response), proto (rollbackCopyPiece t (pc_Backend piece) src piece true (Ret r))
    [TRef t (m_ContentHash src) (piece_of piece)] s F) as Hundo.
  { intros r. unfold rollbackCopyPiece. simpl. destruct (hasIndex && _); [|done]. by eexists _, []. }
  destruct (applyDefaultObjectLockRetention _ _ _) as [m|] eqn:Ha; [|apply Hundo].
  apply written_shape in Ha as (Hv & Hc & Hp). split; [done|]. split; [done|]. split; [|intros x; apply Hundo].
  exists []. split; [|done]. rewrite Hc, bool_decide_eq_false_2 by done. by exists piece.
Qed.

Hypothesis Hnonempty : ∀ s, sha256Hex s ≠ "".

Lemma proto_reencrypted t b key src be pt mode me q s F :
  proto (storeReencryptedCopy t b key src be pt mode me q) [] s F.
Proof using Hnonempty.
  unfold storeReencryptedCopy. cbv zeta. destruct (encryptForStorage _ _ _) as [[ct wr]|]; [|done].
  split; [apply Hnonempty|]. split; [|done]. intros pr _.
  match goal with |- context [writeCopyManifest _ _ _ _ ?p] => apply (proto_write_own t b key src p) end.
  apply Hnonempty.
Qed.

Lemma proto_verbatim t b key src be content enc q s F :
  proto (storeVerbatimCopy t b key src be content enc q) [] s F.
Proof using Hnonempty.
  unfold storeVerbatimCopy. cbv zeta. split; [apply Hnonempty|]. split; [|done]. intros pr _.
  match goal with |- context [writeCopyManifest _ _ _ _ ?p] => apply (proto_write_own t b key src p) end.
  apply Hnonempty.
Qed.

Lemma proto_copy_content t b key src content q s F :
  proto (copy_content t b key src content q) [] s F.
Proof using Hnonempty.
  unfold copy_content. destruct (copyDestinationBackend src); [|done].
  destruct (IsGatewayEncrypted _); [apply proto_reencrypted|].
  destruct (bool_decide _); [|apply proto_verbatim].
  destruct (effectiveEncryptionMode _ _); [|done].
  destruct (IsGatewayEncrypted _); [apply proto_reencrypted|apply proto_verbatim].
Qed.

Lemma proto_reads {R A} (k : A → prog R) p T s F :
  reads_then k p → (∀ a, proto (k a) T s F) → proto p T s F.
Proof. induction 1 as [a|b id r f Hf IH]; intros Hk; [apply Hk|]. intros x. by apply IH. Qed.

Lemma proto_reconstructed t b key src q s F :
  proto (copyReconstructedSource t b key src q) [] s F.
Proof using Hnonempty.
  unfold copyReconstructedSource. destruct (_ && _); [done|]. destruct (isErasureCodedManifest src).
  - eapply proto_reads; [apply reconstructErasureCoded_reads|]. intros [c|e]; [apply proto_copy_content|done].
  - eapply proto_reads; [apply reconstructMultipart_reads|]. intros [c|e]; [apply proto_copy_content|done].
Qed.

Lemma proto_copy_piece t b key src piece q s F : proto (copy_piece t b key src piece q) [] s F.
Proof using Hnonempty.
  unfold copy_piece, copyViaGetPut. cbv zeta.
  assert (∀ size hash etag,
    proto (writeCopyManifest t b key src
      (mkPiece (newPieceID t b key (cq_now_piece q)) hash (pc_Backend piece) (pc_Locator piece) "active" etag 0 size 0 0 "")
      (pc_Backend piece) (m_Encryption src) false q)
      [TOwn (pc_Backend piece, newPieceID t b key (cq_now_piece q))] s F) as Hw.
  { intros size hash etag.
    match goal with |- context [writeCopyManifest _ _ _ _ ?p] => apply (proto_write_own t b key src p) end.
    apply Hnonempty. }
  destruct (serverSideCopy _).
  - split; [apply Hnonempty|]. split; [|done]. intros pr. apply Hw.
  - intros [[body|]|]; [|done|done]. split; [apply Hnonempty|]. split; [|done]. intros pr _. apply Hw.
Qed.

(** The source names the piece the reference is taken on. *)
Lemma proto_copy_verbatim t b key src piece q s F :
  (m_ContentHash src ≠ "" → pc_PieceID piece ≠ "" ∧ s = Some (t, m_ContentHash src, piece_of piece)) →
  proto (copy_verbatim t b key src piece q) [] s F.
Proof using Hnonempty.
  intros Hs. unfold copy_verbatim. case_bool_decide as Hh; [apply proto_copy_piece|].
  destruct hasIndex; simpl negb; cbn [andb]; [|apply proto_copy_piece].
  destruct (Hs Hh) as [Hid ->]. split; [|by intros []; try done; apply proto_copy_piece].
  intros bp Hbp. rewrite (Hbp _ eq_refl). by apply proto_write_ref.
Qed.

Lemma proto_Copy q : proto (Copy q) [] None [].
Proof using Hnonempty.
  unfold Copy. destruct (cq_auth q) as [t|]; [|done]. destruct (parseBucketKey _) as [b key].
  destruct (_ || _); [done|]. apply proto_lockOverwrite. intros s F.
  destruct (parseCopySource _) as [[[sb sk] sv]|]; [|done]. split; [|by intros []].
  intros src _ Hshared. unfold copy_source. destruct (m_DeleteMarker src); [by destruct (negb _)|].
  destruct (m_Pieces src) as [|piece ps] eqn:Hps; [done|].
  destruct (evaluateCopySourceConditionals _ _ _); [done|].
  destruct (Tags.resolveCopyTags _ _); [|done]. destruct (Tags.validateCopyMetadataDirective _); [done|].
  destruct (_ || _); [apply proto_reconstructed|]. destruct (negb _); [done|].
  assert (∀ F, proto (copy_verbatim t b key src piece q) []
    (saw_version (mkManifestKey t sb (hashObjectKey sk) sv) src s) F) as Hv.
  { intros F'. apply proto_copy_verbatim. intros Hh. destruct (Hshared Hh) as (pc & Hpc & Hid).
    simplify_eq. split; [done|]. unfold saw_version. by rewrite Hps, bool_decide_eq_false_2. }
  destruct (bool_decide _).
  - unfold copyReencrypt. destruct (negb _); [done|]. destruct (_ <? _); [done|]. intros [body|]; [|done].
    destruct (read_limited _ _); [|done]. destruct (_ <? _); [done|].
    destruct (decryptFromStorage _ _ _); [|done]. apply proto_reencrypted.
  - destruct (bool_decide _); [|apply Hv]. destruct (effectiveEncryptionMode _ _); [|done].
    destruct (IsGatewayEncrypted _); [|apply Hv]. unfold copyEncryptForDefault.
    destruct (negb _); [done|]. destruct (_ <? _); [done|]. intros [body|]; [|done].
    destruct (read_limited _ _); [|done]. destruct (_ <? _); [done|]. apply proto_reencrypted.
Qed.

(** C1: deduplication is safe: from the empty store, after any number of PUT,
    COPY, DELETE, retention, legal-hold and tagging requests interleaved call by
    call, with any of the calls failing, every piece of every stored version is on
    its backend, and the reference count of every row is at least the number of
    versions that use it. The guard of [act] asks that version and piece ids are
    new, that a DELETE is not overtaken by another of the same version, and that
    a row is not replaced between the moment a PUT or COPY has seen the piece of
    its content and its increment. *)
Theorem dedup_is_safe (l : list (action request)) (σ : sys) :
  hasIndex = true → (∀ b id body, pr_PieceID' (put_result b id body) = id) →
  acts handle l init = Some σ → safe (sy_world σ).
Proof using Hnonempty.
  intros Hidx. apply acts_safe. intros [r|q]; [by apply proto_handle|apply proto_Copy].
Qed.

(** ** Object Lock *)

(** A copy to another object, or a copy that takes no reference and mints another
    version id. *)
Definition copies_elsewhere (k : ManifestKey) (q : CopyRequest) : Prop :=
  let '(b, key) := parseBucketKey (cq_path q) in
  (b, hashObjectKey key) ≠ (k_Bucket k, k_ObjectKeyHash k) ∨
  hasIndex = false ∧ ∀ t, newPieceID t b key (cq_now_piece q) ≠ k_VersionID k.

Definition mints_other (k : ManifestKey) (r : request) : Prop :=
  match r with RObject r => Worm.mints_other k r | RCopy q => copies_elsewhere k q end.

Lemma writeCopyManifest_spares k t b key src piece be enc dedup q :
  (b, hashObjectKey key) ≠ (k_Bucket k, k_ObjectKeyHash k) ∨
    pc_PieceID piece ≠ k_VersionID k ∧ pc_PieceID piece ≠ "" →
  calls_ok (Worm.spares k) (writeCopyManifest t b key src piece be enc dedup q).
Proof.
  intros Hk. unfold writeCopyManifest. cbv zeta.
  assert (∀ r : Response, calls_ok (Worm.spares k) (rollbackCopyPiece t be src piece dedup (Ret r))) as Hundo.
  { intros r. unfold rollbackCopyPiece. by repeat case_match. }
  destruct (applyDefaultObjectLockRetention _ _ _) as [m|] eqn:Ha; [|apply Hundo].
  apply written_shape in Ha as (Hv & _ & _). split; [|by intros [[]|]].
  simpl. rewrite Hv. split.
  - intros <-. by destruct Hk as [?|[? _]].
  - unfold latest_of. simpl. intros [= _ Hb Hh]. destruct Hk as [?|[_ ?]]; [congruence|done].
Qed.

Lemma spares_reads {R A} k (kk : A → prog R) p :
  reads_then kk p → (∀ a, calls_ok (Worm.spares k) (kk a)) → calls_ok (Worm.spares k) p.
Proof. induction 1; intros Hk; [apply Hk|]. split; [done|]. auto. Qed.

Section spares.
Context (k : ManifestKey) (t b key : string) (q : CopyRequest).
Hypothesis Hk : (b, hashObjectKey key) ≠ (k_Bucket k, k_ObjectKeyHash k) ∨
  hasIndex = false ∧ ∀ t, newPieceID t b key (cq_now_piece q) ≠ k_VersionID k.

Lemma new_piece_spares src piece be enc :
  pc_PieceID piece = newPieceID t b key (cq_now_piece q) →
  calls_ok (Worm.spares k) (writeCopyManifest t b key src piece be enc false q).
Proof using Hnonempty Hk.
  intros Hid. apply writeCopyManifest_spares. rewrite Hid.
  destruct Hk as [?|[_ Hn]]; [by left|right]. split; [apply Hn|apply Hnonempty].
Qed.

Lemma reencrypted_spares src be pt mode me :
  calls_ok (Worm.spares k) (storeReencryptedCopy t b key src be pt mode me q).
Proof using Hnonempty Hk.
  unfold storeReencryptedCopy. cbv zeta. destruct (encryptForStorage _ _ _) as [[]|]; [|done].
  split; [done|]. intros [pr|]; [by apply new_piece_spares|done].
Qed.

Lemma verbatim_spares src be c enc : calls_ok (Worm.spares k) (storeVerbatimCopy t b key src be c enc q).
Proof using Hnonempty Hk. split; [done|]. intros [pr|]; [by apply new_piece_spares|done]. Qed.

Lemma reconstructed_spares src : calls_ok (Worm.spares k) (copyReconstructedSource t b key src q).
Proof using Hnonempty Hk.
  assert (∀ c, calls_ok (Worm.spares k) (copy_content t b key src c q)) as Hcc.
  { intros c. unfold copy_content.
    repeat case_match; first [done|apply reencrypted_spares|apply verbatim_spares]. }
  unfold copyReconstructedSource. destruct (_ && _); [done|]. destruct (isErasureCodedManifest src).
  - eapply spares_reads; [apply reconstructErasureCoded_reads|]. intros [c|e]; [apply Hcc|done].
  - eapply spares_reads; [apply reconstructMultipart_reads|]. intros [c|e]; [apply Hcc|done].
Qed.

Lemma copy_verbatim_spares src piece : calls_ok (Worm.spares k) (copy_verbatim t b key src piece q).
Proof using Hnonempty Hk.
  assert (calls_ok (Worm.spares k) (copy_piece t b key src piece q)) as Hcp.
  { unfold copy_piece, copyViaGetPut. cbv zeta. destruct (serverSideCopy _).
    - split; [done|]. intros [pr|]; [by apply new_piece_spares|done].
    - split; [done|]. intros [[c|]|]; [|done|done]. split; [done|]. intros [pr|]; [by apply new_piece_spares|done]. }
  unfold copy_verbatim. destruct (_ && hasIndex) eqn:Hi; [|apply Hcp]. split; [done|].
  apply andb_true_iff in Hi as [_ Hi]. intros [[]|[]]; try done.
  apply writeCopyManifest_spares. destruct Hk as [?|[? _]]; [by left|congruence].
Qed.

Lemma copy_source_spares sv src : calls_ok (Worm.spares k) (copy_source t b key sv src q).
Proof using Hnonempty Hk.
  unfold copy_source. destruct (m_DeleteMarker src); [by destruct (negb _)|].
  destruct (m_Pieces src) as [|piece ps]; [done|]. destruct (evaluateCopySourceConditionals _ _ _); [done|].
  destruct (Tags.resolveCopyTags _ _); [|done]. destruct (Tags.validateCopyMetadataDirective _); [done|].
  destruct (_ || _); [apply reconstructed_spares|]. destruct (negb _); [done|]. destruct (bool_decide _).
  - unfold copyReencrypt. destruct (negb _); [done|]. destruct (_ <? _); [done|].
    split; [done|]. intros [s|]; [|done]. destruct (read_limited _ _); [|done]. destruct (_ <? _); [done|].
    destruct (decryptFromStorage _ _ _); [apply reencrypted_spares|done].
  - destruct (bool_decide _); [|apply copy_verbatim_spares]. destruct (effectiveEncryptionMode _ _); [|done].
    destruct (IsGatewayEncrypted _); [|apply copy_verbatim_spares]. unfold copyEncryptForDefault.
    destruct (negb _); [done|]. destruct (_ <? _); [done|]. split; [done|]. intros [s|]; [|done].
    destruct (read_limited _ _); [|done]. destruct (_ <? _); [done|]. apply reencrypted_spares.
Qed.

End spares.

Lemma Copy_spares k q : copies_elsewhere k q → calls_ok (Worm.spares k) (Copy q).
Proof using Hnonempty.
  unfold copies_elsewhere, Copy. destruct (cq_auth q) as [t|]; [|done].
  destruct (parseBucketKey _) as [b key]. intros Hk. destruct (_ || _); [done|].
  unfold objectLockOverwrite. set (body := match parseCopySource _ with None => _ | Some _ => _ end).
  assert (calls_ok (Worm.spares k) body) as Hbody.
  { unfold body. destruct (parseCopySource _) as [[[sb sk] sv]|]; [|done]. split; [done|].
    intros [src|[]]; try done. by apply copy_source_spares. }
  destruct (cq_lockcfg q) as [[cfg|]|]; [|done|done].
  destruct (negb _); [done|]. destruct (cq_versioning q); [|done]. destruct (bool_decide _); [done|].
  split; [done|]. intros [cur|[]]; try done. by destruct (objectLockBlocksDelete _ _ _).
Qed.

(** The clock a request compares retentions against. *)
Definition lock_clock_before (U : Z) (r : request) : Prop :=
  match r with RObject r => Worm.lock_clock_before U r | RCopy _ => True end.

Definition keeps_holds (r : request) : Prop :=
  match r with RObject r => Worm.keeps_holds r | RCopy _ => True end.



(** ** A copy to a locked key *)

Lemma copy_manifest_unlocked t b key src piece backend enc dedup q :
  let m := copy_manifest t b key src piece backend enc dedup q in
  m_RetentionMode m = "" ∧ m_LegalHold m = false.
Proof. unfold copy_manifest, Tags.applyCopyObjectMetadata. by case_bool_decide. Qed.

(** A bucket with Object Lock and no default retention. *)
Definition lock_only : LockConfig := mkLockConfig true "" 0 0.

Lemma no_default_retention now m : applyDefaultObjectLockRetention (Some (Ok lock_only)) now m = Ok m.
Proof. unfold applyDefaultObjectLockRetention. by repeat case_match. Qed.

(** A deduplicated version that may be copied as it is. *)
Record shareable (src : ObjectManifest) (p : Piece) : Prop := {
  sh_live : m_DeleteMarker src = false;
  sh_piece : m_Pieces src = [p];
  sh_whole : pc_ShardKind p = "";
  sh_backend : registered (pc_Backend p) = true;
  sh_hash : m_ContentHash src ≠ "";
  sh_convergent : enc_AADVersion (m_Encryption src) ≠ AADVersionV1;
  sh_sealed : enc_Mode (m_Encryption src) ≠ ""
}.

(** C22: A reference-counted copy takes the piece id of its source for its
    version id. When such a version is already stored under the destination key
    (an earlier copy of the same content), the copy replaces it in place, in a
    bucket with versioning and Object Lock enabled and whatever COMPLIANCE
    retention or legal hold it has: the copy answers 200 and the version is
    stored without retention and without hold. *)
Theorem copy_replaces_locked_version q t b key sb sk sv src p e old w :
  let k := mkManifestKey t b (hashObjectKey key) (pc_PieceID p) in
  cq_auth q = Ok t → parseBucketKey (cq_path q) = (b, key) → b ≠ "" → key ≠ "" →
  cq_lockcfg q = Some (Ok lock_only) → cq_versioning q = Ok "Enabled" →
  cq_headers q = {["x-amz-copy-source" := [sv]]} → parseCopySource sv = Some (sb, sk, "") →
  VersionLog.get (mkManifestKey t sb (hashObjectKey sk) "") (wd_manifests w) = Ok src → shareable src p →
  hasIndex = true → wd_index w !! (t, m_ContentHash src) = Some e →
  VersionLog.find k (wd_manifests w) = Some old → m_RetentionMode old = ModeCompliance →
  ∃ w' m', exec put_result (Copy q) [] w = (mkResponse 200 "" (pc_PieceID p), w') ∧
    VersionLog.find k (wd_manifests w') = Some m' ∧ m_RetentionMode m' = "" ∧ m_LegalHold m' = false.
Proof.
  intros k Ha Hp Hb Hkey Hlock Hver Hhdr Hsrc Hget [Hlive Hpieces Hwhole Hreg Hh Haad Hmode] Hidx He _ _.
  unfold Copy. rewrite Ha, Hp, !bool_decide_eq_false_2 by done. unfold objectLockOverwrite. rewrite Hlock, Hver, Hhdr.
  change (Header_Get "x-amz-copy-source" {["x-amz-copy-source" := [sv]]}) with sv. rewrite Hsrc.
  simpl orb. simpl negb. cbv iota. change (bool_decide ("Enabled" = "Enabled")) with true. cbv iota.
  rewrite Object.exec_call. cbn [do_call fst snd]. rewrite Hget. unfold copy_source.
  rewrite Hlive, Hpieces, Hhdr. destruct (Object.not_erasure src p Hpieces Hwhole) as [-> ->].
  change (evaluateCopySourceConditionals _ _ _) with false. cbv iota.
  change (Tags.resolveCopyTags _ _) with (Ok (E := Response) (m_Tags src)).
  change (Tags.validateCopyMetadataDirective _) with (None (A := Response)). cbv iota.
  rewrite Hreg, !(bool_decide_eq_false_2 (_ = _)) by done. simpl negb. cbn [orb]. cbv iota.
  unfold copy_verbatim. rewrite bool_decide_eq_false_2, Hidx by done. simpl negb. cbn [andb]. cbv iota.
  rewrite Object.exec_call. cbn [do_call fst snd]. unfold Index.IncrementRef. rewrite He. cbn [index_write fst snd].
  unfold writeCopyManifest. cbv zeta. rewrite Hlock, no_default_retention, Object.exec_call. cbn [do_call fst snd exec].
  pose proof (copy_manifest_shape t b key src p (pc_Backend p) (m_Encryption src) true q) as Hshape.
  pose proof (copy_manifest_unlocked t b key src p (pc_Backend p) (m_Encryption src) true q) as Hfree.
  cbv zeta in Hshape, Hfree. set (m' := copy_manifest _ _ _ _ _ _ _ _ _) in *. injection Hshape as -> _ _ _.
  eexists _, m'. split; [reflexivity|]. split; [apply Roundtrip.find_put_eq|done].
Qed.

End requests.

(** ** Examples *)

Section examples.
#[local] Existing Instance Worm.ex_gateway.
#[local] Existing Instance Roundtrip.ex_reader.
#[local] Instance ex_copier : Copier := { serverSideCopy _ := false }.

Definition ex_copy (source path : string) (lockcfg : option (result unit LockConfig)) (now : Z) : CopyRequest :=
  mkCopyRequest (Ok "t1") path {["x-amz-copy-source" := [source]]} lockcfg (Ok "Enabled") None
    now now now now (mkEntropy (Some Sdk.ex_dek) Sdk.ex_nonce []).

(** An upload; then a copy of it overlaps the delete of the original. *)
Definition ex_acts : list (action request) :=
  [Arrive (RObject (Worm.RPut (ex_put "/photos/cat" "abc" 1)));
   Advance 0 false; Advance 0 false; Advance 0 false; Advance 0 false;
   Arrive (RCopy (ex_copy "/photos/cat" "/photos/dog" None 2));
   Arrive (RObject (Worm.RDelete (ex_del "/photos/cat" (ex_vid "cat" 1))));
   Advance 1 false; Advance 2 false; Advance 1 false; Advance 2 false; Advance 2 false; Advance 1 false].

Lemma dedup_is_safe_witness :
  ∃ σ, acts handle ex_acts init = Some σ ∧ (k_ObjectKeyHash <$> (wd_manifests (sy_world σ)).*1) = [hashObjectKey "dog"] ∧
    safe (sy_world σ).
Proof.
  assert (option_map (λ σ, k_ObjectKeyHash <$> (wd_manifests (sy_world σ)).*1) (acts handle ex_acts init) =
    Some [hashObjectKey "dog"]) as H by (vm_compute; reflexivity).
  destruct (acts handle ex_acts init) as [σ|] eqn:E; [|discriminate].
  exists σ. split; [reflexivity|]. split; [by injection H|].
  apply (dedup_is_safe Worm.ex_nonempty ex_acts); [reflexivity|reflexivity|exact E].
Defined.



(** A deduplicated upload, a copy of it, and a COMPLIANCE retention on the copy. *)
Definition ex_lock : option (result unit LockConfig) := Some (Ok lock_only).
Definition ex_again : CopyRequest := ex_copy "/photos/cat" "/photos/dog" ex_lock 9.
Definition ex_locked_world : World :=
  Worm.serve handle
    [(RObject (Worm.RPut (ex_put "/photos/cat" "abc" 1)), []);
     (RCopy (ex_copy "/photos/cat" "/photos/dog" ex_lock 2), []);
     (RObject (Worm.RRetention (mkAmendRequest (Ok "t1") "/photos/dog" "" "" ex_lock 3)
        (Some (ModeCompliance, Some 1000))), [])] (mkWorld [] ∅ ∅ ∅).
Definition ex_manifest (key version : string) : ObjectManifest :=
  match VersionLog.get (mkManifestKey "t1" "photos" (hashObjectKey key) version) (wd_manifests ex_locked_world) with
  | Ok m => m
  | Err _ => Worm.ex_version
  end.
Definition ex_piece : Piece := default zero_Piece (head (m_Pieces (ex_manifest "cat" ""))).
Definition ex_row : option ContentIndexEntry :=
  wd_index ex_locked_world !! ("t1", m_ContentHash (ex_manifest "cat" "")).

Lemma ex_shareable : shareable (ex_manifest "cat" "") ex_piece.
Proof. split; vm_compute; congruence. Qed.

Lemma copy_replaces_locked_version_witness :
  m_RetentionMode (ex_manifest "dog" (pc_PieceID ex_piece)) = ModeCompliance ∧
  ∃ w' m', exec put_result (Copy ex_again) [] ex_locked_world = (mkResponse 200 "" (pc_PieceID ex_piece), w') ∧
    VersionLog.find (mkManifestKey "t1" "photos" (hashObjectKey "dog") (pc_PieceID ex_piece)) (wd_manifests w') = Some m' ∧
    m_RetentionMode m' = "" ∧ m_LegalHold m' = false.
Proof.
  assert (is_Some ex_row) as [e He] by (apply (bool_decide_unpack _); vm_compute; exact I).
  split; [vm_compute; reflexivity|].
  apply (copy_replaces_locked_version ex_again "t1" "photos" "dog" "photos" "cat" "/photos/cat"
    (ex_manifest "cat" "") ex_piece e (ex_manifest "dog" (pc_PieceID ex_piece)) ex_locked_world);
    [reflexivity|reflexivity|discriminate|discriminate|reflexivity|reflexivity|reflexivity|reflexivity
    |vm_compute; reflexivity|exact ex_shareable|reflexivity|exact He|vm_compute; reflexivity|vm_compute; reflexivity].
Defined.

End examples.
End Requests.
