(* ===== verification/CopyRoundtrip.v ===== *)
(** * What is copied can be got

    A COPY that answers 200 leaves the bytes of its source stored under the
    destination, whichever of the ways of copying it took and whichever calls
    failed; and a copy by reading and writing gives a corrupt source a valid
    hash. *)

From S2P Require Import Prelude Bytes GoStrings Ranges Manifest Conditionals ManifestStore ContentIndex ObjectLock.
From S2P Require Import ErasureCoding ClientSdk EncryptionPipeline Fabric Handlers Worm.
From S2P Require Import Reads Objects Roundtrip Tagging CopyObject.
Local Open Scope Z_scope.

Module CopyGet.
Import Object Roundtrip Copying.

Section roundtrip.
Context {G : Gateway} {Rd : Reader} {Cp : Copier}.
Context {AL : @AEADLaws gw_AEAD} {CL : @RSCodecLaws gw_RSCodec}.

Hypothesis Hwrap : ∀ n dek wr, WrapDEK n dek = Some wr →
  UnwrapDEK (mkWrappedDEK (wd_KeyID wr) ContentAlgorithm (wd_WrappedKey wr) (wd_WrapAlgorithm wr)) = Some dek.
Hypothesis Hput : ∀ be id body, pr_PieceID' (put_result be id body) = id.
Hypothesis Hnonempty : ∀ s, sha256Hex s ≠ "".

(** ** Reading the source with calls that may fail *)

Lemma fetch_shards_wp {R} w tol ps losses acc (k : _ → prog R) Q :
  (∀ e, re_status e ≠ 200 → wp put_result (k (Err e)) Q w) →
  (∀ fetched,
     Forall2 (λ p sh, sh = piece_shard p [] ∨ lost w p = false ∧ sh = fetched_shard w p) ps fetched →
     (∀ s, default 0 (losses !! s) ≤ tol →
        default 0 (losses !! s) +
          blen (filter (λ sh, sh_StripeIndex sh = s ∧ sh_Bytes sh = []) fetched) ≤ tol) →
     wp put_result (k (Ok (acc ++ fetched))) Q w) →
  Forall (λ p, lost w p = false → sh_Bytes (fetched_shard w p) ≠ []) ps →
  wp put_result (fetch_shards tol ps losses acc k) Q w.
Proof.
  intros Herr Hok Hne. revert losses acc Hok. induction Hne as [|p ps Hp Hps IH]; intros losses acc Hok; simpl.
  { rewrite <- (app_nil_r acc). apply Hok; [done|]. intros s Hs. unfold blen. simpl. lia. }
  assert (∀ code, wp put_result (
    if pc_StripeIndex p <? 0 then k (Err (mkReconstructError 500 "panic"))
    else if tol <? default 0 (losses !! pc_StripeIndex p) + 1 then k (Err (mkReconstructError 502 code))
    else fetch_shards tol ps (<[pc_StripeIndex p := default 0 (losses !! pc_StripeIndex p) + 1]> losses)
           (acc ++ [piece_shard p []]) k) Q w) as Hlost.
  { intros code. destruct (_ <? 0); [by apply Herr|]. destruct (Z.ltb_spec tol (default 0 (losses !! pc_StripeIndex p) + 1));
      [by apply Herr|].
    apply IH. intros fetched Hf Hc. rewrite <- app_assoc. cbn [app]. apply Hok; [constructor; [by left|done]|].
    intros s Hs. rewrite filter_cons. specialize (Hc s).
    destruct (decide (s = pc_StripeIndex p)) as [->|Hns].
    - rewrite lookup_insert_eq in Hc. simpl in Hc. rewrite decide_True by done. unfold blen in *. cbn [length]. lia.
    - rewrite lookup_insert_ne in Hc by done. rewrite decide_False by (simpl; naive_solver). by apply Hc. }
  destruct (negb (registered _)) eqn:Hreg; [apply Hlost|]. intros fault. destruct fault; [apply Hlost|].
  cbn [do_call fst snd]. destruct (wd_pieces w !! _) as [b|] eqn:Hb; [|apply Hlost].
  destruct (mismatch b p) eqn:Hm; [apply Hlost|].
  assert (lost w p = false) as Hl by (unfold lost; by rewrite Hreg, Hb, Hm).
  assert (fetched_shard w p = piece_shard p b) as Hfs by (unfold fetched_shard; by rewrite Hl, Hb).
  apply IH. intros fetched Hf Hc. rewrite <- app_assoc. cbn [app]. apply Hok.
  - constructor; [by right|done].
  - intros s Hs. rewrite filter_cons, decide_False; [by apply Hc|]. intros [_ He].
    specialize (Hp Hl). by rewrite Hfs in Hp.
Qed.

Lemma erasure_wp {R} w m p0 ps registry profile encoder stored shards body
    (k : result reconstructError bytes → prog R) Q :
  m_Pieces m = p0 :: ps → ErasureRegistry = Some registry → pp_ErasureProfile (m_PlacementPolicy m) ≠ "" →
  EC.Registry_Lookup (pp_ErasureProfile (m_PlacementPolicy m)) registry = Some encoder →
  EC.NewEncoder profile = Ok encoder → ep_StripeSize profile + ep_DataShards profile ≤ 2 ^ 63 →
  blen stored < 2 ^ 63 - 8 → EC.Encode encoder stored = Ok shards →
  Forall2 (shard_piece_of w) (m_Pieces m) shards → unseals m stored body →
  (∀ e, re_status e ≠ 200 → wp put_result (k (Err e)) Q w) → wp put_result (k (Ok body)) Q w →
  wp put_result (reconstructErasureCoded m k) Q w.
Proof using CL.
  intros Hps Hreg Hprof Hlook Hnew Hstripe Hlen Henc Hsh Hun Herr Hok.
  destruct (EC.new_facts profile encoder Hnew Hstripe) as (Hen & _).
  assert (0 ≤ ep_ParityShards profile) as Htol by (destruct (EC.new_facts profile encoder Hnew Hstripe) as (_ & _ & ? & _); lia).
  assert (sort_slice piece_less (m_Pieces m) ≡ₚ m_Pieces m) as Hperm by apply merge_sort_Permutation.
  assert (∀ p, p ∈ m_Pieces m → ∃ sh, sh ∈ shards ∧ shard_piece_of w p sh) as Hof.
  { intros p (i & Hi)%list_elem_of_lookup. destruct (Forall2_lookup_l _ _ _ _ _ Hsh Hi) as (sh & Hj & ?).
    exists sh. split; [by eapply list_elem_of_lookup_2|done]. }
  unfold reconstructErasureCoded. rewrite Hreg, bool_decide_eq_false_2, Hlook, Hen by done.
  destruct (_ =? 0); [by apply Herr|]. apply fetch_shards_wp.
  - intros e. apply Herr.
  - intros fetched Hf Hcount.
    destruct (Permutation_Forall2 Hperm Hf) as (got & Hgot & Hrel).
    rewrite (EC.Decode_received profile encoder Hnew Hstripe stored shards got); [|done|done| |done|].
    + unfold unseals in Hun. destruct (IsGatewayEncrypted _); [by rewrite Hun|by subst].
    + apply Forall2_same_length_lookup_2; [by rewrite <- (Forall2_length _ _ _ Hsh), (Forall2_length _ _ _ Hrel)|].
      intros i sh sh' Hi Hj. destruct (Forall2_lookup_r _ _ _ _ _ Hsh Hi) as (p & Hp & Hs & Hx & _ & Hb).
      destruct (Forall2_lookup_lr _ _ _ _ _ _ Hrel Hp Hj) as [->|[Hl ->]].
      * split; [unfold EC.slot_of; simpl; congruence|by left].
      * split; [unfold EC.slot_of; simpl; congruence|right]. destruct Hb as [|Hb]; [congruence|].
        unfold fetched_shard. rewrite Hl, Hb. done.
    + intros s. specialize (Hcount s). rewrite lookup_empty in Hcount. exact (Hcount Htol).
  - apply Forall_forall. intros p Hp Hl. rewrite Hperm in Hp. destruct (Hof p Hp) as (sh & Hin & _ & _ & _ & Hb).
    destruct Hb as [|Hb]; [congruence|]. unfold fetched_shard. rewrite Hl, Hb. simpl. intros Hnil.
    destruct (EC.Encode_in_range profile encoder Hnew Hstripe stored shards sh Henc Hin) as (_ & _ & Hbl).
    pose proof (EC.sz_pos profile encoder Hnew Hstripe). rewrite Hnil in Hbl. unfold blen in Hbl. simpl in Hbl. lia.
Qed.

Lemma fetch_parts_wp {R} w ps parts acc (k : _ → prog R) Q :
  Forall2 (holds w) ps parts →
  (∀ e, re_status e ≠ 200 → wp put_result (k (Err e)) Q w) → wp put_result (k (Ok (acc ++ parts))) Q w →
  wp put_result (fetch_parts ps acc k) Q w.
Proof.
  intros Hps Herr. revert acc. induction Hps as [|p b ps parts Hp Hps IH]; intros acc Hok; [by rewrite app_nil_r in Hok|].
  intros fault. destruct fault; [by apply Herr|]. cbn [do_call fst snd].
  rewrite (holds_bytes _ _ _ Hp), (holds_hash _ _ _ Hp). apply IH. by rewrite <- app_assoc.
Qed.

Lemma multipart_wp {R} w m ps parts bodies (k : result reconstructError (list bytes) → prog R) Q :
  sort_slice part_less (m_Pieces m) = ps → Forall2 (holds w) ps parts →
  (if IsGatewayEncrypted (enc_Mode (m_Encryption m))
   then hasEncryption = true ∧
        ∃ dek, UnwrapDEK (wrapped_of (m_Encryption m)) = Some dek ∧
          decrypt_parts dek (m_Encryption m) (aadIdentityOf m) parts = Some bodies
   else parts = bodies) →
  (∀ e, re_status e ≠ 200 → wp put_result (k (Err e)) Q w) → wp put_result (k (Ok bodies)) Q w →
  wp put_result (reconstructMultipart m k) Q w.
Proof.
  intros Hsort Hparts Hun Herr Hok. unfold reconstructMultipart. rewrite Hsort.
  destruct (_ <? _); [by apply Herr|]. destruct (existsb _ _); [by apply Herr|].
  apply (fetch_parts_wp w _ parts); [done|by intros e; apply Herr|]. cbn [app].
  destruct (IsGatewayEncrypted _).
  - destruct Hun as (-> & dek & -> & ->). simpl. destruct (_ && _); [by apply Herr|done].
  - subst parts. destruct (_ && _); [by apply Herr|done].
Qed.

(** ** Writing the copy *)

Section writes.
Context (t b key : string) (src : ObjectManifest) (q : CopyRequest) (body : bytes).
Hypothesis Hsize : m_ObjectSize src = blen body.

Lemma copy_core piece be enc dedup :
  core (copy_manifest t b key src piece be enc dedup q) =
  (t, b, hashObjectKey key, pc_PieceID piece, m_ObjectSize src, enc,
   clear_ErasureProfile (m_PlacementPolicy src), [piece], false).
Proof. unfold copy_manifest, Tags.applyCopyObjectMetadata. by case_bool_decide. Qed.

Lemma rollback_fails be piece dedup w code :
  puts t b key body (rollbackCopyPiece t be src piece dedup (Ret (writeError 500 code))) w.
Proof. unfold puts, rollbackCopyPiece. by repeat case_match. Qed.

Lemma write_stores piece be enc dedup w :
  pc_PieceID piece ≠ "" → represents w (copy_manifest t b key src piece be enc dedup q) body →
  puts t b key body (writeCopyManifest t b key src piece be enc dedup q) w.
Proof using Hsize.
  intros Hid Hrep. unfold puts, writeCopyManifest. cbv zeta.
  pose proof (copy_core piece be enc dedup) as Hc. set (m := copy_manifest _ _ _ _ _ _ _ _ _) in *.
  destruct (applyDefaultObjectLockRetention _ _ m) as [m'|] eqn:Hd; [|apply rollback_fails].
  apply core_default in Hd. unfold core in Hc. injection Hc as _ _ Hk Hv Hs _ _ _ Hdm.
  assert (m_ObjectKeyHash m' = hashObjectKey key ∧ m_VersionID m' = pc_PieceID piece) as [Hk' Hv'].
  { unfold core in Hd. injection Hd as _ _ Hk' Hv' _ _ _ _ _. split; congruence. }
  intros fault. destruct fault; [apply rollback_fails|]. simpl. intros _.
  rewrite <- Hk', <- Hv'. eapply stored_last; [exact Hd|done|congruence|done|congruence|done].
Qed.

Lemma copy_represents piece be enc dedup stored w :
  pc_ShardKind piece = "" → registered (pc_Backend piece) = true →
  wd_pieces w !! (pc_Backend piece, pc_PieceID piece) = Some stored → mismatch stored piece = false →
  cache_agrees w piece stored →
  (if IsGatewayEncrypted (enc_Mode enc)
   then decryptFromStorage stored enc (mkAadIdentity t b (hashObjectKey key) (pc_PieceID piece)) = Some body
   else stored = body) →
  represents w (copy_manifest t b key src piece be enc dedup q) body.
Proof.
  intros Hk Hr Hw Hh Hc Hu. pose proof (copy_core piece be enc dedup) as Hcore.
  set (m := copy_manifest _ _ _ _ _ _ _ _ _) in *. unfold core in Hcore.
  injection Hcore as Ht Hb Hkh Hv _ He _ Hp _.
  eapply (RSingle _ _ _ piece stored); [done|done|by split|done|].
  unfold unseals, aadIdentityOf. by rewrite Ht, Hb, Hkh, Hv, He.
Qed.

(** *** Sealed again, or stored as it is *)

Hypothesis Hnonces : ∀ j nonce, ent_nonce (cq_rand q) j = Some nonce → blen nonce = NonceSizeX.

Lemma reencrypted_stores be mode me w :
  IsGatewayEncrypted mode = true → registered be = true →
  wd_cache w !! newPieceID t b key (cq_now_piece q) = None →
  puts t b key body (storeReencryptedCopy t b key src be body mode me q) w.
Proof using AL Hwrap Hput Hnonempty Hsize Hnonces.
  intros Hm Hr Hcache. unfold puts, storeReencryptedCopy. cbv zeta.
  destruct (encryptForStorage _ _ _) as [[ct wr]|] eqn:He; [|done].
  intros fault. destruct fault; [done|]. cbn [do_call fst snd]. rewrite Hput.
  apply write_stores; [apply Hnonempty|]. eapply (copy_represents _ _ _ _ ct); [done|done| |by apply verify_own| |].
  - simpl. by rewrite lookup_insert_eq.
  - intros b'. simpl. by rewrite Hcache.
  - simpl. rewrite Hm. unfold encryptForStorage, GenerateDEK in He.
    destruct hasEncryption eqn:Hhas; [|done]. simpl in He. destruct (ent_dek _) as [dek|]; [|done].
    destruct (Sdk.EncryptObject _ _ _ _) as [c|] eqn:Hct; [|done].
    destruct (WrapDEK _ _) as [wr'|] eqn:Hwr; [|done]. injection He as -> ->.
    change (decryptFromStorage ct (sealed_config mode wr AADVersionV1)
      (mkAadIdentity t b (hashObjectKey key) (newPieceID t b key (cq_now_piece q))) = Some body).
    by eapply (sealed_unseals Hwrap).
Qed.

Lemma verbatim_stores be enc w :
  IsGatewayEncrypted (enc_Mode enc) = false → registered be = true →
  wd_cache w !! newPieceID t b key (cq_now_piece q) = None →
  puts t b key body (storeVerbatimCopy t b key src be body enc q) w.
Proof using Hput Hnonempty Hsize.
  intros Hm Hr Hcache. unfold puts, storeVerbatimCopy. cbv zeta.
  intros fault. destruct fault; [done|]. cbn [do_call fst snd]. rewrite Hput.
  apply write_stores; [apply Hnonempty|]. eapply (copy_represents _ _ _ _ body); [done|done| |by apply verify_own| |].
  - simpl. by rewrite lookup_insert_eq.
  - intros b'. simpl. by rewrite Hcache.
  - simpl. by rewrite Hm.
Qed.

Lemma destination_registered be : copyDestinationBackend src = Some be → registered be = true.
Proof.
  unfold copyDestinationBackend. destruct (_ && _) eqn:Ha.
  - intros [= <-]. by apply andb_true_iff in Ha as [_ ?].
  - intros (p & Hp & ->)%fmap_Some. apply head_Some_elem_of, list_elem_of_filter in Hp as [? _]. done.
Qed.

Lemma content_stores w :
  wd_cache w !! newPieceID t b key (cq_now_piece q) = None →
  puts t b key body (copy_content t b key src body q) w.
Proof using AL Hwrap Hput Hnonempty Hsize Hnonces.
  intros Hcache. unfold puts, copy_content. destruct (copyDestinationBackend src) as [be|] eqn:Hbe; [|done].
  apply destination_registered in Hbe. destruct (IsGatewayEncrypted _) eqn:Hm; [by apply reencrypted_stores|].
  case_bool_decide as Hmode; [|by apply verbatim_stores].
  destruct (effectiveEncryptionMode _ _) as [mode|]; [|done].
  destruct (IsGatewayEncrypted mode) eqn:Hm'; [by apply reencrypted_stores|by apply verbatim_stores].
Qed.

(** The new piece is stamped with the hash of the bytes that were read, whatever the
    hash of the source was. *)
Lemma getput_stores p stored w :
  serverSideCopy (pc_Backend p) = false → registered (pc_Backend p) = true →
  wd_pieces w !! (pc_Backend p, pc_PieceID p) = Some stored →
  wd_cache w !! newPieceID t b key (cq_now_piece q) = None →
  (if IsGatewayEncrypted (enc_Mode (m_Encryption src))
   then decryptFromStorage stored (m_Encryption src)
          (mkAadIdentity t b (hashObjectKey key) (newPieceID t b key (cq_now_piece q))) = Some body
   else stored = body) →
  puts t b key body (copy_piece t b key src p q) w.
Proof using Hput Hnonempty Hsize.
  intros Hss Hr Hb Hcache Hopen. unfold puts, copy_piece. cbv zeta. rewrite Hss.
  intros fault. destruct fault; [done|]. cbn [do_call fst snd]. rewrite Hb.
  intros fault. destruct fault; [done|]. cbn [do_call fst snd]. rewrite Hput.
  apply write_stores; [apply Hnonempty|]. eapply (copy_represents _ _ _ _ stored); [done|done| |by apply verify_own| |done].
  - simpl. by rewrite lookup_insert_eq.
  - intros b'. simpl. by rewrite Hcache.
Qed.

(** *** A source of one piece *)

Context (p : Piece) (stored : bytes) (w : World).
Hypothesis Hkind : pc_ShardKind p = "".
Hypothesis Hholds : holds w p stored.
Hypothesis Hagrees : cache_agrees w p stored.
Hypothesis Hun : unseals src stored body.
Hypothesis Hid : pc_PieceID p ≠ "".
Hypothesis Hcache : wd_cache w !! newPieceID t b key (cq_now_piece q) = None.

Lemma take_limited_all n : blen (take (Z.to_nat (n + 1)) stored) ≤ n → take (Z.to_nat (n + 1)) stored = stored.
Proof.
  unfold blen. rewrite length_take. intros Hn. apply take_ge. lia.
Qed.

Lemma reencrypt_stores :
  IsGatewayEncrypted (enc_Mode (m_Encryption src)) = true →
  puts t b key body (copyReencrypt t b key src p q) w.
Proof using AL Hwrap Hput Hnonempty Hsize Hnonces Hholds Hun Hcache.
  intros Hm. unfold puts, copyReencrypt. destruct (negb _); [done|]. destruct (_ <? _); [done|].
  intros fault. destruct fault; [done|]. cbn [do_call fst snd]. rewrite (holds_bytes _ _ _ Hholds).
  cbn [read_limited]. destruct (Z.ltb_spec MaxInMemoryObjectBytes (blen (take (Z.to_nat (MaxInMemoryObjectBytes + 1)) stored)))
    as [|Hle]; [done|].
  apply take_limited_all in Hle as ->. unfold unseals in Hun. rewrite Hm in Hun. rewrite Hun.
  apply reencrypted_stores; [done|apply (holds_registered _ _ _ Hholds)|done].
Qed.

Lemma default_stores mode :
  IsGatewayEncrypted (enc_Mode (m_Encryption src)) = false → IsGatewayEncrypted mode = true →
  puts t b key body (copyEncryptForDefault t b key src p mode q) w.
Proof using AL Hwrap Hput Hnonempty Hsize Hnonces Hholds Hun Hcache.
  intros Hm Hm'. unfold puts, copyEncryptForDefault. destruct (negb _); [done|]. destruct (_ <? _); [done|].
  intros fault. destruct fault; [done|]. cbn [do_call fst snd]. rewrite (holds_bytes _ _ _ Hholds).
  cbn [read_limited]. destruct (Z.ltb_spec MaxInMemoryObjectBytes (blen (take (Z.to_nat (MaxInMemoryObjectBytes + 1)) stored)))
    as [|Hle]; [done|].
  apply take_limited_all in Hle as ->. unfold unseals in Hun. rewrite Hm in Hun. rewrite Hun.
  apply reencrypted_stores; [done|apply (holds_registered _ _ _ Hholds)|done].
Qed.

(** A body that is not bound to its identity opens under any. *)
Lemma unbound_opens i :
  enc_AADVersion (m_Encryption src) ≠ AADVersionV1 →
  if IsGatewayEncrypted (enc_Mode (m_Encryption src))
  then decryptFromStorage stored (m_Encryption src) i = Some body else stored = body.
Proof using Hun.
  intros Hv. unfold unseals in Hun. destruct (IsGatewayEncrypted _); [|done]. rewrite <- Hun.
  unfold decryptFromStorage, decryptWithDEK, gatewayDecryptOptions.
  by rewrite !bool_decide_eq_false_2.
Qed.

Lemma piece_stores w' :
  wd_pieces w' = wd_pieces w → wd_cache w' = wd_cache w →
  enc_AADVersion (m_Encryption src) ≠ AADVersionV1 →
  puts t b key body (copy_piece t b key src p q) w'.
Proof using Hput Hnonempty Hsize Hholds Hun Hcache.
  intros Hpw Hcw Hv. destruct (serverSideCopy (pc_Backend p)) eqn:Hss.
  - unfold puts, copy_piece. cbv zeta. rewrite Hss. intros fault. destruct fault; [done|].
    cbn [do_call]. rewrite Hpw, (holds_bytes _ _ _ Hholds). cbn [fst snd].
    apply write_stores; [apply Hnonempty|]. eapply (copy_represents _ _ _ _ stored); [done|apply Hholds| | | |by apply unbound_opens].
    + simpl. by rewrite lookup_insert_eq.
    + apply Hholds.
    + intros b'. simpl. by rewrite Hcw, Hcache.
  - apply (getput_stores p stored); [done|apply Hholds|by rewrite Hpw; apply Hholds|by rewrite Hcw|].
    by apply unbound_opens.
Qed.

Lemma copy_verbatim_stores :
  enc_AADVersion (m_Encryption src) ≠ AADVersionV1 →
  puts t b key body (copy_verbatim t b key src p q) w.
Proof using Hput Hnonempty Hsize Hkind Hholds Hagrees Hun Hid Hcache.
  intros Hv. unfold puts, copy_verbatim. destruct (_ && _); [|by apply piece_stores].
  intros fault. destruct fault; [done|]. cbn [do_call]. unfold index_write.
  destruct (Index.IncrementRef _ _ _) as [ix|[]]; cbn [fst snd]; [|by apply piece_stores|done..].
  apply write_stores; [done|]. eapply (copy_represents _ _ _ _ stored); [done|apply Hholds..|done|by apply unbound_opens].
Qed.

End writes.

(** ** The whole request *)

(** The response, when it is 200, comes with the object stored. *)
Definition copies (q : CopyRequest) (t b key : string) (body : bytes) (w : World) : Prop :=
  wp put_result (Copy q) (λ r w', rs_status r = 200 → b ≠ "" ∧ key ≠ "" ∧ stored_as t b key body r w') w.

(** A request to copy the version [src] to the key. *)
Record copy_of (q : CopyRequest) (t b key : string) (src : ObjectManifest) (w : World) : Prop := {
  co_auth : cq_auth q = Ok t;
  co_path : parseBucketKey (cq_path q) = (b, key);
  co_source : ∃ sb sk sv, parseCopySource (Header_Get "x-amz-copy-source" (cq_headers q)) = Some (sb, sk, sv) ∧
    VersionLog.get (mkManifestKey t sb (hashObjectKey sk) sv) (wd_manifests w) = Ok src;
  co_uncached : wd_cache w !! newPieceID t b key (cq_now_piece q) = None
}.

(** The version is stored, its pieces have names, and the random source delivers
    whole nonces. *)
Record copy_ready (q : CopyRequest) (t b key : string) (src : ObjectManifest) (body : bytes) (w : World) : Prop := {
  cr_request : copy_of q t b key src w;
  cr_size : m_ObjectSize src = blen body;
  cr_stored : represents w src body;
  cr_bound : enc_AADVersion (m_Encryption src) = AADVersionV1 →
    IsGatewayEncrypted (enc_Mode (m_Encryption src)) = true;
  cr_named : Forall (λ p, pc_PieceID p ≠ "") (m_Pieces src);
  cr_nonces : ∀ j nonce, ent_nonce (cq_rand q) j = Some nonce → blen nonce = NonceSizeX
}.

Lemma tags_refuse hdr src e : Tags.resolveCopyTags hdr src = Err e → rs_status e ≠ 200.
Proof.
  unfold Tags.resolveCopyTags, Tags.parseObjectTaggingHeader. cbv zeta.
  destruct (_ || _); [done|]. case_bool_decide; [|by intros [= <-]]. case_bool_decide; [done|].
  destruct (ParseQuery _) as [values [|]]; [by intros [= <-]|].
  destruct (Tags.header_entries _); [apply Tags.validate_refuses|by intros [= <-]].
Qed.

Lemma metadata_refuses hdr e : Tags.validateCopyMetadataDirective hdr = Some e → rs_status e ≠ 200.
Proof.
  unfold Tags.validateCopyMetadataDirective, Tags.validateRequestObjectMetadata.
  intros He. repeat (case_match || case_bool_decide); by simplify_eq.
Qed.

Lemma represents_plain w m p0 ps body :
  m_Pieces m = p0 :: ps → isErasureCodedManifest m || isMultipartManifest m = false → represents w m body →
  ∃ stored, pc_ShardKind p0 = "" ∧ holds w p0 stored ∧ cache_agrees w p0 stored ∧ unseals m stored body.
Proof.
  intros Hps (Hec & Hmp)%orb_false_iff Hrep.
  destruct Hrep as [p stored Hp Hk Hh Hc Hun|?????????????????? Hsh|?????]; [|exfalso..].
  - rewrite Hps in Hp. injection Hp as -> ->. by exists stored.
  - by erewrite erasure_kind in Hec.
  - congruence.
Qed.

Lemma reconstructed_stores t b key src q body w :
  m_ObjectSize src = blen body →
  (∀ j nonce, ent_nonce (cq_rand q) j = Some nonce → blen nonce = NonceSizeX) →
  wd_cache w !! newPieceID t b key (cq_now_piece q) = None →
  represents w src body → isErasureCodedManifest src || isMultipartManifest src = true →
  puts t b key body (copyReconstructedSource t b key src q) w.
Proof using AL CL Hwrap Hput Hnonempty.
  intros Hsize Hn Hcache Hrep Hkind. unfold puts, copyReconstructedSource.
  destruct (_ && negb _); [done|].
  destruct Hrep as [p stored Hps Hk|p0 ps registry profile encoder stored shards Hps Hreg Hr Hprof Hlook Hnew
    Hstripe Hlen Henc Hsh _ Hun|ps parts bodies Hne Hmp Hmx Hsort Hparts Hun ->].
  - destruct (not_erasure _ _ Hps Hk) as [Hec Hmp]. by rewrite Hec, Hmp in Hkind.
  - rewrite (erasure_kind w src p0 ps shards) by done.
    eapply (erasure_wp w); [done..|by intros e He ?|by apply content_stores].
  - rewrite Hne. eapply (multipart_wp w); [done..|by intros e He ?|by apply content_stores].
Qed.

Lemma copy_walk q t b key src p0 ps body w :
  copy_of q t b key src w → m_Pieces src = p0 :: ps →
  (isErasureCodedManifest src || isMultipartManifest src = true →
     puts t b key body (copyReconstructedSource t b key src q) w) →
  (isErasureCodedManifest src || isMultipartManifest src = false →
   enc_AADVersion (m_Encryption src) = AADVersionV1 → puts t b key body (copyReencrypt t b key src p0 q) w) →
  (∀ mode, isErasureCodedManifest src || isMultipartManifest src = false →
     enc_AADVersion (m_Encryption src) ≠ AADVersionV1 → enc_Mode (m_Encryption src) = "" →
     effectiveEncryptionMode (cq_defaultEncryption q) (m_PlacementPolicy src) = Ok mode →
     IsGatewayEncrypted mode = true →
     puts t b key body (copyEncryptForDefault t b key src p0 mode q) w) →
  (isErasureCodedManifest src || isMultipartManifest src = false →
   enc_AADVersion (m_Encryption src) ≠ AADVersionV1 → puts t b key body (copy_verbatim t b key src p0 q) w) →
  copies q t b key body w.
Proof.
  intros [Ha Hp (sb & sk & sv & Hsrc & Hg) _] Hps Hrecon Hre Hdef Hver. unfold copies, Copy. rewrite Ha, Hp.
  case_bool_decide as Hbe; [done|]. case_bool_decide as Hke; [done|]. simpl.
  apply lock_overwrite_wp; [by intros|]. rewrite Hsrc.
  intros fault. destruct fault; [done|]. cbn [do_call fst snd]. rewrite Hg.
  eapply (wp_mono _ _ (λ r w', rs_status r = 200 → stored_as t b key body r w'));
    [by intros r w' Hs H200; split_and!; [..|apply Hs]|].
  unfold copy_source. destruct (m_DeleteMarker src); [by destruct (negb _)|].
  rewrite Hps. destruct (evaluateCopySourceConditionals _ _ _); [done|].
  destruct (Tags.resolveCopyTags _ _) as [tags|e] eqn:Ht; [|intros ?; by destruct (tags_refuse _ _ _ Ht)].
  destruct (Tags.validateCopyMetadataDirective _) as [e|] eqn:Hmd; [intros ?; by destruct (metadata_refuses _ _ Hmd)|].
  destruct (_ || _) eqn:Hkind; [by apply Hrecon|].
  destruct (negb (registered _)); [done|]. case_bool_decide as Hv; [by apply Hre|].
  case_bool_decide as Hmode; [|by apply Hver].
  destruct (effectiveEncryptionMode _ _) as [mode|] eqn:Hm; [|done].
  destruct (IsGatewayEncrypted mode) eqn:Hg'; [by eapply Hdef|by apply Hver].
Qed.

Lemma Copy_stores q t b key src body w : copy_ready q t b key src body w → copies q t b key body w.
Proof using AL CL Hwrap Hput Hnonempty.
  intros [Hof Hsize Hrep Hbound Hids Hn]. pose proof (co_uncached _ _ _ _ _ _ Hof) as Hcache.
  assert (∃ p0 ps, m_Pieces src = p0 :: ps) as (p0 & ps & Hps).
  { destruct (m_Pieces src) as [|p0 ps] eqn:Hps; [|by eauto]. exfalso.
    destruct Hrep as [| |ps parts bodies _ Hmp]; [congruence..|]. unfold isMultipartManifest in Hmp. by rewrite Hps in Hmp. }
  rewrite Hps in Hids. apply Forall_cons in Hids as [Hid _].
  eapply copy_walk; [done..| | | |].
  - intros Hkind. by apply reconstructed_stores.
  - intros Hkind Hv. destruct (represents_plain _ _ _ _ _ Hps Hkind Hrep) as (stored & Hk & Hh & Hc & Hun).
    by eapply reencrypt_stores; eauto.
  - intros mode Hkind Hv Hmode _ Hm.
    destruct (represents_plain _ _ _ _ _ Hps Hkind Hrep) as (stored & Hk & Hh & Hc & Hun).
    eapply default_stores; [done..|by rewrite Hmode|done].
  - intros Hkind Hv. destruct (represents_plain _ _ _ _ _ Hps Hkind Hrep) as (stored & Hk & Hh & Hc & Hun).
    by eapply copy_verbatim_stores.
Qed.

(** A GET of the copy. *)
Lemma copies_get q t b key body faults w g range d :
  copies q t b key body w →
  let '(r, w') := exec put_result (Copy q) faults w in
  rs_status r = 200 →
  gq_auth g = Ok t → parseBucketKey (gq_path g) = (b, key) →
  gq_versionId g = "" ∨ gq_versionId g = rs_version r →
  gq_cond g = unconditional range → parseObjectRanges range (blen body) = Some d →
  (d = Whole ∨ blen body ≤ MaxInMemoryObjectBytes) → blen body < 2 ^ 63 →
  serves d body (gq_boundary g) (exec put_result (Get g) [] w').1.
Proof using CL.
  intros Hq. pose proof (wp_exec _ _ _ faults _ Hq) as Hs.
  destruct (exec put_result (Copy q) faults w) as [r w']. simpl in Hs. intros H200 Ha Hp Hv Hc Hd Hmax Hlt.
  destruct (Hs H200) as (Hb & Hk & l & m & Hl & Hne & Hdm & Hsz & Hrep).
  eapply get_represented; try done. rewrite Hl. by apply get_put_version.
Qed.


(** A copy gives corrupt bytes a valid hash. The stored bytes of a plaintext piece do
    not have the hash its manifest records, so that a verified read refuses them;
    a COPY to a bucket without default encryption, on a backend without server-side
    copy, reads them without verifying, records their own hash, and every GET of
    the copy serves them as intact. *)
Theorem copy_launders_corruption q t b key src p bad faults w g range d :
  copy_of q t b key src w → m_Pieces src = [p] → pc_ShardKind p = "" → m_ContentHash src = "" →
  IsGatewayEncrypted (enc_Mode (m_Encryption src)) = false → enc_AADVersion (m_Encryption src) ≠ AADVersionV1 →
  (∀ mode, effectiveEncryptionMode (cq_defaultEncryption q) (m_PlacementPolicy src) = Ok mode →
     IsGatewayEncrypted mode = false) →
  serverSideCopy (pc_Backend p) = false → registered (pc_Backend p) = true →
  wd_pieces w !! (pc_Backend p, pc_PieceID p) = Some bad → m_ObjectSize src = blen bad →
  Verify bad p = Some ErrIntegrityCheckFailed →
  let '(r, w') := exec put_result (Copy q) faults w in
  rs_status r = 200 →
  gq_auth g = Ok t → parseBucketKey (gq_path g) = (b, key) →
  gq_versionId g = "" ∨ gq_versionId g = rs_version r →
  gq_cond g = unconditional range → parseObjectRanges range (blen bad) = Some d →
  (d = Whole ∨ blen bad ≤ MaxInMemoryObjectBytes) → blen bad < 2 ^ 63 →
  serves d bad (gq_boundary g) (exec put_result (Get g) [] w').1.
Proof using CL Hput Hnonempty.
  intros Hof Hps Hk Hch Hm Hv Hdef Hss Hr Hb Hsize _. eapply copies_get, copy_walk; [done..| | | |].
  all: destruct (not_erasure _ _ Hps Hk) as [-> ->]; try done.
  - intros mode _ _ _ He Hg. by rewrite (Hdef _ He) in Hg.
  - intros _ _. unfold copy_verbatim. rewrite Hch. simpl.
    apply (getput_stores _ _ _ _ _ _ Hsize p bad); [done..|apply (co_uncached _ _ _ _ _ _ Hof)|by rewrite Hm].
Qed.

End roundtrip.

(** ** Examples *)

Section examples.
#[local] Existing Instance Worm.ex_gateway.
#[local] Existing Instance EC.xor_codec_laws.
#[local] Existing Instance Sdk.plain_aead_laws.
#[local] Existing Instance Roundtrip.ex_reader.
#[local] Instance ex_copier : Copier := { serverSideCopy _ := false }.

Definition ex_copy : CopyRequest :=
  mkCopyRequest (Ok "t1") "/photos/dog" {["x-amz-copy-source" := ["/photos/cat"]]} None (Ok "Enabled") None
    2 2 2 2 (mkEntropy (Some Sdk.ex_dek) Sdk.ex_nonce []).
Definition ex_get_copy (range : string) : GetRequest :=
  mkGetRequest (Ok "t1") "/photos/dog" "" (unconditional range) ∅ "B".

(** The erasure-coded, sealed upload of the PUT example. *)
Lemma ex_stored_represents : represents ex_stored ex_manifest ex_body.
Proof.
  pose proof (wp_exec _ _ _ [] _ (Put_stores ex_wrap (λ _ _ _, conj eq_refl eq_refl) Worm.ex_nonempty ex_registry
    _ _ _ _ _ _ ex_ready)) as H.
  assert (VersionLog.get (mkManifestKey "t1" "photos" (hashObjectKey "cat") "") (wd_manifests ex_stored) =
    Ok ex_manifest) as Hg by (vm_compute; reflexivity).
  assert (rs_status (exec put_result (Put ex_put) [] ex_world).1 = 200) as H200 by (vm_compute; reflexivity).
  unfold ex_stored in *. destruct (exec put_result (Put ex_put) [] ex_world) as [r w']. simpl in *.
  destruct (H H200) as (_ & _ & l & m & Hl & Hne & _ & _ & Hrep).
  rewrite Hl, get_put_version in Hg by auto. revert Hg. generalize ex_manifest. by intros m' [= <-].
Qed.

Lemma ex_copy_ready : copy_ready ex_copy "t1" "photos" "dog" ex_manifest ex_body ex_stored.
Proof.
  split.
  - split; [done..| |vm_compute; reflexivity]. exists "photos", "cat", "". split; vm_compute; reflexivity.
  - vm_compute. reflexivity.
  - apply ex_stored_represents.
  - vm_compute. done.
  - apply (bool_decide_unpack _). vm_compute. exact I.
  - intros j nonce. apply Sdk.ex_nonce_length.
Qed.


(** A plaintext upload whose stored bytes then change. *)
Definition ex_plain_put : PutRequest :=
  mkPutRequest (Ok "t1") false "/photos/cat" (Ok ex_body) 5 "" "" (Ok ∅)
    (Ok (mkObjectHeaders "" "" "" "" "" "" ∅)) None (Ok "Enabled")
    (Ok ("wasabi", mkPlacementPolicy [] [] 0 false "" "" None None)) true None
    1 1 1 1 1 (mkEntropy (Some Sdk.ex_dek) Sdk.ex_nonce []).
Definition ex_bad : bytes := String.list_ascii_of_string "HELLO".
Definition ex_corrupt : World :=
  let w := (exec put_result (Put ex_plain_put) [] ex_world).2 in
  set_pieces (<[("wasabi", newPieceID "t1" "photos" "cat" 1) := ex_bad]> (wd_pieces w)) w.
Definition ex_corrupt_manifest : ObjectManifest :=
  match VersionLog.get (mkManifestKey "t1" "photos" (hashObjectKey "cat") "") (wd_manifests ex_corrupt) with
  | Ok m => m
  | Err _ => Worm.ex_version
  end.
Definition ex_corrupt_piece : Piece := default (mkPiece "" "" "" "" "" "" 0 0 0 0 "") (head (m_Pieces ex_corrupt_manifest)).

Lemma copy_launders_corruption_witness :
  rr_status (exec put_result (Get (ex_get "")) [] ex_corrupt).1 = 502 ∧
  let '(r, w') := exec put_result (Copy ex_copy) [] ex_corrupt in
  rs_status r = 200 ∧ serves Whole ex_bad "B" (exec put_result (Get (ex_get_copy "")) [] w').1.
Proof.
  split; [vm_compute; reflexivity|].
  assert (copy_of ex_copy "t1" "photos" "dog" ex_corrupt_manifest ex_corrupt) as Hof.
  { split; [reflexivity..| |vm_compute; reflexivity]. exists "photos", "cat", "". split; vm_compute; reflexivity. }
  pose proof (copy_launders_corruption (λ _ _ _, eq_refl) Worm.ex_nonempty
    ex_copy "t1" "photos" "dog" ex_corrupt_manifest ex_corrupt_piece ex_bad [] ex_corrupt (ex_get_copy "") "" Whole
    Hof) as H.
  assert (rs_status (exec put_result (Copy ex_copy) [] ex_corrupt).1 = 200) as H200 by (vm_compute; reflexivity).
  destruct (exec put_result (Copy ex_copy) [] ex_corrupt) as [r w']. split; [exact H200|].
  apply H; try (vm_compute; reflexivity).
  - vm_compute. discriminate.
  - intros mode Hm. vm_compute in Hm. injection Hm as <-. reflexivity.
  - exact H200.
  - by left.
  - by left.
Defined.

End examples.
End CopyGet.
