(* ===== verification/Migrator.v ===== *)
(** * The AAD migrator

    [AADMigrator.migrateOne] re-encrypts a legacy object (sealed without
    associated data) under its identity, in place. It is a program over the same
    stores as the handlers. *)

From S2P Require Import Prelude Bytes GoStrings Ranges Manifest Conditionals ManifestStore ContentIndex ObjectLock.
From S2P Require Import ErasureCoding ClientSdk EncryptionPipeline Fabric Handlers Worm Reads Objects Roundtrip.
Local Open Scope Z_scope.
Local Open Scope prog_scope.

Module Aad.
Import Object.

Inductive migrateOutcome :=
| outcomeMigrated | outcomeNotMine | outcomeAlready | outcomeDedup | outcomeMulti | outcomeTooBig.

Section migrator.
Context {G : Gateway} {Rd : Reader}.

Definition eligibility (m : ObjectManifest) : migrateOutcome :=
  if negb (IsGatewayEncrypted (enc_Mode (m_Encryption m))) then outcomeNotMine
  else if bool_decide (enc_AADVersion (m_Encryption m) = AADVersionV1) then outcomeAlready
  else if negb (bool_decide (enc_AADVersion (m_Encryption m) = "")) then outcomeAlready
  else if negb (bool_decide (m_ContentHash m = "")) then outcomeDedup
  else if negb (blen (m_Pieces m) =? 1) then outcomeMulti
  else if MaxInMemoryObjectBytes <? m_ObjectSize m then outcomeTooBig
  else outcomeMigrated.

(** [io.ReadAll(io.LimitReader(body, n))] *)
Definition read_limited (n : Z) (body : stream) : stream :=
  match body with
  | Ok b => Ok (ztake n b)
  | Err b => if n <=? blen b then Ok (ztake n b) else Err b
  end.

(** The manifest the migration switches to. *)
Definition migrated (m : ObjectManifest) (piece : Piece) (chunkSize : Z) (enc : EncryptionConfig)
    : ObjectManifest :=
  mkObjectManifest (m_TenantID m) (m_Bucket m) (m_ObjectKey m) (m_ObjectKeyHash m)
    (m_VersionID m) (m_ObjectSize m) chunkSize (m_ContentHash m) enc
    (m_PlacementPolicy m) (<[0%nat := piece]> (m_Pieces m)) (m_MigrationState m) (m_DeleteMarker m) (m_Tags m)
    (m_ContentType m) (m_ContentEncoding m) (m_ContentDisposition m) (m_ContentLanguage m)
    (m_CacheControl m) (m_Expires m) (m_UserMetadata m) (m_RetentionMode m)
    (m_RetainUntil m) (m_LegalHold m) (m_CreatedAt m).

(** [migrateOne]; [None] is an error. *)
Definition migrateOne (rnd : Entropy) (now : Z) (key : ManifestKey) (man : ObjectManifest)
    : prog (option migrateOutcome) :=
  match eligibility man with
  | outcomeMigrated =>
      match m_Pieces man with
      | [] => Ret None                          (* man.Pieces[0]; eligibility excludes it *)
      | oldPiece :: _ =>
          if negb (registered (pc_Backend oldPiece)) then Ret None
          else
            let id := aadIdentityOf man in
            body <~ PieceGet (pc_Backend oldPiece) (pc_PieceID oldPiece) None;;
            match body with
            | None => Ret None
            | Some body =>
                match read_limited (MaxInMemoryObjectBytes + 1) body with
                | Err _ => Ret None
                | Ok ciphertext =>
                    if MaxInMemoryObjectBytes <? blen ciphertext then Ret (Some outcomeTooBig)
                    else match decryptFromStorage ciphertext (m_Encryption man) id with
                    | None => Ret None
                    | Some plaintext =>
                        match encryptForStorage rnd plaintext id with
                        | None => Ret None
                        | Some (newCiphertext, wrapped) =>
                            let pieceID := newPieceID (m_TenantID man) (m_Bucket man) (m_ObjectKey man) now in
                            putRes <~ PiecePut (pc_Backend oldPiece) pieceID newCiphertext;;
                            match putRes with
                            | None => Ret None
                            | Some putRes =>
                                let updated := migrated man
                                  (mkPiece pieceID (String.app "blake3:" (blake3Hex newCiphertext))
                                     (pc_Backend oldPiece) (pr_Locator putRes) "active" (pr_ETag putRes)
                                     0 (pr_SizeBytes' putRes) 0 0 "")
                                  (pr_SizeBytes' putRes)
                                  (mkEncryptionConfig (enc_Mode (m_Encryption man)) ContentAlgorithm
                                     (wd_KeyID wrapped) (wd_WrappedKey wrapped) (wd_WrapAlgorithm wrapped)
                                     (enc_ManifestEncrypted (m_Encryption man)) AADVersionV1) in
                                err <~ ManPut key updated;;
                                match err with
                                | Err _ => _ <~ PieceDelete (pc_Backend oldPiece) pieceID;; Ret None
                                | Ok _ =>
                                    _ <~ PieceDelete (pc_Backend oldPiece) (pc_PieceID oldPiece);;
                                    Ret (Some outcomeMigrated)
                                end
                            end
                        end
                    end
                end
            end
      end
  | outcome => Ret (Some outcome)
  end.

(** ** The object stays the same *)

Context {AL : @AEADLaws gw_AEAD} {CL : @RSCodecLaws gw_RSCodec}.
Hypothesis Hwrap : ∀ n dek wr, WrapDEK n dek = Some wr →
  UnwrapDEK (mkWrappedDEK (wd_KeyID wr) ContentAlgorithm (wd_WrappedKey wr) (wd_WrapAlgorithm wr)) = Some dek.
Hypothesis Hput : ∀ be id body,
  pr_PieceID' (put_result be id body) = id ∧ pr_SizeBytes' (put_result be id body) = blen body.

(** The version under [key] is the object [body]. *)
Definition object_at (key : ManifestKey) (body : bytes) (w : World) : Prop :=
  ∃ m, VersionLog.find key (wd_manifests w) = Some m ∧ represents w m body.

(** The seal of the migration opens under the identity of the object. *)
Lemma reseal_opens rnd plaintext i ct wr mode me :
  (∀ j nonce, ent_nonce rnd j = Some nonce → blen nonce = NonceSizeX) →
  encryptForStorage rnd plaintext i = Some (ct, wr) →
  decryptFromStorage ct
    (mkEncryptionConfig mode ContentAlgorithm (wd_KeyID wr) (wd_WrappedKey wr) (wd_WrapAlgorithm wr) me AADVersionV1) i
    = Some plaintext.
Proof using AL Hwrap.
  intros Hn Henc. unfold encryptForStorage in Henc. destruct hasEncryption eqn:He; [|done]. simpl in Henc.
  destruct (GenerateDEK rnd) as [dek|]; [|done].
  destruct (Sdk.EncryptObject _ _ _ _) as [ct'|] eqn:Hct; [|done].
  destruct (WrapDEK _ _) as [wr'|] eqn:Hw; [|done]. injection Henc as <- <-.
  exact (Roundtrip.sealed_unseals Hwrap rnd dek i mode wr' plaintext ct' Hn He Hct Hw).
Qed.

(** A represented object with one piece is a single-piece object. *)
Lemma represents_single w m body p :
  m_Pieces m = [p] → represents w m body →
  pc_ShardKind p = "" ∧ ∃ stored, holds w p stored ∧ cache_agrees w p stored ∧ unseals m stored body.
Proof using CL.
  intros Hp Hrep. destruct Hrep as [p' stored Hps Hk Hh Hc Hu
    |p0 ps reg profile enc stored shards Hps Hr Hreg Hprof Hlook Hnew Hstripe Hlen Henc Hsh Hloss Hun
    |ps parts bodies Hne Hmp].
  - rewrite Hp in Hps. injection Hps as <-. split; [done|]. by exists stored.
  - exfalso. destruct (EC.Encode_ok (C := gw_RSCodec) _ _ Hnew Hstripe stored) as (out & Henc' & Hout & _).
    rewrite Henc in Henc'. injection Henc' as <-.
    destruct (EC.num_stripes_bounds _ _ Hnew Hstripe stored) as [Hn _].
    destruct (EC.new_facts _ _ Hnew Hstripe) as (_ & Hk & Hm & _).
    apply Forall2_length in Hsh. rewrite Hp in Hsh. simpl in Hsh. unfold blen in Hout. nia.
  - exfalso. unfold isMultipartManifest in Hmp. rewrite Hp in Hmp. done.
Qed.

Lemma eligible_single m : eligibility m = outcomeMigrated → ∃ p, m_Pieces m = [p].
Proof.
  unfold eligibility. destruct (negb (IsGatewayEncrypted _)); [done|].
  destruct (bool_decide _); [done|]. destruct (negb (bool_decide _)); [done|]. destruct (negb (bool_decide _)); [done|].
  destruct (_ =? 1) eqn:Hl; [|done]. intros _. apply Z.eqb_eq in Hl. unfold blen in Hl.
  destruct (m_Pieces m) as [|p [|]]; simpl in Hl; [lia|by exists p|lia].
Qed.

(** A body within the limit is read whole. *)
Lemma read_limited_all n b b' :
  0 ≤ n → (n <? blen b') = false → read_limited (n + 1) (Ok b) = Ok b' → b' = b.
Proof.
  unfold read_limited. intros Hn Hlt [= <-]. rewrite ztake_take in *. apply take_ge.
  apply Z.ltb_ge in Hlt. unfold blen in Hlt. rewrite length_take in Hlt. lia.
Qed.

Lemma eligible_sealed m : eligibility m = outcomeMigrated → IsGatewayEncrypted (enc_Mode (m_Encryption m)) = true.
Proof. unfold eligibility. destruct (IsGatewayEncrypted _); done. Qed.

(** Writing another piece, or nothing, keeps the object. *)
Lemma represents_other_piece w w' m body p :
  m_Pieces m = [p] → wd_cache w' = wd_cache w →
  wd_pieces w' !! (pc_Backend p, pc_PieceID p) = wd_pieces w !! (pc_Backend p, pc_PieceID p) →
  represents w m body → represents w' m body.
Proof using CL.
  intros Hp Hc Hpc Hrep. destruct (represents_single _ _ _ _ Hp Hrep) as (Hk & stored & [Hr Hb Hh] & Hca & Hu).
  eapply RSingle; [done..| | |done]; [by split; [|rewrite Hpc|]|]. unfold cache_agrees. by rewrite Hc.
Qed.

(** What a migration that reports success leaves. *)
Definition switched (key : ManifestKey) (m : ObjectManifest) (body : bytes) (w w' : World) : Prop :=
  ∃ m', wd_manifests w' = VersionLog.put key m' (wd_manifests w) ∧ represents w' m' body ∧
    enc_AADVersion (m_Encryption m') = AADVersionV1 ∧
    m_DeleteMarker m' = m_DeleteMarker m ∧ m_ObjectSize m' = m_ObjectSize m.

(** A piece id that is not in use. *)
Definition unused (id : string) (w : World) : Prop :=
  (∀ be, wd_pieces w !! (be, id) = None) ∧ wd_cache w !! id = None.

Lemma migrateOne_wp rnd now key m body w :
  (∀ j nonce, ent_nonce rnd j = Some nonce → blen nonce = NonceSizeX) →
  VersionLog.find key (wd_manifests w) = Some m → represents w m body →
  unused (newPieceID (m_TenantID m) (m_Bucket m) (m_ObjectKey m) now) w →
  wp put_result (migrateOne rnd now key m)
    (λ r w', object_at key body w' ∧ (r = Some outcomeMigrated → switched key m body w w')) w.
Proof using AL CL Hwrap Hput.
  intros Hn Hf Hrep. set (newID := newPieceID _ _ _ _). intros [Hfresh Hcache].
  assert (∀ r, r ≠ Some outcomeMigrated →
    object_at key body w ∧ (r = Some outcomeMigrated → switched key m body w w)) as Hkeep
    by (intros r Hr; split; [by exists m|done]).
  unfold migrateOne. destruct (eligibility m) eqn:Hel; try (by apply Hkeep).
  destruct (eligible_single m Hel) as [p Hp]. rewrite Hp.
  destruct (represents_single _ _ _ _ Hp Hrep) as (Hk & stored & [Hr Hb Hh] & Hca & Hu).
  unfold unseals in Hu. rewrite (eligible_sealed m Hel) in Hu. rewrite Hr. simpl negb. cbv iota.
  intros fault. destruct fault; [by apply Hkeep|]. cbn [do_call fst snd]. rewrite Hb. lazy beta iota.
  destruct (read_limited _ _) as [ct0|] eqn:Hread; [|by apply Hkeep].
  destruct (_ <? blen _) eqn:Hbig; [by apply Hkeep|]. apply read_limited_all in Hread; [|done|done]. subst ct0.
  rewrite Hu. destruct (encryptForStorage _ _ _) as [[ct wr]|] eqn:Henc; [|by apply Hkeep].
  intros fault. destruct fault; [by apply Hkeep|]. simpl. fold newID.
  destruct (Hput (pc_Backend p) newID ct) as [Hid Hsz]. rewrite Hid, Hsz.
  assert (newID ≠ pc_PieceID p) as Hne by (intros Heq; specialize (Hfresh (pc_Backend p)); congruence).
  intros fault. destruct fault; simpl.
  { intros fault. split; [|done]. exists m. destruct fault; simpl; (split; [done|]).
    all: eapply (represents_other_piece w); [done|done| |done]; simpl.
    all: rewrite ?lookup_delete_ne, lookup_insert_ne by congruence; done. }
  intros fault. match goal with |- context [VersionLog.put key ?u _] => set (m' := u) end.
  enough (∀ w', wd_manifests w' = VersionLog.put key m' (wd_manifests w) → represents w' m' body →
    object_at key body w' ∧ (Some outcomeMigrated = Some outcomeMigrated → switched key m body w w')) as Hend.
  { apply Hend; [by destruct fault|].
    eapply (Roundtrip.single_represents _ _ _ ct);
      [unfold m', migrated; simpl; by rewrite Hp|done|done|..]; destruct fault; simpl; try done.
    all: rewrite ?lookup_delete_ne by congruence; rewrite ?lookup_insert_eq; try done.
    all: try (by intros b'; simpl; rewrite Hcache).
    all: unfold unseals; simpl; rewrite (eligible_sealed m Hel); by eapply reseal_opens. }
  intros w' Hw' Hrep'. split; [exists m'; rewrite Hw'; by split; [apply Roundtrip.find_put_eq|]|].
  intros _. by exists m'.
Qed.

(** C29: the migration of an object keeps the object. Whatever calls fail, the
    version under the key is after [migrateOne] still the same bytes, readable and
    unsealed by the same reads, and when the migration reports success the version
    is sealed with the v1 associated data. *)
Theorem migration_preserves_object rnd now key m body faults w :
  (∀ j nonce, ent_nonce rnd j = Some nonce → blen nonce = NonceSizeX) →
  VersionLog.find key (wd_manifests w) = Some m → represents w m body →
  unused (newPieceID (m_TenantID m) (m_Bucket m) (m_ObjectKey m) now) w →
  let '(r, w') := exec put_result (migrateOne rnd now key m) faults w in
  object_at key body w' ∧
  (r = Some outcomeMigrated →
     ∃ m', VersionLog.find key (wd_manifests w') = Some m' ∧ enc_AADVersion (m_Encryption m') = AADVersionV1).
Proof using AL CL Hwrap Hput.
  intros Hn Hf Hrep Hun. pose proof (wp_exec _ _ _ faults _ (migrateOne_wp rnd now key m body w Hn Hf Hrep Hun)) as Hm.
  destruct (exec _ _ _ _) as [r w']. simpl in Hm. destruct Hm as [Hat Hsw]. split; [done|]. intros Hr.
  destruct (Hsw Hr) as (m' & Hl & _ & Haad & _). exists m'. split; [|done]. rewrite Hl. apply Roundtrip.find_put_eq.
Qed.

(** But it makes the version current. The migrator visits every version and
    stores it with Put, which promotes it to the latest: migrating a version that a
    delete marker hides brings the deleted object back (a GET of the key answers 404
    before and the old bytes after). *)
Theorem migration_resurrects_deleted rnd now t b key v m body kd marker faults w g :
  (∀ j nonce, ent_nonce rnd j = Some nonce → blen nonce = NonceSizeX) →
  let k := mkManifestKey t b (hashObjectKey key) v in
  v ≠ "" → VersionLog.find k (wd_manifests w) = Some m → represents w m body →
  m_DeleteMarker m = false → m_ObjectSize m = blen body → blen body < 2 ^ 63 →
  unused (newPieceID (m_TenantID m) (m_Bucket m) (m_ObjectKey m) now) w →
  VersionLog.newest (latest_of k) (wd_manifests w) = Some kd →
  VersionLog.find kd (wd_manifests w) = Some marker → m_DeleteMarker marker = true →
  gq_auth g = Ok t → parseBucketKey (gq_path g) = (b, key) → b ≠ "" → key ≠ "" →
  gq_versionId g = "" → gq_cond g = unconditional "" →
  let '(r, w') := exec put_result (migrateOne rnd now k m) faults w in
  r = Some outcomeMigrated →
  rr_status (exec put_result (Get g) [] w).1 = 404 ∧
  serves Whole body (gq_boundary g) (exec put_result (Get g) [] w').1.
Proof using AL CL Hwrap Hput.
  intros Hn k Hv Hf Hrep Hdm Hsz Hlt Hun Hnew Hmk Hdel Ha Hp Hb Hk Hg Hc.
  pose proof (wp_exec _ _ _ faults _ (migrateOne_wp rnd now k m body w Hn Hf Hrep Hun)) as Hm.
  destruct (exec put_result (migrateOne _ _ _ _) _ _) as [r w']. simpl in Hm. destruct Hm as [_ Hsw]. intros Hr.
  destruct (Hsw Hr) as (m' & Hl & Hrep' & _ & Hdm' & Hsz'). split.
  - unfold Get, resolve. rewrite Ha, Hp, !bool_decide_eq_false_2 by done. simpl. rewrite Hg.
    unfold VersionLog.get, VersionLog.resolve. simpl. unfold k in Hnew. unfold latest_of in *. simpl in *.
    rewrite Hnew. simpl. rewrite Hmk, Hdel. done.
  - eapply (get_represented CL g t b key "" Whole m' body); try done; [| |by rewrite Hsz'|by left].
    + rewrite Hl, Hg. by apply Roundtrip.get_put_version; [|left].
    + by rewrite Hdm'.
Qed.

End migrator.
(** ** Examples *)

Section examples.
#[local] Existing Instance Worm.ex_gateway.
#[local] Existing Instance EC.xor_codec_laws.
#[local] Existing Instance Sdk.plain_aead_laws.
#[local] Existing Instance Roundtrip.ex_reader.

(** A legacy object, and the same object under a delete marker. *)
Definition ex_body : bytes := String.list_ascii_of_string "hello".
Definition ex_ct : bytes :=
  match Sdk.EncryptObject Sdk.ex_nonce Sdk.ex_dek (Sdk.mkOptions 0 false []) ex_body with
  | Ok ct => ct
  | Err _ => []
  end.
Definition ex_k (v : string) : ManifestKey := mkManifestKey "t1" "photos" (hashObjectKey "cat") v.
Definition ex_legacy : ObjectManifest :=
  single_piece_manifest "t1" "photos" "cat" "v1" 5 ""
    (mkEncryptionConfig ManagedEncrypted ContentAlgorithm "kek" Sdk.ex_dek "plain" false "") zero_PlacementPolicy
    (mkPlaced "p1" "wasabi" "etag" "" (blen ex_ct)) (formatContentHash (blake3Hex ex_ct)) ∅ 0.
Definition ex_marker : ObjectManifest := delete_marker "t1" "photos" "cat" (hashObjectKey "cat") "v2" 1.
Definition ex_world : World :=
  mkWorld [(ex_k "v1", ex_legacy); (ex_k "v2", ex_marker)] ∅ {[("wasabi", "p1") := ex_ct]} ∅.
Definition ex_rnd : Entropy := mkEntropy (Some Sdk.ex_dek) Sdk.ex_nonce [].
Definition ex_get : GetRequest := mkGetRequest (Ok "t1") "/photos/cat" "" (unconditional "") ∅ "B".

Lemma ex_represents : represents ex_world ex_legacy ex_body.
Proof.
  eapply (Roundtrip.single_represents _ _ _ ex_ct); [reflexivity|reflexivity|reflexivity|..].
  - vm_compute. reflexivity.
  - reflexivity.
  - intros b' Hb'. change (wd_cache ex_world) with (∅ : gmap string bytes) in Hb'. by rewrite lookup_empty in Hb'.
  - vm_compute. reflexivity.
Qed.

Lemma ex_unused : unused (newPieceID "t1" "photos" "cat" 9) ex_world.
Proof.
  split; [|apply lookup_empty]. intros be.
  change (wd_pieces ex_world) with ({[("wasabi", "p1") := ex_ct]} : gmap (string * string) bytes).
  apply lookup_singleton_ne. intros Heq. apply (f_equal snd) in Heq. vm_compute in Heq. discriminate Heq.
Qed.

Lemma ex_found : VersionLog.find (ex_k "v1") (wd_manifests ex_world) = Some ex_legacy.
Proof. apply lookup_insert_eq. Qed.

Lemma migration_preserves_object_witness :
  let '(r, w') := exec put_result (migrateOne ex_rnd 9 (ex_k "v1") ex_legacy) [] ex_world in
  r = Some outcomeMigrated ∧ object_at (ex_k "v1") ex_body w'.
Proof.
  pose proof (migration_preserves_object Roundtrip.ex_wrap (λ _ _ _, conj eq_refl eq_refl) ex_rnd 9 (ex_k "v1")
    ex_legacy ex_body [] ex_world (λ j nonce, Sdk.ex_nonce_length j nonce) ex_found ex_represents ex_unused) as H.
  assert ((exec put_result (migrateOne ex_rnd 9 (ex_k "v1") ex_legacy) [] ex_world).1 = Some outcomeMigrated) as Hr
    by (vm_compute; reflexivity).
  destruct (exec put_result (migrateOne ex_rnd 9 (ex_k "v1") ex_legacy) [] ex_world) as [r w'].
  split; [exact Hr|apply H].
Defined.

Lemma migration_resurrects_deleted_witness :
  let w' := (exec put_result (migrateOne ex_rnd 9 (ex_k "v1") ex_legacy) [] ex_world).2 in
  rr_status (exec put_result (Get ex_get) [] ex_world).1 = 404 ∧
  serves Whole ex_body "B" (exec put_result (Get ex_get) [] w').1.
Proof.
  pose proof (migration_resurrects_deleted Roundtrip.ex_wrap (λ _ _ _, conj eq_refl eq_refl) ex_rnd 9
    "t1" "photos" "cat" "v1" ex_legacy ex_body (ex_k "v2") ex_marker [] ex_world ex_get
    (λ j nonce, Sdk.ex_nonce_length j nonce) ltac:(done) ex_found ex_represents eq_refl eq_refl
    ltac:(vm_compute; reflexivity) ex_unused ltac:(vm_compute; reflexivity) ltac:(vm_compute; reflexivity)
    eq_refl eq_refl eq_refl ltac:(done) ltac:(done) eq_refl eq_refl) as H.
  assert ((exec put_result (migrateOne ex_rnd 9 (ex_k "v1") ex_legacy) [] ex_world).1 = Some outcomeMigrated) as Hr
    by (vm_compute; reflexivity).
  fold (ex_k "v1") in H.
  destruct (exec put_result (migrateOne ex_rnd 9 (ex_k "v1") ex_legacy) [] ex_world) as [r w'].
  exact (H Hr).
Defined.

End examples.

End Aad.
