(* ===== verification/Rebalancer.v ===== *)
(** * The migration state machine and the background rebalancer

    A manifest moves through the phases of a cloud-to-local migration; the
    rebalancer copies its pieces to the new primary and advances the phase. *)

From S2P Require Import Prelude Bytes Ranges Manifest ManifestStore ContentIndex ObjectLock.
From S2P Require Import ErasureCoding ClientSdk EncryptionPipeline Fabric Handlers Worm Reads Objects Roundtrip.
Local Open Scope Z_scope.
Local Open Scope prog_scope.

Module Rebalance.

(** ** Phases (migration/state.go) *)

Abbreviation MigrationPhase := string.
Definition WasabiPrimary : MigrationPhase := "wasabi_primary".
Definition DualWrite : MigrationPhase := "dual_write".
Definition LocalPrimaryWasabiBackup : MigrationPhase := "local_primary_wasabi_backup".
Definition LocalPrimaryWasabiDrain : MigrationPhase := "local_primary_wasabi_drain".
Definition LocalOnly : MigrationPhase := "local_only".

Definition phases : list MigrationPhase :=
  [WasabiPrimary; DualWrite; LocalPrimaryWasabiBackup; LocalPrimaryWasabiDrain; LocalOnly].

Definition Valid (p : MigrationPhase) : bool := bool_decide (p ∈ phases).

Definition allowedTransitions : list (MigrationPhase * MigrationPhase) :=
  [(WasabiPrimary, DualWrite);
   (DualWrite, LocalPrimaryWasabiBackup); (DualWrite, WasabiPrimary);
   (LocalPrimaryWasabiBackup, LocalPrimaryWasabiDrain); (LocalPrimaryWasabiBackup, DualWrite);
   (LocalPrimaryWasabiDrain, LocalOnly); (LocalPrimaryWasabiDrain, LocalPrimaryWasabiBackup)].

Definition CanTransition (from to : MigrationPhase) : bool :=
  if negb (Valid from) || negb (Valid to) then false
  else if bool_decide (from = to) then false
  else bool_decide ((from, to) ∈ allowedTransitions).

Inductive transition_error := InvalidSource | InvalidTarget | NoOpTransition | IllegalTransition.

Definition ValidateTransition (from to : MigrationPhase) : option transition_error :=
  if negb (Valid from) then Some InvalidSource
  else if negb (Valid to) then Some InvalidTarget
  else if bool_decide (from = to) then Some NoOpTransition
  else if negb (bool_decide ((from, to) ∈ allowedTransitions)) then Some IllegalTransition
  else None.

(** ** The rebalancer (migration/background_rebalancer) *)

Definition phaseOf (m : ObjectManifest) : MigrationPhase :=
  if ms_Generation (m_MigrationState m) <=? 1 then WasabiPrimary
  else if bool_decide (ms_CloudCopy (m_MigrationState m) = "") then LocalOnly
  else if ms_Generation (m_MigrationState m) =? 2 then DualWrite
  else if ms_Generation (m_MigrationState m) =? 3 then LocalPrimaryWasabiBackup
  else LocalPrimaryWasabiDrain.

Definition eligible (m : ObjectManifest) : bool :=
  bool_decide (phaseOf m ∈ [DualWrite; LocalPrimaryWasabiBackup; LocalPrimaryWasabiDrain]).

Definition nextPhase (p : MigrationPhase) : option MigrationPhase :=
  if bool_decide (p = WasabiPrimary) then Some DualWrite
  else if bool_decide (p = DualWrite) then Some LocalPrimaryWasabiBackup
  else if bool_decide (p = LocalPrimaryWasabiBackup) then Some LocalPrimaryWasabiDrain
  else if bool_decide (p = LocalPrimaryWasabiDrain) then Some LocalOnly
  else None.

Definition set_migration (m : ObjectManifest) (ms : MigrationState) : ObjectManifest :=
  mkObjectManifest (m_TenantID m) (m_Bucket m) (m_ObjectKey m) (m_ObjectKeyHash m)
    (m_VersionID m) (m_ObjectSize m) (m_ChunkSize m) (m_ContentHash m) (m_Encryption m)
    (m_PlacementPolicy m) (m_Pieces m) ms (m_DeleteMarker m) (m_Tags m)
    (m_ContentType m) (m_ContentEncoding m) (m_ContentDisposition m) (m_ContentLanguage m)
    (m_CacheControl m) (m_Expires m) (m_UserMetadata m) (m_RetentionMode m)
    (m_RetainUntil m) (m_LegalHold m) (m_CreatedAt m).

Definition applyPhase (m : ObjectManifest) (next : MigrationPhase) : ObjectManifest :=
  let primary := ms_PrimaryBackend (m_MigrationState m) in
  if bool_decide (next = DualWrite) then set_migration m (mkMigrationState 2 primary "wasabi")
  else if bool_decide (next = LocalPrimaryWasabiBackup) then set_migration m (mkMigrationState 3 primary "wasabi")
  else if bool_decide (next = LocalPrimaryWasabiDrain) then set_migration m (mkMigrationState 4 primary "wasabi")
  else if bool_decide (next = LocalOnly) then set_migration m (mkMigrationState 5 primary "")
  else m.

Record TenantTarget := mkTenantTarget {
  tt_TenantID : string;
  tt_Bucket : string;
  tt_SourceBackend : string;
  tt_PrimaryBackend : string
}.

Definition manifest_key (m : ObjectManifest) : ManifestKey :=
  mkManifestKey (m_TenantID m) (m_Bucket m) (m_ObjectKeyHash m) (m_VersionID m).

Section rebalancer.
Context {G : Gateway} {Rd : Reader}.
Context (target : TenantTarget).

Notation source := (tt_SourceBackend target).
Notation primary := (tt_PrimaryBackend target).

(** The loop over the pieces: those seen so far, how many were copied and their
    bytes. An error leaves the manifest of the store as it was. *)
Fixpoint copy_pieces {R} (todo seen : list Piece) (copied bytesCopied : Z)
    (k : (Z * Z) * option (list Piece) → prog R) : prog R :=
  match todo with
  | [] => k ((copied, bytesCopied), Some seen)
  | piece :: todo =>
      if bool_decide (pc_Backend piece ≠ source)
      then copy_pieces todo (seen ++ [piece]) copied bytesCopied k
      else
        rc <~ PieceGet source (pc_PieceID piece) None;;
        match rc with
        | None | Some (Err _) => k ((copied, bytesCopied), None)
        | Some (Ok body) =>
            put <~ PiecePut primary (pc_PieceID piece) body;;
            match put with
            | None => k ((copied, bytesCopied), None)
            | Some put =>
                copy_pieces todo (seen ++ [move_piece piece primary (pr_Locator put)])
                  (copied + 1) (bytesCopied + blen body) k
            end
        end
  end.

(** [rebalanceManifest]: the counters, and the manifest as it is in memory. *)
Definition rebalanceManifest {R} (m : ObjectManifest) (k : (Z * Z) * option ObjectManifest → prog R) : prog R :=
  copy_pieces (m_Pieces m) [] 0 0 (λ '((copied, bytesCopied), res),
    match res with
    | None => k ((copied, bytesCopied), None)
    | Some pieces =>
        if copied =? 0 then k ((copied, bytesCopied), Some m)
        else
          let m := set_pieces_of m pieces in
          err <~ ManPut (manifest_key m) m;;
          match err with
          | Err _ => k ((copied, bytesCopied), None)
          | Ok _ => k ((copied, bytesCopied), Some m)
          end
    end).

(** [advancePhase]: whether the phase moved, or an error. *)
Definition advancePhase {R} (m : ObjectManifest) (k : option bool → prog R) : prog R :=
  if existsb (λ p, bool_decide (pc_Backend p ≠ primary)) (m_Pieces m) then k (Some false)
  else
    let current := phaseOf m in
    match nextPhase current with
    | None => k (Some false)
    | Some next =>
        match ValidateTransition current next with
        | Some _ => k None
        | None =>
            let m := applyPhase m next in
            err <~ ManPut (manifest_key m) m;;
            match err with Err _ => k None | Ok _ => k (Some true) end
        end
    end.

Record Stats := mkStats {
  rs_ManifestsScanned : Z;
  rs_PiecesCopied : Z;
  rs_BytesCopied : Z;
  rs_PhasesAdvanced : Z;
  rs_Errors : Z
}.

(** One manifest of a page of [runTarget]. *)
Definition rebalance_one {R} (m : ObjectManifest) (s : Stats) (k : Stats → prog R) : prog R :=
  let s := mkStats (rs_ManifestsScanned s + 1) (rs_PiecesCopied s) (rs_BytesCopied s)
             (rs_PhasesAdvanced s) (rs_Errors s) in
  if negb (eligible m) then k s
  else rebalanceManifest m (λ '((copied, bytesCopied), res),
    let s := mkStats (rs_ManifestsScanned s) (rs_PiecesCopied s + copied) (rs_BytesCopied s + bytesCopied)
               (rs_PhasesAdvanced s) (rs_Errors s) in
    let failed := mkStats (rs_ManifestsScanned s) (rs_PiecesCopied s) (rs_BytesCopied s)
                    (rs_PhasesAdvanced s) (rs_Errors s + 1) in
    match res with
    | None => k failed
    | Some m => advancePhase m (λ adv,
        match adv with
        | None => k failed
        | Some false => k s
        | Some true =>
            k (mkStats (rs_ManifestsScanned s) (rs_PiecesCopied s) (rs_BytesCopied s)
                 (rs_PhasesAdvanced s + 1) (rs_Errors s))
        end)
    end).

(** The manifests of a page. *)
Fixpoint rebalance_page (ms : list ObjectManifest) (s : Stats) : prog Stats :=
  match ms with
  | [] => Ret s
  | m :: ms => rebalance_one m s (rebalance_page ms)
  end.

(** ** Progress *)

Hypothesis Hput : ∀ be id body, pr_PieceID' (put_result be id body) = id.
Hypothesis Hdistinct : source ≠ primary.

(** The piece has bytes [b] on one of the two backends; it has them on the primary. *)
Definition located (w : World) (p : Piece) (b : bytes) : Prop :=
  (pc_Backend p = source ∨ pc_Backend p = primary) ∧ wd_pieces w !! (pc_Backend p, pc_PieceID p) = Some b.
Definition on_primary (w : World) (p : Piece) (b : bytes) : Prop :=
  pc_Backend p = primary ∧ wd_pieces w !! (primary, pc_PieceID p) = Some b.

(** The two worlds agree but for pieces on the primary. *)
Definition source_kept (w w' : World) : Prop :=
  ∀ id, wd_pieces w' !! (source, id) = wd_pieces w !! (source, id).

Lemma located_other w w' p b :
  (∀ be, wd_pieces w' !! (be, pc_PieceID p) = wd_pieces w !! (be, pc_PieceID p)) → located w p b → located w' p b.
Proof. intros Hw [? ?]. split; [done|]. by rewrite Hw. Qed.

Lemma on_primary_other w w' p b :
  (∀ be, wd_pieces w' !! (be, pc_PieceID p) = wd_pieces w !! (be, pc_PieceID p)) → on_primary w p b → on_primary w' p b.
Proof. intros Hw [? ?]. split; [done|]. by rewrite Hw. Qed.

Lemma Forall2_on {A B} (P : A → Prop) (Q S : A → B → Prop) l k :
  Forall P l → (∀ x y, P x → Q x y → S x y) → Forall2 Q l k → Forall2 S l k.
Proof.
  intros HP HQS. induction 1 as [|x y l k Hxy _ IH]; [done|]. apply Forall_cons in HP as [? ?].
  constructor; auto.
Qed.

(** Without faults the loop moves every piece. *)
Lemma copy_pieces_exec {R} (k : (Z * Z) * option (list Piece) → prog R) todo :
  ∀ bs seen sb c n w,
  Forall2 (located w) todo bs → Forall2 (on_primary w) seen sb → NoDup (pc_PieceID <$> seen ++ todo) →
  ∃ c' n' pieces w',
    exec put_result (copy_pieces todo seen c n k) [] w = exec put_result (k ((c', n'), Some pieces)) [] w' ∧
    Forall2 (on_primary w') pieces (sb ++ bs) ∧ pc_PieceID <$> pieces = pc_PieceID <$> seen ++ todo ∧
    wd_manifests w' = wd_manifests w ∧ source_kept w w' ∧ c ≤ c' ∧ (c' = c → pieces = seen ++ todo).
Proof using Hput Hdistinct.
  induction todo as [|p todo IH]; intros bs seen sb c n w Htodo Hseen Hnd; simpl.
  { apply Forall2_nil_inv_l in Htodo as ->. exists c, n, seen, w. rewrite !app_nil_r in *. split_and!; try done. }
  apply Forall2_cons_inv_l in Htodo as (b & bs' & [Hbe Hb] & Htodo & ->).
  replace (seen ++ p :: todo) with ((seen ++ [p]) ++ todo) in * by by rewrite <- app_assoc.
  replace (sb ++ b :: bs') with ((sb ++ [b]) ++ bs') by by rewrite <- app_assoc.
  case_bool_decide as Hsrc.
  { destruct Hbe as [?|Hbe]; [done|]. apply IH; [done| |done].
    apply Forall2_app; [done|]. constructor; [|done]. split; [done|]. by rewrite <- Hbe. }
  rewrite Hsrc in Hb. simpl. rewrite Hb. simpl. rewrite Hput.
  set (w1 := set_pieces _ w).
  assert (∀ p', pc_PieceID p' ≠ pc_PieceID p →
    ∀ be, wd_pieces w1 !! (be, pc_PieceID p') = wd_pieces w !! (be, pc_PieceID p')) as Hother.
  { intros p' Hne be. simpl. apply lookup_insert_ne. congruence. }
  set (p1 := move_piece p primary _).
  assert (Forall (λ p', pc_PieceID p' ≠ pc_PieceID p) (seen ++ todo)) as Hne.
  { rewrite fmap_app, fmap_app in Hnd. apply NoDup_app in Hnd as (Hnd & Hnot & _). apply NoDup_app in Hnd as (_ & Hnot' & _).
    apply Forall_app. split; apply Forall_forall; intros p' Hp' Heq.
    - apply (Hnot' (pc_PieceID p')); [by apply list_elem_of_fmap_2|]. rewrite Heq. set_solver.
    - apply (Hnot (pc_PieceID p')); [rewrite Heq; set_solver|by apply list_elem_of_fmap_2]. }
  apply Forall_app in Hne as [Hnes Hnet].
  destruct (IH bs' (seen ++ [p1]) (sb ++ [b]) (c + 1) (n + blen b) w1)
    as (c' & n' & pieces & w' & Hex & Hon & Hids & Hman & Hkept & Hc & _).
  - eapply Forall2_on; [exact Hnet| |done]. intros p' b' Hp'. apply located_other. by apply Hother.
  - apply Forall2_app; [|constructor; [|done]].
    + eapply Forall2_on; [exact Hnes| |done]. intros p' b' Hp'. apply on_primary_other. by apply Hother.
    + split; [done|]. simpl. apply lookup_insert_eq.
  - rewrite !fmap_app in *. done.
  - exists c', n', pieces, w'. rewrite !fmap_app in *. split_and!; [done..| |lia|lia].
    intros id. rewrite Hkept. simpl. apply lookup_insert_ne. congruence.
Qed.

(** ** One pass *)

Lemma phase_cases m : phaseOf m ∈ phases.
Proof. unfold phaseOf, phases. repeat case_match; set_solver. Qed.

(** [phaseOf] reads what [applyPhase] wrote. *)
Lemma phaseOf_applyPhase m p q : nextPhase p = Some q → phaseOf (applyPhase m q) = q.
Proof.
  unfold nextPhase. repeat case_bool_decide; intros [= <-]; reflexivity.
Qed.

Lemma nextPhase_legal p q : nextPhase p = Some q → ValidateTransition p q = None.
Proof. unfold nextPhase. repeat case_bool_decide; subst; intros [= <-]; reflexivity. Qed.

Lemma applyPhase_same m p :
  m_Pieces (applyPhase m p) = m_Pieces m ∧ manifest_key (applyPhase m p) = manifest_key m.
Proof. unfold applyPhase. repeat case_bool_decide; done. Qed.

(** The state between two passes: the manifest is in the store and its pieces
    are where it says. *)
Record migrating (key : ManifestKey) (bs : list bytes) (m : ObjectManifest) (w : World) : Prop := {
  mg_stored : VersionLog.find key (wd_manifests w) = Some m;
  mg_key : manifest_key m = key;
  mg_ids : NoDup (pc_PieceID <$> m_Pieces m);
  mg_pieces : Forall2 (located w) (m_Pieces m) bs
}.

(** A pass over the version: what [runTarget] does with it. *)
Definition pass (key : ManifestKey) (w : World) : World :=
  match VersionLog.find key (wd_manifests w) with
  | Some m => (exec put_result (rebalance_page [m] (mkStats 0 0 0 0 0)) [] w).2
  | None => w
  end.

Lemma all_primary w ps bs : Forall2 (on_primary w) ps bs → existsb (λ p, bool_decide (pc_Backend p ≠ primary)) ps = false.
Proof.
  induction 1 as [|p b ps bs [Hp _] _ IH]; simpl; [done|]. by rewrite IH, bool_decide_eq_false_2 by auto.
Qed.

Lemma advance_exec {R} (k : option bool → prog R) m q w :
  existsb (λ p, bool_decide (pc_Backend p ≠ primary)) (m_Pieces m) = false → nextPhase (phaseOf m) = Some q →
  exec put_result (advancePhase m k) [] w =
  exec put_result (k (Some true)) [] (set_manifests (VersionLog.put (manifest_key m) (applyPhase m q) (wd_manifests w)) w).
Proof.
  intros Hall Hq. unfold advancePhase. rewrite Hall, Hq, (nextPhase_legal _ _ Hq).
  simpl. by rewrite (proj2 (applyPhase_same m q)).
Qed.

Lemma eligible_next m : eligible m = true → ∃ q, nextPhase (phaseOf m) = Some q.
Proof.
  unfold eligible. rewrite bool_decide_eq_true. intros Hin.
  repeat (apply elem_of_cons in Hin as [->|Hin]; [by eexists|]). by apply elem_of_nil in Hin.
Qed.

(** The end of a pass, once the pieces of [m1] are on the primary. *)
Lemma pass_end key bs m1 q w1 w2 :
  manifest_key m1 = key → NoDup (pc_PieceID <$> m_Pieces m1) → nextPhase (phaseOf m1) = Some q →
  Forall2 (on_primary w1) (m_Pieces m1) bs →
  wd_pieces w2 = wd_pieces w1 → VersionLog.find key (wd_manifests w2) = Some (applyPhase m1 q) →
  migrating key bs (applyPhase m1 q) w2 ∧ phaseOf (applyPhase m1 q) = q ∧
  Forall2 (on_primary w2) (m_Pieces (applyPhase m1 q)) bs.
Proof.
  intros Hkey Hnd Hq Hon Hw Hf. destruct (applyPhase_same m1 q) as [Hps Hk].
  assert (Forall2 (on_primary w2) (m_Pieces m1) bs) as Hon2.
  { eapply Forall2_impl; [done|]. intros p b [? ?]. split; [done|]. by rewrite Hw. }
  split_and!; [|by eapply phaseOf_applyPhase|by rewrite Hps].
  split; [done|by rewrite Hk|by rewrite Hps|]. rewrite Hps. eapply Forall2_impl; [done|].
  intros p b [Hb ?]. split; [by right|]. by rewrite Hb.
Qed.

(** Without faults a pass moves every piece and the phase one step on. *)
Lemma pass_step key bs m w :
  migrating key bs m w → eligible m = true →
  ∃ m', migrating key bs m' (pass key w) ∧ nextPhase (phaseOf m) = Some (phaseOf m') ∧
    Forall2 (on_primary (pass key w)) (m_Pieces m') bs ∧ source_kept w (pass key w).
Proof using Hput Hdistinct.
  intros [Hst Hkey Hids Hps] Hel. unfold pass. rewrite Hst. simpl rebalance_page. unfold rebalance_one. rewrite Hel.
  simpl negb. cbv iota zeta. unfold rebalanceManifest.
  match goal with |- context [copy_pieces _ _ _ _ ?k] =>
    destruct (copy_pieces_exec k (m_Pieces m) bs [] [] 0 0 w Hps) as (c & n & ps & w1 & Hex & Hon & Hids1 & Hman & Hkept & Hc & Hsame) end;
    [done|done|]. simpl in Hon, Hids1.
  rewrite Hex. clear Hex. cbv iota beta. destruct (eligible_next m Hel) as [q Hq]. exists (applyPhase (set_pieces_of m ps) q).
  assert (NoDup (pc_PieceID <$> m_Pieces (set_pieces_of m ps))) as Hnd1 by by rewrite <- Hids1 in Hids.
  destruct (c =? 0) eqn:Hz.
  - apply Z.eqb_eq in Hz. rewrite (Hsame Hz) in *. simpl app in *.
    assert (set_pieces_of m (m_Pieces m) = m) as Hm by by destruct m. rewrite Hm in *.
    rewrite (advance_exec _ m q) by (try done; by eapply all_primary). simpl.
    match goal with |- context [migrating _ _ _ ?w2] =>
      destruct (pass_end key bs m q w1 w2) as (Hmg & Hph & Hpr); try done end.
    { rewrite Hkey. apply Roundtrip.find_put_eq. }
    rewrite Hph. split_and!; [done..|]. intros id. apply Hkept.
  - simpl.
    match goal with |- context [exec _ (advancePhase _ _) _ ?w] => set (w2 := w) end.
    rewrite (advance_exec _ (set_pieces_of m ps) q) by (try done; by eapply all_primary). simpl.
    match goal with |- context [migrating _ _ _ ?w3] =>
      destruct (pass_end key bs (set_pieces_of m ps) q w1 w3) as (Hmg & Hph & Hpr); try done end.
    { rewrite <- Hkey. apply Roundtrip.find_put_eq. }
    rewrite Hph. split_and!; [done..|]. intros id. apply Hkept.
Qed.

(** Passes a manifest in this phase still needs. *)
Definition steps_left (p : MigrationPhase) : nat :=
  if bool_decide (p = DualWrite) then 3
  else if bool_decide (p = LocalPrimaryWasabiBackup) then 2
  else if bool_decide (p = LocalPrimaryWasabiDrain) then 1
  else 0.

Lemma eligible_steps m : eligible m = true ↔ (0 < steps_left (phaseOf m))%nat.
Proof.
  unfold eligible, steps_left. rewrite bool_decide_eq_true, !elem_of_cons, elem_of_nil.
  repeat case_bool_decide; split; try tauto; try lia.
Qed.

Lemma steps_next p q :
  nextPhase p = Some q → (0 < steps_left p)%nat →
  steps_left p = S (steps_left q) ∧ (steps_left q = 0%nat → q = LocalOnly).
Proof.
  unfold nextPhase. repeat case_bool_decide; intros [= <-] Hp; subst; first [done | exfalso; vm_compute in Hp; lia].
Qed.

Lemma completes_in n : ∀ key bs m w,
  migrating key bs m w → steps_left (phaseOf m) = S n →
  ∃ m', let w' := Nat.iter (S n) (pass key) w in
    VersionLog.find key (wd_manifests w') = Some m' ∧ phaseOf m' = LocalOnly ∧
    Forall2 (on_primary w') (m_Pieces m') bs ∧ source_kept w w'.
Proof using Hput Hdistinct.
  induction n as [|n IH]; intros key bs m w Hmg Hn.
  all: assert (eligible m = true) as Hel by (apply eligible_steps; lia).
  all: destruct (pass_step key bs m w Hmg Hel) as (m1 & Hmg1 & Hn1 & Hon1 & Hk1).
  all: destruct (steps_next _ _ Hn1) as [Hs Hl]; [lia|].
  - exists m1. split_and!; [apply Hmg1|apply Hl; lia|done..].
  - destruct (IH key bs m1 (pass key w) Hmg1) as (m' & Hf & Hp & Hon & Hk); [lia|].
    exists m'. rewrite Nat.iter_succ_r. split_and!; [done..|]. intros id. by rewrite Hk.
Qed.

(** The rebalancer completes. From a manifest in a phase the rebalancer works
    on, whose pieces are on the source or the primary, at most three passes without
    faults bring it to LocalOnly with every piece on the primary, its bytes those it
    had. The pieces stay on the source as well: no pass drains it. *)
Theorem rebalancer_completes key bs m w :
  migrating key bs m w → eligible m = true →
  ∃ n m', (n ≤ 3)%nat ∧
    let w' := Nat.iter n (pass key) w in
    VersionLog.find key (wd_manifests w') = Some m' ∧ phaseOf m' = LocalOnly ∧
    Forall2 (on_primary w') (m_Pieces m') bs ∧ source_kept w w'.
Proof using Hput Hdistinct.
  intros Hmg Hel%eligible_steps. destruct (steps_left (phaseOf m)) as [|n] eqn:Hn; [lia|].
  destruct (completes_in n key bs m w Hmg Hn) as (m' & Hm'). exists (S n), m'. split; [|done].
  rewrite <- Hn. unfold steps_left. repeat case_bool_decide; lia.
Qed.

End rebalancer.

(** The phase of a manifest. Reading the phase back gives the phase that was
    applied; the rebalancer's step from any phase is a legal transition and raises
    the phase by one in the order of the migration; a legal transition is a step
    forward or one back, and none leaves LocalOnly. *)
Theorem phase_machine :
  (∀ m p q, nextPhase p = Some q → phaseOf (applyPhase m q) = q ∧ ValidateTransition p q = None) ∧
  (∀ i p q, phases !! i = Some p → nextPhase p = Some q ↔ phases !! S i = Some q) ∧
  (∀ i j p q, phases !! i = Some p → phases !! j = Some q →
     CanTransition p q = true ↔ j = S i ∨ (i = S j ∧ p ≠ LocalOnly)) ∧
  (∀ p q, CanTransition p q = true ↔ ValidateTransition p q = None).
Proof.
  split_and!.
  - intros m p q Hq. split; [by eapply phaseOf_applyPhase|by apply nextPhase_legal].
  - intros i p q Hp. do 5 (destruct i as [|i]; [injection Hp as <-; done|]). done.
  - intros i j p q Hp Hq.
    do 5 (destruct i as [|i]; [injection Hp as <-;
      do 5 (destruct j as [|j]; [injection Hq as <-; vm_compute; intuition (try done; try lia)|]); done|]).
    done.
  - intros p q. unfold CanTransition, ValidateTransition.
    destruct (Valid p), (Valid q); simpl; try done. destruct (bool_decide (p = q)); [done|].
    by destruct (bool_decide _).
Qed.

(** ** Examples *)

Section examples.
#[local] Existing Instance Worm.ex_gateway.

Definition ex_target : TenantTarget := mkTenantTarget "t1" "photos" "wasabi" "ceph".
Definition ex_key : ManifestKey := mkManifestKey "t1" "photos" (hashObjectKey "cat") "v1".
Definition ex_manifest : ObjectManifest := set_migration Worm.ex_version (mkMigrationState 2 "ceph" "wasabi").
Definition ex_bytes : bytes := String.list_ascii_of_string "abc".
Definition ex_world : World := mkWorld [(ex_key, ex_manifest)] ∅ {[("wasabi", "p1") := ex_bytes]} ∅.

Lemma ex_migrating : migrating ex_target ex_key [ex_bytes] ex_manifest ex_world.
Proof.
  split.
  - apply lookup_insert_eq.
  - reflexivity.
  - apply NoDup_singleton.
  - constructor; [|constructor]. split; [by left|]. apply lookup_insert_eq.
Qed.

Lemma rebalancer_completes_witness :
  ∃ n m', (n ≤ 3)%nat ∧
    let w' := Nat.iter n (pass ex_target ex_key) ex_world in
    VersionLog.find ex_key (wd_manifests w') = Some m' ∧ phaseOf m' = LocalOnly ∧
    Forall2 (on_primary ex_target w') (m_Pieces m') [ex_bytes] ∧ source_kept ex_target ex_world w'.
Proof.
  apply (rebalancer_completes (G := Worm.ex_gateway) ex_target (λ _ _ _, eq_refl) ltac:(discriminate) ex_key [ex_bytes] ex_manifest ex_world).
  - exact ex_migrating.
  - vm_compute. reflexivity.
Defined.

End examples.

End Rebalance.
