(* ===== verification/Promotion.v ===== *)
(** * The promotion worker

    The worker behind the hot cache: it counts the reads of a piece, and when a
    policy matches it copies the piece from its origin into the cache. *)

From Stdlib Require Import SpecFloat.
From S2P Require Import Prelude Bytes GoStrings Ranges Manifest Conditionals ManifestStore ContentIndex ObjectLock.
From S2P Require Import ErasureCoding ClientSdk EncryptionPipeline Fabric HotCache Handlers Worm Reads Objects.
Local Open Scope Z_scope.
Local Open Scope prog_scope.

Module Promote.
Import Object.

Record PromotionSignal := mkPromotionSignal {
  sig_PieceID : string;
  sig_PieceSizeBytes : Z;
  sig_TenantID : string;
  sig_ReadBytes : Z;
  sig_ReadCount : Z;
  sig_ObservedAt : Z;
  sig_OriginBackend : string
}.

Record PromotionPolicy := mkPromotionPolicy {
  pol_Tier : string;
  pol_MonthlyEgressRatioThreshold : float64;
  pol_DailyReadCountThreshold : Z;
  pol_P95LatencyMissMs : Z;
  pol_MinPieceSizeBytes : Z;
  pol_MaxPieceSizeBytes : Z;
  pol_PinHotByDefault : bool
}.

Inductive policy_error :=
| TierRequired | TierUnknown | EgressRatioNegative | LatencyNegative | MinSizeNegative | SizesCrossed.

Definition PromotionPolicy_Validate (p : PromotionPolicy) : option policy_error :=
  if bool_decide (pol_Tier p = "") then Some TierRequired
  else if negb (bool_decide (pol_Tier p ∈ ["l0"; "l1"; "l2"])) then Some TierUnknown
  else if SFltb (pol_MonthlyEgressRatioThreshold p) float64_zero then Some EgressRatioNegative
  else if pol_P95LatencyMissMs p <? 0 then Some LatencyNegative
  else if pol_MinPieceSizeBytes p <? 0 then Some MinSizeNegative
  else if negb (pol_MaxPieceSizeBytes p =? 0) && (pol_MaxPieceSizeBytes p <? pol_MinPieceSizeBytes p)
  then Some SizesCrossed
  else None.

(** ** The read counter *)

Definition promotionPruneThreshold : Z := 1024.
Definition DefaultPromotionWindow : Z := 24 * 3600 * 1000000000.

Record readCounterEntry := mkReadCounterEntry {
  rc_count : Z;
  rc_windowStart : Z
}.

Record readCounter := mkReadCounter {
  rc_window : Z;
  rc_entries : gmap string readCounterEntry
}.

Definition newReadCounter (window : Z) : readCounter := mkReadCounter window ∅.

Definition window_over (c : readCounter) (now : Z) (e : readCounterEntry) : bool :=
  rc_window c <=? now - rc_windowStart e.

(** [observe]: the reads of the piece in its window. *)
Definition observe (pieceID : string) (delta now : Z) (c : readCounter) : Z * readCounter :=
  let e := match rc_entries c !! pieceID with
           | Some e => if window_over c now e then mkReadCounterEntry 0 now else e
           | None => mkReadCounterEntry 0 now
           end in
  let e := mkReadCounterEntry (wrapu64 (rc_count e + delta)) (rc_windowStart e) in
  let entries := <[pieceID := e]> (rc_entries c) in
  let entries :=
    if promotionPruneThreshold <? Z.of_nat (size entries)
    then filter (λ kv, window_over c now kv.2 = false) entries else entries in
  (rc_count e, mkReadCounter (rc_window c) entries).

(** ** The worker *)

(** [match]: the first policy whose thresholds the signal crosses. *)
Definition match_policy (policies : list PromotionPolicy) (sig : PromotionSignal) (windowCount : Z)
    : option PromotionPolicy :=
  List.find (λ p,
    negb ((0 <? pol_MinPieceSizeBytes p) && (sig_PieceSizeBytes sig <? pol_MinPieceSizeBytes p))
    && negb ((0 <? pol_MaxPieceSizeBytes p) && (pol_MaxPieceSizeBytes p <? sig_PieceSizeBytes sig))
    && negb ((0 <? pol_DailyReadCountThreshold p) && (windowCount <? pol_DailyReadCountThreshold p)))
    policies.

(** [handle]: the counter after the signal, and the calls. [fetch] is the
    worker's [Fetcher]: the backend it reads the piece from. *)
Definition handle (policies : list PromotionPolicy) (fetch : PromotionSignal → option string) (now : Z)
    (sig : PromotionSignal) (c : readCounter) : readCounter * prog unit :=
  let observedAt := if IsZero (sig_ObservedAt sig) then now else sig_ObservedAt sig in
  let delta := if sig_ReadCount sig =? 0 then 1 else sig_ReadCount sig in
  let '(windowCount, c) := observe (sig_PieceID sig) delta observedAt c in
  (c, match match_policy policies sig windowCount with
      | None => Ret ()
      | Some pol =>
          match fetch sig with
          | None => Ret ()
          | Some backend =>
              body <~ PieceGet backend (sig_PieceID sig) None;;
              match body with
              | None => Ret ()
              | Some (Err _) => Ret ()                 (* Cache.Put fails to read the body *)
              | Some (Ok body) => _ <~ CachePut (sig_PieceID sig) body;; Ret ()
              end
          end
      end).

(** ** The cache is not verified *)

Section poison.
Context {G : Gateway} {Rd : Reader}.

(** A single unencrypted piece whose stored bytes do not have its hash. *)
Record corrupted (w : World) (m : ObjectManifest) (p : Piece) (b : bytes) : Prop := {
  cr_pieces : m_Pieces m = [p];
  cr_kind : pc_ShardKind p = "";
  cr_plain : IsGatewayEncrypted (enc_Mode (m_Encryption m)) = false;
  cr_live : m_DeleteMarker m = false;
  cr_registered : registered (pc_Backend p) = true;
  cr_bytes : wd_pieces w !! (pc_Backend p, pc_PieceID p) = Some b;
  cr_mismatch : mismatch b p = true
}.

(** The worker launders corrupt bytes. A GET of a piece whose stored bytes do
    not have the recorded hash is refused with 502, as the read path verifies what it
    fetches; once the worker has promoted the piece, the same GET answers 200 with
    the corrupt bytes, since hits are served unverified and the worker put the bytes
    in the cache without verifying them. *)
Theorem promotion_poisons_cache policies fetch now sig c pol m p b w g t bk key :
  corrupted w m p b → hasCache = true → wd_cache w !! pc_PieceID p = None →
  piece_size m p ≤ MaxInMemoryObjectBytes →
  (∀ budget, cacheWarmBudget = Some budget → piece_size m p ≤ budget) →
  sig_PieceID sig = pc_PieceID p → fetch sig = Some (pc_Backend p) →
  match_policy policies sig
    (observe (sig_PieceID sig) (if sig_ReadCount sig =? 0 then 1 else sig_ReadCount sig)
       (if IsZero (sig_ObservedAt sig) then now else sig_ObservedAt sig) c).1 = Some pol →
  gq_auth g = Ok t → parseBucketKey (gq_path g) = (bk, key) → bk ≠ "" → key ≠ "" →
  VersionLog.get (mkManifestKey t bk (hashObjectKey key) (gq_versionId g)) (wd_manifests w) = Ok m →
  gq_cond g = unconditional "" →
  let w' := (exec put_result (handle policies fetch now sig c).2 [] w).2 in
  rr_status (exec put_result (Get g) [] w).1 = 502 ∧
  rr_status (exec put_result (Get g) [] w').1 = 200 ∧ rr_body (exec put_result (Get g) [] w').1 = b.
Proof.
  intros [Hps Hk Hpl Hdm Hr Hb Hmm] Hhc Hmiss Hmax Hbud Hsig Hf Hmatch Ha Hp Hbk Hkey Hg Hc w'.
  assert (w' = set_cache (<[pc_PieceID p := b]> (wd_cache w)) w) as Hw'.
  { unfold w', handle. destruct (observe _ _ _ c) as [n c']. simpl in Hmatch. simpl.
    rewrite Hmatch, Hf. simpl. rewrite Hsig, Hb. done. }
  rewrite Hw'.
  assert (∀ w0, wd_manifests w0 = wd_manifests w →
    exec put_result (Get g) [] w0 = exec put_result
      (fetchPiece (mkManifestKey t bk (m_ObjectKeyHash m) (m_VersionID m)) m p None (λ fetched,
         match fetched with
         | Err e => Ret (fetch_error_response (applyResponseOverrideHeaders (gq_overrides g)
             (setObjectMetadataHeaders m {["Last-Modified" := FormatHTTPTime (m_CreatedAt m)]})) e)
         | Ok (body, _) => Ret (mkReadResponse 200 "" (<["Content-Length" := FormatInt (m_ObjectSize m)]>
             (set_version m (set_etag p (applyResponseOverrideHeaders (gq_overrides g)
               (setObjectMetadataHeaders m {["Last-Modified" := FormatHTTPTime (m_CreatedAt m)]})))))
             (stream_bytes body) (stream_broken body))
         end)) [] w0) as Hget.
  { intros w0 Hw0. unfold Get. erewrite resolve_ok; [|done..|by rewrite Hw0|done|done|done].
    rewrite (conditionals_ok g m p "" Hc). destruct (not_erasure m p Hps Hk) as [-> ->].
    change (parseObjectRanges "" (m_ObjectSize m)) with (Some Whole). by rewrite Hpl. }
  rewrite (Hget w) by done. rewrite (Hget (set_cache _ w)) by done. unfold fetchPiece. rewrite Hhc.
  split.
  - rewrite exec_call. cbn [do_call fst snd]. rewrite Hmiss. cbn [fmap option_fmap option_map].
    unfold fetch_miss. rewrite (bool_decide_eq_true_2 (None = None)) by done. cbn [orb negb].
    rewrite exec_call. cbn [do_call fst snd]. rewrite Hb. lazy beta iota.
    rewrite (proj2 (Z.ltb_ge _ _)) by done. unfold buffer_and_verify. cbn [negb andb]. rewrite Hmm.
    destruct cacheWarmBudget as [budget|]; [|done].
    rewrite (proj2 (Z.ltb_ge _ _)) by by apply Hbud. rewrite exec_call. done.
  - rewrite exec_call. cbn [do_call fst snd wd_cache set_cache]. rewrite lookup_insert_eq. done.
Qed.

End poison.

(** ** Examples *)

Section examples.
#[local] Existing Instance Worm.ex_gateway.

#[local] Instance ex_reader : Reader := {
  ParseTime _ := None;
  FormatHTTPTime _ := "";
  hasCache := true;
  hasReadRepair := true;
  cacheWarmBudget := Some (64 * 1024 * 1024)
}.

Definition ex_bytes : bytes := String.list_ascii_of_string "abc".
Definition ex_piece : Piece := mkPiece "p1" "blake3:00" "wasabi" "" "active" "etag" 0 3 0 0 "".
Definition ex_manifest : ObjectManifest :=
  single_piece_manifest "t1" "photos" "cat" "v1" 3 "" zero_EncryptionConfig zero_PlacementPolicy
    (mkPlaced "p1" "wasabi" "etag" "" 3) "blake3:00" ∅ 0.
Definition ex_world : World :=
  mkWorld [(mkManifestKey "t1" "photos" (hashObjectKey "cat") "v1", ex_manifest)] ∅
    {[("wasabi", "p1") := ex_bytes]} ∅.
Definition ex_signal : PromotionSignal := mkPromotionSignal "p1" 3 "t1" 3 1 5 "wasabi".
Definition ex_policies : list PromotionPolicy := [mkPromotionPolicy "l0" float64_zero 1 0 0 0 false].
Definition ex_fetch (sig : PromotionSignal) : option string := Some (sig_OriginBackend sig).
Definition ex_get : GetRequest := mkGetRequest (Ok "t1") "/photos/cat" "" (unconditional "") ∅ "B".

Lemma ex_corrupted : corrupted ex_world ex_manifest ex_piece ex_bytes.
Proof. split; try reflexivity. Qed.

Lemma promotion_poisons_cache_witness :
  let w' := (exec put_result (handle ex_policies ex_fetch 5 ex_signal (newReadCounter 10)).2 [] ex_world).2 in
  rr_status (exec put_result (Get ex_get) [] ex_world).1 = 502 ∧
  rr_status (exec put_result (Get ex_get) [] w').1 = 200 ∧ rr_body (exec put_result (Get ex_get) [] w').1 = ex_bytes.
Proof.
  apply (promotion_poisons_cache ex_policies ex_fetch 5 ex_signal (newReadCounter 10)
    (mkPromotionPolicy "l0" float64_zero 1 0 0 0 false) ex_manifest ex_piece ex_bytes ex_world ex_get
    "t1" "photos" "cat").
  - exact ex_corrupted.
  - reflexivity.
  - apply lookup_empty.
  - vm_compute. discriminate.
  - intros budget [= <-]. vm_compute. discriminate.
  - reflexivity.
  - reflexivity.
  - vm_compute. reflexivity.
  - reflexivity.
  - reflexivity.
  - discriminate.
  - discriminate.
  - vm_compute. reflexivity.
  - reflexivity.
Defined.

End examples.
End Promote.
