(* ===== verification/MultipartStore.v ===== *)
(** * The multipart session store (api/s3compat/multipart/store.go)

    An upload is a Go pointer: the store maps upload ids to pointers, handlers
    keep the pointer [Get] or [Complete] gave them, and what one handler writes
    through it (part digests, the scrubbed key) another one reads. The model has
    the same shape: a heap of uploads and a map from ids to heap cells. An upload
    stays in the heap after [Complete] or [Abort] took its id out of the map. *)

From S2P Require Import Prelude Bytes GoStrings Manifest Ranges Conditionals EncryptionPipeline Fabric Reads.
Local Open Scope Z_scope.

Record Part := mkPart {
  pt_PartNumber : Z;
  pt_PieceID : string;
  pt_Backend : string;
  pt_ETag : string;
  pt_SizeBytes : Z;                 (* int64 *)
  pt_UploadedAt : Z
}.

Record PartReference := mkPartReference {
  ref_PartNumber : Z;
  ref_ETag : string
}.

(** [multipart.ObjectMetadata] *)
Record ObjectMetadata := mkObjectMetadata {
  om_Tags : gmap string string;
  om_Headers : ObjectHeaders
}.

Record Upload := mkUpload {
  up_ID : string;
  up_TenantID : string;
  up_Bucket : string;
  up_ObjectKey : string;
  up_Backend : string;
  up_Policy : PlacementPolicy;
  up_CreatedAt : Z;
  up_VersionID : string;
  up_EncMode : string;
  up_DEKMaterial : bytes;
  up_WrappedDEK : bytes;
  up_WrappedKeyID : string;
  up_WrapAlgorithm : string;
  up_ContentAlgorithm : string;
  up_Metadata : ObjectMetadata;
  up_PartHashes : gmap Z bytes;
  up_PlaintextPartHashes : gmap Z bytes;
  up_parts : gmap Z Part
}.

(** The errors of a store; [MpUnavailable] is any error of a remote one. *)
Inductive mp_error :=
| MpNotFound
| MpPartNotFound
| MpPartETagMismatch
| MpTenantMismatch
| MpUploadMismatch
| MpIDRequired
| MpIDExists
| MpBadPartNumber
| MpUnavailable.

Module Sessions.

(** The writes through an upload pointer. *)
Definition with_parts (ps : gmap Z Part) (u : Upload) : Upload :=
  mkUpload (up_ID u) (up_TenantID u) (up_Bucket u) (up_ObjectKey u) (up_Backend u) (up_Policy u) (up_CreatedAt u)
    (up_VersionID u) (up_EncMode u) (up_DEKMaterial u) (up_WrappedDEK u) (up_WrappedKeyID u) (up_WrapAlgorithm u)
    (up_ContentAlgorithm u) (up_Metadata u) (up_PartHashes u) (up_PlaintextPartHashes u) ps.

Definition SetPartHash (partNumber : Z) (hash : bytes) (u : Upload) : Upload :=
  mkUpload (up_ID u) (up_TenantID u) (up_Bucket u) (up_ObjectKey u) (up_Backend u) (up_Policy u) (up_CreatedAt u)
    (up_VersionID u) (up_EncMode u) (up_DEKMaterial u) (up_WrappedDEK u) (up_WrappedKeyID u) (up_WrapAlgorithm u)
    (up_ContentAlgorithm u) (up_Metadata u) (<[partNumber := hash]> (up_PartHashes u)) (up_PlaintextPartHashes u)
    (up_parts u).

Definition SetPlaintextPartHash (partNumber : Z) (hash : bytes) (u : Upload) : Upload :=
  mkUpload (up_ID u) (up_TenantID u) (up_Bucket u) (up_ObjectKey u) (up_Backend u) (up_Policy u) (up_CreatedAt u)
    (up_VersionID u) (up_EncMode u) (up_DEKMaterial u) (up_WrappedDEK u) (up_WrappedKeyID u) (up_WrapAlgorithm u)
    (up_ContentAlgorithm u) (up_Metadata u) (up_PartHashes u) (<[partNumber := hash]> (up_PlaintextPartHashes u))
    (up_parts u).

(** [clear] of the key's backing array: zeros of the same length. *)
Definition scrubUploadDEK (u : Upload) : Upload :=
  mkUpload (up_ID u) (up_TenantID u) (up_Bucket u) (up_ObjectKey u) (up_Backend u) (up_Policy u) (up_CreatedAt u)
    (up_VersionID u) (up_EncMode u) ((λ _, zero_byte) <$> up_DEKMaterial u) (up_WrappedDEK u) (up_WrappedKeyID u)
    (up_WrapAlgorithm u) (up_ContentAlgorithm u) (up_Metadata u) (up_PartHashes u) (up_PlaintextPartHashes u)
    (up_parts u).

(** [PartHash], [PlaintextPartHash] and [PlaintextPartHashCount]. *)
Definition PartHash (partNumber : Z) (u : Upload) : option bytes := up_PartHashes u !! partNumber.
Definition PlaintextPartHash (partNumber : Z) (u : Upload) : option bytes := up_PlaintextPartHashes u !! partNumber.
Definition PlaintextPartHashCount (u : Upload) : Z := Z.of_nat (size (up_PlaintextPartHashes u)).

(** [sort.Slice] by part number. *)
Definition sort_parts (ps : list Part) : list Part := sort_slice (key_less pt_PartNumber Z.ltb) ps.

Definition SortedParts (u : Upload) : list Part := sort_parts (map_to_list (up_parts u)).*2.

Record MemoryStore := mkMemoryStore {
  ms_uploads : gmap string nat;     (* upload id to pointer *)
  ms_heap : gmap nat Upload;
  ms_next : nat                     (* the next fresh pointer *)
}.

Definition NewMemoryStore : MemoryStore := mkMemoryStore ∅ ∅ 0.

(** [u.f(...)] for a pointer [p]. *)
Definition alter_upload (f : Upload → Upload) (p : nat) (s : MemoryStore) : MemoryStore :=
  mkMemoryStore (ms_uploads s) (alter f p (ms_heap s)) (ms_next s).

Definition set_uploads (m : gmap string nat) (s : MemoryStore) : MemoryStore :=
  mkMemoryStore m (ms_heap s) (ms_next s).

(** The pointer of a live upload and what it points to. *)
Definition lookup (uploadID : string) (s : MemoryStore) : option (nat * Upload) :=
  p ← ms_uploads s !! uploadID; u ← ms_heap s !! p; Some (p, u).

Definition Create (upload : Upload) (s : MemoryStore) : result mp_error MemoryStore :=
  if bool_decide (up_ID upload = "") then Err MpIDRequired
  else match ms_uploads s !! up_ID upload with
  | Some _ => Err MpIDExists
  | None =>
      Ok (mkMemoryStore (<[up_ID upload := ms_next s]> (ms_uploads s))
            (<[ms_next s := with_parts ∅ upload]> (ms_heap s)) (S (ms_next s)))
  end.

Definition Get (tenantID uploadID : string) (s : MemoryStore) : result mp_error (nat * Upload) :=
  match lookup uploadID s with
  | None => Err MpNotFound
  | Some (p, u) => if bool_decide (up_TenantID u ≠ tenantID) then Err MpNotFound else Ok (p, u)
  end.

Definition PutPart (tenantID uploadID : string) (part : Part) (s : MemoryStore) : result mp_error MemoryStore :=
  match Get tenantID uploadID s with
  | Err e => Err e
  | Ok (p, _) =>
      if pt_PartNumber part <=? 0 then Err MpBadPartNumber
      else Ok (alter_upload (λ u, with_parts (<[pt_PartNumber part := part]> (up_parts u)) u) p s)
  end.

(** The parts the references name, or the first one that is missing or does not
    match. *)
Fixpoint collect (parts : gmap Z Part) (expected : list PartReference) : result mp_error (list Part) :=
  match expected with
  | [] => Ok []
  | ref :: expected =>
      match parts !! ref_PartNumber ref with
      | None => Err MpPartNotFound
      | Some part =>
          if negb (bool_decide (ref_ETag ref = "")) && negb (bool_decide (pt_ETag part = ""))
             && negb (bool_decide (stripQuotes (ref_ETag ref) = stripQuotes (pt_ETag part)))
          then Err MpPartETagMismatch
          else match collect parts expected with
               | Err e => Err e
               | Ok rest => Ok (part :: rest)
               end
      end
  end.

(** [Complete]: the upload leaves the map, and is put back when a part is missing
    or does not match. *)
Definition Complete (uploadID tenantID bucket objectKey : string) (expected : list PartReference)
    (s : MemoryStore) : result mp_error (list Part * nat) * MemoryStore :=
  match lookup uploadID s with
  | None => (Err MpNotFound, s)
  | Some (p, u) =>
      if bool_decide (up_TenantID u ≠ tenantID) then (Err MpTenantMismatch, s)
      else if bool_decide (up_Bucket u ≠ bucket) || bool_decide (up_ObjectKey u ≠ objectKey)
      then (Err MpUploadMismatch, s)
      else
        let s' := set_uploads (delete uploadID (ms_uploads s)) s in
        match collect (up_parts u) expected with
        | Err e => (Err e, set_uploads (<[uploadID := p]> (ms_uploads s')) s')
        | Ok parts => (Ok (sort_parts parts, p), s')
        end
  end.

Definition Abort (uploadID tenantID : string) (s : MemoryStore) : result mp_error (nat * list Part) * MemoryStore :=
  match lookup uploadID s with
  | None => (Err MpNotFound, s)
  | Some (p, u) =>
      if bool_decide (up_TenantID u ≠ tenantID) then (Err MpTenantMismatch, s)
      else (Ok (p, SortedParts u), set_uploads (delete uploadID (ms_uploads s)) s)
  end.

Definition listed (tenantID bucket : string) (u : Upload) : bool :=
  bool_decide (up_TenantID u = tenantID) && (bool_decide (bucket = "") || bool_decide (up_Bucket u = bucket)).

Definition List (tenantID bucket : string) (s : MemoryStore) : list Upload :=
  sort_slice (λ u v, Before (up_CreatedAt u) (up_CreatedAt v))
    (filter (λ u, listed tenantID bucket u = true) (omap (λ e, ms_heap s !! e.2) (map_to_list (ms_uploads s)))).

(** ** Sessions *)

(** Every live id has its own pointer into the heap, and none of the next ones is
    taken. *)
Record store_ok (s : MemoryStore) : Prop := {
  ok_heap : ∀ id p, ms_uploads s !! id = Some p → ∃ u, ms_heap s !! p = Some u ∧ up_ID u = id;
  ok_inj : ∀ id id' p, ms_uploads s !! id = Some p → ms_uploads s !! id' = Some p → id = id';
  ok_fresh : ∀ p, is_Some (ms_heap s !! p) → (p < ms_next s)%nat
}.

Inductive op :=
| OpCreate (u : Upload)
| OpPutPart (t id : string) (part : Part)
| OpSetPartHash (p : nat) (n : Z) (h : bytes)
| OpSetPlaintextPartHash (p : nat) (n : Z) (h : bytes)
| OpScrub (p : nat)
| OpComplete (id t b key : string) (refs : list PartReference)
| OpAbort (id t : string).

(** The store after an operation, and the session it ended with the tenant that
    did. *)
Definition apply_op (o : op) (s : MemoryStore) : option (nat * string) * MemoryStore :=
  match o with
  | OpCreate u => (None, match Create u s with Ok s' => s' | Err _ => s end)
  | OpPutPart t id part => (None, match PutPart t id part s with Ok s' => s' | Err _ => s end)
  | OpSetPartHash p n h => (None, alter_upload (SetPartHash n h) p s)
  | OpSetPlaintextPartHash p n h => (None, alter_upload (SetPlaintextPartHash n h) p s)
  | OpScrub p => (None, alter_upload scrubUploadDEK p s)
  | OpComplete id t b key refs =>
      let '(r, s') := Complete id t b key refs s in
      (match r with Ok (_, p) => Some (p, t) | Err _ => None end, s')
  | OpAbort id t =>
      let '(r, s') := Abort id t s in (match r with Ok (p, _) => Some (p, t) | Err _ => None end, s')
  end.

Fixpoint run (os : list op) (s : MemoryStore) : list (nat * string) * MemoryStore :=
  match os with
  | [] => ([], s)
  | o :: os =>
      let '(e, s') := apply_op o s in
      let '(es, s'') := run os s' in (option_list e ++ es, s'')
  end.

(** The pointers of the live sessions. *)
Definition live (s : MemoryStore) (p : nat) : Prop := ∃ id, ms_uploads s !! id = Some p.

(** The owner of an upload never changes. *)
Definition owned (s : MemoryStore) (p : nat) (t : string) : Prop :=
  ∃ u, ms_heap s !! p = Some u ∧ up_TenantID u = t.

(** What an operation may do to the sessions: end one its caller owns, or start
    one under a fresh pointer. *)
Record advances (s s' : MemoryStore) (e : option (nat * string)) : Prop := {
  adv_ok : store_ok s';
  adv_next : (ms_next s ≤ ms_next s')%nat;
  adv_owned : ∀ p t, owned s p t → owned s' p t;
  adv_live : ∀ p, live s' p → live s p ∨ (ms_next s ≤ p)%nat;
  adv_event : ∀ p t, e = Some (p, t) → live s p ∧ ¬ live s' p ∧ owned s p t
}.

Lemma advances_refl s : store_ok s → advances s s None.
Proof. intros Hs. split; try done. by left. Qed.

Lemma owned_below s p t : store_ok s → owned s p t → (p < ms_next s)%nat.
Proof. intros Hs (u & Hu & _). apply (ok_fresh _ Hs). by exists u. Qed.

Lemma alter_advances f p s :
  (∀ u, up_ID (f u) = up_ID u ∧ up_TenantID (f u) = up_TenantID u) → store_ok s →
  advances s (alter_upload f p s) None.
Proof.
  intros Hf Hs. split; simpl; try done; [split|..]; simpl.
  - intros id q Hq. destruct (ok_heap _ Hs _ _ Hq) as (u & Hu & Hid).
    destruct (decide (p = q)) as [->|]; [|by exists u; rewrite lookup_alter_ne].
    exists (f u). rewrite lookup_alter_eq, Hu. by rewrite (proj1 (Hf u)).
  - apply (ok_inj _ Hs).
  - intros q [u Hu]. apply (ok_fresh _ Hs). apply lookup_alter_Some in Hu. naive_solver.
  - intros q t (u & Hu & Ht). unfold owned. simpl. destruct (decide (p = q)) as [->|];
      [|by exists u; rewrite lookup_alter_ne].
    exists (f u). rewrite lookup_alter_eq, Hu. by rewrite (proj2 (Hf u)).
  - by left.
Qed.

Lemma create_advances u s s' : store_ok s → Create u s = Ok s' → advances s s' None.
Proof.
  unfold Create. intros Hs Hc. repeat case_match; simplify_eq.
  assert (ms_heap s !! ms_next s = None) as Hfree.
  { apply eq_None_not_Some. intros Hlt%(ok_fresh _ Hs). lia. }
  split; simpl; try done; [split|..]; simpl.
  - intros id p [[<- <-]|[? Hp]]%lookup_insert_Some; [by rewrite lookup_insert_eq; eexists|].
    destruct (ok_heap _ Hs _ _ Hp) as (v & Hv & ?). exists v. rewrite lookup_insert_ne by congruence. done.
  - intros id id' p [[<- <-]|[? Hp]]%lookup_insert_Some [[? ?]|[? Hp']]%lookup_insert_Some; simplify_eq; try done.
    + destruct (ok_heap _ Hs _ _ Hp') as (v & Hv & ?). congruence.
    + destruct (ok_heap _ Hs _ _ Hp) as (v & Hv & ?). congruence.
    + by eapply (ok_inj _ Hs).
  - intros p [<-|[_ Hp%(ok_fresh _ Hs)]]%lookup_insert_is_Some; lia.
  - lia.
  - intros p t (v & Hv & ?). exists v. simpl. rewrite lookup_insert_ne by congruence. done.
  - intros p (id & Hid). simpl in Hid. apply lookup_insert_Some in Hid as [[? <-]|[? Hp]]; [by right|left; by exists id].
Qed.

Lemma lookup_facts id s p u :
  lookup id s = Some (p, u) → ms_uploads s !! id = Some p ∧ ms_heap s !! p = Some u.
Proof. unfold lookup. intros. by simplify_option_eq. Qed.

(** Taking a live id out of the map ends its session. *)
Lemma end_advances id t s p u :
  store_ok s → lookup id s = Some (p, u) → up_TenantID u = t →
  advances s (set_uploads (delete id (ms_uploads s)) s) (Some (p, t)).
Proof.
  intros Hs [Hp Hu]%lookup_facts Ht. split; simpl; try done; [split|..]; simpl.
  - intros id' q [_ Hq]%lookup_delete_Some. by apply (ok_heap _ Hs).
  - intros ? ? ? [_ H1]%lookup_delete_Some [_ H2]%lookup_delete_Some. by eapply (ok_inj _ Hs).
  - apply (ok_fresh _ Hs).
  - intros q (id' & Hq). simpl in Hq. apply lookup_delete_Some in Hq as [_ Hq]. left. by exists id'.
  - intros q t' [= <- <-]. split_and!; [by exists id| |by exists u].
    intros (id' & Hq). simpl in Hq. apply lookup_delete_Some in Hq as [Hne Hq].
    by apply Hne, (ok_inj _ Hs _ _ p).
Qed.

(** A refused completion leaves the store as it was. *)
Lemma complete_cases id t b key refs s :
  (∃ e, Complete id t b key refs s = (Err e, s)) ∨
  ∃ p u parts, lookup id s = Some (p, u) ∧ up_TenantID u = t ∧ up_Bucket u = b ∧ up_ObjectKey u = key ∧
    collect (up_parts u) refs = Ok parts ∧
    Complete id t b key refs s = (Ok (sort_parts parts, p), set_uploads (delete id (ms_uploads s)) s).
Proof.
  unfold Complete. destruct (lookup id s) as [[p u]|] eqn:Hl; [|left; by eexists].
  case_bool_decide as Ht; [left; by eexists|].
  destruct (_ || _) eqn:Hbk; [left; by eexists|]. bool_facts.
  destruct (collect (up_parts u) refs) as [parts|e] eqn:Hc.
  - right. exists p, u, parts. repeat split; try done; by apply dec_stable.
  - left. exists e. f_equal. unfold set_uploads. simpl.
    rewrite insert_delete_id by apply (lookup_facts _ _ _ _ Hl). by destruct s.
Qed.

Lemma apply_advances o s : store_ok s → advances s (apply_op o s).2 (apply_op o s).1.
Proof.
  intros Hs. destruct o as [u|t id part|p n h|p n h|p|id t b key refs|id t]; simpl.
  - destruct (Create u s) eqn:Hc; [by apply (create_advances u)|by apply advances_refl].
  - unfold PutPart. destruct (Get t id s) as [[p u]|]; [|by apply advances_refl].
    destruct (pt_PartNumber part <=? 0); [by apply advances_refl|by apply alter_advances].
  - by apply alter_advances.
  - by apply alter_advances.
  - by apply alter_advances.
  - destruct (complete_cases id t b key refs s) as [[e ->]|(p & u & parts & Hl & <- & _ & _ & _ & ->)];
      [by apply advances_refl|by eapply end_advances].
  - unfold Abort. destruct (lookup id s) as [[p u]|] eqn:Hl; [|by apply advances_refl].
    case_bool_decide as Ht; [by apply advances_refl|]. by apply (end_advances id t s p u Hs Hl).
Qed.

Lemma run_advances os s :
  store_ok s →
  store_ok (run os s).2 ∧ (∀ p t, owned s p t → owned (run os s).2 p t) ∧
  (∀ p, live (run os s).2 p ∨ p ∈ (run os s).1.*1 → live s p ∨ (ms_next s ≤ p)%nat) ∧
  NoDup (run os s).1.*1 ∧
  Forall (λ e, owned (run os s).2 e.1 e.2 ∧ ¬ live (run os s).2 e.1) (run os s).1.
Proof.
  revert s. induction os as [|o os IH]; intros s Hs; simpl.
  { split_and!; [done|done| |constructor|constructor]. intros p [|Hp]; [by left|by apply not_elem_of_nil in Hp]. }
  pose proof (apply_advances o s Hs) as Ha. destruct (apply_op o s) as [e s1]. simpl in Ha.
  destruct (IH s1 (adv_ok _ _ _ Ha)) as (Hok & Hown & Hlive & Hnd & Hev). destruct (run os s1) as [es s2].
  simpl in *.
  assert (∀ p, live s2 p ∨ p ∈ es.*1 → live s p ∨ (ms_next s ≤ p)%nat) as Hlive'.
  { intros p [Hp|Hp]%Hlive; [by apply (adv_live _ _ _ Ha)|]. right. pose proof (adv_next _ _ _ Ha). lia. }
  destruct e as [[p t]|]; simpl; [|split_and!; [done| |done..]; intros; by apply Hown, (adv_owned _ _ _ Ha)].
  destruct (adv_event _ _ _ Ha p t eq_refl) as (Hp & Hend & Hpt).
  assert (¬ (live s2 p ∨ p ∈ es.*1)) as Hgone.
  { intros [?|Hge]%Hlive; [done|]. pose proof (owned_below _ _ _ Hs Hpt). pose proof (adv_next _ _ _ Ha). lia. }
  split_and!; [done| | | |].
  - intros q t' Hq. by apply Hown, (adv_owned _ _ _ Ha).
  - intros q [Hq|[->|Hq]%elem_of_cons]; [apply Hlive'; by left|by left|apply Hlive'; by right].
  - constructor; [|done]. intros Hin. apply Hgone. by right.
  - constructor; [|done]. simpl. split; [by apply Hown, (adv_owned _ _ _ Ha)|]. intros Hin. apply Hgone. by left.
Qed.

(** C20: a session ends once, by its owner. Over any history of the store (the
    operations of many handlers in any order, late writes through old pointers
    included) no upload is completed or aborted twice, each one that ended was
    ended by the tenant that created it, and it is never live again, not even when
    its id is used for a new upload. *)
Theorem sessions_end_once os es s :
  run os NewMemoryStore = (es, s) →
  NoDup es.*1 ∧
  ∀ p t, (p, t) ∈ es → (∃ u, ms_heap s !! p = Some u ∧ up_TenantID u = t) ∧ ∀ id, ms_uploads s !! id ≠ Some p.
Proof.
  intros Hrun.
  assert (store_ok NewMemoryStore) as Hs by (split; [done|done|by intros ? []]).
  destruct (run_advances os _ Hs) as (_ & _ & _ & Hnd & Hev). rewrite Hrun in *. simpl in *. split; [done|].
  intros p t Hin. rewrite Forall_forall in Hev. destruct (Hev _ Hin) as [Hown Hlive]. split; [done|].
  intros id Hid. apply Hlive. by exists id.
Qed.

(** ** An example *)

Definition ex_session (id t : string) : Upload :=
  mkUpload id t "b" "k" "be" zero_PlacementPolicy 0 "v" "" [] [] "" "" ""
    (mkObjectMetadata ∅ (mkObjectHeaders "" "" "" "" "" "" ∅)) ∅ ∅ ∅.

(** A refused completion, a foreign abort, the completion, a repeated one, and the
    id used again. *)
Definition ex_history : list op :=
  [OpCreate (ex_session "u" "t1"); OpComplete "u" "t1" "b" "k" [mkPartReference 1 ""];
   OpPutPart "t1" "u" (mkPart 1 "p" "be" "e" 3 0); OpAbort "u" "t2";
   OpComplete "u" "t1" "b" "k" [mkPartReference 1 ""]; OpComplete "u" "t1" "b" "k" [mkPartReference 1 ""];
   OpCreate (ex_session "u" "t2"); OpSetPartHash 0 1 []; OpAbort "u" "t2"].

Lemma sessions_end_once_witness :
  run ex_history NewMemoryStore = ([(0%nat, "t1"); (1%nat, "t2")], (run ex_history NewMemoryStore).2) ∧
  NoDup [0%nat; 1%nat].
Proof.
  assert ((run ex_history NewMemoryStore).1 = [(0%nat, "t1"); (1%nat, "t2")]) as He by (vm_compute; reflexivity).
  destruct (run ex_history NewMemoryStore) as [es s] eqn:E. cbn [fst snd] in *. rewrite He in E |- *.
  split; [reflexivity|]. apply (sessions_end_once ex_history _ _ E).
Defined.

End Sessions.
