(* ===== verification/Multipart.v ===== *)
(** * The multipart upload handlers (api/s3compat/multipart_handler.go)

    CreateMultipartUpload, UploadPart, CompleteMultipartUpload and
    AbortMultipartUpload as programs over the shared stores of [Fabric] and the
    session store. The decoded XML body, headers, clock readings, random numbers
    and bucket configuration are fields of the requests. MD5 is a parameter.
    Billing, audit and notification events are left out. *)

From S2P Require Import Prelude Bytes GoStrings Manifest Ranges Conditionals ManifestStore ContentIndex ObjectLock.
From S2P Require Import ClientSdk EncryptionPipeline Fabric Handlers Reads MultipartStore.
Local Open Scope Z_scope.

(** ** Programs over the stores and the sessions *)

Inductive mcall : Type → Type :=
| Base {A} (c : call A) : mcall A
| IdxLookupByPlaintext (t h : string) : mcall (result index_error ContentIndexEntry)
| MpCreate (u : Upload) : mcall (err_or_nil mp_error)
| MpGet (t id : string) : mcall (result mp_error (nat * Upload))
| MpPutPart (t id : string) (part : Part) : mcall (err_or_nil mp_error)
| MpComplete (id t b key : string) (refs : list PartReference) : mcall (result mp_error (list Part * nat))
| MpAbort (id t : string) : mcall (result mp_error (nat * list Part))
| MpRead (p : nat) : mcall (option Upload)                    (* the fields behind a pointer *)
| MpWrite (p : nat) (f : Upload → Upload) : mcall unit.       (* a method that writes through it *)

Inductive mprog (R : Type) : Type :=
| MRet (r : R)
| MCall {A : Type} (c : mcall A) (k : A → mprog R).
Arguments MRet {R} r.
Arguments MCall {R A} c k.

Fixpoint mbind {R S} (p : mprog R) (f : R → mprog S) : mprog S :=
  match p with MRet r => f r | MCall c k => MCall c (λ a, mbind (k a) f) end.

(** A program of [Fabric] as a step of a multipart handler. *)
Fixpoint lift {R} (p : prog R) : mprog R :=
  match p with Ret r => MRet r | Call c k => MCall (Base c) (λ a, lift (k a)) end.

Declare Scope mprog_scope.
Delimit Scope mprog_scope with mprog.
Notation "x '<~' c ';;' k" := (MCall c (λ x, k))
  (at level 100, c at next level, right associativity) : mprog_scope.
Notation "x '<-' p ';;;' k" := (mbind p (λ x, k))
  (at level 100, p at next level, right associativity) : mprog_scope.
Local Open Scope mprog_scope.

Record MWorld := mkMWorld {
  mw_base : World;
  mw_sessions : Sessions.MemoryStore
}.

Section semantics.
Context (put_result : string → string → bytes → PutResult).

Definition session_write (r : result mp_error Sessions.MemoryStore) (w : MWorld) : err_or_nil mp_error * MWorld :=
  match r with Ok s => (Ok (), mkMWorld (mw_base w) s) | Err e => (Err e, w) end.

(** One call; a [fault] is a call that fails without effect. Reads and writes
    through a pointer do not fail. *)
Definition do_mcall {A} (fault : bool) (c : mcall A) (w : MWorld) : A * MWorld :=
  match c in mcall A return A * MWorld with
  | Base c =>
      let '(a, b) := do_call put_result fault c (mw_base w) in (a, mkMWorld b (mw_sessions w))
  | IdxLookupByPlaintext t h =>
      (if fault then Err IdxUnavailable else Index.LookupByPlaintextHash (wd_index (mw_base w)) t h, w)
  | MpCreate u =>
      if fault then (Err MpUnavailable, w) else session_write (Sessions.Create u (mw_sessions w)) w
  | MpGet t id => (if fault then Err MpUnavailable else Sessions.Get t id (mw_sessions w), w)
  | MpPutPart t id part =>
      if fault then (Err MpUnavailable, w) else session_write (Sessions.PutPart t id part (mw_sessions w)) w
  | MpComplete id t b key refs =>
      if fault then (Err MpUnavailable, w)
      else let '(r, s) := Sessions.Complete id t b key refs (mw_sessions w) in (r, mkMWorld (mw_base w) s)
  | MpAbort id t =>
      if fault then (Err MpUnavailable, w)
      else let '(r, s) := Sessions.Abort id t (mw_sessions w) in (r, mkMWorld (mw_base w) s)
  | MpRead p => (Sessions.ms_heap (mw_sessions w) !! p, w)
  | MpWrite p f => (tt, mkMWorld (mw_base w) (Sessions.alter_upload f p (mw_sessions w)))
  end.

(** A request run to its end with nothing in between. *)
Fixpoint mexec {R} (p : mprog R) (faults : list bool) (w : MWorld) : R * MWorld :=
  match p with
  | MRet r => (r, w)
  | MCall c k =>
      let '(a, w') := do_mcall (default false (head faults)) c w in mexec (k a) (tail faults) w'
  end.

(** The first [n] calls of a request, and what is left of it. *)
Fixpoint msteps {R} (n : nat) (p : mprog R) (w : MWorld) : mprog R * MWorld :=
  match n, p with
  | S n, MCall c k => let '(a, w') := do_mcall false c w in msteps n (k a) w'
  | _, _ => (p, w)
  end.

End semantics.

(** ** Requests and responses *)

Class MultipartConfig := {
  hasMultipart : bool;
  md5Sum : bytes → bytes
}.

(** A response with the headers and fields that multipart answers carry. *)
Record MpResponse := mkMpResponse {
  mr_resp : Response;
  mr_ETag : string;
  mr_UploadID : string
}.

Definition refused (r : Response) : MpResponse := mkMpResponse r "" "".

Record CreateRequest := mkCreateRequest {
  crq_auth : result Response string;
  crq_path : string;
  crq_tags : result Response (gmap string string);     (* parseObjectTaggingHeader *)
  crq_headers : result Response ObjectHeaders;         (* validateRequestObjectMetadata *)
  crq_placement : option (result unit (string * PlacementPolicy));
  crq_residency : bool;
  crq_defaultEncryption : option (result unit bool);
  crq_uploadID : option string;                        (* newUploadID *)
  crq_now : Z;
  crq_rand : Entropy
}.

Record UploadRequest := mkUploadRequest {
  urq_auth : result Response string;
  urq_uploadId : string;
  urq_partNumber : string;
  urq_body : result Response bytes;                    (* reading r.Body to its end *)
  urq_zkHeader : string;
  urq_now : Z;
  urq_rand : Entropy
}.

Record CompleteRequest := mkCompleteRequest {
  cmq_auth : result Response string;
  cmq_path : string;
  cmq_uploadId : string;
  cmq_parts : result Response (list PartReference);    (* the decoded XML *)
  cmq_bypass : string;
  cmq_lockcfg : option (result unit LockConfig);
  cmq_versioning : result unit string;
  cmq_now_lock : Z;
  cmq_now_version : Z;
  cmq_now_created : Z;
  cmq_now_piece : Z;
  cmq_now_register : Z;
  cmq_now_default : Z;
  cmq_rand : Entropy
}.

Record AbortRequest := mkAbortRequest {
  abq_auth : result Response string;
  abq_uploadId : string
}.

(** [hex.DecodeString] *)
Fixpoint hexDecode (s : string) : option bytes :=
  match s with
  | "" => Some []
  | String a (String b s) =>
      hi ← unhex a; lo ← unhex b; rest ← hexDecode s; Some (ascii_of_N (hi * 16 + lo) :: rest)
  | _ => None
  end.

(** [strings.Trim] with the cutset of the double quote. *)
Fixpoint trim_quotes_front (s : string) : string :=
  match s with
  | String c s' => if bool_decide (c = dquote) then trim_quotes_front s' else s
  | "" => ""
  end.
Definition TrimQuotes (s : string) : string :=
  string_rev (trim_quotes_front (string_rev (trim_quotes_front s) "")) "".

Section handlers.
Context {G : Gateway} {Mp : MultipartConfig}.

(** ** Helpers *)

Definition uploadAADIdentity (u : Upload) : aadIdentity :=
  mkAadIdentity (up_TenantID u) (up_Bucket u) (hashObjectKey (up_ObjectKey u)) (up_VersionID u).

Definition partsEncryptionConfig (u : Upload) : EncryptionConfig :=
  if bool_decide (up_VersionID u = "") then zero_config else v1EncryptionConfig.

Definition multipartDedupEligible (u : Upload) : bool :=
  if negb (dedupEnabled (up_Policy u)) then false
  else bool_decide (up_EncMode u = StrictZK) || bool_decide (up_EncMode u = "").

(** [fmt.Sprintf("%s-p%05d", uploadID, partNumber)] *)
Definition partPieceID (uploadID : string) (partNumber : Z) : string :=
  String.app uploadID (String.app "-p" (pad0 5 partNumber)).

(** [computeMultipartETag] *)
Definition etag_bytes (etag : string) : bytes :=
  let etag := TrimQuotes etag in
  match hexDecode etag with
  | Some b => if blen b =? 16 then b else str etag
  | None => str etag
  end.

Definition computeMultipartETag (parts : list Part) : string :=
  String.app (hexEncode (md5Sum (concat ((λ p, etag_bytes (pt_ETag p)) <$> parts))))
    (String.app "-" (FormatUint (blen parts))).

Definition firstPartSize (parts : list Part) : Z :=
  match parts with [] => 0 | p :: _ => pt_SizeBytes p end.

Definition pieceRefsFromParts (parts : list Part) : list PieceRef :=
  (λ p, mkPieceRef (pt_PieceID p) (pt_Backend p) (pt_PartNumber p) (pt_SizeBytes p)) <$> parts.

(** [deleteUploadedParts]; errors are swallowed. *)
Fixpoint deleteUploadedParts (parts : list Part) : mprog unit :=
  match parts with
  | [] => MRet ()
  | p :: parts =>
      if registered (pt_Backend p) then
        _ <~ Base (PieceDelete (pt_Backend p) (pt_PieceID p));; deleteUploadedParts parts
      else deleteUploadedParts parts
  end.

Definition captureMultipartObjectMetadata (tags : gmap string string) (headers : ObjectHeaders) : ObjectMetadata :=
  mkObjectMetadata tags headers.

Definition applyMultipartObjectMetadata (m : ObjectManifest) (md : ObjectMetadata) : ObjectManifest :=
  applyRequestObjectMetadata (om_Headers md) (set_tags (om_Tags md) m).

(** ** CreateMultipartUpload *)

Definition new_upload (uploadID tenantID bucket key backend : string) (policy : PlacementPolicy) (now : Z)
    (md : ObjectMetadata) (dek : bytes) (wrapped : option WrappedDEK) : Upload :=
  mkUpload uploadID tenantID bucket key backend policy now (newPieceID tenantID bucket key now)
    (pp_EncryptionMode policy) dek
    (match wrapped with Some w => wd_WrappedKey w | None => [] end)
    (match wrapped with Some w => wd_KeyID w | None => "" end)
    (match wrapped with Some w => wd_WrapAlgorithm w | None => "" end)
    (match wrapped with Some _ => ContentAlgorithm | None => "" end)
    md ∅ ∅ ∅.

Definition create_session (upload : Upload) : mprog MpResponse :=
  err <~ MpCreate upload;;
  MRet match err with
       | Err _ => refused (writeError 500 "MultipartCreateFailed")
       | Ok _ => mkMpResponse (mkResponse 200 "" "") "" (up_ID upload)
       end.

Definition CreateMultipartUpload (q : CreateRequest) : mprog MpResponse :=
  if negb hasMultipart then MRet (refused (writeError 501 "NotImplemented"))
  else match crq_auth q with
  | Err e => MRet (refused e)
  | Ok tenantID =>
      let '(bucket, key) := parseBucketKey (crq_path q) in
      if bool_decide (bucket = "") || bool_decide (key = "")
      then MRet (refused (writeError 400 "InvalidArgument"))
      else match crq_tags q, crq_headers q with
      | Err e, _ => MRet (refused e)
      | Ok _, Err e => MRet (refused e)
      | Ok tags, Ok headers =>
          match crq_placement q with
          | None => MRet (refused (writeError 503 "ServiceUnavailable"))
          | Some (Err _) => MRet (refused (writeError 400 "InvalidPlacement"))
          | Some (Ok (backend, policy)) =>
              if negb (registered backend) then MRet (refused (writeError 500 "BackendNotRegistered"))
              else if negb (crq_residency q) then MRet (refused (writeError 403 "DataResidencyViolation"))
              else match effectiveEncryptionMode (crq_defaultEncryption q) policy with
              | Err _ => MRet (refused (writeError 500 "EncryptionNotConfigured"))
              | Ok effMode =>
                  let policy := set_EncryptionMode effMode policy in
                  match crq_uploadID q with
                  | None => MRet (refused (writeError 500 "InternalError"))
                  | Some uploadID =>
                      let md := captureMultipartObjectMetadata tags headers in
                      let mk := new_upload uploadID tenantID bucket key backend policy (crq_now q) md in
                      if IsGatewayEncrypted (pp_EncryptionMode policy) then
                        if negb hasEncryption then MRet (refused (writeError 500 "EncryptionNotConfigured"))
                        else match GenerateDEK (crq_rand q) with
                        | None => MRet (refused (writeError 500 "DEKGenerationFailed"))
                        | Some dek =>
                            match WrapDEK (ent_wrap (crq_rand q)) dek with
                            | None => MRet (refused (writeError 500 "DEKWrapFailed"))
                            | Some wrapped => create_session (mk dek (Some wrapped))
                            end
                        end
                      else create_session (mk [] None)
                  end
              end
          end
      end
  end.

(** ** UploadPart *)

(** The end of [UploadPart], once the backend answered: the digest is recorded on
    the session and the part registered; a part that cannot be registered is
    deleted again. *)
Definition record_part (tenantID uploadID : string) (p : nat) (upload : Upload) (partNumber : Z) (body : bytes)
    (plaintextSize : Z) (now : Z) (res : option PutResult) : mprog MpResponse :=
  match res with
  | None => MRet (refused (writeError 502 "BackendPutFailed"))
  | Some res =>
      _ <~ MpWrite p (Sessions.SetPartHash partNumber (blake3Sum body));;
      let recordedSize :=
        if IsGatewayEncrypted (up_EncMode upload) then plaintextSize else pr_SizeBytes' res in
      err <~ MpPutPart tenantID uploadID
               (mkPart partNumber (pr_PieceID' res) (up_Backend upload) (pr_ETag res) recordedSize now);;
      match err with
      | Err _ =>
          _ <~ Base (PieceDelete (up_Backend upload) (partPieceID uploadID partNumber));;
          MRet (refused (writeError 500 "MultipartPutPartFailed"))
      | Ok _ =>
          MRet (mkMpResponse (mkResponse 200 "" "")
                  (if bool_decide (pr_ETag res = "") then "" else quote (pr_ETag res)) "")
      end
  end.

(** The piece of a part is written. *)
Definition store_part (tenantID uploadID : string) (p : nat) (upload : Upload) (partNumber : Z) (body : bytes)
    (plaintextSize : Z) (now : Z) : mprog MpResponse :=
  res <~ Base (PiecePut (up_Backend upload) (partPieceID uploadID partNumber) body);;
  record_part tenantID uploadID p upload partNumber body plaintextSize now res.

Definition UploadPart (q : UploadRequest) : mprog MpResponse :=
  if negb hasMultipart then MRet (refused (writeError 501 "NotImplemented"))
  else match urq_auth q with
  | Err e => MRet (refused e)
  | Ok tenantID =>
      match ParseInt (urq_partNumber q) with
      | None => MRet (refused (writeError 400 "InvalidArgument"))
      | Some partNumber =>
          if (partNumber <? 1) || (10000 <? partNumber) then MRet (refused (writeError 400 "InvalidArgument"))
          else
            r <~ MpGet tenantID (urq_uploadId q);;
            match r with
            | Err MpNotFound => MRet (refused (writeError 404 "NoSuchUpload"))
            | Err _ => MRet (refused (writeError 500 "MultipartGetFailed"))
            | Ok (p, upload) =>
                if bool_decide (up_TenantID upload ≠ tenantID)
                then MRet (refused (writeError 404 "NoSuchUpload"))
                else if negb (registered (up_Backend upload))
                then MRet (refused (writeError 500 "BackendNotRegistered"))
                else if IsGatewayEncrypted (up_EncMode upload) then
                  match urq_body q with
                  | Err e => MRet (refused e)
                  | Ok plaintext =>
                      _ <- (if dedupEnabled (up_Policy upload)
                            then _ <~ MpWrite p (Sessions.SetPlaintextPartHash partNumber (blake3Sum plaintext));;
                                 MRet ()
                            else MRet ());;;
                      u <~ MpRead p;;
                      let dek := match u with Some u => up_DEKMaterial u | None => [] end in
                      match encryptWithDEK (ent_nonce (urq_rand q)) plaintext dek
                              (partsEncryptionConfig upload) (uploadAADIdentity upload) with
                      | None => MRet (refused (writeError 500 "EncryptionFailed"))
                      | Some ciphertext =>
                          store_part tenantID (urq_uploadId q) p upload partNumber ciphertext (blen plaintext)
                            (urq_now q)
                      end
                  end
                else if bool_decide (up_EncMode upload = StrictZK) && bool_decide (urq_zkHeader q = "")
                then MRet (refused (writeError 403 "EncryptionRequired"))
                else match urq_body q with
                | Err e => MRet (refused e)
                | Ok body => store_part tenantID (urq_uploadId q) p upload partNumber body (blen body) (urq_now q)
                end
            end
      end
  end.

(** ** CompleteMultipartUpload *)

(** What the session recorded about a part when the handler asks for it. *)
Definition part_hash (p : nat) (n : Z) : mprog (option bytes) :=
  u <~ MpRead p;; MRet (u ← u; Sessions.PartHash n u).
Definition plaintext_part_hash (p : nat) (n : Z) : mprog (option bytes) :=
  u <~ MpRead p;; MRet (u ← u; Sessions.PlaintextPartHash n u).

Definition part_piece (part : Part) (raw : option bytes) : Piece :=
  mkPiece (pt_PieceID part)
    (match raw with
     | Some raw => if bool_decide (raw = []) then "" else formatContentHash (hexEncode raw)
     | None => ""
     end)
    (pt_Backend part) "" "active" (pt_ETag part) (pt_PartNumber part) (pt_SizeBytes part) 0 0 "".

(** The loop that assembles the pieces and sums their sizes. *)
Fixpoint part_pieces (p : nat) (parts : list Part) (pieces : list Piece) (total : Z)
    : mprog (list Piece * Z) :=
  match parts with
  | [] => MRet (pieces, total)
  | part :: parts =>
      raw <- part_hash p (pt_PartNumber part);;;
      part_pieces p parts (pieces ++ [part_piece part raw]) (wrap64 (total + pt_SizeBytes part))
  end.

(** [hashAssembledPieces] *)
Fixpoint assembled_bytes (pieces : list Piece) (acc : bytes) : mprog (option bytes) :=
  match pieces with
  | [] => MRet (Some acc)
  | piece :: pieces =>
      if negb (registered (pc_Backend piece)) then MRet None
      else
        rc <~ Base (PieceGet (pc_Backend piece) (pc_PieceID piece) None);;
        match rc with
        | Some (Ok b) => assembled_bytes pieces (acc ++ b)
        | _ => MRet None
        end
  end.

Definition hashAssembledPieces (pieces : list Piece) : mprog (option string) :=
  r <- assembled_bytes pieces [];;;
  MRet (b ← r; Some (formatContentHash (blake3Hex b))).

(** The digests of the parts, [None] when one is missing. *)
Fixpoint part_digests (p : nat) (parts : list Part) (acc : list bytes) : mprog (option (list bytes)) :=
  match parts with
  | [] => MRet (Some acc)
  | part :: parts =>
      d <- part_hash p (pt_PartNumber part);;;
      match d with None => MRet None | Some d => part_digests p parts (acc ++ [d]) end
  end.

(** The content hash of an object from the digests of its pieces. *)
Definition digests_hash (digests : list bytes) : string :=
  match digests with
  | [d] => formatContentHash (hexEncode d)
  | _ => formatContentHash (blake3Hex (concat digests))
  end.

Definition computeMultipartContentHash (p : nat) (pieces : list Piece) (parts : list Part)
    : mprog (option string) :=
  if bool_decide (pieces = []) then MRet None
  else
    ds <- part_digests p parts [];;;
    match ds with
    | None => hashAssembledPieces pieces
    | Some ds => MRet (Some (digests_hash ds))
    end.

Definition set_pieces_of (pieces : list Piece) (primary : string) (m : ObjectManifest) : ObjectManifest :=
  mkObjectManifest (m_TenantID m) (m_Bucket m) (m_ObjectKey m) (m_ObjectKeyHash m) (m_VersionID m)
    (m_ObjectSize m) (m_ChunkSize m) (m_ContentHash m) (m_Encryption m) (m_PlacementPolicy m) pieces
    (mkMigrationState (ms_Generation (m_MigrationState m)) primary (ms_CloudCopy (m_MigrationState m)))
    (m_DeleteMarker m) (m_Tags m) (m_ContentType m) (m_ContentEncoding m) (m_ContentDisposition m)
    (m_ContentLanguage m) (m_CacheControl m) (m_Expires m) (m_UserMetadata m) (m_RetentionMode m)
    (m_RetainUntil m) (m_LegalHold m) (m_CreatedAt m).

Definition set_ContentHash (h : string) (m : ObjectManifest) : ObjectManifest :=
  mkObjectManifest (m_TenantID m) (m_Bucket m) (m_ObjectKey m) (m_ObjectKeyHash m) (m_VersionID m)
    (m_ObjectSize m) (m_ChunkSize m) h (m_Encryption m) (m_PlacementPolicy m) (m_Pieces m)
    (m_MigrationState m) (m_DeleteMarker m) (m_Tags m) (m_ContentType m) (m_ContentEncoding m)
    (m_ContentDisposition m) (m_ContentLanguage m) (m_CacheControl m) (m_Expires m) (m_UserMetadata m)
    (m_RetentionMode m) (m_RetainUntil m) (m_LegalHold m) (m_CreatedAt m).

(** The canonical piece of a part; the map is built by insertion, so the last
    reference with a part number counts. *)
Definition by_part (refs : list PieceRef) : gmap Z PieceRef :=
  foldl (λ m r, <[pr_PartNumber r := r]> m) ∅ refs.

Definition redirect_piece (refs : gmap Z PieceRef) (piece : Piece) : option Piece :=
  ref ← refs !! pc_PartNumber piece;
  Some (mkPiece (pr_PieceID ref) (pc_Hash piece) (pr_Backend ref) (pc_Locator piece) (pc_State piece)
          (pc_ProviderETag piece) (pc_PartNumber piece) (pr_SizeBytes ref) (pc_StripeIndex piece)
          (pc_ShardIndex piece) (pc_ShardKind piece)).

(** [redirectManifestToCanonical]; [None] is its error. *)
Definition redirectManifestToCanonical (manifest : ObjectManifest) (existing : ContentIndexEntry)
    : option ObjectManifest :=
  if bool_decide (ce_PieceIDs existing = []) then
    match m_Pieces manifest with
    | [piece] =>
        Some (set_pieces_of
          [mkPiece (ce_PieceID existing) "" (ce_Backend existing) (pc_Locator piece) (pc_State piece)
             (ce_ETag existing) (pc_PartNumber piece) (ce_SizeBytes existing) (pc_StripeIndex piece)
             (pc_ShardIndex piece) (pc_ShardKind piece)]
          (ce_Backend existing) manifest)
    | _ => None
    end
  else
    pieces ← mapM (redirect_piece (by_part (ce_PieceIDs existing))) (m_Pieces manifest);
    Some (set_pieces_of pieces
            (match pieces with
             | p :: _ => pc_Backend p
             | [] => ms_PrimaryBackend (m_MigrationState manifest)
             end) manifest).

(** The two dedup passes answer a response that ends the request, or the manifest
    to store. *)
Abbreviation dedup_outcome := (result Response ObjectManifest).

(** Undo the uploaded parts and answer. *)
Definition fail_parts (parts : list Part) (status : Z) (code : string) : mprog dedup_outcome :=
  _ <- deleteUploadedParts parts;;; MRet (Err (writeError status code)).

(** Redirect to the row a reference was taken on, or give the reference back. *)
Definition redirect_or_release (tenantID contentHash : string) (manifest : ObjectManifest)
    (canonical : ContentIndexEntry) : mprog dedup_outcome :=
  match redirectManifestToCanonical manifest canonical with
  | Some manifest => MRet (Ok manifest)
  | None =>
      _ <~ Base (IdxDecrement tenantID contentHash);;
      MRet (Err (writeError 500 "DedupRedirectFailed"))
  end.

(** The row of a content the index does not have yet. *)
Definition multipart_entry (tenantID contentHash : string) (pieces : list Piece) (parts : list Part)
    (totalSize : Z) : ContentIndexEntry :=
  let p0 := match parts with p :: _ => p | [] => mkPart 0 "" "" "" 0 0 end in
  let multi := 1 <? blen pieces in
  mkContentIndexEntry tenantID contentHash (pt_PieceID p0) (pt_Backend p0) 0
    (if multi then totalSize else pt_SizeBytes p0) (pt_ETag p0)
    (if multi then pieceRefsFromParts parts else []) "" zero_time.

(** The first dedup flow: parts whose stored bytes are convergent. *)
Definition dedup_parts (tenantID : string) (p : nat) (q : CompleteRequest) (parts : list Part)
    (pieces : list Piece) (totalSize : Z) (manifest : ObjectManifest) : mprog dedup_outcome :=
  h <- computeMultipartContentHash p pieces parts;;;
  match h with
  | None => fail_parts parts 500 "DedupHashFailed"
  | Some contentHash =>
      let manifest := set_ContentHash contentHash manifest in
      existing <~ Base (IdxLookup tenantID contentHash);;
      match existing with
      | Ok existing =>
          err <~ Base (IdxIncrement tenantID contentHash);;
          match err with
          | Err _ => fail_parts parts 500 "ContentIndexIncrementFailed"
          | Ok _ =>
              _ <- deleteUploadedParts parts;;;
              redirect_or_release tenantID contentHash manifest existing
          end
      | Err IdxNotFound =>
          raceLost <- lift (registerDedupedPiece (cmq_now_register q)
                              (multipart_entry tenantID contentHash pieces parts totalSize) Ret);;;
          match raceLost with
          | Err _ => fail_parts parts 500 "ContentIndexRegisterFailed"
          | Ok false => MRet (Ok manifest)
          | Ok true =>
              _ <- deleteUploadedParts parts;;;
              canonical <~ Base (IdxLookup tenantID contentHash);;
              match canonical with
              | Err _ =>
                  _ <~ Base (IdxDecrement tenantID contentHash);;
                  MRet (Err (writeError 500 "ContentIndexLookupFailed"))
              | Ok canonical => redirect_or_release tenantID contentHash manifest canonical
              end
          end
      | Err _ => fail_parts parts 500 "ContentIndexLookupFailed"
      end
  end.

(** [assembleManagedMultipartPlaintext]; [None] is its error. *)
Fixpoint assembleManagedMultipartPlaintext (p : nat) (parts : list Part) (out : bytes) : mprog (option bytes) :=
  match parts with
  | [] => MRet (Some out)
  | part :: parts =>
      if negb (registered (pt_Backend part)) then MRet None
      else
        rc <~ Base (PieceGet (pt_Backend part) (pt_PieceID part) None);;
        match rc with
        | Some (Ok ciphertext) =>
            u <~ MpRead p;;
            match u with
            | None => MRet None
            | Some upload =>
                match decryptWithDEK ciphertext (up_DEKMaterial upload) (partsEncryptionConfig upload)
                        (uploadAADIdentity upload) with
                | None => MRet None
                | Some pt => assembleManagedMultipartPlaintext p parts (out ++ pt)
                end
            end
        | _ => MRet None
        end
  end.

(** [deriveConvergentEncryptionConfig]; [None] is its error. *)
Definition deriveConvergentEncryptionConfig (rnd : Entropy) (combinedDigest : bytes) (tenantID encMode : string)
    : option EncryptionConfig :=
  if negb hasEncryption then None
  else match Sdk.DeriveConvergentDEK combinedDigest (str tenantID) with
  | None => None
  | Some dek =>
      match WrapDEK (ent_wrap rnd) dek with
      | None => None
      | Some wrapped => Some (sealed_config encMode wrapped "")
      end
  end.

(** The manifest of an object consolidated into one piece. *)
Definition consolidated (m : ObjectManifest) (pl : placed) (pieceHash contentHash : string)
    (enc : EncryptionConfig) : ObjectManifest :=
  mkObjectManifest (m_TenantID m) (m_Bucket m) (m_ObjectKey m) (m_ObjectKeyHash m) (m_VersionID m)
    (m_ObjectSize m) (pl_Size pl) contentHash enc (m_PlacementPolicy m)
    [mkPiece (pl_PieceID pl) pieceHash (pl_Backend pl) "" "active" (pl_ETag pl) 0 (pl_Size pl) 0 0 ""]
    (mkMigrationState (ms_Generation (m_MigrationState m)) (pl_Backend pl) (ms_CloudCopy (m_MigrationState m)))
    (m_DeleteMarker m) (m_Tags m) (m_ContentType m) (m_ContentEncoding m) (m_ContentDisposition m)
    (m_ContentLanguage m) (m_CacheControl m) (m_Expires m) (m_UserMetadata m) (m_RetentionMode m)
    (m_RetainUntil m) (m_LegalHold m) (m_CreatedAt m).

Definition dedupManagedMultipartHit (tenantID : string) (upload : Upload) (q : CompleteRequest)
    (parts : list Part) (combinedDigest : bytes) (existing : ContentIndexEntry) (manifest : ObjectManifest)
    : mprog dedup_outcome :=
  err <~ Base (IdxIncrement tenantID (ce_ContentHash existing));;
  match err with
  | Err _ => fail_parts parts 500 "ContentIndexIncrementFailed"
  | Ok _ =>
      match deriveConvergentEncryptionConfig (cmq_rand q) combinedDigest tenantID (up_EncMode upload) with
      | None =>
          _ <~ Base (IdxDecrement tenantID (ce_ContentHash existing));;
          fail_parts parts 500 "DedupConvergentDEKFailed"
      | Some enc =>
          _ <- deleteUploadedParts parts;;;
          MRet (Ok (consolidated manifest (placed_of existing) "" (ce_ContentHash existing) enc))
      end
  end.

Definition dedupManagedMultipartMiss (tenantID : string) (p : nat) (upload : Upload) (q : CompleteRequest)
    (parts : list Part) (combinedDigest : bytes) (plaintextHash : string) (manifest : ObjectManifest)
    : mprog dedup_outcome :=
  plaintext <- assembleManagedMultipartPlaintext p parts [];;;
  match plaintext with
  | None => fail_parts parts 500 "DedupConsolidateFailed"
  | Some plaintext =>
      match Sdk.DeriveConvergentDEK combinedDigest (str tenantID) with
      | None => fail_parts parts 500 "DedupConvergentDEKFailed"
      | Some dek =>
          match Sdk.EncryptObject (ent_nonce (cmq_rand q)) dek convergentOptions plaintext with
          | Err Sdk.ConvergentWithAAD | Err Sdk.BadKey => fail_parts parts 500 "DedupEncryptFailed"
          | Err _ => fail_parts parts 500 "DedupReadCiphertextFailed"
          | Ok ciphertext =>
              let backend := up_Backend upload in
              if negb (registered backend) then fail_parts parts 500 "BackendNotRegistered"
              else
                putRes <~ Base (PiecePut backend
                            (newPieceID tenantID (up_Bucket upload) (up_ObjectKey upload) (cmq_now_piece q)) ciphertext);;
                match putRes with
                | None => fail_parts parts 502 "BackendPutFailed"
                | Some putRes =>
                    let contentHash := formatContentHash (blake3Hex ciphertext) in
                    match WrapDEK (ent_wrap (cmq_rand q)) dek with
                    | None =>
                        _ <~ Base (PieceDelete backend (pr_PieceID' putRes));;
                        fail_parts parts 500 "DedupWrapDEKFailed"
                    | Some wrapped =>
                        let enc := sealed_config (up_EncMode upload) wrapped "" in
                        raceLost <- lift (registerDedupedPiece (cmq_now_register q)
                          (mkContentIndexEntry tenantID contentHash (pr_PieceID' putRes) backend 0
                             (pr_SizeBytes' putRes) (pr_ETag putRes) [] plaintextHash zero_time) Ret);;;
                        match raceLost with
                        | Err _ =>
                            _ <~ Base (PieceDelete backend (pr_PieceID' putRes));;
                            fail_parts parts 500 "ContentIndexRegisterFailed"
                        | Ok false =>
                            _ <- deleteUploadedParts parts;;;
                            MRet (Ok (consolidated manifest
                              (mkPlaced (pr_PieceID' putRes) backend (pr_ETag putRes) "" (pr_SizeBytes' putRes))
                              contentHash contentHash enc))
                        | Ok true =>
                            _ <- deleteUploadedParts parts;;;
                            _ <~ Base (PieceDelete backend (pr_PieceID' putRes));;
                            canonical <~ Base (IdxLookup tenantID contentHash);;
                            match canonical with
                            | Err _ =>
                                _ <~ Base (IdxDecrement tenantID contentHash);;
                                MRet (Err (writeError 500 "ContentIndexLookupFailed"))
                            | Ok canonical =>
                                MRet (Ok (consolidated manifest (placed_of canonical) ""
                                            (ce_ContentHash canonical) enc))
                            end
                        end
                    end
                end
          end
      end
  end.

(** The plaintext digests in part order. *)
Fixpoint plaintext_digests (p : nat) (parts : list Part) (acc : bytes) : mprog (option bytes) :=
  match parts with
  | [] => MRet (Some acc)
  | part :: parts =>
      d <- plaintext_part_hash p (pt_PartNumber part);;;
      match d with None => MRet None | Some d => plaintext_digests p parts (acc ++ d) end
  end.

Definition dedupManagedMultipart (tenantID : string) (p : nat) (upload : Upload) (q : CompleteRequest)
    (parts : list Part) (manifest : ObjectManifest) : mprog dedup_outcome :=
  ds <- plaintext_digests p parts [];;;
  match ds with
  | None => MRet (Ok manifest)
  | Some ds =>
      let combinedDigest := blake3Sum ds in
      let plaintextHash := formatContentHash (hexEncode combinedDigest) in
      existing <~ IdxLookupByPlaintext tenantID plaintextHash;;
      match existing with
      | Ok existing => dedupManagedMultipartHit tenantID upload q parts combinedDigest existing manifest
      | Err IdxNotFound =>
          dedupManagedMultipartMiss tenantID p upload q parts combinedDigest plaintextHash manifest
      | Err _ => fail_parts parts 500 "ContentIndexLookupFailed"
      end
  end.

(** The record of the sealed parts. *)
Definition upload_config (upload : Upload) : EncryptionConfig :=
  if IsGatewayEncrypted (up_EncMode upload) then
    mkEncryptionConfig (up_EncMode upload) (up_ContentAlgorithm upload) (up_WrappedKeyID upload)
      (up_WrappedDEK upload) (up_WrapAlgorithm upload) false
      (if bool_decide (up_VersionID upload = "") then "" else AADVersionV1)
  else if bool_decide (up_EncMode upload = StrictZK)
  then mkEncryptionConfig (up_EncMode upload) ContentAlgorithm "" [] "" false ""
  else mkEncryptionConfig (up_EncMode upload) "" "" [] "" false "".

Definition multipart_manifest (tenantID bucket key versionID : string) (totalSize : Z) (upload : Upload)
    (parts : list Part) (pieces : list Piece) (createdAt : Z) : ObjectManifest :=
  applyMultipartObjectMetadata
    (mkObjectManifest tenantID bucket key (hashObjectKey key) versionID totalSize (firstPartSize parts) ""
       (upload_config upload) (up_Policy upload) pieces (mkMigrationState 1 (up_Backend upload) "") false ∅
       "" "" "" "" "" "" ∅ "" zero_time false createdAt)
    (up_Metadata upload).

(** Give the reference of a deduplicated object back. *)
Definition release_content (tenantID : string) (manifest : ObjectManifest) : mprog unit :=
  if negb (bool_decide (m_ContentHash manifest = "")) && hasIndex
  then _ <~ Base (IdxDecrement tenantID (m_ContentHash manifest));; MRet ()
  else MRet ().

(** The parts the manifest does not name, or all when it is not deduplicated. *)
Definition unreferenced (manifest : ObjectManifest) (parts : list Part) : list Part :=
  if bool_decide (m_ContentHash manifest = "") then parts
  else filter (λ p, pt_PieceID p ∉ (pc_PieceID <$> m_Pieces manifest)) parts.

(** The end of the handler: the default retention and the manifest. *)
Definition store_manifest (tenantID bucket : string) (q : CompleteRequest) (parts : list Part)
    (manifest : ObjectManifest) : mprog MpResponse :=
  match applyDefaultObjectLockRetention (cmq_lockcfg q) (cmq_now_default q) manifest with
  | Err _ =>
      _ <- release_content tenantID manifest;;; MRet (refused (writeError 500 "ObjectLockGetFailed"))
  | Ok manifest =>
      err <~ Base (ManPut (mkManifestKey tenantID bucket (m_ObjectKeyHash manifest) (m_VersionID manifest)) manifest);;
      match err with
      | Err _ =>
          _ <- release_content tenantID manifest;;;
          _ <- deleteUploadedParts (unreferenced manifest parts);;;
          MRet (refused (writeError 500 "ManifestPutFailed"))
      | Ok _ =>
          MRet (mkMpResponse (mkResponse 200 "" (m_VersionID manifest)) (quote (computeMultipartETag parts)) "")
      end
  end.

(** The handler once the session is its own. *)
Definition complete_upload (tenantID bucket key : string) (q : CompleteRequest) (parts : list Part) (p : nat)
    (upload : Upload) : mprog MpResponse :=
  pt <- part_pieces p parts [] 0;;;
  let '(pieces, totalSize) := pt in
  let versionID :=
    if bool_decide (up_VersionID upload = "") then newPieceID tenantID bucket key (cmq_now_version q)
    else up_VersionID upload in
  let manifest := multipart_manifest tenantID bucket key versionID totalSize upload parts pieces (cmq_now_created q) in
  u <~ MpRead p;;
  let counted := match u with Some u => Sessions.PlaintextPartHashCount u =? blen parts | None => false end in
  outcome <- (if multipartDedupEligible upload then dedup_parts tenantID p q parts pieces totalSize manifest
              else if dedupEnabled (up_Policy upload) && IsGatewayEncrypted (up_EncMode upload) && counted
              then dedupManagedMultipart tenantID p upload q parts manifest
              else MRet (Ok manifest));;;
  match outcome with
  | Err e => MRet (refused e)
  | Ok manifest => store_manifest tenantID bucket q parts manifest
  end.

Definition complete_error (e : mp_error) : Response :=
  match e with
  | MpNotFound => writeError 404 "NoSuchUpload"
  | MpTenantMismatch | MpUploadMismatch => writeError 403 "AccessDenied"
  | MpPartNotFound | MpPartETagMismatch => writeError 400 "InvalidPart"
  | _ => writeError 500 "MultipartCompleteFailed"
  end.

Definition CompleteMultipartUpload (q : CompleteRequest) : mprog MpResponse :=
  if negb hasMultipart then MRet (refused (writeError 501 "NotImplemented"))
  else match cmq_auth q with
  | Err e => MRet (refused e)
  | Ok tenantID =>
      let '(bucket, key) := parseBucketKey (cmq_path q) in
      if bool_decide (bucket = "") || bool_decide (key = "")
      then MRet (refused (writeError 400 "InvalidArgument"))
      else
        locked <- lift (objectLockOverwrite tenantID bucket key (cmq_lockcfg q) (cmq_versioning q)
                          (cmq_now_lock q) (cmq_bypass q) (λ e, Ret (Some e)) (Ret None));;;
        match locked with
        | Some e => MRet (refused e)
        | None =>
            match cmq_parts q with
            | Err e => MRet (refused e)
            | Ok [] => MRet (refused (writeError 400 "InvalidArgument"))
            | Ok refs =>
                r <~ MpComplete (cmq_uploadId q) tenantID bucket key refs;;
                match r with
                | Err e => MRet (refused (complete_error e))
                | Ok (parts, p) =>
                    u <~ MpRead p;;
                    match u with
                    | None => MRet (refused (writeError 500 "MultipartCompleteFailed"))
                    | Some upload =>
                        answer <- complete_upload tenantID bucket key q parts p upload;;;
                        _ <~ MpWrite p Sessions.scrubUploadDEK;;
                        MRet answer
                    end
                end
            end
        end
  end.

(** ** AbortMultipartUpload and ListMultipartUploads *)

Definition AbortMultipartUpload (q : AbortRequest) : mprog MpResponse :=
  if negb hasMultipart then MRet (refused (writeError 501 "NotImplemented"))
  else match abq_auth q with
  | Err e => MRet (refused e)
  | Ok tenantID =>
      r <~ MpAbort (abq_uploadId q) tenantID;;
      match r with
      | Err MpNotFound => MRet (refused NoContent)
      | Err MpTenantMismatch => MRet (refused (writeError 403 "AccessDenied"))
      | Err _ => MRet (refused (writeError 500 "MultipartAbortFailed"))
      | Ok (p, parts) =>
          _ <- deleteUploadedParts parts;;;
          _ <~ MpWrite p Sessions.scrubUploadDEK;;
          MRet (refused NoContent)
      end
  end.

(** The entries of the listing: key, upload id and creation time. *)
Definition ListMultipartUploads (auth : result Response string) (bucket : string) (s : Sessions.MemoryStore)
    : result Response (list (string * string * Z)) :=
  if negb hasMultipart then Err (writeError 501 "NotImplemented")
  else match auth with
  | Err e => Err e
  | Ok tenantID =>
      Ok ((λ u, (up_ObjectKey u, up_ID u, up_CreatedAt u)) <$> Sessions.List tenantID bucket s)
  end.

End handlers.
