(* ===== verification/MultipartRoundtrip.v ===== *)
(** * From the parts of an upload to the object

    A session of CreateMultipartUpload, any number of UploadPart requests and
    CompleteMultipartUpload stores the object whose bytes are those of the named
    parts in part order. The file also has the two ways in which a part that is
    sent again damages data: a part re-sent while the upload is being completed,
    and one whose second transfer fails before a deduplicated completion. *)

From S2P Require Import Prelude Bytes GoStrings Ranges Manifest Conditionals ManifestStore ContentIndex ObjectLock.
From S2P Require Import ErasureCoding ClientSdk EncryptionPipeline Fabric Handlers Worm Reads Objects Roundtrip.
From S2P Require Import MultipartStore Multipart.
Import Object Roundtrip.
Local Open Scope Z_scope.
Local Open Scope mprog_scope.

Module Uploads.

(** ** Reasoning about multipart programs *)

Section logic.
Context (put_result : string → string → bytes → PutResult).

Fixpoint mwp {R} (p : mprog R) (Q : R → MWorld → Prop) (w : MWorld) : Prop :=
  match p with
  | MRet r => Q r w
  | MCall c k =>
      ∀ fault, mwp (k (do_mcall put_result fault c w).1) Q (do_mcall put_result fault c w).2
  end.

Lemma mwp_exec {R} (p : mprog R) Q faults w :
  mwp p Q w → Q (mexec put_result p faults w).1 (mexec put_result p faults w).2.
Proof.
  revert faults w. induction p as [r|A c k IH]; intros faults w Hp; simpl in *; [done|].
  specialize (Hp (default false (head faults))).
  destruct (do_mcall put_result (default false (head faults)) c w) as [a w']. by apply IH.
Qed.

Lemma mwp_bind {R S} (p : mprog R) (f : R → mprog S) Q w :
  mwp p (λ r w', mwp (f r) Q w') w → mwp (mbind p f) Q w.
Proof. revert w. induction p as [r|A c k IH]; intros w Hp; simpl in *; [done|]. intros fault. by apply IH. Qed.

Lemma mwp_mono {R} (p : mprog R) (Q Q' : R → MWorld → Prop) w :
  (∀ r w', Q r w' → Q' r w') → mwp p Q w → mwp p Q' w.
Proof.
  intros HQ. revert w. induction p as [r|A c k IH]; intros w Hp; simpl in *; [by apply HQ|].
  intros fault. apply IH, Hp.
Qed.

Lemma mwp_lift {R} (p : prog R) Q w :
  wp put_result p (λ r b, Q r (mkMWorld b (mw_sessions w))) (mw_base w) → mwp (lift p) Q w.
Proof.
  destruct w as [b s]. simpl. revert b. induction p as [r|A c k IH]; intros b Hp; simpl in *; [done|].
  intros fault. specialize (Hp fault). destruct (do_call put_result fault c b) as [a b']. by apply IH.
Qed.

(** A program that only ends one way. *)
Lemma mwp_any {R} (p : mprog R) (Q : R → MWorld → Prop) w : (∀ r w', Q r w') → mwp p Q w.
Proof. intros HQ. revert w. induction p as [r|A c k IH]; intros w; simpl; [done|]. intros fault. apply IH. Qed.

End logic.

Section roundtrip.
Context {G : Gateway} {Rd : Reader} {Mp : MultipartConfig}.
Context {AL : @AEADLaws gw_AEAD} {CL : @RSCodecLaws gw_RSCodec}.

Hypothesis Hwrap : ∀ n dek wr, WrapDEK n dek = Some wr →
  UnwrapDEK (mkWrappedDEK (wd_KeyID wr) ContentAlgorithm (wd_WrappedKey wr) (wd_WrapAlgorithm wr)) = Some dek.
Hypothesis Hput : ∀ be id body,
  pr_PieceID' (put_result be id body) = id ∧ pr_SizeBytes' (put_result be id body) = blen body.
Hypothesis Hnonempty : ∀ s, sha256Hex s ≠ "".

Lemma partPieceID_inj id n n' : 0 ≤ n → 0 ≤ n' → partPieceID id n = partPieceID id n' → n = n'.
Proof. unfold partPieceID. intros Hn Hn' H%app_inj_l%app_inj_l. by eapply pad0_inj. Qed.

(** ** A session *)

(** The stored bytes of a part are its bytes, or seal them under the session's key. *)
Definition opens (u : Upload) (stored body : bytes) : Prop :=
  if IsGatewayEncrypted (up_EncMode u)
  then decryptWithDEK stored (up_DEKMaterial u) (upload_config u) (uploadAADIdentity u) = Some body
  else stored = body.

(** What the session knows of a part and where its bytes are. *)
Record part_stored (w : World) (u : Upload) (n : Z) (part : Part) (stored body : bytes) : Prop := {
  ps_part : up_parts u !! n = Some part;
  ps_number : pt_PartNumber part = n;
  ps_positive : 1 ≤ n;
  ps_backend : pt_Backend part = up_Backend u;
  ps_piece : pt_PieceID part = partPieceID (up_ID u) n;
  ps_size : pt_SizeBytes part = blen body;
  ps_bytes : wd_pieces w !! (up_Backend u, partPieceID (up_ID u) n) = Some stored;
  ps_hash : up_PartHashes u !! n = Some (blake3Sum stored);
  ps_opens : opens u stored body
}.

(** The fields of an upload that no part changes. *)
Record target (u : Upload) (t b key id : string) : Prop := {
  tg_id : up_ID u = id;
  tg_tenant : up_TenantID u = t;
  tg_bucket : up_Bucket u = b;
  tg_key : up_ObjectKey u = key;
  tg_version : up_VersionID u ≠ "";
  tg_backend : registered (up_Backend u) = true;
  tg_dedup : dedupEnabled (up_Policy u) = false;
  tg_enc : IsGatewayEncrypted (up_EncMode u) = true →
    hasEncryption = true ∧ UnwrapDEK (wrapped_of (upload_config u)) = Some (up_DEKMaterial u)
}.

(** A live upload whose parts [bodies] are stored. *)
Record session (t b key id : string) (bodies : gmap Z bytes) (w : MWorld) : Prop := {
  se_live : ∃ p u, Sessions.lookup id (mw_sessions w) = Some (p, u) ∧ target u t b key id ∧
    ∀ n body, bodies !! n = Some body → ∃ part stored, part_stored (mw_base w) u n part stored body;
  se_cache : ∀ n, wd_cache (mw_base w) !! partPieceID id n = None
}.

Lemma session_forget t b key id bodies n w : session t b key id bodies w → session t b key id (delete n bodies) w.
Proof.
  intros [(p & u & Hl & Ht & Hps) Hc]. split; [|done]. exists p, u. split_and!; [done..|].
  intros n' body [_ Hb]%lookup_delete_Some. by apply Hps.
Qed.

(** ** Create *)

Definition ok200 (r : MpResponse) : Prop := rs_status (mr_resp r) = 200.

(** A request for a new upload of the key, outside deduplication. *)
Record create_ready (q : CreateRequest) (t b key id : string) (w : MWorld) : Prop := {
  cr_auth : crq_auth q = Ok t;
  cr_path : parseBucketKey (crq_path q) = (b, key);
  cr_refusals : ∀ e, crq_tags q = Err e ∨ crq_headers q = Err e → rs_status e ≠ 200;
  cr_id : crq_uploadID q = Some id;
  cr_policy : ∀ be policy, crq_placement q = Some (Ok (be, policy)) → dedupEnabled policy = false;
  cr_cache : ∀ n, wd_cache (mw_base w) !! partPieceID id n = None
}.

Definition started (t b key id : string) (r : MpResponse) (w : MWorld) : Prop :=
  ok200 r → mr_UploadID r = id ∧ b ≠ "" ∧ key ≠ "" ∧ session t b key id ∅ w.

Lemma create_session_starts u t b key id w :
  b ≠ "" → key ≠ "" → target u t b key id → (∀ n, wd_cache (mw_base w) !! partPieceID id n = None) →
  mwp put_result (create_session u) (started t b key id) w.
Proof.
  intros Hb Hk Ht Hc fault. simpl. destruct fault; [done|]. unfold session_write, Sessions.Create.
  case_bool_decide; [done|]. destruct (Sessions.ms_uploads _ !! _); [done|]. simpl. intros _.
  destruct Ht. split_and!; [done..|]. split; [|done].
  exists (Sessions.ms_next (mw_sessions w)), (Sessions.with_parts ∅ u).
  unfold Sessions.lookup. simpl. rewrite <- tg_id0, lookup_insert_eq. simpl. rewrite lookup_insert_eq. simpl.
  split_and!; [done|by split|done].
Qed.

Lemma create_starts q t b key id w :
  create_ready q t b key id w → mwp put_result (CreateMultipartUpload q) (started t b key id) w.
Proof using Hwrap Hnonempty.
  intros [Ha Hp Href Hid Hpol Hc]. unfold CreateMultipartUpload. destruct hasMultipart; [|done]. simpl.
  rewrite Ha, Hp. case_bool_decide as Hb; [done|]. case_bool_decide as Hk; [done|]. simpl.
  destruct (crq_tags q) as [tags|e] eqn:Ht; [|intros ?; by destruct (Href e (or_introl eq_refl))].
  destruct (crq_headers q) as [hd|e] eqn:Hh; [|intros ?; by destruct (Href e (or_intror eq_refl))].
  destruct (crq_placement q) as [[[be policy]|]|] eqn:Hpl; [|done..].
  destruct (registered be) eqn:Hr; [|done]. destruct (crq_residency q); [|done]. simpl.
  destruct (effectiveEncryptionMode _ _) as [mode|]; [|done]. rewrite Hid. specialize (Hpol _ _ eq_refl).
  simpl. destruct (IsGatewayEncrypted mode) eqn:Henc.
  - destruct hasEncryption eqn:Hhas; [|done]. simpl.
    destruct (GenerateDEK _) as [dek|]; [|done]. destruct (WrapDEK _ dek) as [wr|] eqn:Hw; [|done].
    apply create_session_starts; [done..| |done]. split; simpl; try done; [apply Hnonempty|].
    intros _. split; [done|]. unfold upload_config. simpl. rewrite Henc. by apply (Hwrap _ _ _ Hw).
  - apply create_session_starts; [done..| |done]. split; simpl; try done; [apply Hnonempty|]. by rewrite Henc.
Qed.

(** ** Upload *)

Definition fixed (u : Upload) :=
  (up_ID u, up_TenantID u, up_Bucket u, up_ObjectKey u, up_Backend u, up_Policy u, up_VersionID u, up_EncMode u,
   up_DEKMaterial u, up_WrappedDEK u, up_WrappedKeyID u, up_WrapAlgorithm u, up_ContentAlgorithm u).

Lemma target_fixed u u' t b key id : fixed u' = fixed u → target u t b key id → target u' t b key id.
Proof. destruct u, u'. unfold fixed. simpl. intros [=]. subst. intros []. by split. Qed.

Lemma opens_fixed u u' stored body : fixed u' = fixed u → opens u stored body → opens u' stored body.
Proof. destruct u, u'. unfold fixed. simpl. intros [=]. by subst. Qed.

Lemma lookup_alter_upload f id p u s :
  Sessions.lookup id s = Some (p, u) → Sessions.lookup id (Sessions.alter_upload f p s) = Some (p, f u).
Proof.
  intros [Hp Hu]%Sessions.lookup_facts. unfold Sessions.lookup. simpl. rewrite Hp. simpl.
  by rewrite lookup_alter_eq, Hu.
Qed.

(** A session of which only part [n] was touched. *)
Record touched (n : Z) (id : string) (p : nat) (u : Upload) (w : MWorld) (u' : Upload) (w' : MWorld) : Prop := {
  to_lookup : Sessions.lookup id (mw_sessions w') = Some (p, u');
  to_fixed : fixed u' = fixed u;
  to_parts : ∀ m, m ≠ n → up_parts u' !! m = up_parts u !! m;
  to_hashes : ∀ m, m ≠ n → up_PartHashes u' !! m = up_PartHashes u !! m;
  to_pieces : ∀ m, 0 ≤ m → m ≠ n →
    wd_pieces (mw_base w') !! (up_Backend u, partPieceID id m) =
    wd_pieces (mw_base w) !! (up_Backend u, partPieceID id m);
  to_cache : wd_cache (mw_base w') = wd_cache (mw_base w)
}.

Definition live_parts (bodies : gmap Z bytes) (u : Upload) (w : MWorld) : Prop :=
  ∀ n body, bodies !! n = Some body → ∃ part stored, part_stored (mw_base w) u n part stored body.

Lemma touched_session t b key id bodies n p u w u' w' :
  target u t b key id → live_parts bodies u w → (∀ m, wd_cache (mw_base w) !! partPieceID id m = None) →
  touched n id p u w u' w' →
  session t b key id (delete n bodies) w' ∧
  ∀ part stored body, part_stored (mw_base w') u' n part stored body → session t b key id (<[n := body]> bodies) w'.
Proof.
  intros Ht Hps Hc [Hl Hf Hpt Hh Hpc Hca]. pose proof (tg_id _ _ _ _ _ Ht) as Hid.
  assert (up_Backend u' = up_Backend u ∧ up_ID u' = up_ID u) as [Hbe Hid'].
  { unfold fixed in Hf. by simplify_eq. }
  assert (∀ m body, m ≠ n → bodies !! m = Some body →
    ∃ part stored, part_stored (mw_base w') u' m part stored body) as Hother.
  { intros m body Hm Hb. destruct (Hps _ _ Hb) as (part & stored & []). exists part, stored.
    split; rewrite ?Hpt, ?Hh, ?Hbe, ?Hid' by done; try done.
    - rewrite Hid, Hpc by lia. congruence.
    - by eapply opens_fixed. }
  split; [|intros part stored body Hn]; (split; [|by rewrite Hca]); exists p, u';
    (split; [done|split; [by eapply target_fixed|]]).
  - intros m body [Hne Hb]%lookup_delete_Some. by apply Hother.
  - intros m body' [[<- <-]|[Hne Hb]]%lookup_insert_Some; [by exists part, stored|by apply Hother].
Qed.

(** The parts after an upload: a part is there when its last upload succeeded. *)
Definition recorded (n : Z) (body : bytes) (r : MpResponse) (bodies : gmap Z bytes) : gmap Z bytes :=
  if rs_status (mr_resp r) =? 200 then <[n := body]> bodies else delete n bodies.

Lemma put_part_ok t id part p u s :
  Sessions.lookup id s = Some (p, u) → up_TenantID u = t → 1 ≤ pt_PartNumber part →
  Sessions.PutPart t id part s =
  Ok (Sessions.alter_upload (λ u, Sessions.with_parts (<[pt_PartNumber part := part]> (up_parts u)) u) p s).
Proof.
  intros Hl Ht Hn. unfold Sessions.PutPart, Sessions.Get. rewrite Hl, Ht, bool_decide_eq_false_2 by naive_solver.
  by rewrite (proj2 (Z.leb_gt _ _)) by lia.
Qed.

Lemma store_part_session t b key id bodies n p u w stored body now :
  target u t b key id → live_parts bodies u w → (∀ m, wd_cache (mw_base w) !! partPieceID id m = None) →
  Sessions.lookup id (mw_sessions w) = Some (p, u) → 1 ≤ n → opens u stored body →
  mwp put_result (store_part t id p u n stored (blen body) now)
    (λ r w', session t b key id (recorded n body r bodies) w') w.
Proof using Hput.
  intros Ht Hps Hc Hl Hn Hop. destruct w as [bw ss]. simpl in *.
  destruct (Hput (up_Backend u) (partPieceID id n) stored) as [Hpid Hsz].
  assert (∀ m, 0 ≤ m → m ≠ n → (up_Backend u, partPieceID id n) ≠ (up_Backend u, partPieceID id m)) as Hne.
  { intros m Hm Hmn [= Heq%partPieceID_inj]; [done|lia..]. }
  assert ((if IsGatewayEncrypted (up_EncMode u) then blen body
    else pr_SizeBytes' (put_result (up_Backend u) (partPieceID id n) stored)) = blen body) as Hsize.
  { unfold opens in Hop. destruct (IsGatewayEncrypted _); [done|]. by rewrite Hsz, Hop. }
  intros fault. destruct fault; simpl.
  { eapply touched_session; [done..|]. by split. }
  intros _. rewrite Hpid, Hsize. set (u1 := Sessions.SetPartHash n (blake3Sum stored) u).
  pose proof (lookup_alter_upload (Sessions.SetPartHash n (blake3Sum stored)) id p u ss Hl : _ = Some (p, u1)) as Hl1.
  intros fault. destruct fault; simpl.
  - intros fault. eapply touched_session; [done..|].
    destruct fault; simpl; (split; [exact Hl1|done|done| | |done]); simpl; intros;
      rewrite ?lookup_delete_ne, ?lookup_insert_ne by auto; done.
  - erewrite put_part_ok; [|exact Hl1|apply Ht|done]. simpl.
    eapply touched_session; [exact Ht|exact Hps|exact Hc| |].
    + split; [by apply lookup_alter_upload|done| | | |done]; simpl; intros; by rewrite lookup_insert_ne by auto.
    + split; simpl; rewrite ?lookup_insert_eq; try done; try by rewrite (tg_id _ _ _ _ _ Ht).
      by rewrite (tg_id _ _ _ _ _ Ht), lookup_insert_eq.
Qed.

(** A request that uploads the bytes of a part. *)
Record upload_ready (q : UploadRequest) (t id : string) (n : Z) (body : bytes) : Prop := {
  ur_auth : urq_auth q = Ok t;
  ur_id : urq_uploadId q = id;
  ur_number : ParseInt (urq_partNumber q) = Some n;
  ur_body : urq_body q = Ok body;
  ur_nonces : ∀ j nonce, ent_nonce (urq_rand q) j = Some nonce → blen nonce = NonceSizeX
}.

(** A part sealed under the session's key opens with the record of the manifest. *)
Lemma sealed_opens nonces u body ct :
  (∀ j nonce, nonces j = Some nonce → blen nonce = NonceSizeX) → up_VersionID u ≠ "" →
  IsGatewayEncrypted (up_EncMode u) = true →
  encryptWithDEK nonces body (up_DEKMaterial u) (partsEncryptionConfig u) (uploadAADIdentity u) = Some ct →
  opens u ct body.
Proof using AL.
  intros Hn Hv Henc Hct. unfold opens, encryptWithDEK, partsEncryptionConfig, decryptWithDEK in *.
  rewrite Henc. rewrite bool_decide_eq_false_2 in Hct by done.
  destruct (Sdk.EncryptObject _ _ _ _) as [ct'|] eqn:He in Hct; simplify_eq.
  assert (gatewayDecryptOptions (upload_config u) (uploadAADIdentity u) =
          gatewayEncryptOptions v1EncryptionConfig (uploadAADIdentity u)) as ->.
  { unfold upload_config. rewrite Henc, bool_decide_eq_false_2 by done. done. }
  by erewrite (Sdk.Decrypt_Encrypt (A := gw_AEAD)) by done.
Qed.

Lemma upload_session q t b key id bodies n body w :
  upload_ready q t id n body → session t b key id bodies w →
  mwp put_result (UploadPart q) (λ r w', session t b key id (recorded n body r bodies) w') w.
Proof using AL Hput.
  intros [Ha Hi Hnum Hbody Hnon] Hs.
  assert (∀ status code, status ≠ 200 →
    session t b key id (recorded n body (refused (writeError status code)) bodies) w) as Hrefuse.
  { intros status code Hst. unfold recorded. simpl. rewrite (proj2 (Z.eqb_neq _ _)) by done. by apply session_forget. }
  unfold UploadPart. destruct hasMultipart; [|by apply Hrefuse]. simpl. rewrite Ha, Hnum, Hi.
  destruct (_ || _) eqn:Hrange; [by apply Hrefuse|]. bool_facts.
  destruct Hs as [(p & u & Hl & Ht & Hps) Hc].
  intros fault. destruct fault; [by apply Hrefuse|]. simpl. unfold Sessions.Get. rewrite Hl.
  rewrite (tg_tenant _ _ _ _ _ Ht), bool_decide_eq_false_2 by naive_solver. simpl.
  rewrite (tg_tenant _ _ _ _ _ Ht), bool_decide_eq_false_2, (tg_backend _ _ _ _ _ Ht) by naive_solver. simpl.
  destruct (IsGatewayEncrypted _) eqn:Henc.
  - rewrite Hbody, (tg_dedup _ _ _ _ _ Ht). simpl. intros _.
    destruct (Sessions.lookup_facts _ _ _ _ Hl) as [_ ->].
    destruct (encryptWithDEK _ _ _ _ _) as [ct|] eqn:Hct; [|by apply Hrefuse].
    apply store_part_session; try done. eapply sealed_opens; [done|apply Ht|done..].
  - destruct (_ && _); [by apply Hrefuse|]. rewrite Hbody.
    apply store_part_session; try done. unfold opens. by rewrite Henc.
Qed.

(** ** Complete *)

(** The numbers in ascending order and the object they make. *)
Definition in_order (refs : list PartReference) : list Z :=
  sort_slice (key_less id Z.ltb) (ref_PartNumber <$> refs).
Definition object_body (bodies : gmap Z bytes) (refs : list PartReference) : bytes :=
  concat ((λ n, default [] (bodies !! n)) <$> in_order refs).

Lemma collect_numbers ps refs parts :
  Sessions.collect ps refs = Ok parts →
  Forall2 (λ r part, ps !! ref_PartNumber r = Some part) refs parts.
Proof.
  revert parts. induction refs as [|r refs IH]; intros parts; simpl; [by intros [= <-]; constructor|].
  destruct (ps !! _) as [part|] eqn:Hp; [|done]. destruct (_ && _); [done|].
  destruct (Sessions.collect ps refs) as [rest|]; [|done]. intros [= <-]. constructor; [done|by apply IH].
Qed.

Lemma sort_parts_numbers parts :
  NoDup (pt_PartNumber <$> parts) →
  StronglySorted (key_lt pt_PartNumber Z.ltb) (Sessions.sort_parts parts) ∧
  pt_PartNumber <$> Sessions.sort_parts parts = sort_slice (key_less id Z.ltb) (pt_PartNumber <$> parts).
Proof.
  intros Hnd. pose proof (sort_slice_sorted pt_PartNumber Z.ltb parts Hnd) as Hs. split; [done|].
  symmetry. apply (sort_slice_eq id Z.ltb).
  - unfold Sessions.sort_parts. by rewrite (sort_slice_perm pt_PartNumber Z.ltb).
  - by eapply StronglySorted_fmap; [|exact Hs].
Qed.

Section object.
Context (w : World) (u : Upload) (bodies : gmap Z bytes).

Definition body_of (part : Part) : bytes := default [] (bodies !! pt_PartNumber part).
Definition piece_of (part : Part) : Piece := part_piece part (Sessions.PartHash (pt_PartNumber part) u).
Definition is_part (part : Part) (stored : bytes) : Prop :=
  part_stored w u (pt_PartNumber part) part stored (body_of part).

Lemma is_part_holds part stored : registered (up_Backend u) = true → is_part part stored → holds w (piece_of part) stored.
Proof.
  intros Hr []. unfold piece_of, part_piece, Sessions.PartHash.
  split; simpl; [by rewrite ps_backend0|by rewrite ps_backend0, ps_piece0|].
  rewrite ps_hash0. case_bool_decide as He; [done|]. by apply verify_own.
Qed.

Lemma parts_decrypt dek enc i parts stored :
  (∀ part st, is_part part st → decryptWithDEK st dek enc i = Some (body_of part)) →
  Forall2 is_part parts stored → decrypt_parts dek enc i stored = Some (body_of <$> parts).
Proof.
  intros Hd. induction 1 as [|part st parts stored Hp _ IH]; [done|]. simpl. by rewrite (Hd _ _ Hp), IH.
Qed.

Lemma parts_plain parts stored :
  IsGatewayEncrypted (up_EncMode u) = false → Forall2 is_part parts stored → stored = body_of <$> parts.
Proof.
  intros He. induction 1 as [|part st parts stored Hp _ IH]; [done|]. simpl. f_equal; [|done].
  pose proof (ps_opens _ _ _ _ _ _ Hp) as Ho. unfold opens in Ho. by rewrite He in Ho.
Qed.

Lemma pieces_plain parts : existsb (λ p, negb (bool_decide (pc_ShardKind p = ""))) (piece_of <$> parts) = false.
Proof. by induction parts. Qed.

Lemma pieces_numbered part part' parts stored :
  Forall2 is_part (part :: part' :: parts) stored →
  (if blen (piece_of <$> part :: part' :: parts) <? 2 then false
   else forallb (λ p, negb (pc_PartNumber p =? 0)) (piece_of <$> part :: part' :: parts)) = true.
Proof.
  intros Hps. unfold blen. rewrite length_fmap. rewrite (proj2 (Z.ltb_ge _ _)) by (simpl length; lia).
  apply forallb_forall. intros p (q & -> & Hq)%list_elem_of_In%list_elem_of_fmap. simpl.
  apply list_elem_of_lookup in Hq as [i Hi]. destruct (Forall2_lookup_l _ _ _ _ _ Hps Hi) as (st & _ & Hp).
  pose proof (ps_positive _ _ _ _ _ _ Hp). apply negb_true_iff, Z.eqb_neq. lia.
Qed.

(** The manifest of the parts represents the object. *)
Lemma parts_represent t b key id m parts stored :
  target u t b key id → Forall2 is_part parts stored → parts ≠ [] →
  StronglySorted (key_lt pt_PartNumber Z.ltb) parts → (∀ n, wd_cache w !! partPieceID id n = None) →
  length parts = 1%nat ∨ blen (concat (body_of <$> parts)) ≤ maxMultipartInMemoryBytes →
  m_Pieces m = piece_of <$> parts → m_Encryption m = upload_config u → aadIdentityOf m = uploadAADIdentity u →
  represents w m (concat (body_of <$> parts)).
Proof using.
  intros Ht Hps Hne Hsort Hcache Hlen Hpieces Henc Haad. pose proof (tg_backend _ _ _ _ _ Ht) as Hr.
  assert (enc_Mode (upload_config u) = up_EncMode u) as Hmode by (unfold upload_config; repeat case_match; done).
  assert (Forall2 (holds w) (m_Pieces m) stored) as Hholds.
  { rewrite Hpieces. apply Forall2_fmap_l. eapply Forall2_impl; [exact Hps|]. intros. by apply is_part_holds. }
  assert (∀ part st, is_part part st → IsGatewayEncrypted (up_EncMode u) = true →
    decryptWithDEK st (up_DEKMaterial u) (m_Encryption m) (aadIdentityOf m) = Some (body_of part)) as Hdec.
  { intros part st Hp He. pose proof (ps_opens _ _ _ _ _ _ Hp) as Ho. unfold opens in Ho.
    rewrite He in Ho. by rewrite Henc, Haad. }
  destruct parts as [|part [|part' parts]]; [done| |].
  - apply Forall2_cons_inv_l in Hps as (st & ? & Hp & ->%Forall2_nil_inv_l & ->).
    rewrite Hpieces in Hholds. apply Forall2_cons_1 in Hholds as [Hh _].
    eapply (RSingle _ _ _ (piece_of part) st); [done|done|done| |].
    + intros b'. simpl. rewrite (ps_piece _ _ _ _ _ _ Hp), (tg_id _ _ _ _ _ Ht), Hcache. done.
    + unfold unseals. rewrite Henc, Hmode. simpl. rewrite app_nil_r. destruct (IsGatewayEncrypted _) eqn:He.
      * destruct (tg_enc _ _ _ _ _ Ht He) as [Hhas Hun]. unfold decryptFromStorage. rewrite Hhas, Hun. simpl.
        rewrite <- Henc. by apply Hdec.
      * pose proof (ps_opens _ _ _ _ _ _ Hp) as Ho. unfold opens in Ho. by rewrite He in Ho.
  - destruct Hlen as [Hlen|Hlen]; [done|].
    eapply (RMultipart _ _ _ (m_Pieces m) stored); [| |exact Hlen| |exact Hholds| |done].
    + unfold isErasureCodedManifest. rewrite Hpieces. apply pieces_plain.
    + unfold isMultipartManifest. rewrite Hpieces. by eapply pieces_numbered.
    + rewrite Hpieces. apply (sort_slice_eq pc_PartNumber Z.ltb); [done|].
      by eapply StronglySorted_fmap; [|exact Hsort].
    + rewrite Henc, Hmode. destruct (IsGatewayEncrypted _) eqn:He; [|by apply parts_plain].
      destruct (tg_enc _ _ _ _ _ Ht He) as [Hhas Hun]. split; [done|]. exists (up_DEKMaterial u).
      split; [done|]. rewrite <- Henc. by apply parts_decrypt; [intros; apply Hdec|].
Qed.

End object.

Lemma part_pieces_wp p parts pieces total (Q : list Piece * Z → MWorld → Prop) w u :
  Sessions.ms_heap (mw_sessions w) !! p = Some u →
  Q (pieces ++ (piece_of u <$> parts), foldl (λ n part, wrap64 (n + pt_SizeBytes part)) total parts) w →
  mwp put_result (part_pieces p parts pieces total) Q w.
Proof.
  intros Hu. revert pieces total. induction parts as [|part parts IH]; intros pieces total HQ; simpl.
  { by rewrite app_nil_r in HQ. }
  intros _. rewrite Hu. apply IH. by rewrite <- app_assoc.
Qed.

(** The sizes add up. *)
Lemma sizes_total w u bodies parts stored total :
  Forall2 (is_part w u bodies) parts stored → 0 ≤ total →
  total + blen (concat (body_of bodies <$> parts)) < 2 ^ 63 →
  foldl (λ n part, wrap64 (n + pt_SizeBytes part)) total parts = total + blen (concat (body_of bodies <$> parts)).
Proof.
  intros Hps. revert total. induction Hps as [|part st parts stored Hp _ IH]; intros total Htot.
  { unfold blen. simpl. lia. }
  rewrite fmap_cons. cbn [concat foldl]. rewrite blen_app, (ps_size _ _ _ _ _ _ Hp). intros Hlt.
  pose proof (blen_nonneg (body_of bodies part)). pose proof (blen_nonneg (concat (body_of bodies <$> parts))).
  rewrite wrap64_id by (unfold is_int64; lia). rewrite IH; lia.
Qed.

(** A request that completes the upload with the parts [refs]. *)
Record complete_ready (q : CompleteRequest) (t b key id : string) (refs : list PartReference) : Prop := {
  cq_auth : cmq_auth q = Ok t;
  cq_path : parseBucketKey (cmq_path q) = (b, key);
  cq_id : cmq_uploadId q = id;
  cq_parts : cmq_parts q = Ok refs;
  cq_distinct : NoDup (ref_PartNumber <$> refs)
}.

Lemma choose_list {A B} (P : A → B → Prop) l : (∀ x, x ∈ l → ∃ y, P x y) → ∃ k, Forall2 P l k.
Proof.
  induction l as [|x l IH]; intros Hl; [by exists []|].
  destruct (Hl x) as [y Hy]; [by left|]. destruct IH as [k Hk]; [intros; apply Hl; by right|].
  exists (y :: k). by constructor.
Qed.

(** The parts a completion names, sorted, and their bytes. *)
Lemma collected_parts w u bodies refs parts :
  live_parts bodies u w → (∀ n, n ∈ ref_PartNumber <$> refs → is_Some (bodies !! n)) →
  NoDup (ref_PartNumber <$> refs) → Sessions.collect (up_parts u) refs = Ok parts →
  ∃ stored, Forall2 (is_part (mw_base w) u bodies) (Sessions.sort_parts parts) stored ∧
    StronglySorted (key_lt pt_PartNumber Z.ltb) (Sessions.sort_parts parts) ∧
    concat (body_of bodies <$> Sessions.sort_parts parts) = object_body bodies refs ∧
    pt_PartNumber <$> Sessions.sort_parts parts = in_order refs ∧
    length (Sessions.sort_parts parts) = length refs.
Proof.
  intros Hlive Hall Hnd Hc%collect_numbers.
  assert (Forall2 (λ r part, pt_PartNumber part = ref_PartNumber r ∧
    ∃ stored, is_part (mw_base w) u bodies part stored) refs parts) as Hparts.
  { apply Forall2_same_length_lookup_2; [by eapply Forall2_length|]. intros i r part Hr Hi.
    pose proof (Forall2_lookup_lr _ _ _ _ _ _ Hc Hr Hi) as Hp.
    destruct (Hall (ref_PartNumber r)) as [body Hb]; [by eapply list_elem_of_fmap_2, list_elem_of_lookup_2|].
    destruct (Hlive _ _ Hb) as (part' & stored & Hps). pose proof (ps_part _ _ _ _ _ _ Hps) as Heq. rewrite Hp in Heq. injection Heq as <-.
    pose proof (ps_number _ _ _ _ _ _ Hps) as Hn. split; [done|]. exists stored. unfold is_part, body_of.
    by rewrite Hn, Hb. }
  assert (pt_PartNumber <$> parts = ref_PartNumber <$> refs) as Hnum.
  { clear -Hparts. induction Hparts as [|r part refs parts [Hn _] _ IH]; [done|]. rewrite !fmap_cons. by f_equal. }
  rewrite <- Hnum in Hnd. destruct (sort_parts_numbers parts Hnd) as [Hsorted Hsnum].
  destruct (choose_list (is_part (mw_base w) u bodies) (Sessions.sort_parts parts)) as [stored Hst].
  { intros part Hin. unfold Sessions.sort_parts in Hin. rewrite (sort_slice_perm pt_PartNumber Z.ltb) in Hin.
    apply list_elem_of_lookup in Hin as [i Hi]. by destruct (Forall2_lookup_r _ _ _ _ _ Hparts Hi) as (r & _ & _ & ?). }
  exists stored. split_and!; [done|done| | |].
  - unfold object_body, in_order. by rewrite <- Hnum, <- Hsnum, <- list_fmap_compose.
  - unfold in_order. by rewrite <- Hnum, <- Hsnum.
  - unfold Sessions.sort_parts. rewrite (sort_slice_perm pt_PartNumber Z.ltb).
    rewrite <- (length_fmap pt_PartNumber), Hnum. apply length_fmap.
Qed.

Lemma lock_preflight_wp t b key cfg ver now byp (Q : option Response → World → Prop) w :
  (∀ status code, status ≠ 200 → Q (Some (writeError status code)) w) → Q None w →
  wp put_result (objectLockOverwrite t b key cfg ver now byp (λ e, Ret (Some e)) (Ret None)) Q w.
Proof.
  intros Herr Hk. unfold objectLockOverwrite.
  destruct cfg as [[cfg|]|]; [|by apply Herr|done].
  destruct (negb _); [done|]. destruct ver; [|by apply Herr].
  case_bool_decide; [done|]. intros fault.
  destruct (do_call put_result fault (ManGet _) w).1 as [cur|[]] eqn:Hc; simpl.
  all: by first [destruct (objectLockBlocksDelete _ _ _); [by apply Herr|done]|apply Herr|idtac].
Qed.

(** The object of the parts fits what a read of several parts may buffer. *)
Definition readable (bodies : gmap Z bytes) (refs : list PartReference) : Prop :=
  blen (object_body bodies refs) < 2 ^ 63 ∧
  (length refs = 1%nat ∨ blen (object_body bodies refs) ≤ maxMultipartInMemoryBytes).

(** The upload is over and the current version consists of the pieces of its parts. *)
Definition published (t b key id : string) (refs : list PartReference) (w w' : MWorld) : Prop :=
  Sessions.ms_uploads (mw_sessions w') !! id = None ∧
  ∃ p u m, Sessions.lookup id (mw_sessions w) = Some (p, u) ∧
    VersionLog.get (mkManifestKey t b (hashObjectKey key) "") (wd_manifests (mw_base w')) = Ok m ∧
    (λ p, (pc_Backend p, pc_PieceID p)) <$> m_Pieces m =
    (λ n, (up_Backend u, partPieceID id n)) <$> in_order refs.

Lemma complete_stores q t b key id refs bodies w :
  complete_ready q t b key id refs → session t b key id bodies w →
  (∀ n, n ∈ ref_PartNumber <$> refs → is_Some (bodies !! n)) → readable bodies refs →
  mwp put_result (CompleteMultipartUpload q)
    (λ r w', ok200 r → stored_as t b key (object_body bodies refs) (mr_resp r) (mw_base w') ∧
                       published t b key id refs w w') w.
Proof using Hwrap Hput Hnonempty AL CL.
  intros [Ha Hp Hi Hparts Hnd] [(p & u & Hl & Ht & Hlive) Hcache] Hall [Hlt Hread].
  unfold CompleteMultipartUpload. destruct hasMultipart; [|done]. simpl. rewrite Ha, Hp.
  destruct (_ || _); [done|]. apply mwp_bind, mwp_lift, lock_preflight_wp; [by intros ? ? ? ?|].
  rewrite Hparts. destruct refs as [|ref refs]; [done|]. set (rs := ref :: refs) in *. rewrite Hi.
  intros fault. destruct fault; [done|]. simpl. destruct w as [bw ss]. simpl in *.
  destruct (Sessions.complete_cases id t b key rs ss) as [[e ->]|(p' & u' & parts & Hl' & _ & _ & _ & Hcol & ->)].
  { destruct e; by intros ?. }
  simplify_eq. simpl. intros _. destruct (Sessions.lookup_facts _ _ _ _ Hl) as [_ Hu]. rewrite Hu.
  destruct (collected_parts (mkMWorld bw ss) u bodies rs parts Hlive Hall Hnd Hcol) as (stored & Hps & Hsort & Hbody & Hnums & Hlen).
  set (ps := Sessions.sort_parts parts) in *.
  apply mwp_bind. unfold complete_upload. apply mwp_bind.
  eapply part_pieces_wp; [exact Hu|]. simpl. rewrite Hu.
  rewrite bool_decide_eq_false_2 by apply Ht. unfold multipartDedupEligible.
  rewrite (tg_dedup _ _ _ _ _ Ht). simpl. intros _. unfold store_manifest.
  rewrite (sizes_total bw u bodies ps stored) by (rewrite ?Hbody; first [done|lia]). rewrite Hbody.
  destruct (applyDefaultObjectLockRetention _ _ _) as [m'|] eqn:Hd; [|apply mwp_bind, mwp_any; by intros ? ? ? ?].
  apply core_default in Hd. intros fault. destruct fault; simpl.
  { apply mwp_bind, mwp_any. intros ? ?. apply mwp_bind, mwp_any. by intros ? ? ? ?. }
  intros _ _. split; [eapply stored_last; [exact Hd|done|apply Ht|done|by rewrite Z.add_0_l|]|].
  2:{ split; [apply lookup_delete_eq|]. exists p, u, m'. split; [done|].
      unfold core in Hd. injection Hd as _ _ Hkh Hv _ _ _ Hpc _. simpl.
      split; [rewrite Hkh; apply get_put_version; [rewrite Hv; apply Ht|by left]|].
      rewrite Hpc. simpl. rewrite <- Hnums, <- !list_fmap_compose. apply list_fmap_ext. intros i part Hi. simpl.
      destruct (Forall2_lookup_l _ _ _ _ _ Hps Hi) as (st & _ & Hpart).
      by rewrite (ps_backend _ _ _ _ _ _ Hpart), (ps_piece _ _ _ _ _ _ Hpart), (tg_id _ _ _ _ _ Ht). }
  rewrite <- Hbody. eapply parts_represent; [exact Ht|exact Hps| |done|done| |done|done|].
  - intros Hnil. by rewrite Hnil in Hlen.
  - rewrite Hlen, Hbody. done.
  - unfold aadIdentityOf, uploadAADIdentity. simpl. by destruct Ht; subst.
Qed.

(** The uploads of a session, with the parts that are stored after them. *)
Fixpoint upload_all (us : list (Z * bytes * UploadRequest * list bool)) (bodies : gmap Z bytes) (w : MWorld)
    : gmap Z bytes * MWorld :=
  match us with
  | [] => (bodies, w)
  | (n, body, q, faults) :: us =>
      let '(r, w') := mexec put_result (UploadPart q) faults w in upload_all us (recorded n body r bodies) w'
  end.

Lemma uploads_session t b key id us : ∀ bodies w,
  Forall (λ x, upload_ready x.1.2 t id x.1.1.1 x.1.1.2) us → session t b key id bodies w →
  session t b key id (upload_all us bodies w).1 (upload_all us bodies w).2.
Proof using AL Hput.
  induction us as [|[[[n body] q] faults] us IH]; intros bodies w Hus Hs; simpl; [done|].
  apply Forall_cons in Hus as [Hq Hus]. simpl in Hq.
  pose proof (mwp_exec _ _ _ faults _ (upload_session _ _ _ _ _ _ _ _ _ Hq Hs)) as Hs'.
  destruct (mexec put_result (UploadPart q) faults w) as [r w']. by apply IH.
Qed.


(** ** A part that is sent again *)

(** The request is paused after its piece is written. *)
Lemma upload_paused q t b key id n body p u w :
  hasMultipart = true → upload_ready q t id n body → 1 ≤ n ≤ 10000 → urq_zkHeader q ≠ "" →
  Sessions.lookup id (mw_sessions w) = Some (p, u) → target u t b key id →
  IsGatewayEncrypted (up_EncMode u) = false →
  msteps put_result 2 (UploadPart q) w =
  (record_part t id p u n body (blen body) (urq_now q) (Some (put_result (up_Backend u) (partPieceID id n) body)),
   mkMWorld (set_pieces (<[(up_Backend u, partPieceID id n) := body]> (wd_pieces (mw_base w))) (mw_base w))
     (mw_sessions w)).
Proof using Hput.
  intros Hmp [Ha Hi Hnum Hbody _] Hn Hzk Hl Ht Henc. unfold UploadPart. rewrite Hmp, Ha, Hnum, Hi, Hbody. simpl.
  rewrite (proj2 (Z.ltb_ge n 1)), (proj2 (Z.ltb_ge 10000 n)) by lia. simpl. unfold Sessions.Get. rewrite Hl.
  rewrite (tg_tenant _ _ _ _ _ Ht), bool_decide_eq_false_2 by naive_solver.
  rewrite (tg_tenant _ _ _ _ _ Ht), bool_decide_eq_false_2, (tg_backend _ _ _ _ _ Ht) by naive_solver.
  simpl. rewrite Henc, (bool_decide_eq_false_2 (urq_zkHeader q = "")), andb_false_r by done. simpl.
  unfold record_part. by rewrite (proj1 (Hput (up_Backend u) (partPieceID id n) body)), Henc.
Qed.

(** A part that is sent again while the upload is completed is lost. When a
    client repeats the upload of a part (same bytes, for instance after a timeout)
    and the repetition has written its piece when CompleteMultipartUpload runs,
    the completion answers 200 and the repetition, no longer finding the upload,
    rolls back by deleting the piece, which is the one the new version consists
    of. *)
Theorem late_retry_destroys_part q mq t b key id refs bodies n body w :
  hasMultipart = true → session t b key id bodies w →
  (∀ p u, Sessions.lookup id (mw_sessions w) = Some (p, u) → IsGatewayEncrypted (up_EncMode u) = false) →
  upload_ready q t id n body → 1 ≤ n ≤ 10000 → urq_zkHeader q ≠ "" → bodies !! n = Some body →
  complete_ready mq t b key id refs → n ∈ ref_PartNumber <$> refs →
  (∀ n, n ∈ ref_PartNumber <$> refs → is_Some (bodies !! n)) → readable bodies refs →
  let '(rest, w1) := msteps put_result 2 (UploadPart q) w in
  let '(r, w2) := mexec put_result (CompleteMultipartUpload mq) [] w1 in
  let '(r', w3) := mexec put_result rest [] w2 in
  ok200 r →
  rs_status (mr_resp r') = 500 ∧
  ∃ m piece, VersionLog.get (mkManifestKey t b (hashObjectKey key) "") (wd_manifests (mw_base w3)) = Ok m ∧
    piece ∈ m_Pieces m ∧ wd_pieces (mw_base w3) !! (pc_Backend piece, pc_PieceID piece) = None.
Proof using Hwrap Hput Hnonempty AL CL.
  intros Hmp Hs Hplain Hq Hn Hzk Hb Hm Hin Hall Hread. pose proof Hs as [(p & u & Hl & Ht & Hlive) Hcache].
  specialize (Hplain p u Hl). rewrite (upload_paused q t b key id n body p u w) by done.
  set (w1 := mkMWorld _ _). assert (session t b key id bodies w1) as Hs1.
  { rewrite <- (insert_id bodies n body) by done. destruct (Hlive _ _ Hb) as (part & stored & Hps).
    pose proof (ps_opens _ _ _ _ _ _ Hps) as Hop. unfold opens in Hop. rewrite Hplain in Hop. subst stored.
    eapply (touched_session t b key id bodies n p u w u w1); [done..| |].
    - split; try done. simpl. intros k ? ?. rewrite lookup_insert_ne; [done|]. intros [= ?%partPieceID_inj]; lia.
    - destruct Hps. split; try done. simpl. rewrite (tg_id _ _ _ _ _ Ht). apply lookup_insert_eq. }
  pose proof (mwp_exec _ _ _ [] _ (complete_stores _ _ _ _ _ _ _ _ Hm Hs1 Hall Hread)) as Hc.
  destruct (mexec put_result (CompleteMultipartUpload mq) [] w1) as [r w2]. simpl in Hc.
  destruct (mexec put_result (record_part _ _ _ _ _ _ _ _ _) [] w2) as [r' w3] eqn:Hr.
  intros H200. destruct (Hc H200) as [_ (Hgone & p' & u' & m & Hl' & Hget & Hpieces)].
  simpl in Hl'. rewrite Hl in Hl'. simplify_eq. unfold record_part in Hr. simpl in Hr.
  unfold Sessions.PutPart, Sessions.Get, Sessions.lookup in Hr. simpl in Hr. rewrite Hgone in Hr. simpl in Hr.
  simplify_eq. split; [done|]. simpl. exists m.
  assert ((up_Backend u', partPieceID id n) ∈ (λ p, (pc_Backend p, pc_PieceID p)) <$> m_Pieces m)
    as (piece & Heq & Hpiece)%list_elem_of_fmap.
  { rewrite Hpieces. apply list_elem_of_fmap. exists n. split; [done|].
    unfold in_order. by rewrite (sort_slice_perm Datatypes.id Z.ltb). }
  exists piece. split_and!; [done|done|]. rewrite <- Heq. apply lookup_delete_eq.
Qed.

End roundtrip.

(** ** Examples *)

Section examples.
#[local] Existing Instance Worm.ex_gateway.
#[local] Existing Instance EC.xor_codec_laws.
#[local] Existing Instance Sdk.plain_aead_laws.
#[local] Existing Instance Roundtrip.ex_reader.
#[local] Instance ex_multipart : MultipartConfig := { hasMultipart := true; md5Sum b := b }.

Definition ex_rand : Entropy := mkEntropy (Some Sdk.ex_dek) Sdk.ex_nonce [].
Definition ex_create (key id : string) (policy : PlacementPolicy) : CreateRequest :=
  mkCreateRequest (Ok "t1") (String.app "/photos/" key) (Ok ∅) (Ok (mkObjectHeaders "" "" "" "" "" "" ∅))
    (Some (Ok ("wasabi", policy))) true None (Some id) 1 ex_rand.
Definition ex_upload (id part body : string) : UploadRequest :=
  mkUploadRequest (Ok "t1") id part (Ok (str body)) "zk" 2 ex_rand.
Definition ex_complete (key id : string) (ns : list Z) : CompleteRequest :=
  mkCompleteRequest (Ok "t1") (String.app "/photos/" key) id (Ok ((λ n, mkPartReference n "") <$> ns)) "" None
    (Ok "Enabled") 3 3 3 3 3 3 ex_rand.
Definition ex_mode (mode : string) (dedup : option DedupPolicy) : PlacementPolicy :=
  mkPlacementPolicy [] [] 0 false "" mode dedup None.
Definition ex_start : MWorld := mkMWorld (mkWorld [] ∅ ∅ ∅) Sessions.NewMemoryStore.
Definition ex_get (key : string) : GetRequest :=
  mkGetRequest (Ok "t1") (String.app "/photos/" key) "" (unconditional "") ∅ "B".

(** Requests one after another: their statuses and the state they leave. *)
Fixpoint serve_all (rs : list (mprog MpResponse * list bool)) (w : MWorld) : list Z * MWorld :=
  match rs with
  | [] => ([], w)
  | (p, faults) :: rs =>
      let '(r, w') := mexec put_result p faults w in
      let '(ss, w'') := serve_all rs w' in (rs_status (mr_resp r) :: ss, w'')
  end.

(** Part 2 first, a failed first attempt of part 1, then part 1. *)
Definition ex_uploads : list (Z * bytes * UploadRequest * list bool) :=
  [(2, str "two", ex_upload "u1" "2" "two", []);
   (1, str "bad", ex_upload "u1" "1" "bad", [false; false; true]);
   (1, str "one", ex_upload "u1" "1" "one", [])].

Lemma ex_create_ready key id policy w :
  parseBucketKey (String.app "/photos/" key) = ("photos", key) → dedupEnabled policy = false →
  wd_cache (mw_base w) = ∅ → create_ready (ex_create key id policy) "t1" "photos" key id w.
Proof.
  intros Hp Hd Hc. split; try done.
  - by intros e [|].
  - by intros be p [= <- <-].
  - intros n. by rewrite Hc.
Qed.

Lemma ex_upload_ready id part n body :
  ParseInt part = Some n → upload_ready (ex_upload id part body) "t1" id n (str body).
Proof. intros Hn. split; try done. intros j nonce. apply Sdk.ex_nonce_length. Qed.

Lemma ex_complete_ready key id ns :
  parseBucketKey (String.app "/photos/" key) = ("photos", key) → NoDup ns →
  complete_ready (ex_complete key id ns) "t1" "photos" key id ((λ n, mkPartReference n "") <$> ns).
Proof. intros Hp Hn. split; try done. rewrite <- list_fmap_compose. by rewrite list_fmap_id. Qed.


(** An unencrypted upload of two parts. *)
Definition ex_two : list (Z * bytes * UploadRequest * list bool) :=
  [(1, str "one", ex_upload "u1" "1" "one", []); (2, str "two", ex_upload "u1" "2" "two", [])].
Definition ex_bodies : gmap Z bytes := {[1 := str "one"; 2 := str "two"]}.
Definition ex_open : MWorld :=
  (upload_all ex_two ∅ (mexec put_result (CreateMultipartUpload (ex_create "a" "u1" (ex_mode "" None))) [] ex_start).2).2.

Lemma ex_session : session "t1" "photos" "a" "u1" ex_bodies ex_open.
Proof.
  set (cq := ex_create "a" "u1" (ex_mode "" None)).
  pose proof (mwp_exec _ _ _ [] _ (create_starts Roundtrip.ex_wrap Worm.ex_nonempty cq "t1" "photos" "a" "u1" ex_start
    (ex_create_ready "a" "u1" (ex_mode "" None) ex_start eq_refl eq_refl eq_refl))) as H1.
  assert (ex_bodies = (upload_all ex_two ∅ (mexec put_result (CreateMultipartUpload cq) [] ex_start).2).1) as ->
    by (vm_compute; reflexivity).
  apply (uploads_session (G := Worm.ex_gateway) (λ _ _ _, conj eq_refl eq_refl)).
  - repeat constructor; apply Sdk.ex_nonce_length.
  - apply H1. vm_compute. reflexivity.
Qed.

Lemma late_retry_destroys_part_witness :
  let '(rest, w1) := msteps put_result 2 (UploadPart (ex_upload "u1" "1" "one")) ex_open in
  let '(r, w2) := mexec put_result (CompleteMultipartUpload (ex_complete "a" "u1" [1; 2])) [] w1 in
  let '(r', w3) := mexec put_result rest [] w2 in
  ok200 r ∧ rs_status (mr_resp r') = 500 ∧
  ∃ m piece, VersionLog.get (mkManifestKey "t1" "photos" (hashObjectKey "a") "") (wd_manifests (mw_base w3)) = Ok m ∧
    piece ∈ m_Pieces m ∧ wd_pieces (mw_base w3) !! (pc_Backend piece, pc_PieceID piece) = None.
Proof.
  pose proof (late_retry_destroys_part Roundtrip.ex_wrap (λ _ _ _, conj eq_refl eq_refl) Worm.ex_nonempty
    (ex_upload "u1" "1" "one") (ex_complete "a" "u1" [1; 2]) "t1" "photos" "a" "u1"
    [mkPartReference 1 ""; mkPartReference 2 ""] ex_bodies 1 (str "one") ex_open eq_refl ex_session) as H.
  assert (let '(rest, w1) := msteps put_result 2 (UploadPart (ex_upload "u1" "1" "one")) ex_open in
    rs_status (mr_resp (mexec put_result (CompleteMultipartUpload (ex_complete "a" "u1" [1; 2])) [] w1).1) = 200) as H200
    by (vm_compute; reflexivity).
  destruct (msteps put_result 2 _ ex_open) as [rest w1].
  destruct (mexec put_result (CompleteMultipartUpload _) [] w1) as [r w2]. cbn [fst] in H200.
  destruct (mexec put_result rest [] w2) as [r' w3]. split; [exact H200|]. apply H; clear H; try done.
  - intros p u Hl.
    assert (option_map (λ pu, IsGatewayEncrypted (up_EncMode pu.2)) (Sessions.lookup "u1" (mw_sessions ex_open)) = Some false)
      as Hm by (vm_compute; reflexivity).
    rewrite Hl in Hm. by injection Hm.
  - by apply ex_upload_ready.
  - apply (ex_complete_ready "a" "u1" [1; 2]); [done|]. by apply (bool_decide_unpack _).
  - by left.
  - intros n Hn. repeat (apply elem_of_cons in Hn as [->|Hn]; [by eexists|]). by apply not_elem_of_nil in Hn.
  - split; [done|right]. vm_compute. discriminate.
Defined.

(** With deduplication of gateway-encrypted uploads, a part whose second
    transfer fails poisons the content index. UploadPart records the digest of the
    plaintext before the piece is written, so after a failed attempt with bytes
    [new] the session pairs the digest of [new] with the stored bytes [old], and
    the completion registers [old] under the digest of [new]. A later upload of
    [new], all of whose requests answer 200, is then redirected to that piece, and a
    GET of it answers 200 with [old]. *)
Theorem failed_reupload_serves_other_bytes :
  let managed := ex_mode ManagedEncrypted (Some (mkDedupPolicy true "" "")) in
  let requests :=
    [(CreateMultipartUpload (ex_create "a" "u1" managed), []);
     (UploadPart (ex_upload "u1" "1" "old"), []);
     (UploadPart (ex_upload "u1" "1" "new"), [false; false; false; true]);   (* the backend refuses *)
     (CompleteMultipartUpload (ex_complete "a" "u1" [1]), []);
     (CreateMultipartUpload (ex_create "b" "u2" managed), []);
     (UploadPart (ex_upload "u2" "1" "new"), []);
     (CompleteMultipartUpload (ex_complete "b" "u2" [1]), [])] in
  let '(statuses, w) := serve_all requests ex_start in
  let answer := (exec put_result (Get (ex_get "b")) [] (mw_base w)).1 in
  statuses = [200; 200; 502; 200; 200; 200; 200] ∧ rr_status answer = 200 ∧ rr_body answer = str "old".
Proof. vm_compute. repeat split. Qed.

End examples.

End Uploads.
