(* ===== verification/Workers.v ===== *)
(** * Background workers over the stores

    A worker is a program like a handler, with the calls only workers make
    (paged listings, listings of versions and of uploads, the cancellation of
    its context), and with the manifest store as the in-memory store itself, so
    that the cursors of a listing have their meaning while the worker writes.
    The second half is about paging: what a page holds, what the rest of the
    listing is, and how a worker's writes change it. *)

From S2P Require Import Prelude Bytes Manifest ManifestStore ContentIndex EncryptionPipeline Fabric.
From S2P Require Import MultipartStore Multipart.
Local Open Scope Z_scope.

(** ** Programs *)

Inductive wcall : Type → Type :=
| Shared {A} (c : mcall A) : wcall A
| ManList (t b cursor : string) (limit : Z) : wcall (result store_error ListResult)
| ManListVersions (t b h : string) : wcall (result store_error (list ObjectManifest))
| MpList (t b : string) : wcall (list Upload)
| CtxErr : wcall bool                            (* whether the context is cancelled *)
| FreshVersionID : wcall string.                 (* a minter of version ids *)

Inductive wprog (R : Type) : Type :=
| WRet (r : R)
| WCall {A : Type} (c : wcall A) (k : A → wprog R).
Arguments WRet {R} r.
Arguments WCall {R A} c k.

Fixpoint wbind {R S} (p : wprog R) (f : R → wprog S) : wprog S :=
  match p with WRet r => f r | WCall c k => WCall c (λ a, wbind (k a) f) end.

Fixpoint wlift {R} (p : prog R) : wprog R :=
  match p with Ret r => WRet r | Call c k => WCall (Shared (Base c)) (λ a, wlift (k a)) end.

Declare Scope wprog_scope.
Delimit Scope wprog_scope with wprog.
Notation "x '<~' c ';;' k" := (WCall c (λ x, k))
  (at level 100, c at next level, right associativity) : wprog_scope.
Notation "x '<-' p ';;;' k" := (wbind p (λ x, k))
  (at level 100, p at next level, right associativity) : wprog_scope.

Record WWorld := mkWWorld {
  ww_store : Memory.Store;
  ww_index : gmap (string * string) ContentIndexEntry;
  ww_pieces : gmap (string * string) bytes;
  ww_cache : gmap string bytes;
  ww_sessions : Sessions.MemoryStore;
  ww_mint : nat → string;                        (* the version ids a minter hands out *)
  ww_minted : nat                                (* how many it has handed out *)
}.

Definition with_store (s : Memory.Store) (w : WWorld) : WWorld :=
  mkWWorld s (ww_index w) (ww_pieces w) (ww_cache w) (ww_sessions w) (ww_mint w)
    (ww_minted w).

(** The stores other than the manifest store, as the handlers' calls see them. *)
Definition handler_view (w : WWorld) : MWorld :=
  mkMWorld (mkWorld [] (ww_index w) (ww_pieces w) (ww_cache w)) (ww_sessions w).
Definition with_view (v : MWorld) (w : WWorld) : WWorld :=
  mkWWorld (ww_store w) (wd_index (mw_base v)) (wd_pieces (mw_base v)) (wd_cache (mw_base v))
    (mw_sessions v) (ww_mint w) (ww_minted w).

(** Any call may fail. *)
Definition any (fault : bool) : Prop := True.

Section semantics.
Context (put_result : string → string → bytes → PutResult).

Definition store_write (r : result store_error Memory.Store) (w : WWorld) : err_or_nil store_error * WWorld :=
  match r with Ok s => (Ok (), with_store s w) | Err e => (Err e, w) end.

(** A handler's call: on the manifests it is the operation of the in-memory
    store, on the other stores what it is for a handler. *)
Definition do_shared {A} (fault : bool) (c : mcall A) (w : WWorld) : A * WWorld :=
  match c in mcall A return A * WWorld with
  | Base c =>
      match c in call A return A * WWorld with
      | ManGet k => (if fault then Err ErrUnavailable else Memory.Get k (ww_store w), w)
      | ManPut k m =>
          if fault then (Err ErrUnavailable, w) else (Ok (), with_store (Memory.Put k m (ww_store w)) w)
      | ManUpdate k m =>
          if fault then (Err ErrUnavailable, w) else store_write (Memory.UpdateManifest k m (ww_store w)) w
      | ManDelete k =>
          if fault then (Err ErrUnavailable, w) else store_write (Memory.Delete k (ww_store w)) w
      | c => let '(a, v) := do_mcall put_result fault (Base c) (handler_view w) in (a, with_view v w)
      end
  | c => let '(a, v) := do_mcall put_result fault c (handler_view w) in (a, with_view v w)
  end.

(** One call; a [fault] is a call that fails without effect, and for [CtxErr] a
    context that is cancelled. *)
Definition do_wcall {A} (fault : bool) (c : wcall A) (w : WWorld) : A * WWorld :=
  match c in wcall A return A * WWorld with
  | Shared c => do_shared fault c w
  | ManList t b cursor limit =>
      (if fault then Err ErrUnavailable else Memory.List (ww_store w) t b cursor limit, w)
  | ManListVersions t b h =>
      (if fault then Err ErrUnavailable else Ok (Memory.ListVersions (ww_store w) t b h), w)
  | MpList t b => (if fault then [] else Sessions.List t b (ww_sessions w), w)
  | CtxErr => (fault, w)
  | FreshVersionID =>
      (ww_mint w (ww_minted w),
       mkWWorld (ww_store w) (ww_index w) (ww_pieces w) (ww_cache w) (ww_sessions w) (ww_mint w) (S (ww_minted w)))
  end.

Fixpoint wexec {R} (p : wprog R) (faults : list bool) (w : WWorld) : R * WWorld :=
  match p with
  | WRet r => (r, w)
  | WCall c k =>
      let '(a, w') := do_wcall (default false (head faults)) c w in wexec (k a) (tail faults) w'
  end.

(** ** Reasoning about workers *)

(** [Q] holds at the end for every run whose faults satisfy [may]: all runs when
    [may] is [any], the runs without a fault when it is [eq false]. *)
Fixpoint wwp {R} (may : bool → Prop) (p : wprog R) (Q : R → WWorld → Prop) (w : WWorld) : Prop :=
  match p with
  | WRet r => Q r w
  | WCall c k => ∀ fault, may fault →
      wwp may (k (do_wcall fault c w).1) Q (do_wcall fault c w).2
  end.

Lemma wwp_exec {R} may (p : wprog R) Q faults w :
  may false → Forall may faults → wwp may p Q w → Q (wexec p faults w).1 (wexec p faults w).2.
Proof.
  intros Hf. revert faults w. induction p as [r|A c k IH]; intros faults w Hall Hp; simpl in *; [done|].
  assert (may (default false (head faults))) as Hm by (destruct Hall; simpl; auto).
  assert (Forall may (tail faults)) as Ht by (destruct Hall; simpl; auto).
  specialize (Hp _ Hm). destruct (do_wcall _ c w) as [a w']. by apply IH.
Qed.

Lemma wwp_mono {R} may (p : wprog R) (Q Q' : R → WWorld → Prop) w :
  (∀ r w', Q r w' → Q' r w') → wwp may p Q w → wwp may p Q' w.
Proof.
  intros HQ. revert w. induction p as [r|A c k IH]; intros w Hp; simpl in *; [by apply HQ|].
  intros fault Hm. by apply IH, Hp.
Qed.

Lemma wwp_bind {R S} may (p : wprog R) (f : R → wprog S) Q w :
  wwp may p (λ r w', wwp may (f r) Q w') w → wwp may (wbind p f) Q w.
Proof.
  revert w. induction p as [r|A c k IH]; intros w Hp; simpl in *; [done|]. intros fault Hm. by apply IH, Hp.
Qed.

Lemma wwp_and {R} may (p : wprog R) (Q Q' : R → WWorld → Prop) w :
  wwp may p Q w → wwp may p Q' w → wwp may p (λ r w', Q r w' ∧ Q' r w') w.
Proof. revert w. induction p as [r|A c k IH]; intros w Hp Hp'; simpl in *; [done|]. intros. apply IH; eauto. Qed.

Lemma wwp_weaken {R} (may may' : bool → Prop) (p : wprog R) Q w :
  (∀ f, may' f → may f) → wwp may p Q w → wwp may' p Q w.
Proof. intros Hm. revert w. induction p as [r|A c k IH]; intros w Hp; simpl in *; [done|]. intros. apply IH; eauto. Qed.

(** Calls on the other stores leave the manifest store alone. *)
Lemma do_shared_other {A} fault (c : mcall A) w :
  match c with Base (ManPut _ _) | Base (ManUpdate _ _) | Base (ManDelete _) => False | _ => True end →
  ww_store (do_shared fault c w).2 = ww_store w.
Proof. destruct c as [? []| | | | | | | |]; simpl; try done; intros _; by repeat case_match. Qed.

Lemma do_shared_mint {A} fault (c : mcall A) w : ww_mint (do_shared fault c w).2 = ww_mint w.
Proof.
  destruct c as [? []| | | | | | | |]; simpl; try done; unfold store_write; by repeat case_match.
Qed.

End semantics.

(** ** Listings that are changed while they are read *)

Module Paging.
Import Memory.

Section paging.
Context (t b : string).

(** The value of a cursor. *)
Definition cursor_at (cursor : string) (after : Z) : Prop :=
  0 ≤ after ∧ (if bool_decide (cursor = "") then Some 0 else ParseUint cursor) = Some after.

Lemma cursor_at_start : cursor_at "" 0.
Proof. done. Qed.

Lemma listed_elem s after n k m :
  wf s →
  (n, k, m) ∈ list_rows s t b after ↔
  k_TenantID k = t ∧ k_Bucket k = b ∧ latest s !! latest_of k = Some k ∧
  seq s !! k = Some n ∧ byKey s !! k = Some m ∧ after < n.
Proof.
  intros Hwf. unfold list_rows. rewrite (sort_slice_perm row_seq Z.ltb), list_elem_of_omap. split.
  - intros ([lk mk] & Hlk%elem_of_map_to_list & Hrow).
    pose proof (wf_latest _ Hwf lk mk Hlk) as (<- & n' & Hn' & _).
    unfold list_row in Hrow. rewrite Hn' in Hrow. simpl in Hrow.
    repeat case_match; simplify_eq; bool_facts. split_and!; try done; apply dec_stable; tauto.
  - intros (Ht & Hb & Hlk & Hn & Hm & Hlt). exists (latest_of k, k). rewrite elem_of_map_to_list.
    split; [done|]. unfold list_row. rewrite bool_decide_eq_false_2 by (simpl; tauto).
    rewrite Hn. simpl. rewrite (proj2 (Z.leb_gt _ _)) by lia. by rewrite Hm.
Qed.

(** A listing shows versions of the bucket that a latest pointer names. *)
Lemma List_key s cursor limit r m :
  List s t b cursor limit = Ok r → m ∈ lr_Manifests r →
  ∃ lk k, lk_TenantID lk = t ∧ lk_Bucket lk = b ∧ latest s !! lk = Some k ∧ byKey s !! k = Some m.
Proof.
  assert (∀ after row, row ∈ list_rows s t b after →
    ∃ lk k, lk_TenantID lk = t ∧ lk_Bucket lk = b ∧ latest s !! lk = Some k ∧
      byKey s !! k = Some (row_manifest row)) as Hrow.
  { intros after row. unfold list_rows. rewrite (sort_slice_perm row_seq Z.ltb).
    intros ([lk k] & Hlk%elem_of_map_to_list & Hrow)%list_elem_of_omap.
    exists lk, k. unfold list_row in Hrow. repeat case_match; simplify_eq. bool_facts.
    split_and!; [apply dec_stable; tauto..|done|done]. }
  unfold List. intros Hr Hm. repeat case_match; simplify_eq/=;
    apply list_elem_of_fmap in Hm as (row & -> & Hin); simpl; rewrite cloneManifest_id;
    (eapply Hrow, subseteq_take, Hin || eapply Hrow, Hin).
Qed.

Lemma fmap_omap {A B C} (f : A → option B) (g : B → C) (l : list A) : g <$> omap f l = omap (λ x, g <$> f x) l.
Proof.
  induction l as [|x l IH]; [done|]. cbn [omap list_omap]. destruct (f x); cbn; [f_equal|]; exact IH.
Qed.

Lemma listed_NoDup s after :
  wf s → NoDup (row_seq <$> omap (list_row s t b after) (map_to_list (latest s))).
Proof.
  intros Hwf. rewrite fmap_omap. apply NoDup_omap; [|apply NoDup_map_to_list].
  intros [lk1 k1] [lk2 k2] n H1%elem_of_map_to_list H2%elem_of_map_to_list Hr1 Hr2.
  apply (wf_latest _ Hwf) in H1 as (<- & n1 & Hn1 & _).
  apply (wf_latest _ Hwf) in H2 as (<- & n2 & Hn2 & _).
  assert (seq s !! k1 = Some n ∧ seq s !! k2 = Some n) as [Hk1 Hk2].
  { unfold list_row in Hr1, Hr2. rewrite Hn1 in Hr1. rewrite Hn2 in Hr2.
    unfold row_seq in *. repeat case_match; simplify_eq/=. done. }
  by rewrite (wf_inj _ Hwf _ _ _ Hk1 Hk2).
Qed.

Lemma rows_sorted s after : wf s → StronglySorted (key_lt row_seq Z.ltb) (list_rows s t b after).
Proof. intros Hwf. by apply (sort_slice_sorted row_seq Z.ltb), listed_NoDup. Qed.

(** A later cursor shows a suffix of the rows. *)
Lemma rows_filter s after next :
  wf s → after ≤ next →
  list_rows s t b next = filter (λ r, next < row_seq r) (list_rows s t b after).
Proof.
  intros Hwf Hle. unfold list_rows.
  rewrite <- (sort_slice_filter row_seq Z.ltb) by by apply listed_NoDup. f_equal.
  induction (map_to_list (latest s)) as [|[lk mk] l IH]; [done|].
  simpl. case_bool_decide; [done|].
  destruct (Z.leb_spec (default 0 (seq s !! mk)) next), (Z.leb_spec (default 0 (seq s !! mk)) after);
    try lia; try done; destruct (byKey s !! mk); try done.
  - rewrite filter_cons_False; [done|]. unfold row_seq. simpl. lia.
  - rewrite filter_cons_True; [by f_equal|]. unfold row_seq. simpl. lia.
Qed.

Lemma rows_next s after n r :
  wf s → list_rows s t b after !! n = Some r →
  after < row_seq r ∧ list_rows s t b (row_seq r) = drop (S n) (list_rows s t b after).
Proof.
  intros Hwf Hr. destruct r as [[i k] m].
  assert (after < i) as Hlt.
  { apply list_elem_of_lookup_2, (listed_elem s after i k m Hwf) in Hr. naive_solver. }
  split; [done|].
  rewrite <- (filter_after_drop row_seq Z.ltb _ n (i, k, m)) by (done || by apply rows_sorted).
  rewrite (rows_filter s after) by (done || (unfold row_seq; simpl; lia)).
  apply list_filter_iff. intros r'. unfold key_lt. by rewrite Z.ltb_lt.
Qed.

(** A page and the listing that remains after it. *)
Lemma List_page s cursor after limit :
  wf s → cursor_at cursor after →
  ∃ page rest r, List s t b cursor limit = Ok r ∧ lr_Manifests r = row_manifest <$> page ∧
    list_rows s t b after = page ++ rest ∧
    (lr_NextCursor r = "" ∧ rest = [] ∨
     lr_NextCursor r ≠ "" ∧ page ≠ [] ∧
       ∃ next, after < next ∧ cursor_at (lr_NextCursor r) next ∧ rest = list_rows s t b next).
Proof.
  intros Hwf [Ha Hc]. unfold List. rewrite Hc. set (R := list_rows s t b after) in *.
  rewrite !(list_fmap_ext (cloneManifest ∘ row_manifest) row_manifest)
    by (intros; apply cloneManifest_id).
  set (lim := if limit <=? 0 then 1000 else limit).
  assert (0 < lim) as Hlim by (unfold lim; destruct (Z.leb_spec limit 0); lia).
  destruct (Z.ltb_spec lim (Z.of_nat (length R))) as [Hlt|Hge].
  2: { exists R, [], (mkListResult (row_manifest <$> R) ""). rewrite app_nil_r. split_and!; try done. by left. }
  rewrite last_take_pos by lia.
  destruct (lookup_lt_is_Some_2 R (Nat.pred (Z.to_nat lim))) as [r Hr]; [lia|].
  destruct (rows_next s after _ r Hwf Hr) as [Hnext Hrest].
  destruct r as [[i k] m].
  assert (is_uint64 i) as Hu.
  { apply list_elem_of_lookup_2, (listed_elem s after i k m Hwf) in Hr as (_ & _ & _ & Hi & _).
    pose proof (wf_order _ Hwf) as [??]. apply (wf_range _ Hwf) in Hi. unfold is_uint64. lia. }
  eexists (take (Z.to_nat lim) R), (drop (Z.to_nat lim) R), _. split_and!; [done|done|by rewrite take_drop|].
  right. rewrite Hr. simpl. split_and!; [apply FormatUint_nonempty | |].
  - destruct (Z.to_nat lim) eqn:?, R; simpl in *; try done; lia.
  - exists i. split_and!; [done| |].
    + split; [unfold row_seq in *; simpl in *; lia|].
      rewrite bool_decide_eq_false_2 by apply FormatUint_nonempty. by apply ParseUint_FormatUint.
    + unfold row_seq in Hrest at 1. simpl in Hrest. by rewrite Hrest, Nat.succ_pred by lia.
Qed.

(** ** The work left in a listing

    Every manifest a listing will show has a weight, at least one. A worker that
    handles a manifest may write the versions of that object again, but only
    with a smaller weight; then the weight of the rest of the listing falls with
    every page although the rows it wrote will be listed again. *)

Context (φ : ObjectManifest → nat).

Definition weight (s : Store) (after : Z) : nat := sum_list_with (φ ∘ row_manifest) (list_rows s t b after).

(** The worker wrote at most [c] versions of the object [lk], none heavier than
    [n], and may have deleted some. *)
Record touched (lk : latestKey) (n : nat) (c : Z) (s s' : Store) : Prop := {
  touched_wf : wf s → order s + c < 2 ^ 64 → wf s';
  touched_order : wf s → order s + c < 2 ^ 64 → order s ≤ order s' ≤ order s + c;
  touched_latest : delete lk (latest s') = delete lk (latest s);
  touched_other k : latest_of k ≠ lk → byKey s' !! k = byKey s !! k ∧ seq s' !! k = seq s !! k;
  touched_row k m : latest s' !! lk = Some k → byKey s' !! k = Some m →
    (latest s !! lk = Some k ∧ byKey s !! k = Some m ∧ seq s' !! k = seq s !! k) ∨ (φ m ≤ n)%nat
}.

Lemma touched_refl lk n s : touched lk n 0 s s.
Proof. split; try done; [lia|]. intros. by left. Qed.

Lemma touched_trans lk n c1 c2 s1 s2 s3 :
  0 ≤ c1 → 0 ≤ c2 →
  touched lk n c1 s1 s2 → touched lk n c2 s2 s3 → touched lk n (c1 + c2) s1 s3.
Proof.
  intros ?? [Hw1 Ho1 Hl1 Hk1 Hr1] [Hw2 Ho2 Hl2 Hk2 Hr2]. split.
  - intros Hwf ?. pose proof (Ho1 Hwf). apply Hw2; [apply Hw1; [done|lia]|lia].
  - intros Hwf ?. pose proof (Ho1 Hwf). pose proof (Ho2 (Hw1 Hwf ltac:(lia))). lia.
  - congruence.
  - intros k Hk. destruct (Hk1 k Hk), (Hk2 k Hk). split; congruence.
  - intros k m Hk Hm. destruct (Hr2 k m Hk Hm) as [(Hk' & Hm' & Hs')|]; [|by right].
    destruct (Hr1 k m Hk' Hm') as [(?&?&?)|]; [|by right]. left. split_and!; congruence.
Qed.

Lemma touched_le lk n c c' s s' : c ≤ c' → touched lk n c s s' → touched lk n c' s s'.
Proof.
  intros ? [Hw Ho Hl Hk Hr]. split; try done.
  - intros. apply Hw; [done|lia].
  - intros. specialize (Ho ltac:(done) ltac:(lia)). lia.
Qed.

Lemma Put_touched k m n s : (φ m ≤ n)%nat → touched (latest_of k) n 1 s (Put k m s).
Proof.
  intros Hn. split.
  - intros. by apply Put_wf.
  - intros. rewrite Put_order by done. lia.
  - simpl. by rewrite delete_insert_eq.
  - intros k' Hk'. simpl. assert (k ≠ k') by congruence. by rewrite !lookup_insert_ne.
  - simpl. intros k' m'. rewrite lookup_insert_eq. intros ?; simplify_eq.
    rewrite lookup_insert_eq, cloneManifest_id. intros; simplify_eq. by right.
Qed.

Lemma Delete_touched k n s s' : wf s → Delete k s = Ok s' → touched (latest_of k) n 0 s s'.
Proof.
  intros Hwf0 Hd. pose proof (Delete_wf k s s') as Hwf'. revert Hd Hwf'. unfold Delete.
  destruct (target k s) as [k'|] eqn:Ht; [|done]. destruct (byKey s !! k') eqn:Hk'; [|done].
  intros [= <-] Hwf'. pose proof (target_latest_of k k' s Hwf0 Ht) as Hof. split; simpl.
  - intros Hwf _. by apply Hwf'.
  - lia.
  - case_bool_decide; [by rewrite delete_delete_eq|done].
  - intros k2 Hk2. assert (k' ≠ k2) by congruence. by rewrite !lookup_delete_ne.
  - intros k2 m Hk2 [Hne Hm]%lookup_delete_Some. left. case_bool_decide as Hl.
    + by rewrite lookup_delete_eq in Hk2.
    + split_and!; [done|done|]. by rewrite lookup_delete_ne.
Qed.

(** The weight of the rows an object contributes, the rest of them apart. *)
Definition row_weight (s : Store) (after : Z) (e : latestKey * ManifestKey) : nat :=
  default 0%nat (φ ∘ row_manifest <$> list_row s t b after e).

Lemma weight_latest s after : weight s after = sum_list_with (row_weight s after) (map_to_list (latest s)).
Proof.
  unfold weight, list_rows. rewrite (sort_slice_perm row_seq Z.ltb).
  induction (map_to_list (latest s)) as [|e l IH]; [done|].
  cbn [omap list_omap sum_list_with]. rewrite <- IH. unfold row_weight.
  by destruct (list_row s t b after e).
Qed.

Lemma weight_split lk s after :
  weight s after = (default 0%nat ((λ k, row_weight s after (lk, k)) <$> latest s !! lk) +
    sum_list_with (row_weight s after) (map_to_list (delete lk (latest s))))%nat.
Proof.
  rewrite weight_latest. destruct (latest s !! lk) as [k|] eqn:Hk; simpl.
  - by rewrite <- (map_to_list_delete (latest s) lk k) by done.
  - by rewrite delete_id.
Qed.

Lemma weight_touched lk n c s s' after :
  wf s → wf s' → touched lk n c s s' → (weight s' after ≤ weight s after + n)%nat.
Proof.
  intros Hwf Hwf' [_ _ Hl Hk Hr]. rewrite (weight_split lk s), (weight_split lk s'), Hl.
  assert (sum_list_with (row_weight s' after) (map_to_list (delete lk (latest s))) =
          sum_list_with (row_weight s after) (map_to_list (delete lk (latest s)))) as ->.
  { assert (∀ e, e ∈ map_to_list (delete lk (latest s)) → row_weight s' after e = row_weight s after e) as He.
    { intros [lk' k'] [Hne Hk']%elem_of_map_to_list%lookup_delete_Some.
      apply (wf_latest _ Hwf) in Hk' as [<- _].
      destruct (Hk k') as [Hb Hs]; [congruence|]. unfold row_weight, list_row. by rewrite Hb, Hs. }
    induction (map_to_list (delete lk (latest s))) as [|e l IH]; [done|]. simpl.
    rewrite He, IH; [done| |by constructor]. intros; apply He; by constructor. }
  destruct (latest s' !! lk) as [k'|] eqn:Hk'; simpl; [|lia].
  unfold row_weight at 1, list_row. destruct (bool_decide _) eqn:Htb; simpl; [lia|].
  destruct (Z.leb_spec (default 0 (seq s' !! k')) after) as [|Hlt]; simpl; [lia|].
  destruct (byKey s' !! k') as [m|] eqn:Hm; simpl; [|lia]. unfold row_manifest. simpl.
  destruct (Hr k' m eq_refl Hm) as [(Hk2 & Hm2 & Hs2)|]; [|lia].
  rewrite Hk2. simpl. unfold row_weight, list_row. rewrite Htb, <- Hs2, Hm2.
  rewrite (proj2 (Z.leb_gt _ _)) by done. unfold row_manifest. simpl. lia.
Qed.

Lemma weight_stored n s after :
  (∀ k m, byKey s !! k = Some m → φ m ≤ n)%nat → (weight s after ≤ n * size (latest s))%nat.
Proof.
  intros Hn. rewrite weight_latest, <- length_map_to_list.
  induction (map_to_list (latest s)) as [|[lk k] l IH]; cbn [sum_list_with length]; [lia|].
  assert (row_weight s after (lk, k) ≤ n)%nat; [|lia].
  unfold row_weight, list_row. repeat case_match; simpl; try lia. unfold row_manifest. simpl. eauto.
Qed.

Lemma weight_le n s after : (∀ m, φ m ≤ n)%nat → (weight s after ≤ n * size (latest s))%nat.
Proof. intros Hn. apply weight_stored. intros; apply Hn. Qed.

Lemma weight_ge s after : (∀ m, 1 ≤ φ m)%nat → (length (list_rows s t b after) ≤ weight s after)%nat.
Proof.
  intros Hpos. unfold weight. induction (list_rows s t b after) as [|r l IH]; cbn [length sum_list_with]; [lia|].
  assert (1 ≤ (φ ∘ row_manifest) r)%nat by apply Hpos. lia.
Qed.

(** The manifests of a page were handled one after another. *)
Inductive handled (c : Z) : list ObjectManifest → Store → Store → Prop :=
| handled_nil s : handled c [] s s
| handled_cons m ms lk n s1 s2 s3 :
    touched lk n c s1 s2 → (n < φ m)%nat → handled c ms s2 s3 → handled c (m :: ms) s1 s3.

Lemma handled_weight c ms s s' after :
  0 ≤ c → wf s → order s + c * Z.of_nat (length ms) < 2 ^ 64 → handled c ms s s' →
  wf s' ∧ order s ≤ order s' ≤ order s + c * Z.of_nat (length ms) ∧
  (weight s' after + length ms ≤ weight s after + sum_list_with φ ms)%nat.
Proof.
  intros Hc Hwf Hroom H. revert Hwf Hroom.
  induction H as [s|m ms lk n s1 s2 s3 Ht Hn _ IH]; intros Hwf Hroom; simpl in *.
  { split_and!; [done|lia..]. }
  assert (c * Z.of_nat (S (length ms)) = c + c * Z.of_nat (length ms)) as He by nia.
  rewrite He in *. assert (0 ≤ c * Z.of_nat (length ms)) by nia.
  destruct (touched_order _ _ _ _ _ Ht Hwf ltac:(lia)) as [Ho1 Ho2].
  pose proof (touched_wf _ _ _ _ _ Ht Hwf ltac:(lia)) as Hwf2.
  pose proof (weight_touched lk n c s1 s2 after Hwf Hwf2 Ht).
  destruct (IH Hwf2 ltac:(lia)) as (Hwf3 & Ho3 & Hw3). split_and!; [done|lia..].
Qed.

(** A page that is not the last one makes the rest of the listing lighter, and
    the insertion counter does not outgrow the weight that was paid. *)
Lemma page_weight c page rest next after s s' :
  0 ≤ c → wf s → list_rows s t b after = page ++ rest → rest = list_rows s t b next → page ≠ [] →
  handled c (row_manifest <$> page) s s' →
  (∀ m, 1 ≤ φ m)%nat → order s + c * Z.of_nat (weight s after) < 2 ^ 64 →
  wf s' ∧ (weight s' next < weight s after)%nat ∧
  order s' + c * Z.of_nat (weight s' next) ≤ order s + c * Z.of_nat (weight s after).
Proof.
  intros Hc Hwf Hrows -> Hne Hh Hpos Hroom.
  assert (weight s after = sum_list_with φ (row_manifest <$> page) + weight s next)%nat as Hw.
  { unfold weight. rewrite Hrows, sum_list_with_app. f_equal.
    clear. induction page as [|r page IH]; [done|]. rewrite fmap_cons. cbn [sum_list_with]. by rewrite <- IH. }
  assert (length page ≤ sum_list_with φ (row_manifest <$> page))%nat as Hlen.
  { clear -Hpos. induction page as [|r page IH]; [simpl; lia|]. rewrite fmap_cons. cbn [sum_list_with length]. specialize (Hpos (row_manifest r)). lia. }
  assert (0 < length page)%nat by (destruct page; simpl; [done|lia]).
  assert (c * Z.of_nat (length page) ≤ c * Z.of_nat (weight s after)) by nia.
  destruct (handled_weight c (row_manifest <$> page) s s' next) as (Hwf' & Ho & Hle);
    [done|done|rewrite length_fmap; lia|done|]. rewrite length_fmap in *.
  split_and!; [done|lia|].
  assert (Z.of_nat (weight s' next) + Z.of_nat (length page) ≤ Z.of_nat (weight s after)) by lia. nia.
Qed.

End paging.
End Paging.
