(* ===== verification/LifecycleRules.v ===== *)
(** * Lifecycle rules (metadata/lifecycle/lifecycle.go)

    The rules of a bucket, their validation, the filter and the moments at which
    they apply. Times are nanoseconds; calendar arithmetic is that of
    [time.AddDate], whose seconds wrap at 64 bits. *)

From S2P Require Import Prelude GoStrings Manifest ObjectLock.
Local Open Scope Z_scope.

Definition maxRules : nat := 1000.
Definition StatusEnabled : string := "Enabled".
Definition StatusDisabled : string := "Disabled".

Definition validStorageClasses : list string :=
  ["STANDARD_IA"; "ONEZONE_IA"; "INTELLIGENT_TIERING"; "GLACIER"; "GLACIER_IR"; "DEEP_ARCHIVE"].

Record Filter := mkFilter {
  fl_Prefix : string;
  fl_Tags : gmap string string;
  fl_ObjectSizeGreaterThan : option Z;
  fl_ObjectSizeLessThan : option Z
}.

Definition Filter_Empty (f : Filter) : bool :=
  bool_decide (fl_Prefix f = "") && bool_decide (fl_Tags f = ∅)
  && bool_decide (fl_ObjectSizeGreaterThan f = None) && bool_decide (fl_ObjectSizeLessThan f = None).

Record Expiration := mkExpiration {
  ex_Days : Z;
  ex_Date : Z;
  ex_ExpiredObjectDeleteMarker : bool
}.

Record Transition := mkTransition {
  tr_Days : Z;
  tr_Date : Z;
  tr_StorageClass : string
}.

Record Rule := mkRule {
  rl_ID : string;
  rl_Status : string;
  rl_Filter : Filter;
  rl_Expiration : option Expiration;
  rl_Transitions : list Transition;
  rl_AbortIncompleteMultipartUpload : option Z    (* DaysAfterInitiation *)
}.

Definition Enabled (r : Rule) : bool := bool_decide (rl_Status r = StatusEnabled).

Abbreviation Config := (list Rule).

(** ** Validation *)

Inductive lifecycle_error :=
| NoRules
| TooManyRules
| BadStatus
| IDTooLong
| EmptyTagKey
| NegativeGreaterThan
| LessThanNotPositive
| EmptySizeRange
| NoAction
| ExpirationUnset
| ExpirationAmbiguous
| ExpirationNegative
| StorageClassRequired
| StorageClassInvalid
| TransitionDaysOrDate
| TransitionNegative
| AbortNotPositive
| AbortWithTags
| DuplicateRuleID.

(** The first error of a sequence of checks. *)
Definition orElse {E} (a b : option E) : option E := match a with Some e => Some e | None => b end.
Definition check {E} (bad : bool) (e : E) : option E := if bad then Some e else None.

Definition Filter_valid (f : Filter) : option lifecycle_error :=
  orElse (check (bool_decide (is_Some (fl_Tags f !! ""))) EmptyTagKey)
  (orElse (match fl_ObjectSizeGreaterThan f with Some g => check (g <? 0) NegativeGreaterThan | None => None end)
  (orElse (match fl_ObjectSizeLessThan f with Some l => check (l <? 1) LessThanNotPositive | None => None end)
     (match fl_ObjectSizeGreaterThan f, fl_ObjectSizeLessThan f with
      | Some g, Some l => check (l <=? g) EmptySizeRange
      | _, _ => None
      end))).

Definition Expiration_valid (e : Expiration) : option lifecycle_error :=
  let count (c : bool) := if c then 1 else 0 in
  let set := count (negb (ex_Days e =? 0)) + count (negb (IsZero (ex_Date e)))
             + count (ex_ExpiredObjectDeleteMarker e) in
  if set =? 0 then Some ExpirationUnset
  else if 1 <? set then Some ExpirationAmbiguous
  else if ex_Days e <? 0 then Some ExpirationNegative
  else None.

Definition Transition_valid (t : Transition) : option lifecycle_error :=
  if bool_decide (tr_StorageClass t = "") then Some StorageClassRequired
  else if negb (bool_decide (tr_StorageClass t ∈ validStorageClasses)) then Some StorageClassInvalid
  else if Bool.eqb (negb (tr_Days t =? 0)) (negb (IsZero (tr_Date t))) then Some TransitionDaysOrDate
  else if tr_Days t <? 0 then Some TransitionNegative
  else None.

Fixpoint first_error {A E} (valid : A → option E) (l : list A) : option E :=
  match l with [] => None | x :: l => orElse (valid x) (first_error valid l) end.

Definition Rule_valid (r : Rule) : option lifecycle_error :=
  if negb (bool_decide (rl_Status r = StatusEnabled)) && negb (bool_decide (rl_Status r = StatusDisabled))
  then Some BadStatus
  else if (255 <? String.length (rl_ID r))%nat then Some IDTooLong
  else
    orElse (Filter_valid (rl_Filter r))
    (orElse (match rl_Expiration r, rl_Transitions r, rl_AbortIncompleteMultipartUpload r with
             | None, [], None => Some NoAction
             | _, _, _ => None
             end)
    (orElse (match rl_Expiration r with Some e => Expiration_valid e | None => None end)
    (orElse (first_error Transition_valid (rl_Transitions r))
       (match rl_AbortIncompleteMultipartUpload r with
        | None => None
        | Some days =>
            if days <=? 0 then Some AbortNotPositive
            else check (negb (bool_decide (fl_Tags (rl_Filter r) = ∅))) AbortWithTags
        end)))).

(** The loop of [Config.Valid] over the rules, with the ids seen so far. *)
Fixpoint rules_valid (seen : gset string) (rs : list Rule) : option lifecycle_error :=
  match rs with
  | [] => None
  | r :: rs =>
      match Rule_valid r with
      | Some e => Some e
      | None =>
          if bool_decide (rl_ID r = "") then rules_valid seen rs
          else if bool_decide (rl_ID r ∈ seen) then Some DuplicateRuleID
          else rules_valid ({[rl_ID r]} ∪ seen) rs
      end
  end.

(** [Config.Valid]; [None] is no error. *)
Definition Config_Valid (c : Config) : option lifecycle_error :=
  if bool_decide (c = []) then Some NoRules
  else if (maxRules <? length c)%nat then Some TooManyRules
  else rules_valid ∅ c.

(** ** Matching and expiry *)

(** [Rule.Matches]: a tag the object does not have reads as the empty string. *)
Definition Matches (r : Rule) (key : string) (tags : gmap string string) (size : Z) : bool :=
  let f := rl_Filter r in
  if negb (bool_decide (fl_Prefix f = "")) && negb (HasPrefix key (fl_Prefix f)) then false
  else if negb (forallb (λ kv, bool_decide (default "" (tags !! kv.1) = kv.2)) (map_to_list (fl_Tags f)))
  then false
  else if match fl_ObjectSizeGreaterThan f with Some g => size <=? g | None => false end then false
  else if match fl_ObjectSizeLessThan f with Some l => l <=? size | None => false end then false
  else true.

(** [time.Date(t.Year(), t.Month(), t.Day(), 0, 0, 0, 0, time.UTC)] *)
Definition midnight_of (t : Z) : Z := t / day_ns * day_ns.

Definition ceilToUTCMidnight (t : Z) : Z :=
  let midnight := midnight_of t in
  if t =? midnight then midnight else AddDays midnight 1.

(** [Rule.ExpiresAt]; [None] is the answer [false]. *)
Definition ExpiresAt (r : Rule) (createdAt : Z) : option Z :=
  match rl_Expiration r with
  | None => None
  | Some e =>
      if ex_ExpiredObjectDeleteMarker e then None
      else if negb (IsZero (ex_Date e)) then Some (ex_Date e)
      else if (ex_Days e <=? 0) || IsZero createdAt then None
      else Some (ceilToUTCMidnight (AddDays createdAt (ex_Days e)))
  end.

Definition AbortStaleBefore (r : Rule) (now : Z) : option Z :=
  match rl_AbortIncompleteMultipartUpload r with
  | None => None
  | Some days => if days <=? 0 then None else Some (AddDays now (- days))
  end.

(** ** When objects expire *)

Lemma check_None {E} bad (e : E) : check bad e = None ↔ bad = false.
Proof. by destruct bad. Qed.

Lemma orElse_None {E} (a b : option E) : orElse a b = None ↔ a = None ∧ b = None.
Proof. destruct a; simpl; naive_solver. Qed.

(** The expiry of a validated rule is one of a positive number of days, a date,
    or the clean-up of delete markers. *)
Lemma Expiration_valid_None e :
  Expiration_valid e = None ↔
  (0 < ex_Days e ∧ IsZero (ex_Date e) = true ∧ ex_ExpiredObjectDeleteMarker e = false) ∨
  (ex_Days e = 0 ∧ IsZero (ex_Date e) = false ∧ ex_ExpiredObjectDeleteMarker e = false) ∨
  (ex_Days e = 0 ∧ IsZero (ex_Date e) = true ∧ ex_ExpiredObjectDeleteMarker e = true).
Proof.
  unfold Expiration_valid.
  destruct (Z.eqb_spec (ex_Days e) 0) as [->|], (IsZero (ex_Date e)), (ex_ExpiredObjectDeleteMarker e);
    simpl; try (naive_solver lia);
    destruct (Z.ltb_spec (ex_Days e) 0); naive_solver lia.
Qed.

Lemma midnight_bounds t : midnight_of t ≤ t < midnight_of t + day_ns.
Proof.
  unfold midnight_of. pose proof (Z.div_mod t day_ns). pose proof (Z.mod_pos_bound t day_ns).
  unfold day_ns in *. lia.
Qed.

Lemma ceil_bounds t :
  in_time_range t → in_time_range (t + day_ns) →
  t ≤ ceilToUTCMidnight t < t + day_ns ∧ ceilToUTCMidnight t mod day_ns = 0.
Proof.
  intros Ht Hd. pose proof (midnight_bounds t) as Hm. unfold ceilToUTCMidnight.
  destruct (Z.eqb_spec t (midnight_of t)) as [He|Hne].
  - split; [unfold day_ns in *; lia|]. unfold midnight_of. apply Z_mod_mult.
  - unfold AddDays. rewrite wrap_time_id.
    + split; [lia|]. unfold midnight_of.
      replace (t / day_ns * day_ns + 1 * day_ns) with ((t / day_ns + 1) * day_ns) by lia. apply Z_mod_mult.
    + apply (in_time_range_le t (t + day_ns)); [done|done|lia].
Qed.

(** An object expires under a rule of [Days] days at the first midnight that
    is not before its age reaches that many days: never early, and less than a
    day late, as long as the date can be represented. *)
Theorem expiry_moment r e created :
  rl_Expiration r = Some e → Expiration_valid e = None → 0 < ex_Days e →
  IsZero created = false → in_time_range created → in_time_range (created + (ex_Days e + 1) * day_ns) →
  ∃ at_, ExpiresAt r created = Some at_ ∧
    created + ex_Days e * day_ns ≤ at_ < created + (ex_Days e + 1) * day_ns ∧ at_ mod day_ns = 0.
Proof.
  intros Hr He Hd Hz Hc Hrange. apply Expiration_valid_None in He as [(_ & Hdate & Hm)|[(?&_)|(?&_)]]; [|lia..].
  unfold ExpiresAt. rewrite Hr, Hm, Hdate. simpl.
  rewrite (proj2 (Z.leb_gt _ _) Hd), Hz. simpl. eexists. split; [done|].
  assert (in_time_range (created + ex_Days e * day_ns)) as Hmid.
  { eapply in_time_range_le; [exact Hc|exact Hrange|]. unfold day_ns. lia. }
  unfold AddDays. rewrite wrap_time_id by done.
  destruct (ceil_bounds (created + ex_Days e * day_ns)) as [? ?]; [done| |split; [lia|done]].
  eapply eq_ind; [exact Hrange|lia].
Qed.

Definition ex_rule (days : Z) : Rule :=
  mkRule "" StatusEnabled (mkFilter "" ∅ None None) (Some (mkExpiration days zero_time false)) [] None.

Lemma expiry_moment_witness :
  ∃ at_, ExpiresAt (ex_rule 30) 1700000000000000000 = Some at_ ∧
    1700000000000000000 + 30 * day_ns ≤ at_ < 1700000000000000000 + (30 + 1) * day_ns ∧ at_ mod day_ns = 0.
Proof.
  apply (expiry_moment (ex_rule 30) (mkExpiration 30 zero_time false)); try reflexivity;
    unfold in_time_range; vm_compute; split; congruence.
Defined.

(** A rule with a very large number of days, which passes validation, does
    not keep objects forever: the expiry date wraps around to before the moment
    the object was created, so the next sweep expires every object of the bucket. *)
Theorem huge_expiration_is_immediate days created :
  106751991167301 ≤ days ≤ 213503982334600 → 0 ≤ created ≤ 253402300799 * 1000000000 →
  Config_Valid [ex_rule days] = None ∧
  ∃ at_, ExpiresAt (ex_rule days) created = Some at_ ∧ at_ < created.
Proof.
  intros Hd Hc. split.
  { cbv [Config_Valid rules_valid Rule_valid ex_rule]. simpl.
    rewrite (proj2 (Expiration_valid_None (mkExpiration days zero_time false)));
      [done|left; simpl; split_and!; [lia|done..]]. }
  set (past := created + days * day_ns - 2 ^ 64 * 1000000000).
  assert (AddDays created days = past) as Hpast.
  { unfold AddDays, wrap_time, past, wrap64.
    assert ((created + days * day_ns - zero_time) / 1000000000 =
            (created - zero_time) / 1000000000 + days * 86400) as ->.
    { replace (created + days * day_ns - zero_time) with ((created - zero_time) + days * 86400 * 1000000000)
        by (unfold day_ns; lia). by rewrite Z.div_add. }
    assert ((created + days * day_ns - zero_time) mod 1000000000 = (created - zero_time) mod 1000000000) as ->.
    { replace (created + days * day_ns - zero_time) with ((created - zero_time) + days * 86400 * 1000000000)
        by (unfold day_ns; lia). by rewrite Z_mod_plus_full. }
    pose proof (Z.div_mod (created - zero_time) 1000000000 ltac:(lia)) as Hdm.
    pose proof (Z.mod_pos_bound (created - zero_time) 1000000000 ltac:(lia)) as Hmod.
    set (S := (created - zero_time) / 1000000000) in *.
    assert (62135596800 ≤ S ≤ 315537897599) as HS by (unfold zero_time in *; lia).
    replace (S + days * 86400 + 2 ^ 63) with ((S + days * 86400 - 2 ^ 63) + 1 * 2 ^ 64) by lia.
    rewrite Z_mod_plus_full, Z.mod_small by lia. unfold day_ns. lia. }
  assert (in_time_range past ∧ in_time_range (past + day_ns)) as [Hr1 Hr2].
  { unfold in_time_range, past, day_ns, zero_time. Z.to_euclidean_division_equations. lia. }
  exists (ceilToUTCMidnight past). unfold ExpiresAt, ex_rule. simpl.
  rewrite (proj2 (Z.leb_gt _ _)) by lia. rewrite Hpast.
  assert (IsZero created = false) as -> by (apply Z.eqb_neq; unfold zero_time; lia).
  split; [done|]. destruct (ceil_bounds past Hr1 Hr2) as [[_ Hlt] _]. unfold past, day_ns in *. lia.
Qed.

Lemma huge_expiration_is_immediate_witness :
  ∃ at_, ExpiresAt (ex_rule 110000000000000) 1700000000000000000 = Some at_ ∧ at_ < 1700000000000000000.
Proof. apply (huge_expiration_is_immediate 110000000000000 1700000000000000000); split; vm_compute; congruence. Defined.
