(* ===== verification/Lifecycle.v ===== *)
(** * The lifecycle evaluator (lifecycle/evaluator/evaluator.go)

    One pass over the buckets that have lifecycle rules: stale multipart uploads
    are aborted, and objects that are due are deleted or hidden behind a delete
    marker. The pass is a worker program; the answers of the bucket
    configuration store and the clock are inputs. Audit and billing events are
    left out. *)

From S2P Require Import Prelude Bytes GoStrings Manifest ManifestStore ContentIndex ObjectLock.
From S2P Require Import EncryptionPipeline Fabric MultipartStore Multipart Workers LifecycleRules.
Local Open Scope Z_scope.
Local Open Scope wprog_scope.

Module Evaluator.

Record LifecycleEntry := mkLifecycleEntry {
  le_TenantID : string;
  le_Bucket : string;
  le_Config : Config
}.

(** What the evaluator is wired with. *)
Class EvaluatorConfig := {
  hasUploads : bool;
  hasProviders : bool;
  isRegistered : string → bool;                   (* the backends of the provider map *)
  hasContentIndex : bool;
  PageSize : Z
}.

Record Stats := mkStats {
  st_BucketsScanned : Z;
  st_ObjectsScanned : Z;
  st_ObjectsExpired : Z;
  st_DeleteMarkersCreated : Z;
  st_DeleteMarkersRemoved : Z;
  st_UploadsAborted : Z;
  st_Skipped : Z;
  st_Errors : Z
}.

Definition zero_stats : Stats := mkStats 0 0 0 0 0 0 0 0.
Definition add_stats (a b : Stats) : Stats :=
  mkStats (st_BucketsScanned a + st_BucketsScanned b) (st_ObjectsScanned a + st_ObjectsScanned b)
    (st_ObjectsExpired a + st_ObjectsExpired b) (st_DeleteMarkersCreated a + st_DeleteMarkersCreated b)
    (st_DeleteMarkersRemoved a + st_DeleteMarkersRemoved b) (st_UploadsAborted a + st_UploadsAborted b)
    (st_Skipped a + st_Skipped b) (st_Errors a + st_Errors b).

(** The increments [stats.X++]. *)
Definition count_bucket := add_stats (mkStats 1 0 0 0 0 0 0 0).
Definition count_object := add_stats (mkStats 0 1 0 0 0 0 0 0).
Definition count_expired := add_stats (mkStats 0 0 1 0 0 0 0 0).
Definition count_marker := add_stats (mkStats 0 0 0 1 0 0 0 0).
Definition count_marker_removed := add_stats (mkStats 0 0 0 0 1 0 0 0).
Definition count_aborted := add_stats (mkStats 0 0 0 0 0 1 0 0).
Definition count_skipped := add_stats (mkStats 0 0 0 0 0 0 1 0).
Definition count_error := add_stats (mkStats 0 0 0 0 0 0 0 1).

Section evaluator.
Context {Ev : EvaluatorConfig}.

(** ** Reclaiming bytes *)

Definition objectLocked (m : ObjectManifest) (now : Z) : bool :=
  if m_LegalHold m then true else negb (IsZero (m_RetainUntil m)) && After (m_RetainUntil m) now.

Definition pieceBackends (ps : list Piece) : list (string * string) :=
  omap (λ p, if bool_decide (pc_PieceID p = "") then None else Some (pc_Backend p, pc_PieceID p)) ps.

Definition partsBackends (ps : list Part) : list (string * string) :=
  omap (λ p, if bool_decide (pt_PieceID p = "") then None else Some (pt_Backend p, pt_PieceID p)) ps.

Fixpoint delete_each (ps : list (string * string)) : wprog unit :=
  match ps with
  | [] => WRet tt
  | (backend, pieceID) :: ps =>
      if negb (isRegistered backend) then delete_each ps
      else _ <~ Shared (Base (PieceDelete backend pieceID));; delete_each ps
  end.

Definition deletePieces (ps : list (string * string)) : wprog unit :=
  if negb hasProviders then WRet tt else delete_each ps.

Definition reclaimPieces (tenantID : string) (m : ObjectManifest) : wprog unit :=
  if bool_decide (m_ContentHash m = "") || negb hasContentIndex
  then deletePieces (pieceBackends (m_Pieces m))
  else
    r <~ Shared (Base (IdxDecrement tenantID (m_ContentHash m)));;
    match r with
    | Err IdxNotFound => deletePieces (pieceBackends (m_Pieces m))
    | Err _ => WRet tt
    | Ok newCount =>
        if newCount =? 0 then
          d <~ Shared (Base (IdxDelete tenantID (m_ContentHash m)));;
          match d with
          | Ok _ => deletePieces (pieceBackends (m_Pieces m))
          | Err _ => WRet tt
          end
        else WRet tt
    end.

(** ** Stale uploads *)

Definition prefixMatches (prefix key : string) : bool :=
  bool_decide (prefix = "") || HasPrefix key prefix.

Fixpoint matchingAbortRule (rules : Config) (u : Upload) (now : Z) : option Rule :=
  match rules with
  | [] => None
  | r :: rules =>
      if negb (Enabled r) || bool_decide (rl_AbortIncompleteMultipartUpload r = None)
      then matchingAbortRule rules u now
      else match AbortStaleBefore r now with
           | None => matchingAbortRule rules u now
           | Some _ =>
               if negb (prefixMatches (fl_Prefix (rl_Filter r)) (up_ObjectKey u))
               then matchingAbortRule rules u now
               else Some r
           end
  end.

(** Whether the matching rule finds the upload stale. *)
Definition stale (entry : LifecycleEntry) (u : Upload) (now : Z) : bool :=
  match matchingAbortRule (le_Config entry) u now with
  | None => false
  | Some rule =>
      let cutoff := default zero_time (AbortStaleBefore rule now) in
      negb (IsZero (up_CreatedAt u) || After (up_CreatedAt u) cutoff)
  end.

Fixpoint abort_each (entry : LifecycleEntry) (us : list Upload) (now : Z) (stats : Stats) : wprog Stats :=
  match us with
  | [] => WRet stats
  | u :: us =>
      cancelled <~ CtxErr;;
      if cancelled : bool then WRet stats
      else if negb (stale entry u now) then abort_each entry us now stats
      else
        r <~ Shared (MpAbort (up_ID u) (up_TenantID u));;
        match r with
        | Err MpNotFound => abort_each entry us now stats
        | Err _ => abort_each entry us now (count_error stats)
        | Ok (_, parts) =>
            _ <- deletePieces (partsBackends parts);;;
            abort_each entry us now (count_aborted stats)
        end
  end.

Definition abortStaleUploads (entry : LifecycleEntry) (now : Z) (stats : Stats) : wprog Stats :=
  if negb hasUploads then WRet stats
  else us <~ MpList (le_TenantID entry) (le_Bucket entry);; abort_each entry us now stats.

(** ** Expiry *)

Definition entry_key (entry : LifecycleEntry) (m : ObjectManifest) (version : string) : ManifestKey :=
  mkManifestKey (le_TenantID entry) (le_Bucket entry) (m_ObjectKeyHash m) version.

(** The result is whether the marker was removed. *)
Definition removeExpiredDeleteMarker (entry : LifecycleEntry) (m : ObjectManifest) (stats : Stats)
    : wprog (bool * Stats) :=
  r <~ ManListVersions (le_TenantID entry) (le_Bucket entry) (m_ObjectKeyHash m);;
  match r with
  | Err _ => WRet (false, count_error stats)
  | Ok versions =>
      if negb (length versions =? 1)%nat then WRet (false, stats)
      else
        d <~ Shared (Base (ManDelete (entry_key entry m (m_VersionID m))));;
        match d with
        | Ok _ | Err ErrNotFound => WRet (true, count_marker_removed stats)
        | Err _ => WRet (false, count_error stats)
        end
  end.

Definition insertDeleteMarker (entry : LifecycleEntry) (m : ObjectManifest) (now : Z) (stats : Stats)
    : wprog Stats :=
  markerID <~ FreshVersionID;;
  let marker := delete_marker (le_TenantID entry) (le_Bucket entry) (m_ObjectKey m) (m_ObjectKeyHash m) markerID now in
  r <~ Shared (Base (ManPut (entry_key entry m markerID) marker));;
  match r with
  | Err _ => WRet (count_error stats)
  | Ok _ => WRet (count_marker stats)
  end.

Definition permanentlyDelete (entry : LifecycleEntry) (m : ObjectManifest) (stats : Stats) : wprog Stats :=
  r <~ Shared (Base (ManDelete (entry_key entry m (m_VersionID m))));;
  match r with
  | Err ErrNotFound => WRet stats
  | Err _ => WRet (count_error stats)
  | Ok _ =>
      _ <- reclaimPieces (le_TenantID entry) m;;;
      WRet (count_expired stats)
  end.

Fixpoint expire_rules (entry : LifecycleEntry) (m : ObjectManifest) (versioned : bool) (now : Z)
    (rules : Config) (stats : Stats) : wprog Stats :=
  match rules with
  | [] => WRet stats
  | r :: rules =>
      match rl_Expiration r with
      | None => expire_rules entry m versioned now rules stats
      | Some e =>
          if negb (Enabled r) then expire_rules entry m versioned now rules stats
          else if negb (Matches r (m_ObjectKey m) (m_Tags m) (m_ObjectSize m))
          then expire_rules entry m versioned now rules stats
          else if ex_ExpiredObjectDeleteMarker e then
            if negb (m_DeleteMarker m) then expire_rules entry m versioned now rules stats
            else
              res <- removeExpiredDeleteMarker entry m stats;;;
              let '(removed, stats) := res in
              if removed : bool then WRet stats else expire_rules entry m versioned now rules stats
          else
            match ExpiresAt r (m_CreatedAt m) with
            | None => expire_rules entry m versioned now rules stats
            | Some expiresAt =>
                if Before now expiresAt then expire_rules entry m versioned now rules stats
                else if m_DeleteMarker m then expire_rules entry m versioned now rules stats
                else if versioned then insertDeleteMarker entry m now stats
                else if objectLocked m now then WRet (count_skipped stats)
                else permanentlyDelete entry m stats
            end
      end
  end.

Definition expireOne (entry : LifecycleEntry) (m : ObjectManifest) (versioned : bool) (now : Z) (stats : Stats)
    : wprog Stats :=
  expire_rules entry m versioned now (le_Config entry) stats.

Fixpoint expire_page (entry : LifecycleEntry) (ms : list ObjectManifest) (versioned : bool) (now : Z)
    (stats : Stats) : wprog Stats :=
  match ms with
  | [] => WRet stats
  | m :: ms =>
      stats <- expireOne entry m versioned now (count_object stats);;;
      expire_page entry ms versioned now stats
  end.

(** The loop over the pages; [None] when [fuel] ran out before the last page. *)
Fixpoint expire_pages (fuel : nat) (entry : LifecycleEntry) (versioned : bool) (now : Z) (cursor : string)
    (stats : Stats) : wprog (option Stats) :=
  match fuel with
  | O => WRet None
  | S fuel =>
      cancelled <~ CtxErr;;
      if cancelled : bool then WRet (Some stats)
      else
        page <~ ManList (le_TenantID entry) (le_Bucket entry) cursor PageSize;;
        match page with
        | Err _ => WRet (Some (count_error stats))
        | Ok page =>
            stats <- expire_page entry (lr_Manifests page) versioned now stats;;;
            if bool_decide (lr_NextCursor page = "") then WRet (Some stats)
            else expire_pages fuel entry versioned now (lr_NextCursor page) stats
        end
  end.

(** [versioning] is the answer of GetVersioning. *)
Definition expireObjects (fuel : nat) (entry : LifecycleEntry) (versioning : result unit string) (now : Z)
    (stats : Stats) : wprog (option Stats) :=
  match versioning with
  | Err _ => WRet (Some (count_error stats))
  | Ok state => expire_pages fuel entry (bool_decide (state = "Enabled")) now "" stats
  end.

Definition evalBucket (fuel : nat) (entry : LifecycleEntry) (versioning : result unit string) (now : Z)
    (stats : Stats) : wprog (option Stats) :=
  stats <- abortStaleUploads entry now stats;;;
  expireObjects fuel entry versioning now stats.

Inductive run_error := SourceRequired | ListLifecycleFailed | ContextError.

(** The buckets, each with the answer of GetVersioning and the reading of the
    clock at its turn. *)
Fixpoint run_buckets (fuel : nat) (entries : list (LifecycleEntry * result unit string * Z)) (stats : Stats)
    : wprog (option (Stats * option run_error)) :=
  match entries with
  | [] => WRet (Some (stats, None))
  | (entry, versioning, now) :: entries =>
      cancelled <~ CtxErr;;
      if cancelled : bool then WRet (Some (stats, Some ContextError))
      else
        res <- evalBucket fuel entry versioning now (count_bucket stats);;;
        match res with
        | None => WRet None
        | Some stats => run_buckets fuel entries stats
        end
  end.

(** [Run]; [entries] is the answer of ListLifecycle, [None] when the evaluator
    has no configuration source or no manifest store. *)
Definition Run (fuel : nat) (entries : option (result unit (list (LifecycleEntry * result unit string * Z))))
    : wprog (option (Stats * option run_error)) :=
  match entries with
  | None => WRet (Some (zero_stats, Some SourceRequired))
  | Some (Err _) => WRet (Some (zero_stats, Some ListLifecycleFailed))
  | Some (Ok entries) => run_buckets fuel entries zero_stats
  end.

End evaluator.
End Evaluator.
