(* ===== verification/LifecyclePass.v ===== *)
(** * What a lifecycle pass does

    The effect of the evaluator on the manifests: a pass ends, whatever calls
    fail; it removes only versions that a rule made due, or markers with nothing
    behind them; and in a bucket without versioning it removes every current
    object that is due and not locked. *)

From S2P Require Import Prelude Bytes GoStrings Manifest ManifestStore ContentIndex ObjectLock.
From S2P Require Import EncryptionPipeline Fabric MultipartStore Multipart Workers LifecycleRules Lifecycle.
Local Open Scope Z_scope.

Module Pass.
Import Evaluator.

(** ** The effect of one manifest *)

Section effect.
Context {Ev : EvaluatorConfig} (put_result : string → string → bytes → PutResult).
Context (entry : LifecycleEntry).
Notation wwp := (wwp put_result).

Definition keeps (w w' : WWorld) : Prop := ww_store w' = ww_store w ∧ ww_mint w' = ww_mint w.

Lemma keeps_other {A} fault (c : mcall A) w :
  match c with Base (ManPut _ _) | Base (ManUpdate _ _) | Base (ManDelete _) => False | _ => True end →
  keeps w (do_shared put_result fault c w).2.
Proof. intros Hc. split; [by apply do_shared_other | apply do_shared_mint]. Qed.

Lemma keeps_trans w1 w2 w3 : keeps w1 w2 → keeps w2 w3 → keeps w1 w3.
Proof. intros [? ?] [? ?]. split; congruence. Qed.

Lemma delete_each_keeps may ps w : wwp may (delete_each ps) (λ _, keeps w) w.
Proof.
  revert w. induction ps as [|[backend id] ps IH]; intros w; simpl; [done|].
  destruct (isRegistered backend); simpl; [|apply IH]. intros fault _.
  eapply wwp_mono; [|apply IH]. intros ? w' Hw'. eapply keeps_trans; [|exact Hw'].
  by apply (keeps_other fault (Base (PieceDelete backend id))).
Qed.

Lemma deletePieces_keeps may ps w : wwp may (deletePieces ps) (λ _, keeps w) w.
Proof. unfold deletePieces. destruct hasProviders; [apply delete_each_keeps|done]. Qed.

Lemma reclaimPieces_keeps may t m w : wwp may (reclaimPieces t m) (λ _, keeps w) w.
Proof.
  unfold reclaimPieces. destruct (_ || _); [apply deletePieces_keeps|]. intros fault _. cbn [do_wcall].
  pose proof (keeps_other fault (Base (IdxDecrement t (m_ContentHash m))) w I) as Hk.
  destruct (do_shared _ _ _ w) as [r w1]. cbn [fst snd] in *.
  assert (∀ p : wprog unit, (∀ w, wwp may p (λ _, keeps w) w) → wwp may p (λ _, keeps w) w1) as Hgo.
  { intros p Hp. eapply wwp_mono; [|apply Hp]. intros ? w2 Hw2. by eapply keeps_trans. }
  destruct r as [newCount|[]]; try done; [|by apply Hgo; intros; apply deletePieces_keeps].
  destruct (newCount =? 0); [|done]. apply Hgo. clear. intros w fault _. cbn [do_wcall].
  pose proof (keeps_other fault (Base (IdxDelete t (m_ContentHash m))) w I) as Hk.
  destruct (do_shared _ _ _ w) as [r w1]. cbn [fst snd] in *. destruct r; [|done].
  eapply wwp_mono; [|apply deletePieces_keeps]. intros ? w2 Hw2. by eapply keeps_trans.
Qed.

(** The rules that make an object due, and those that clean up its marker. *)
Definition rule_applies (r : Rule) (m : ObjectManifest) : Prop :=
  r ∈ le_Config entry ∧ Enabled r = true ∧ Matches r (m_ObjectKey m) (m_Tags m) (m_ObjectSize m) = true.

Definition due (m : ObjectManifest) (now : Z) : Prop :=
  m_DeleteMarker m = false ∧
  ∃ r at_, rule_applies r m ∧ ExpiresAt r (m_CreatedAt m) = Some at_ ∧ at_ ≤ now.

Definition cleans_marker (m : ObjectManifest) : Prop :=
  m_DeleteMarker m = true ∧
  ∃ r e, rule_applies r m ∧ rl_Expiration r = Some e ∧ ex_ExpiredObjectDeleteMarker e = true.

(** What handling the manifest [m] does to the manifest store. *)
Inductive effect (m : ObjectManifest) (versioned : bool) (now : Z) (mint : nat → string)
    (s : Memory.Store) : Memory.Store → Prop :=
| no_effect : effect m versioned now mint s s
| marker_removed s' :
    cleans_marker m →
    length (Memory.ListVersions s (le_TenantID entry) (le_Bucket entry) (m_ObjectKeyHash m)) = 1%nat →
    Memory.Delete (entry_key entry m (m_VersionID m)) s = Ok s' →
    effect m versioned now mint s s'
| marker_inserted n :
    due m now → versioned = true →
    effect m versioned now mint s
      (Memory.Put (entry_key entry m (mint n))
         (delete_marker (le_TenantID entry) (le_Bucket entry) (m_ObjectKey m) (m_ObjectKeyHash m) (mint n) now) s)
| version_deleted s' :
    due m now → versioned = false → objectLocked m now = false →
    Memory.Delete (entry_key entry m (m_VersionID m)) s = Ok s' →
    effect m versioned now mint s s'.

Lemma permanentlyDelete_effect may m now stats w :
  due m now → objectLocked m now = false →
  wwp may (permanentlyDelete entry m stats)
    (λ _ w', effect m false now (ww_mint w) (ww_store w) (ww_store w') ∧ ww_mint w' = ww_mint w) w.
Proof.
  intros Hdue Hlock fault _. cbn [do_wcall do_shared]. destruct fault; cbn [fst snd].
  { split; [constructor|done]. }
  unfold store_write.
  destruct (Memory.Delete (entry_key entry m (m_VersionID m)) (ww_store w)) as [s'|[]] eqn:Hd; cbn [fst snd];
    try (split; [constructor|done]).
  apply wwp_bind. eapply wwp_mono; [|apply reclaimPieces_keeps]. intros ? w' [Hs Hm]. split; [|done].
  rewrite Hs. by apply version_deleted.
Qed.

Lemma insertDeleteMarker_effect may m now stats w :
  due m now →
  wwp may (insertDeleteMarker entry m now stats)
    (λ _ w', effect m true now (ww_mint w) (ww_store w) (ww_store w') ∧ ww_mint w' = ww_mint w) w.
Proof.
  intros Hdue fault _ fault' _. destruct fault'; simpl; (split; [|done]); [constructor|by apply marker_inserted].
Qed.

Lemma removeExpiredDeleteMarker_effect may m versioned now stats w :
  cleans_marker m →
  wwp may (removeExpiredDeleteMarker entry m stats)
    (λ r w', ww_mint w' = ww_mint w ∧ effect m versioned now (ww_mint w) (ww_store w) (ww_store w') ∧
       (r.1 = false → ww_store w' = ww_store w)) w.
Proof.
  intros Hc fault _. cbn [do_wcall]. destruct fault; cbn [fst snd]; [split_and!; [done|constructor|done]|].
  destruct (Nat.eqb_spec (length (Memory.ListVersions (ww_store w) (le_TenantID entry) (le_Bucket entry)
    (m_ObjectKeyHash m))) 1) as [Hone|]; simpl; [|split_and!; [done|constructor|done]].
  intros fault _. cbn [do_wcall do_shared]. destruct fault; cbn [fst snd]; [split_and!; [done|constructor|done]|].
  unfold store_write.
  destruct (Memory.Delete (entry_key entry m (m_VersionID m)) (ww_store w)) as [s'|[]] eqn:Hd; cbn [fst snd];
    split_and!; try done; first [by apply marker_removed | apply no_effect].
Qed.

Lemma expireOne_effect may m versioned now stats w :
  wwp may (expireOne entry m versioned now stats)
    (λ _ w', effect m versioned now (ww_mint w) (ww_store w) (ww_store w') ∧ ww_mint w' = ww_mint w) w.
Proof.
  unfold expireOne.
  assert (∀ rules, (∀ r, r ∈ rules → r ∈ le_Config entry) → ∀ stats w,
    wwp may (expire_rules entry m versioned now rules stats)
    (λ _ w', effect m versioned now (ww_mint w) (ww_store w) (ww_store w') ∧ ww_mint w' = ww_mint w) w) as Hall;
    [|by apply Hall].
  clear. induction rules as [|r rules IH]; intros Hin stats w; [by split; [constructor|]|].
  assert (∀ stats, wwp may (expire_rules entry m versioned now rules stats)
    (λ _ w', effect m versioned now (ww_mint w) (ww_store w) (ww_store w') ∧ ww_mint w' = ww_mint w) w) as Hskip.
  { intros stats'. apply IH. intros; apply Hin; by constructor. }
  cbn [expire_rules]. destruct (rl_Expiration r) as [e|] eqn:He; [|done].
  destruct (Enabled r) eqn:Hen; cbn [negb]; [|done].
  destruct (Matches r (m_ObjectKey m) (m_Tags m) (m_ObjectSize m)) eqn:Hmatch; cbn [negb]; [|done].
  assert (rule_applies r m) as Happ by (split_and!; [apply Hin; by constructor|done..]).
  destruct (ex_ExpiredObjectDeleteMarker e) eqn:Hmk.
  - destruct (m_DeleteMarker m) eqn:Hdm; cbn [negb]; [|done]. apply wwp_bind.
    eapply wwp_mono; [|apply (removeExpiredDeleteMarker_effect may m versioned now)].
    + intros [[] stats'] w' (Hm & Heff & Hsame); simpl; [done|]. cbn [fst] in Hsame.
      specialize (Hsame eq_refl). rewrite <- Hm, <- Hsame. apply IH. intros; apply Hin; by constructor.
    + split; [done|]. by exists r, e.
  - destruct (ExpiresAt r (m_CreatedAt m)) as [at_|] eqn:Hat; [|done].
    unfold Before. destruct (Z.ltb_spec now at_) as [|Hle]; [done|].
    destruct (m_DeleteMarker m) eqn:Hdm; [done|].
    assert (due m now) as Hdue by (split; [done|]; by exists r, at_).
    destruct versioned; [by apply insertDeleteMarker_effect|].
    destruct (objectLocked m now) eqn:Hlock; [by split; [constructor|]|].
    by apply permanentlyDelete_effect.
Qed.

(** The manifests of a page, one after another. *)
Inductive effects (versioned : bool) (now : Z) (mint : nat → string)
    : list ObjectManifest → Memory.Store → Memory.Store → Prop :=
| effects_nil s : effects versioned now mint [] s s
| effects_cons m ms s1 s2 s3 :
    effect m versioned now mint s1 s2 → effects versioned now mint ms s2 s3 →
    effects versioned now mint (m :: ms) s1 s3.

Lemma expire_page_effects may ms versioned now stats w :
  wwp may (expire_page entry ms versioned now stats)
    (λ _ w', effects versioned now (ww_mint w) ms (ww_store w) (ww_store w') ∧ ww_mint w' = ww_mint w) w.
Proof.
  revert stats w. induction ms as [|m ms IH]; intros stats w; cbn [expire_page]; [by split; [constructor|]|].
  apply wwp_bind. eapply wwp_mono; [|apply expireOne_effect]. intros stats' w1 [Heff Hm1].
  eapply wwp_mono; [|apply IH]. intros ? w2 [Heffs Hm2]. rewrite Hm1 in *. split; [|done].
  by econstructor.
Qed.

Lemma abort_each_keeps may us now stats w : wwp may (abort_each entry us now stats) (λ _, keeps w) w.
Proof.
  revert stats w. induction us as [|u us IH]; intros stats w; cbn [abort_each]; [done|].
  intros cancelled _. cbn [do_wcall fst snd]. destruct cancelled; [done|].
  destruct (stale entry u now); cbn [negb]; [|apply IH]. intros fault _. cbn [do_wcall].
  pose proof (keeps_other fault (MpAbort (up_ID u) (up_TenantID u)) w I) as Hk.
  destruct (do_shared _ _ _ w) as [r w1]. cbn [fst snd] in *.
  assert (∀ stats, wwp may (abort_each entry us now stats) (λ _, keeps w) w1) as Hgo.
  { intros stats'. eapply wwp_mono; [|apply IH]. intros ? w2 Hw2. by eapply keeps_trans. }
  destruct r as [[p parts]|[]]; try done. apply wwp_bind.
  eapply wwp_mono; [|apply deletePieces_keeps]. intros ? w2 Hw2.
  eapply wwp_mono; [|apply IH]. intros ? w3 Hw3. eapply keeps_trans; [|exact Hw3]. by eapply keeps_trans.
Qed.

Lemma abortStaleUploads_keeps may now stats w : wwp may (abortStaleUploads entry now stats) (λ _, keeps w) w.
Proof.
  unfold abortStaleUploads. destruct hasUploads; cbn [negb]; [|done].
  intros fault _. cbn [do_wcall fst snd]. apply abort_each_keeps.
Qed.

(** An invariant of the store that every page preserves holds after the pages. *)
Lemma expire_pages_inv may (I : Memory.Store → Prop) versioned now mint :
  (∀ s cursor r s', I s →
     Memory.List s (le_TenantID entry) (le_Bucket entry) cursor PageSize = Ok r →
     effects versioned now mint (lr_Manifests r) s s' → I s') →
  ∀ fuel cursor stats w, ww_mint w = mint → I (ww_store w) →
  wwp may (expire_pages fuel entry versioned now cursor stats)
    (λ _ w', I (ww_store w') ∧ ww_mint w' = mint) w.
Proof.
  intros Hpage. induction fuel as [|fuel IH]; intros cursor stats w Hmint HI; cbn [expire_pages]; [done|].
  intros cancelled _. cbn [do_wcall fst snd]. destruct cancelled; [done|]. intros fault _. cbn [do_wcall fst snd].
  destruct fault; [done|].
  destruct (Memory.List (ww_store w) (le_TenantID entry) (le_Bucket entry) cursor PageSize) as [r|] eqn:Hr; [|done].
  apply wwp_bind. eapply wwp_mono; [|apply expire_page_effects]. intros stats' w1 [Heffs Hm1].
  rewrite Hmint in *. assert (I (ww_store w1)) by by eapply Hpage.
  case_bool_decide; [done|]. by apply IH.
Qed.

End effect.

(** ** A pass over buckets *)

Section run.
Context {Ev : EvaluatorConfig} (put_result : string → string → bytes → PutResult).

(** An invariant that every bucket preserves holds after the pass. *)
Lemma run_buckets_inv may (I : Memory.Store → Prop) mint fuel :
  ∀ entries,
  (∀ entry state now, (entry, Ok state, now) ∈ entries → ∀ s cursor r s', I s →
     Memory.List s (le_TenantID entry) (le_Bucket entry) cursor PageSize = Ok r →
     effects entry (bool_decide (state = "Enabled")) now mint (lr_Manifests r) s s' → I s') →
  ∀ stats w, ww_mint w = mint → I (ww_store w) →
  wwp put_result may (run_buckets fuel entries stats) (λ _ w', I (ww_store w')) w.
Proof.
  induction entries as [|[[entry versioning] now] entries IH]; intros Hall stats w Hmint HI;
    cbn [run_buckets]; [done|].
  intros cancelled _. cbn [do_wcall fst snd]. destruct cancelled; [done|].
  apply wwp_bind, wwp_bind. eapply wwp_mono; [|apply abortStaleUploads_keeps].
  intros stats1 w1 [Hs1 Hm1].
  assert (wwp put_result may (expireObjects fuel entry versioning now stats1)
    (λ _ w', I (ww_store w') ∧ ww_mint w' = mint) w1) as Hexp.
  { unfold expireObjects. destruct versioning as [state|]; [|split; congruence].
    apply expire_pages_inv; [|congruence..]. intros s cursor r s'. eapply Hall. by left. }
  eapply wwp_mono; [|exact Hexp]. intros [stats2|] w2 [HI2 Hm2]; [|done].
  apply IH; [|done..]. intros entry' state' now' Hin. eapply Hall. by right.
Qed.

End run.

(** ** Only what is due is removed *)

Section justified.
Context (s0 : Memory.Store) (entries : list (LifecycleEntry * result unit string * Z)) (mint : nat → string).

Definition minted (k : ManifestKey) : Prop := ∃ n, mint n = k_VersionID k.

(** The version [m] at [k] may be removed by the pass: its bucket has no
    versioning, a rule has made it due and no lock is on it; or it is a delete
    marker that a rule cleans up and every other version of the object may be
    removed. *)
Inductive expirable (k : ManifestKey) (m : ObjectManifest) : Prop :=
| by_age entry state now :
    (entry, Ok state, now) ∈ entries → le_TenantID entry = k_TenantID k → le_Bucket entry = k_Bucket k →
    state ≠ "Enabled" → due entry m now → objectLocked m now = false → expirable k m
| sole_marker entry state now :
    (entry, Ok state, now) ∈ entries → le_TenantID entry = k_TenantID k → le_Bucket entry = k_Bucket k →
    cleans_marker entry m →
    (∀ k' m', Memory.byKey s0 !! k' = Some m' → latest_of k' = latest_of k → k' ≠ k →
       expirable k' m' ∨ minted k') →
    expirable k m.

(** Latest pointers and manifests carry the names of their keys. *)
Definition filed (s : Memory.Store) : Prop :=
  (∀ lk k, Memory.latest s !! lk = Some k → latest_of k = lk) ∧
  (∀ k m, Memory.byKey s !! k = Some m →
     m_ObjectKeyHash m = k_ObjectKeyHash k ∧ m_VersionID m = k_VersionID k ∧ k_VersionID k ≠ "").

Record justified (s : Memory.Store) : Prop := {
  js_filed : filed s;
  js_origin k m : Memory.byKey s !! k = Some m → Memory.byKey s0 !! k = Some m ∨ minted k;
  js_removed k m : Memory.byKey s0 !! k = Some m → Memory.byKey s !! k = Some m ∨ expirable k m ∨ minted k
}.

Lemma Delete_version k s s' :
  k_VersionID k ≠ "" → Memory.Delete k s = Ok s' →
  is_Some (Memory.byKey s !! k) ∧ Memory.byKey s' = delete k (Memory.byKey s) ∧
  (∀ lk k', Memory.latest s' !! lk = Some k' → Memory.latest s !! lk = Some k').
Proof.
  intros Hk. unfold Memory.Delete, Memory.target. rewrite bool_decide_eq_false_2 by done.
  destruct (Memory.byKey s !! k) eqn:He; [|done]. intros [= <-]. simpl. split_and!; [by eexists|done|].
  intros lk k'. case_bool_decide; [|done]. by intros [_ ?]%lookup_delete_Some.
Qed.

Lemma filed_Delete k s s' : k_VersionID k ≠ "" → Memory.Delete k s = Ok s' → filed s → filed s'.
Proof.
  intros Hk Hd [Hl Hf]. destruct (Delete_version k s s' Hk Hd) as (_ & Hb & Hlat). split.
  - intros lk k' Hk'. by apply Hl, Hlat.
  - intros k' m. rewrite Hb. intros [_ Hm]%lookup_delete_Some. by apply Hf.
Qed.

Lemma filed_Put k m s :
  m_ObjectKeyHash m = k_ObjectKeyHash k → m_VersionID m = k_VersionID k → k_VersionID k ≠ "" →
  filed s → filed (Memory.Put k m s).
Proof.
  intros Hh Hv Hne [Hl Hf]. split; simpl.
  - intros lk k' [[<- <-]|[_ Hk']]%lookup_insert_Some; [done|]. by apply Hl.
  - intros k' m' [[<- <-]|[_ Hm]]%lookup_insert_Some; [by rewrite Memory.cloneManifest_id|]. by apply Hf.
Qed.

(** One version in the answer of ListVersions: one key. *)
Lemma ListVersions_one s t b h k k' :
  length (Memory.ListVersions s t b h) = 1%nat →
  latest_of k = mkLatestKey t b h → latest_of k' = mkLatestKey t b h →
  is_Some (Memory.byKey s !! k) → is_Some (Memory.byKey s !! k') → k = k'.
Proof.
  unfold Memory.ListVersions. rewrite length_fmap, (sort_slice_perm (λ r, - Memory.row_seq r) Z.ltb).
  intros Hlen Hk Hk' [m Hm] [m' Hm'].
  assert (∀ k m, latest_of k = mkLatestKey t b h → Memory.byKey s !! k = Some m →
    (default 0 (Memory.seq s !! k), k, m) ∈
      omap (Memory.version_row s (mkLatestKey t b h)) (map_to_list (Memory.byKey s))) as Hin.
  { intros k2 m2 Hk2 Hm2. apply list_elem_of_omap. exists (k2, m2). rewrite elem_of_map_to_list.
    split; [done|]. unfold Memory.version_row. by rewrite bool_decide_eq_true_2. }
  destruct (omap _ _) as [|x [|? ?]]; try done.
  pose proof (Hin k m Hk Hm) as ?%list_elem_of_singleton. pose proof (Hin k' m' Hk' Hm') as ?%list_elem_of_singleton.
  congruence.
Qed.

(** The origin of a listed manifest, which outlives changes of the store. *)
Definition listed_version (entry : LifecycleEntry) (m : ObjectManifest) : Prop :=
  let k := entry_key entry m (m_VersionID m) in
  k_VersionID k ≠ "" ∧ (Memory.byKey s0 !! k = Some m ∨ minted k).

Lemma listed_origin entry s cursor limit r m :
  justified s → Memory.List s (le_TenantID entry) (le_Bucket entry) cursor limit = Ok r →
  m ∈ lr_Manifests r → listed_version entry m.
Proof.
  intros [[Hl Hf] Ho _] Hr Hm.
  destruct (Paging.List_key _ _ s cursor limit r m Hr Hm) as (lk & k & Ht & Hb & Hk & Hkm).
  destruct (Hf k m Hkm) as (Hh & Hv & Hne). apply Hl in Hk as <-. simpl in *.
  assert (entry_key entry m (m_VersionID m) = k) as He.
  { destruct k. unfold entry_key. simpl in *. congruence. }
  unfold listed_version. rewrite He. split; [done|]. by apply Ho.
Qed.

Hypothesis Hmint : ∀ n, mint n ≠ "".

Lemma justified_Delete k s s' m :
  k_VersionID k ≠ "" → (Memory.byKey s0 !! k = Some m ∨ minted k) → expirable k m →
  Memory.Delete k s = Ok s' → justified s → justified s'.
Proof using.
  intros Hk Hor Hexp Hd [Hf Ho Hj]. destruct (Delete_version k s s' Hk Hd) as (_ & Hb & Hlat). split.
  - by eapply filed_Delete.
  - intros k' m'. rewrite Hb. intros [_ Hm]%lookup_delete_Some. by apply Ho.
  - intros k' m' Hm'. rewrite Hb. destruct (decide (k = k')) as [<-|Hne].
    + right. destruct Hor as [Hor|]; [left|by right]. congruence.
    + rewrite lookup_delete_ne by done. by apply Hj.
Qed.

Lemma justified_effect entry state now m s s' :
  (entry, Ok state, now) ∈ entries → listed_version entry m →
  effect entry m (bool_decide (state = "Enabled")) now mint s s' → justified s → justified s'.
Proof using Hmint.
  intros Hin [Hne Hor] Heff Hjs. destruct Heff as [|s' Hc Hone Hd|n Hdue Hv|s' Hdue Hv Hlock Hd]; [done| | |].
  - eapply justified_Delete; [exact Hne|exact Hor| |exact Hd|exact Hjs].
    destruct (Delete_version _ _ _ Hne Hd) as (Hsome & _ & _).
    eapply (sole_marker _ _ entry state now); [done..|]. intros k' m' Hk' Hlk Hneq.
    destruct (js_removed _ Hjs k' m' Hk') as [Hs|]; [|done]. exfalso. apply Hneq.
    eapply ListVersions_one; [exact Hone|by rewrite Hlk|done|by eexists|done].
  - destruct Hjs as [Hf Ho Hj]. split; simpl.
    + apply filed_Put; [done|done|apply Hmint|done].
    + intros k' m' [[<- <-]|[_ Hm']]%lookup_insert_Some; [|by apply Ho]. right. by exists n.
    + intros k' m' Hm'. destruct (decide (entry_key entry m (mint n) = k')) as [<-|?].
      * right; right. by exists n.
      * rewrite lookup_insert_ne by done. by apply Hj.
  - apply bool_decide_eq_false_1 in Hv. eapply justified_Delete; [exact Hne|exact Hor| |exact Hd|exact Hjs].
    by eapply (by_age _ _ entry state now).
Qed.

Lemma justified_effects entry state now ms s s' :
  (entry, Ok state, now) ∈ entries → (∀ m, m ∈ ms → listed_version entry m) →
  effects entry (bool_decide (state = "Enabled")) now mint ms s s' → justified s → justified s'.
Proof using Hmint.
  intros Hin Hlisted. induction 1 as [|m ms s1 s2 s3 Heff _ IH]; [done|]. intros Hj.
  apply IH; [intros; apply Hlisted; by right|]. eapply justified_effect; [done|apply Hlisted; by left|done..].
Qed.

End justified.

(** ** A pass ends *)

Section ends.
Context {Ev : EvaluatorConfig} (put_result : string → string → bytes → PutResult).
Context (mint : nat → string) (D : gset latestKey).
Hypothesis Hmint : ∀ n, mint n ≠ "".

(** A delete marker may be listed once more, an object may be listed again as
    the marker that hides it. *)
Definition visits (m : ObjectManifest) : nat := if m_DeleteMarker m then 1 else 2.

Record orderly (s : Memory.Store) : Prop := {
  od_wf : Memory.wf s;
  od_filed : filed s;
  od_dom : dom (Memory.latest s) ⊆ D
}.

Lemma effect_touched entry m versioned now s s' :
  Memory.wf s → effect entry m versioned now mint s s' →
  ∃ lk n, Paging.touched visits lk n 1 s s' ∧ (n < visits m)%nat.
Proof using.
  assert (0 < visits m)%nat as Hpos by (unfold visits; destruct (m_DeleteMarker m); lia).
  intros Hwf [|s'' _ _ Hd|n [Hdm _] _|s'' _ _ _ Hd].
  - exists (mkLatestKey "" "" ""), 0%nat. split; [|done]. eapply Paging.touched_le, Paging.touched_refl. lia.
  - eexists _, 0%nat. split; [|done]. eapply Paging.touched_le, Paging.Delete_touched; [lia|done..].
  - eexists _, 1%nat. split; [by apply Paging.Put_touched|]. unfold visits. rewrite Hdm. lia.
  - eexists _, 0%nat. split; [|done]. eapply Paging.touched_le, Paging.Delete_touched; [lia|done..].
Qed.

Lemma effects_handled entry ms versioned now s s' :
  Memory.wf s → Memory.order s + Z.of_nat (length ms) < 2 ^ 64 →
  effects entry versioned now mint ms s s' → Paging.handled visits 1 ms s s'.
Proof using.
  intros Hwf Hroom H. revert Hwf Hroom.
  induction H as [|m ms s1 s2 s3 Heff _ IH]; intros Hwf Hroom; [constructor|]. cbn [length] in Hroom.
  destruct (effect_touched entry m versioned now s1 s2 Hwf Heff) as (lk & n & Ht & Hn).
  pose proof (Paging.touched_order _ _ _ _ _ _ Ht Hwf ltac:(lia)).
  econstructor; [exact Ht|exact Hn|]. apply IH; [|lia]. eapply Paging.touched_wf; [exact Ht|done|lia].
Qed.

(** The manifests of a page belong to objects of the store. *)
Lemma effect_tidy entry m versioned now s s' :
  m_VersionID m ≠ "" → mkLatestKey (le_TenantID entry) (le_Bucket entry) (m_ObjectKeyHash m) ∈ D →
  effect entry m versioned now mint s s' → filed s ∧ dom (Memory.latest s) ⊆ D →
  filed s' ∧ dom (Memory.latest s') ⊆ D.
Proof using Hmint.
  intros Hv HD Heff [Hf Hd].
  assert (∀ s', Memory.Delete (entry_key entry m (m_VersionID m)) s = Ok s' →
    filed s' ∧ dom (Memory.latest s') ⊆ D) as Hdel.
  { intros s'' H. split; [by eapply filed_Delete; [|exact H|]|].
    destruct (Delete_version (entry_key entry m (m_VersionID m)) s s'' Hv H) as (_ & _ & Hl). intros lk [k Hk]%elem_of_dom.
    apply Hd, elem_of_dom. eauto. }
  destruct Heff; [done|by apply Hdel| |by apply Hdel].
  split; [apply filed_Put; [done|done|apply Hmint|done]|]. simpl.
  rewrite dom_insert. apply union_subseteq. split; [|done]. by apply singleton_subseteq_l.
Qed.

Lemma effects_tidy entry ms versioned now s s' :
  (∀ m, m ∈ ms → m_VersionID m ≠ "" ∧
     mkLatestKey (le_TenantID entry) (le_Bucket entry) (m_ObjectKeyHash m) ∈ D) →
  effects entry versioned now mint ms s s' → filed s ∧ dom (Memory.latest s) ⊆ D →
  filed s' ∧ dom (Memory.latest s') ⊆ D.
Proof using Hmint.
  intros Hms. induction 1 as [|m ms s1 s2 s3 Heff _ IH]; [done|]. intros Hs.
  apply IH; [intros; apply Hms; by right|].
  destruct (Hms m) as [? ?]; [by left|]. by eapply effect_tidy.
Qed.

Lemma listed_tidy entry s cursor limit r m :
  orderly s → Memory.List s (le_TenantID entry) (le_Bucket entry) cursor limit = Ok r → m ∈ lr_Manifests r →
  m_VersionID m ≠ "" ∧ mkLatestKey (le_TenantID entry) (le_Bucket entry) (m_ObjectKeyHash m) ∈ D.
Proof using.
  intros [_ [Hl Hf] Hd] Hr Hm.
  destruct (Paging.List_key _ _ s cursor limit r m Hr Hm) as (lk & k & Ht & Hb & Hk & Hkm).
  destruct (Hf k m Hkm) as (Hh & Hv & Hne). split; [congruence|].
  apply Hd, elem_of_dom. exists k. pose proof (Hl _ _ Hk) as <-. simpl in Ht, Hb.
  rewrite <- Ht, <- Hb, Hh. exact Hk.
Qed.

Lemma expire_pages_end entry versioned now :
  ∀ fuel cursor after stats w,
  Paging.cursor_at cursor after → orderly (ww_store w) → ww_mint w = mint →
  (Paging.weight (le_TenantID entry) (le_Bucket entry) visits (ww_store w) after < fuel)%nat →
  Memory.order (ww_store w) +
    Z.of_nat (Paging.weight (le_TenantID entry) (le_Bucket entry) visits (ww_store w) after) < 2 ^ 64 →
  wwp put_result any (expire_pages fuel entry versioned now cursor stats)
    (λ r w', is_Some r ∧ orderly (ww_store w') ∧ ww_mint w' = mint ∧
       Memory.order (ww_store w') ≤ Memory.order (ww_store w) +
         Z.of_nat (Paging.weight (le_TenantID entry) (le_Bucket entry) visits (ww_store w) after)) w.
Proof using Hmint.
  induction fuel as [|fuel IH]; intros cursor after stats w Hc Hod Hm Hfuel Hroom; [lia|]. cbn [expire_pages].
  set (W := Paging.weight (le_TenantID entry) (le_Bucket entry) visits) in *.
  assert (∀ (r : Stats), is_Some (Some r) ∧ orderly (ww_store w) ∧ ww_mint w = mint ∧
    Memory.order (ww_store w) ≤ Memory.order (ww_store w) + Z.of_nat (W (ww_store w) after)) as Hstop.
  { intros. split_and!; [by eexists|done|done|lia]. }
  intros cancelled _. cbn [do_wcall fst snd]. destruct cancelled; [apply Hstop|].
  intros fault _. cbn [do_wcall fst snd]. destruct fault; [apply Hstop|].
  destruct (Paging.List_page (le_TenantID entry) (le_Bucket entry) (ww_store w) cursor after PageSize)
    as (page & rest & r & Hr & Hms & Hrows & Hnext); [apply Hod|done|]. rewrite Hr.
  assert (∀ m, m ∈ lr_Manifests r → m_VersionID m ≠ "" ∧
     mkLatestKey (le_TenantID entry) (le_Bucket entry) (m_ObjectKeyHash m) ∈ D) as Htidy.
  { intros m Hin. by eapply listed_tidy. }
  apply wwp_bind. eapply wwp_mono; [|apply expire_page_effects]. intros stats' w1 [Heffs Hm1].
  rewrite Hm in *.
  assert (length page ≤ W (ww_store w) after)%nat as Hlen.
  { unfold W. eapply Nat.le_trans; [|apply (Paging.weight_ge _ _ visits)].
    - rewrite Hrows, length_app. lia.
    - intros m. unfold visits. destruct (m_DeleteMarker m); lia. }
  destruct (effects_tidy entry (lr_Manifests r) versioned now (ww_store w) (ww_store w1)) as [Hf1 Hd1];
    [done|done|by split; apply Hod|].
  apply effects_handled in Heffs; [|apply Hod|rewrite Hms, length_fmap; lia].
  destruct Hnext as [[-> _]|(Hcur & Hpage & next & Hafter & Hc' & Hrest)].
  - rewrite bool_decide_eq_true_2 by done.
    destruct (Paging.handled_weight (le_TenantID entry) (le_Bucket entry) visits 1 (lr_Manifests r)
      (ww_store w) (ww_store w1) after) as (Hwf1 & Ho & _);
      [lia|apply Hod|rewrite Hms, length_fmap; lia|done|].
    rewrite Hms, length_fmap in Ho. split_and!; [by eexists|by split|done|lia].
  - rewrite bool_decide_eq_false_2 by done. rewrite Hms in Heffs.
    destruct (Paging.page_weight (le_TenantID entry) (le_Bucket entry) visits 1 page rest next after
      (ww_store w) (ww_store w1)) as (Hwf1 & Hlt & Ho); [lia|apply Hod|done|done|done|done| |fold W; lia|].
    { intros m. unfold visits. destruct (m_DeleteMarker m); lia. }
    fold W in Hlt, Ho. eapply wwp_mono; [|apply (IH _ next); [done|by split|done|fold W; lia|fold W; lia]].
    fold W. intros r' w' (Hr' & Hod' & Hm' & Ho'). split_and!; [done|done|done|lia].
Qed.

Lemma visits_le m : (visits m ≤ 2)%nat.
Proof using. unfold visits. destruct (m_DeleteMarker m); lia. Qed.

Lemma evalBucket_end fuel entry versioning now stats w :
  orderly (ww_store w) → ww_mint w = mint → (2 * size D < fuel)%nat →
  Memory.order (ww_store w) + 2 * Z.of_nat (size D) < 2 ^ 64 →
  wwp put_result any (evalBucket fuel entry versioning now stats)
    (λ r w', is_Some r ∧ orderly (ww_store w') ∧ ww_mint w' = mint ∧
       Memory.order (ww_store w') ≤ Memory.order (ww_store w) + 2 * Z.of_nat (size D)) w.
Proof using Hmint.
  intros Hod Hm Hfuel Hroom.
  apply wwp_bind. eapply wwp_mono; [|apply abortStaleUploads_keeps].
  intros stats1 w1 [Hs1 Hm1]. rewrite <- Hs1 in *. rewrite Hm in Hm1. clear w Hs1 Hm.
  unfold expireObjects. destruct versioning as [state|]; [|split_and!; [by eexists|done|done|lia]].
  pose proof (Paging.weight_le (le_TenantID entry) (le_Bucket entry) visits 2 (ww_store w1) 0 visits_le) as HW.
  assert (size (Memory.latest (ww_store w1)) ≤ size D)%nat.
  { rewrite <- size_dom. apply subseteq_size, Hod. }
  eapply wwp_mono; [|apply (expire_pages_end entry _ now fuel "" 0); [apply Paging.cursor_at_start|done|done|lia|lia]].
  intros r w' (Hr & Hod' & Hm' & Ho'). split_and!; [done|done|done|lia].
Qed.

Lemma run_buckets_end fuel :
  (2 * size D < fuel)%nat → ∀ entries stats w,
  orderly (ww_store w) → ww_mint w = mint →
  Memory.order (ww_store w) + 2 * Z.of_nat (size D) * Z.of_nat (length entries) < 2 ^ 64 →
  wwp put_result any (run_buckets fuel entries stats) (λ r _, is_Some r) w.
Proof using Hmint.
  intros Hfuel. induction entries as [|[[entry versioning] now] entries IH]; intros stats w Hod Hm Hroom;
    cbn [run_buckets]; [by eexists|].
  intros cancelled _. cbn [do_wcall fst snd]. destruct cancelled; [by eexists|].
  cbn [length] in Hroom.
  assert (2 * Z.of_nat (size D) * Z.of_nat (S (length entries)) =
    2 * Z.of_nat (size D) + 2 * Z.of_nat (size D) * Z.of_nat (length entries)) as He by nia.
  rewrite He in Hroom. assert (0 ≤ 2 * Z.of_nat (size D) * Z.of_nat (length entries)) by nia.
  apply wwp_bind. eapply wwp_mono; [|apply evalBucket_end; [done|done|done|lia]].
  intros r w2 ([stats2 ->] & Hod2 & Hm2 & Ho2). apply IH; [done|done|lia].
Qed.

End ends.

(** ** Everything that is due is removed *)

Section removed.
Context {Ev : EvaluatorConfig} (put_result : string → string → bytes → PutResult).
Context (entry : LifecycleEntry) (now : Z) (k0 : ManifestKey) (m0 : ObjectManifest).
Hypothesis Hkey : entry_key entry m0 (m_VersionID m0) = k0.
Hypothesis Hversion : k_VersionID k0 ≠ "".
Hypothesis Hdue : due entry m0 now.
Hypothesis Hfree : objectLocked m0 now = false.
Notation no_fault := (eq false).

Definition gone (s : Memory.Store) : Prop := Memory.byKey s !! k0 = None.

(** The version is still there, as the latest of its object, after [after]. *)
Definition pending (after : Z) (s : Memory.Store) : Prop :=
  Memory.wf s ∧ Memory.byKey s !! k0 = Some m0 ∧ Memory.latest s !! latest_of k0 = Some k0 ∧
  ∃ n, Memory.seq s !! k0 = Some n ∧ after < n.

Lemma expireOne_deletes stats w :
  wwp put_result no_fault (expireOne entry m0 false now stats) (λ _ w', gone (ww_store w')) w.
Proof using Hkey Hversion Hdue Hfree.
  destruct Hdue as [Hdm (r0 & at0 & (Hin & Hen0 & Hm0) & Hat0 & Hle0)]. unfold expireOne.
  assert (∀ stats, wwp put_result no_fault (permanentlyDelete entry m0 stats) (λ _ w', gone (ww_store w')) w) as Hdel.
  { intros stats' fault <-. cbn [do_wcall do_shared]. unfold store_write. rewrite Hkey.
    destruct (Memory.Delete k0 (ww_store w)) as [s'|e] eqn:Hd; cbn [fst snd].
    - apply wwp_bind. eapply wwp_mono; [|apply reclaimPieces_keeps]. intros ? w' [Hs _]. cbn. unfold gone.
      rewrite Hs. simpl. destruct (Delete_version _ _ _ Hversion Hd) as (_ & -> & _). apply lookup_delete_eq.
    - assert (gone (ww_store w) ∧ e = ErrNotFound) as [Hg ->]; [|done].
      revert Hd. unfold Memory.Delete, Memory.target, gone. rewrite bool_decide_eq_false_2 by done.
      destruct (Memory.byKey (ww_store w) !! k0); [done|]. intros [= <-]. done. }
  revert stats. induction (le_Config entry) as [|r rules IH]; intros stats; [by apply elem_of_nil in Hin|].
  cbn [expire_rules].
  assert (r0 ∈ rules → ∀ stats, wwp put_result no_fault (expire_rules entry m0 false now rules stats)
    (λ _ w', gone (ww_store w')) w) as Hskip by done.
  apply elem_of_cons in Hin as [<-|Hin'].
  - unfold ExpiresAt in Hat0. destruct (rl_Expiration r0) as [e|] eqn:He; [|done]. rewrite Hen0, Hm0. cbn [negb].
    destruct (ex_ExpiredObjectDeleteMarker e) eqn:Hmk; [done|].
    unfold ExpiresAt. rewrite He, Hmk, Hat0. unfold Before. rewrite (proj2 (Z.ltb_ge _ _)) by done.
    rewrite Hdm, Hfree. apply Hdel.
  - specialize (Hskip Hin'). destruct (rl_Expiration r) as [e|]; [|apply Hskip].
    destruct (Enabled r); cbn [negb]; [|apply Hskip].
    destruct (Matches r _ _ _); cbn [negb]; [|apply Hskip]. rewrite Hdm. cbn [negb].
    destruct (ex_ExpiredObjectDeleteMarker e); [apply Hskip|].
    destruct (ExpiresAt r (m_CreatedAt m0)); [|apply Hskip]. destruct (Before now _); [apply Hskip|].
    rewrite Hfree. apply Hdel.
Qed.

(** Without versioning, handling another manifest deletes at most its version. *)
Lemma effect_pending after m mint s s' :
  m_VersionID m ≠ "" → effect entry m false now mint s s' → pending after s ∨ gone s → pending after s' ∨ gone s'.
Proof using.
  intros Hv Heff Hs.
  assert (∀ s', Memory.Delete (entry_key entry m (m_VersionID m)) s = Ok s' → pending after s' ∨ gone s') as Hdel.
  { intros s'' Hd. destruct (Delete_version (entry_key entry m (m_VersionID m)) s s'' Hv Hd) as (_ & Hb & _).
    destruct (decide (entry_key entry m (m_VersionID m) = k0)) as [He|Hne].
    { right. unfold gone. rewrite Hb, He. apply lookup_delete_eq. }
    destruct Hs as [(Hwf & Hk & Hl & n & Hn & Hlt)|Hg].
    - left. split; [by eapply Memory.Delete_wf|]. revert Hd. unfold Memory.Delete, Memory.target.
      rewrite (bool_decide_eq_false_2 (k_VersionID _ = "")) by done.
      destruct (Memory.byKey s !! entry_key entry m (m_VersionID m)); [|done]. intros Heq. injection Heq as <-. simpl. rewrite !lookup_delete_ne by done. split_and!; [done| |by exists n].
      case_bool_decide as Hcur; [|done]. rewrite lookup_delete_ne; [done|]. intros He. congruence.
    - right. unfold gone. rewrite Hb. apply lookup_delete_None. by right. }
  destruct Heff; [done|by apply Hdel|done|by apply Hdel].
Qed.

Lemma effect_gone m mint s s' :
  m_VersionID m ≠ "" → effect entry m false now mint s s' → gone s → gone s'.
Proof using.
  intros Hv Heff Hg.
  assert (∀ s', Memory.Delete (entry_key entry m (m_VersionID m)) s = Ok s' → gone s') as Hdel.
  { intros s'' Hd. destruct (Delete_version (entry_key entry m (m_VersionID m)) s s'' Hv Hd) as (_ & Hb & _).
    unfold gone. rewrite Hb. apply lookup_delete_None. by right. }
  destruct Heff; [done|by apply Hdel|done|by apply Hdel].
Qed.

Lemma effects_kept (P : Memory.Store → Prop) ms mint s s' :
  (∀ m s s', m_VersionID m ≠ "" → effect entry m false now mint s s' → P s → P s') →
  (∀ m, m ∈ ms → m_VersionID m ≠ "") → effects entry false now mint ms s s' → P s → P s'.
Proof using.
  intros HP Hms. induction 1 as [|m ms s1 s2 s3 Heff _ IH]; [done|]. intros Hs.
  apply IH; [intros; apply Hms; by right|]. eapply HP; [apply Hms; by left|done..].
Qed.

Lemma expire_page_deletes ms stats w :
  m0 ∈ ms → (∀ m, m ∈ ms → m_VersionID m ≠ "") →
  wwp put_result no_fault (expire_page entry ms false now stats) (λ _ w', gone (ww_store w')) w.
Proof using Hkey Hversion Hdue Hfree.
  revert stats w. induction ms as [|m ms IH]; intros stats w Hin Hms; [by apply elem_of_nil in Hin|].
  cbn [expire_page]. apply wwp_bind. apply elem_of_cons in Hin as [<-|Hin].
  - eapply wwp_mono; [|apply expireOne_deletes]. intros stats' w' Hg.
    eapply wwp_mono; [|apply expire_page_effects]. intros ? w2 [Heffs _].
    eapply effects_kept; [|intros; apply Hms; by right|done|done]. intros; by eapply effect_gone.
  - eapply wwp_mono; [|apply expireOne_effect]. intros stats' w' ?. apply IH; [done|]. intros; apply Hms; by right.
Qed.

(** The loop over the pages reaches the version. *)
Lemma expire_pages_delete fuel cursor after stats w :
  Paging.cursor_at cursor after → Memory.wf (ww_store w) → filed (ww_store w) →
  pending after (ww_store w) ∨ gone (ww_store w) →
  wwp put_result no_fault (expire_pages fuel entry false now cursor stats)
    (λ r w', r = None ∨ gone (ww_store w')) w.
Proof using Hkey Hversion Hdue Hfree.
  revert cursor after stats w.
  induction fuel as [|fuel IH]; intros cursor after stats w Hc Hwf Hf Hs; cbn [expire_pages]; [by left|].
  intros cancelled <-. cbn [do_wcall fst snd]. intros fault <-. cbn [do_wcall fst snd].
  destruct (Paging.List_page (le_TenantID entry) (le_Bucket entry) (ww_store w) cursor after PageSize)
    as (page & rest & r & Hr & Hpm & Hrows & Hnext); [done|done|]. rewrite Hr.
  assert (∀ m, m ∈ lr_Manifests r → m_VersionID m ≠ "") as Hms.
  { intros m Hin. destruct (Paging.List_key _ _ _ _ _ _ _ Hr Hin) as (lk & k & _ & _ & _ & Hk).
    destruct Hf as [_ Hf]. destruct (Hf k m Hk) as (_ & -> & Hne). done. }
  assert (∀ s', effects entry false now (ww_mint w) (lr_Manifests r) (ww_store w) s' → Memory.wf s' ∧ filed s') as Hkeep.
  { intros s' Heffs. eapply (effects_kept (λ s, Memory.wf s ∧ filed s)); [|exact Hms|exact Heffs|by split].
    intros m s1 s2 Hv Heff [Hw1 Hf1]. destruct Heff as [|? _ _ Hd| |? _ _ _ Hd]; [done| |done|];
      (split; [by eapply Memory.Delete_wf|by eapply filed_Delete; [|exact Hd|]]). }
  assert (∀ after', pending after' (ww_store w) ∨ gone (ww_store w) → ∀ s',
    effects entry false now (ww_mint w) (lr_Manifests r) (ww_store w) s' → pending after' s' ∨ gone s') as Hpend.
  { intros after' Hp s' Heffs. eapply (effects_kept (λ s, pending after' s ∨ gone s)); [|exact Hms|exact Heffs|done].
    intros; by eapply effect_pending. }
  assert (k_TenantID k0 = le_TenantID entry ∧ k_Bucket k0 = le_Bucket entry) as [Ht Hb] by by rewrite <- Hkey.
  assert (∀ next, (lr_NextCursor r ≠ "" → Paging.cursor_at (lr_NextCursor r) next) → ∀ stats w',
    effects entry false now (ww_mint w) (lr_Manifests r) (ww_store w) (ww_store w') →
    pending next (ww_store w') ∨ gone (ww_store w') → (lr_NextCursor r = "" → gone (ww_store w')) →
    wwp put_result no_fault
      (if bool_decide (lr_NextCursor r = "") then WRet (Some stats)
       else expire_pages fuel entry false now (lr_NextCursor r) stats)
      (λ r w', r = None ∨ gone (ww_store w')) w') as Hcont.
  { intros next Hnext' stats' w' Heffs Hp Hg. case_bool_decide as Hcur; [right; by apply Hg|].
    destruct (Hkeep _ Heffs). by apply (IH _ next); [apply Hnext'| | |]. }
  apply wwp_bind. destruct Hs as [(_ & Hk & Hl & n & Hn & Hlt)|Hg].
  - assert ((n, k0, m0) ∈ page ++ rest) as [Hin|Hin]%elem_of_app.
    { rewrite <- Hrows. apply Paging.listed_elem; [done|]. done. }
    + assert (m0 ∈ lr_Manifests r) as Hm0.
      { rewrite Hpm. by apply (list_elem_of_fmap_2 Memory.row_manifest) in Hin. }
      assert (∃ next, lr_NextCursor r ≠ "" → Paging.cursor_at (lr_NextCursor r) next) as [next Hn'].
      { destruct Hnext as [[-> _]|(_ & _ & next & _ & Hc' & _)]; [by exists 0|by exists next]. }
      eapply wwp_mono; [|apply wwp_and; [apply expire_page_deletes; [exact Hm0|exact Hms]|apply expire_page_effects]].
      intros stats' w' [Hg [Heffs _]]. apply (Hcont next); [done|done|by right|done].
    + destruct Hnext as [[_ ->]|(Hcur & _ & next & _ & Hc' & ->)]; [by apply elem_of_nil in Hin|].
      apply Paging.listed_elem in Hin as (_ & _ & _ & _ & _ & Hlt'); [|done].
      eapply wwp_mono; [|apply expire_page_effects]. intros stats' w' [Heffs _].
      apply (Hcont next); [done|done| |done]. eapply Hpend; [|done]. left. split_and!; [done..|]. by exists n.
  - assert (∃ next, lr_NextCursor r ≠ "" → Paging.cursor_at (lr_NextCursor r) next) as [next Hn'].
    { destruct Hnext as [[-> _]|(_ & _ & next & _ & Hc' & _)]; [by exists 0|by exists next]. }
    eapply wwp_mono; [|apply expire_page_effects]. intros stats' w' [Heffs _].
    assert (gone (ww_store w')).
    { eapply effects_kept; [|exact Hms|exact Heffs|exact Hg]. intros; by eapply effect_gone. }
    apply (Hcont next); [done|done|by right|done].
Qed.

End removed.

(** ** The theorems *)

Section theorems.
Context {Ev : EvaluatorConfig} (put_result : string → string → bytes → PutResult).

(** C17: A lifecycle pass ends although it writes to the listing it reads: with
    twice as many pages as the store has objects, plus one, the loop over the
    pages of every bucket comes to its end, whichever calls fail and whenever the
    context is cancelled. Each page shows at least one manifest; an object that
    is hidden behind a delete marker is listed once more as that marker, and a
    marker is never written again. *)
Theorem lifecycle_pass_ends entries fuel faults w :
  Memory.wf (ww_store w) → filed (ww_store w) → (∀ n, ww_mint w n ≠ "") →
  Memory.order (ww_store w) +
    2 * Z.of_nat (size (Memory.latest (ww_store w))) * Z.of_nat (length entries) < 2 ^ 64 →
  (2 * size (Memory.latest (ww_store w)) < fuel)%nat →
  is_Some (wexec put_result (Run fuel (Some (Ok entries))) faults w).1.
Proof.
  intros Hwf Hf Hmint Hroom Hfuel. rewrite <- size_dom in *.
  apply (wwp_exec put_result any _ (λ r _, is_Some r)); [done|by apply Forall_true|].
  eapply (run_buckets_end put_result (ww_mint w) (dom (Memory.latest (ww_store w))));
    [done|done|by split|done|done].
Qed.

(** C12: A lifecycle pass removes nothing else than what the rules allow. A
    version that was stored before the pass is still stored after it, unless its
    bucket has no versioning and an enabled rule that matches it had made it due
    and it was not locked, or it is a delete marker whose object has no other
    version left. (A version id handed out for a new delete marker is assumed to
    be new, otherwise the marker replaces that version.) *)
Theorem expiry_is_justified entries fuel faults w k m :
  filed (ww_store w) → (∀ n, ww_mint w n ≠ "") →
  Memory.byKey (ww_store w) !! k = Some m → (∀ n, ww_mint w n ≠ k_VersionID k) →
  Memory.byKey (ww_store (wexec put_result (Run fuel (Some (Ok entries))) faults w).2) !! k = Some m ∨
  expirable (ww_store w) entries (ww_mint w) k m.
Proof.
  intros Hf Hmint Hk Hnew.
  assert (wwp put_result any (Run fuel (Some (Ok entries)))
    (λ _ w', justified (ww_store w) entries (ww_mint w) (ww_store w')) w) as Hwp.
  { cbn [Run]. apply (run_buckets_inv put_result any _ (ww_mint w)); [|done|].
    - intros entry state now Hin s cursor r s' Hj Hr Heffs.
      eapply (justified_effects (ww_store w) entries (ww_mint w)); [done|done| |done|done].
      intros m' Hm'. by eapply listed_origin.
    - split; [done|by left|by left]. }
  apply (wwp_exec put_result any _ _ faults) in Hwp; [|done|by apply Forall_true].
  destruct (js_removed _ _ _ _ Hwp k m Hk) as [?|[?|[n ?]]]; [by left|by right|]. by destruct (Hnew n).
Qed.

Lemma bucket_removes_due entry state now stats fuel w k m :
  Memory.wf (ww_store w) → filed (ww_store w) → (∀ n, ww_mint w n ≠ "") →
  Memory.order (ww_store w) + 2 * Z.of_nat (size (Memory.latest (ww_store w))) < 2 ^ 64 →
  (2 * size (Memory.latest (ww_store w)) < fuel)%nat → state ≠ "Enabled" →
  k_TenantID k = le_TenantID entry → k_Bucket k = le_Bucket entry →
  Memory.latest (ww_store w) !! latest_of k = Some k → Memory.byKey (ww_store w) !! k = Some m →
  due entry m now → objectLocked m now = false →
  let '(r, w') := wexec put_result (evalBucket fuel entry (Ok state) now stats) [] w in
  is_Some r ∧ Memory.byKey (ww_store w') !! k = None.
Proof.
  intros Hwf Hf Hmint Hroom Hfuel Hstate Ht Hb Hl Hk Hdue Hfree. rewrite <- size_dom in *.
  pose proof (evalBucket_end put_result (ww_mint w) (dom (Memory.latest (ww_store w))) Hmint fuel entry
    (Ok state) now stats w (Build_orderly _ _ Hwf Hf (reflexivity _)) eq_refl Hfuel Hroom) as Hend.
  apply (wwp_exec put_result any _ _ []) in Hend as [Hr _]; [|done|by constructor].
  assert (wwp put_result (eq false) (evalBucket fuel entry (Ok state) now stats)
    (λ r w', r = None ∨ gone k (ww_store w')) w) as Hdel.
  { apply wwp_bind. eapply wwp_mono; [|apply abortStaleUploads_keeps]. intros stats' w' [Hs _].
    unfold expireObjects. rewrite bool_decide_eq_false_2 by done.
    destruct (proj2 Hf k m Hk) as (Hh & Hv & Hne).
    apply (expire_pages_delete put_result entry now k m) with (after := 0); try done; rewrite ?Hs; try done.
    - destruct k. unfold entry_key. simpl in *. congruence.
    - left. split_and!; [done..|]. destruct (proj1 (Memory.wf_dom _ Hwf k)) as [n Hn]; [by eexists|].
      exists n. split; [done|]. by apply (Memory.wf_range _ Hwf k). }
  apply (wwp_exec put_result (eq false) _ _ []) in Hdel; [|done|by constructor].
  destruct (wexec _ _ _ w) as [r w']. cbn [fst snd] in *. split; [done|].
  destruct Hdel as [->|]; [|done]. by destruct Hr.
Qed.

(** C19: In a bucket without versioning, a pass that no fault interrupts removes
    every current object that a rule has made due, unless it is locked, however
    the listing is paged and whatever the pass deletes on the way. *)
Theorem due_objects_removed entry state now stats fuel w k m :
  Memory.wf (ww_store w) → filed (ww_store w) → (∀ n, ww_mint w n ≠ "") →
  Memory.order (ww_store w) + 2 * Z.of_nat (size (Memory.latest (ww_store w))) < 2 ^ 64 →
  (2 * size (Memory.latest (ww_store w)) < fuel)%nat → state ≠ "Enabled" →
  k_TenantID k = le_TenantID entry → k_Bucket k = le_Bucket entry →
  Memory.latest (ww_store w) !! latest_of k = Some k → Memory.byKey (ww_store w) !! k = Some m →
  due entry m now → objectLocked m now = false →
  let '(r, w') := wexec put_result (evalBucket fuel entry (Ok state) now stats) [] w in
  is_Some r ∧ Memory.byKey (ww_store w') !! k = None.
Proof. exact (bucket_removes_due entry state now stats fuel w k m). Qed.

End theorems.

(** ** An example: a bucket with an old and a new object *)

Section examples.

Definition ex_config : EvaluatorConfig := {|
  hasUploads := true; hasProviders := true; isRegistered := λ _, true; hasContentIndex := true; PageSize := 1
|}.
#[local] Existing Instance ex_config.

Definition ex_put_result (backend id : string) (body : bytes) : PutResult := mkPutResult id "" (blen body) "".

Definition ex_object (h v : string) (created : Z) : ObjectManifest :=
  mkObjectManifest "t1" "photos" h h v 0 0 "" zero_EncryptionConfig zero_PlacementPolicy [] zero_MigrationState
    false ∅ "" "" "" "" "" "" ∅ "" zero_time false created.
Definition ex_now : Z := 1700000000000000000.
Definition ex_old : ObjectManifest := ex_object "a" "v1" (ex_now - 90 * day_ns).
Definition ex_new : ObjectManifest := ex_object "b" "v1" ex_now.
Definition ex_key (h v : string) : ManifestKey := mkManifestKey "t1" "photos" h v.
Definition ex_store : Memory.Store :=
  Memory.Put (ex_key "b" "v1") ex_new (Memory.Put (ex_key "a" "v1") ex_old Memory.New).
Definition ex_world : WWorld := mkWWorld ex_store ∅ ∅ ∅ Sessions.NewMemoryStore (λ _, "m1") 0.
Definition ex_entry : LifecycleEntry := mkLifecycleEntry "t1" "photos" [ex_rule 30].

Lemma ex_wf : Memory.wf ex_store.
Proof. apply Memory.Put_wf; [apply Memory.Put_wf; [apply Memory.New_wf|done]|done]. Qed.

Lemma ex_filed : filed ex_store.
Proof.
  apply filed_Put; [done..|]. apply filed_Put; [done..|]. split; intros ??; simpl; by rewrite lookup_empty.
Qed.

Lemma ex_due : due ex_entry ex_old ex_now.
Proof.
  split; [done|]. exists (ex_rule 30), (ceilToUTCMidnight (ex_now - 60 * day_ns)).
  split; [split; [by left|done]|]. split; [done|]. by vm_compute.
Qed.

Lemma lifecycle_pass_ends_witness :
  is_Some (wexec ex_put_result (Run 5 (Some (Ok [(ex_entry, Ok "Enabled", ex_now)]))) [false; true] ex_world).1.
Proof.
  apply (lifecycle_pass_ends ex_put_result [(ex_entry, Ok "Enabled", ex_now)] 5 [false; true] ex_world);
    [apply ex_wf|apply ex_filed|done|by vm_compute|]. apply Nat.ltb_lt. by vm_compute.
Defined.

Lemma expiry_is_justified_witness :
  Memory.byKey (ww_store (wexec ex_put_result (Run 5 (Some (Ok [(ex_entry, Ok "", ex_now)]))) [] ex_world).2)
    !! ex_key "b" "v1" = Some ex_new ∨
  expirable ex_store [(ex_entry, Ok "", ex_now)] (λ _, "m1") (ex_key "b" "v1") ex_new.
Proof.
  apply (expiry_is_justified ex_put_result [(ex_entry, Ok "", ex_now)] 5 [] ex_world);
    [apply ex_filed|done|by vm_compute|done].
Defined.

Lemma due_objects_removed_witness :
  let '(r, w') := wexec ex_put_result (evalBucket 5 ex_entry (Ok "") ex_now zero_stats) [] ex_world in
  is_Some r ∧ Memory.byKey (ww_store w') !! ex_key "a" "v1" = None.
Proof.
  apply (due_objects_removed ex_put_result ex_entry "" ex_now zero_stats 5 ex_world (ex_key "a" "v1") ex_old);
    [apply ex_wf|apply ex_filed|done|by vm_compute|by apply Nat.ltb_lt; vm_compute|done|done|done| | |apply ex_due|done];
    by vm_compute.
Defined.

End examples.
End Pass.
