(* ===== verification/LegalHolds.v ===== *)
(** * Operator legal holds (internal/auth/legal_response.go)

    A hold on a tenant, a bucket or an object, the in-memory store of holds, and
    what a hold means to the two paths that delete objects: the DELETE handler
    asks the store, the lifecycle evaluator does not. *)

From S2P Require Import Prelude Bytes GoStrings Manifest ManifestStore ContentIndex ObjectLock EncryptionPipeline.
From S2P Require Import Fabric Handlers Worm MultipartStore Multipart Workers LifecycleRules Lifecycle LifecyclePass.
Local Open Scope Z_scope.

Module Holds.

Record LegalHold := mkLegalHold {
  lh_ID : string;
  lh_TenantID : string;
  lh_Bucket : string;
  lh_ObjectKey : string;
  lh_Reason : string;
  lh_CaseID : string;
  lh_IssuedBy : string;
  lh_CreatedAt : Z;
  lh_ExpiresAt : Z;
  lh_Released : bool;
  lh_ReleasedAt : Z
}.

(** [LegalHold.Active] *)
Definition in_force (h : LegalHold) (now : Z) : bool :=
  if lh_Released h then false
  else if negb (IsZero (lh_ExpiresAt h)) && negb (Before now (lh_ExpiresAt h)) then false
  else true.

Definition Matches (h : LegalHold) (tenantID bucket objectKey : string) : bool :=
  if bool_decide (lh_TenantID h ≠ tenantID) then false
  else if negb (bool_decide (lh_Bucket h = "")) && negb (bool_decide (lh_Bucket h = bucket)) then false
  else if negb (bool_decide (lh_ObjectKey h = "")) && negb (bool_decide (lh_ObjectKey h = objectKey)) then false
  else true.

(** ** The in-memory store; [now] is the reading of its clock *)

Abbreviation MemoryLegalHoldStore := (gmap string LegalHold).

Inductive hold_error := HoldFieldsRequired | HoldIDExists | ErrLegalHoldNotFound | ErrLegalHoldActive.

Definition set_created (t : Z) (h : LegalHold) : LegalHold :=
  mkLegalHold (lh_ID h) (lh_TenantID h) (lh_Bucket h) (lh_ObjectKey h) (lh_Reason h) (lh_CaseID h) (lh_IssuedBy h)
    t (lh_ExpiresAt h) (lh_Released h) (lh_ReleasedAt h).
Definition set_released (t : Z) (h : LegalHold) : LegalHold :=
  mkLegalHold (lh_ID h) (lh_TenantID h) (lh_Bucket h) (lh_ObjectKey h) (lh_Reason h) (lh_CaseID h) (lh_IssuedBy h)
    (lh_CreatedAt h) (lh_ExpiresAt h) true t.

Definition Create (now : Z) (hold : LegalHold) (s : MemoryLegalHoldStore)
    : result hold_error MemoryLegalHoldStore :=
  if bool_decide (lh_ID hold = "") || bool_decide (lh_TenantID hold = "") then Err HoldFieldsRequired
  else match s !! lh_ID hold with
  | Some _ => Err HoldIDExists
  | None =>
      let hold := if IsZero (lh_CreatedAt hold) then set_created now hold else hold in
      Ok (<[lh_ID hold := hold]> s)
  end.

Definition Release (now : Z) (tenantID id : string) (s : MemoryLegalHoldStore)
    : result hold_error MemoryLegalHoldStore :=
  match s !! id with
  | None => Err ErrLegalHoldNotFound
  | Some h =>
      if bool_decide (lh_TenantID h ≠ tenantID) || lh_Released h then Err ErrLegalHoldNotFound
      else Ok (<[id := set_released now h]> s)
  end.

Definition Get (id : string) (s : MemoryLegalHoldStore) : result hold_error LegalHold :=
  match s !! id with Some h => Ok h | None => Err ErrLegalHoldNotFound end.

Definition List (tenantID : string) (s : MemoryLegalHoldStore) : list LegalHold :=
  filter (λ h, lh_TenantID h = tenantID) (map_to_list s).*2.

(** [MemoryLegalHoldStore.Active] *)
Definition Active (now : Z) (tenantID bucket objectKey : string) (s : MemoryLegalHoldStore) : list LegalHold :=
  filter (λ h, in_force h now = true ∧ Matches h tenantID bucket objectKey = true) (map_to_list s).*2.

(** [CheckDelete]; [None] is no error. *)
Definition CheckDelete (now : Z) (store : option MemoryLegalHoldStore) (tenantID bucket objectKey : string)
    : option hold_error :=
  match store with
  | None => None
  | Some s => match Active now tenantID bucket objectKey s with [] => None | _ :: _ => Some ErrLegalHoldActive end
  end.

(** ** A hold binds until it is released or expires *)

Inductive hold_op :=
| OCreate (now : Z) (h : LegalHold)
| ORelease (now : Z) (tenantID id : string).

Definition apply_op (o : hold_op) (s : MemoryLegalHoldStore) : MemoryLegalHoldStore :=
  match o with
  | OCreate now h => match Create now h s with Ok s' => s' | Err _ => s end
  | ORelease now t id => match Release now t id s with Ok s' => s' | Err _ => s end
  end.

Definition run_ops (os : list hold_op) (s : MemoryLegalHoldStore) : MemoryLegalHoldStore :=
  fold_left (λ s o, apply_op o s) os s.

Definition releases (t id : string) (o : hold_op) : Prop :=
  match o with ORelease _ t' id' => t' = t ∧ id' = id | OCreate _ _ => False end.

Lemma apply_op_keeps o s id h :
  s !! id = Some h → ¬ releases (lh_TenantID h) id o → apply_op o s !! id = Some h.
Proof.
  intros Hid Hno. destruct o as [now h'|now t id']; simpl.
  - unfold Create. destruct (_ || _); [done|]. destruct (s !! lh_ID h') eqn:He; [done|].
    assert (∀ h'', lh_ID h'' = lh_ID h' → (<[lh_ID h'' := h'']> s) !! id = Some h) as Hins.
    { intros h'' ->. rewrite lookup_insert_ne; [done|]. congruence. }
    destruct (IsZero _); by apply Hins.
  - unfold Release. destruct (s !! id') as [h'|] eqn:He; [|done].
    destruct (bool_decide (lh_TenantID h' ≠ t)) eqn:Ht; [done|]. destruct (lh_Released h'); [done|]. simpl.
    apply bool_decide_eq_false_1, dec_stable in Ht. rewrite lookup_insert_ne; [done|].
    intros ->. apply Hno. simpl. split; congruence.
Qed.

Lemma run_ops_keeps os s id h :
  s !! id = Some h → Forall (λ o, ¬ releases (lh_TenantID h) id o) os → run_ops os s !! id = Some h.
Proof.
  unfold run_ops. revert s. induction os as [|o os IH]; intros s Hid Hno; [done|]. simpl.
  apply Forall_cons in Hno as [Ho Hno]. apply IH; [|done]. by apply apply_op_keeps.
Qed.

Lemma Active_elem now t b key s id h :
  s !! id = Some h → in_force h now = true → Matches h t b key = true → h ∈ Active now t b key s.
Proof.
  intros Hid Hf Hm. unfold Active. apply list_elem_of_filter. split; [done|].
  apply list_elem_of_fmap. exists (id, h). split; [done|]. by apply elem_of_map_to_list.
Qed.

(** *** The DELETE handler under a hold *)

Section delete.
Context {G : Gateway}.

(** What the handler learns from the store, through the adapter of the gateway. *)
Definition hold_reply (now : Z) (s : MemoryLegalHoldStore) (t b key : string) : option (result unit nat) :=
  Some (Ok (length (Active now t b key s))).

Lemma Delete_under_hold q t b key state now s id h faults w :
  dq_auth q = Ok t → parseBucketKey (dq_path q) = (b, key) → b ≠ "" → key ≠ "" →
  dq_versioning q = Ok state → (state ≠ "Enabled" ∨ dq_versionId q ≠ "") →
  dq_holds q = hold_reply now s t b key →
  s !! id = Some h → in_force h now = true → Matches h t b key = true →
  exec put_result (Delete q) faults w = (writeError 403 "ObjectUnderLegalHold", w).
Proof.
  intros Ha Hp Hb Hk Hv Hs Hh Hid Hf Hm. unfold Delete. rewrite Ha, Hp, Hv, Hh.
  rewrite !bool_decide_eq_false_2 by done. simpl.
  replace (bool_decide (state = "Enabled") && bool_decide (dq_versionId q = "")) with false
    by (destruct Hs; [rewrite (bool_decide_eq_false_2 (state = "Enabled"))
                     |rewrite (bool_decide_eq_false_2 (dq_versionId q = "")), andb_comm]; done).
  unfold hold_reply. pose proof (Active_elem now t b key s id h Hid Hf Hm) as Hin.
  destruct (Active now t b key s); [by apply elem_of_nil in Hin|]. done.
Qed.

(** While a hold that covers an object is in force, every DELETE of the
    object that would remove a version answers 403 and changes nothing,
    whatever other holds were created or released since; only its own tenant's
    release of that hold, or its expiry, ends this. *)
Theorem hold_blocks_delete q t b key state now s os id h faults w :
  dq_auth q = Ok t → parseBucketKey (dq_path q) = (b, key) → b ≠ "" → key ≠ "" →
  dq_versioning q = Ok state → (state ≠ "Enabled" ∨ dq_versionId q ≠ "") →
  s !! id = Some h → Matches h t b key = true →
  Forall (λ o, ¬ releases (lh_TenantID h) id o) os → in_force h now = true →
  dq_holds q = hold_reply now (run_ops os s) t b key →
  exec put_result (Delete q) faults w = (writeError 403 "ObjectUnderLegalHold", w).
Proof.
  intros. eapply Delete_under_hold; try done. by apply run_ops_keeps.
Qed.

(** C23: The same hold does not bind the lifecycle evaluator, although a hold is
    documented to bind lifecycle expiry too. An object of a bucket without
    versioning is under a hold that makes every DELETE of it answer 403; the
    next lifecycle pass removes it if a rule has made it due, because the
    evaluator never asks the store of holds. *)
Theorem expiry_ignores_legal_hold {Ev : Evaluator.EvaluatorConfig} entry state now stats fuel ww k m key s id h :
  Memory.wf (ww_store ww) → Pass.filed (ww_store ww) → (∀ n, ww_mint ww n ≠ "") →
  Memory.order (ww_store ww) + 2 * Z.of_nat (size (Memory.latest (ww_store ww))) < 2 ^ 64 →
  (2 * size (Memory.latest (ww_store ww)) < fuel)%nat → state ≠ "Enabled" →
  k_TenantID k = Evaluator.le_TenantID entry → k_Bucket k = Evaluator.le_Bucket entry →
  k_Bucket k ≠ "" → key ≠ "" →
  Memory.latest (ww_store ww) !! latest_of k = Some k → Memory.byKey (ww_store ww) !! k = Some m →
  Pass.due entry m now → Evaluator.objectLocked m now = false →
  s !! id = Some h → in_force h now = true → Matches h (k_TenantID k) (k_Bucket k) key = true →
  (∀ q faults w, dq_auth q = Ok (k_TenantID k) → parseBucketKey (dq_path q) = (k_Bucket k, key) →
     dq_versioning q = Ok state → dq_holds q = hold_reply now s (k_TenantID k) (k_Bucket k) key →
     exec put_result (Delete q) faults w = (writeError 403 "ObjectUnderLegalHold", w)) ∧
  let '(r, ww') := wexec put_result (Evaluator.evalBucket fuel entry (Ok state) now stats) [] ww in
  is_Some r ∧ Memory.byKey (ww_store ww') !! k = None.
Proof.
  intros Hwf Hfl Hmint Hroom Hfuel Hstate Ht Hb Hbn Hkn Hl Hk Hdue Hfree Hid Hf Hm. split.
  - intros q faults w Hq Hp Hv Hh. eapply Delete_under_hold; try done. by left.
  - by eapply Pass.bucket_removes_due.
Qed.

End delete.

Section examples.
#[local] Existing Instances Worm.ex_gateway Pass.ex_config.

Definition ex_hold : LegalHold :=
  mkLegalHold "h1" "t1" "photos" "" "litigation" "" "ops" Pass.ex_now zero_time false zero_time.
Definition ex_holds : MemoryLegalHoldStore := {["h1" := ex_hold]}.
Definition ex_delete : DeleteRequest :=
  mkDeleteRequest (Ok "t1") "/photos/a" "" "" (Ok "") (hold_reply Pass.ex_now ex_holds "t1" "photos" "a") 0 0 0.

Lemma hold_blocks_delete_witness :
  exec put_result (Delete ex_delete) [] (mkWorld [] ∅ ∅ ∅) =
    (writeError 403 "ObjectUnderLegalHold", mkWorld [] ∅ ∅ ∅).
Proof.
  apply (hold_blocks_delete ex_delete "t1" "photos" "a" "" Pass.ex_now ex_holds
    [ORelease 0 "t2" "h1"] "h1" ex_hold); try done; [by left|].
  apply Forall_singleton. intros [? _]. done.
Defined.

Lemma expiry_ignores_legal_hold_witness :
  exec put_result (Delete ex_delete) [] (mkWorld [] ∅ ∅ ∅) =
    (writeError 403 "ObjectUnderLegalHold", mkWorld [] ∅ ∅ ∅) ∧
  let '(r, ww') := wexec put_result (Evaluator.evalBucket 5 Pass.ex_entry (Ok "") Pass.ex_now Evaluator.zero_stats)
    [] Pass.ex_world in
  is_Some r ∧ Memory.byKey (ww_store ww') !! Pass.ex_key "a" "v1" = None.
Proof.
  destruct (expiry_ignores_legal_hold Pass.ex_entry "" Pass.ex_now Evaluator.zero_stats 5 Pass.ex_world
    (Pass.ex_key "a" "v1") Pass.ex_old "a" ex_holds "h1" ex_hold Pass.ex_wf Pass.ex_filed) as [Hdel Hexp];
    [done|vm_compute; reflexivity|by apply Nat.ltb_lt; vm_compute|done|done|done|done|done
    |vm_compute; reflexivity|vm_compute; reflexivity|apply Pass.ex_due|vm_compute; reflexivity
    |vm_compute; reflexivity|vm_compute; reflexivity|vm_compute; reflexivity|].
  split; [|exact Hexp]. apply Hdel; vm_compute; reflexivity.
Defined.

End examples.
End Holds.
