(* ===== verification/RebalanceRun.v ===== *)
(** * A pass of the background rebalancer

    [runTarget] pages through the bucket of a target while its own writes move
    manifests to the end of the listing, and [Run] visits the targets
    (migration/background_rebalancer/rebalancer.go). The pass ends because every
    write leaves less to do for the manifest. *)

From S2P Require Import Prelude Bytes Ranges Manifest ManifestStore ContentIndex ObjectLock.
From S2P Require Import ErasureCoding ClientSdk EncryptionPipeline Fabric Handlers Worm Reads Objects Roundtrip Rebalancer.
From S2P Require Import MultipartStore Multipart Workers.
Local Open Scope Z_scope.
Local Open Scope wprog_scope.

Module RebalanceLoop.
Import Rebalance.

Inductive run_error := NotConfigured | SourceNotRegistered | PrimaryNotRegistered | ListFailed | ContextError.

Section run.
Context {G : Gateway} {Rd : Reader}.
Context (isRegistered : string → bool) (PageSize : Z).

(** The loop of [runTarget]; [None] when [fuel] ran out before the last page. *)
Fixpoint target_pages (fuel : nat) (target : TenantTarget) (cursor : string) (stats : Stats)
    : wprog (option (Stats * option run_error)) :=
  match fuel with
  | O => WRet None
  | S fuel =>
      page <~ ManList (tt_TenantID target) (tt_Bucket target) cursor PageSize;;
      match page with
      | Err _ => WRet (Some (stats, Some ListFailed))
      | Ok page =>
          stats <- wlift (rebalance_page target (lr_Manifests page) stats);;;
          if bool_decide (lr_NextCursor page = "") then WRet (Some (stats, None))
          else target_pages fuel target (lr_NextCursor page) stats
      end
  end.

Definition zero_stats : Stats := mkStats 0 0 0 0 0.

Definition runTarget (fuel : nat) (target : TenantTarget) : wprog (option (Stats * option run_error)) :=
  if negb (isRegistered (tt_SourceBackend target)) then WRet (Some (zero_stats, Some SourceNotRegistered))
  else if negb (isRegistered (tt_PrimaryBackend target)) then WRet (Some (zero_stats, Some PrimaryNotRegistered))
  else target_pages fuel target "" zero_stats.

Definition add_stats (a b : Stats) : Stats :=
  mkStats (rs_ManifestsScanned a + rs_ManifestsScanned b) (rs_PiecesCopied a + rs_PiecesCopied b)
    (rs_BytesCopied a + rs_BytesCopied b) (rs_PhasesAdvanced a + rs_PhasesAdvanced b) (rs_Errors a + rs_Errors b).

Fixpoint run_targets (fuel : nat) (targets : list TenantTarget) (stats : Stats)
    : wprog (option (Stats * option run_error)) :=
  match targets with
  | [] => WRet (Some (stats, None))
  | target :: targets =>
      cancelled <~ CtxErr;;
      if cancelled : bool then WRet (Some (stats, Some ContextError))
      else
        res <- runTarget fuel target;;;
        match res with
        | None => WRet None
        | Some (targetStats, Some err) => WRet (Some (add_stats stats targetStats, Some err))
        | Some (targetStats, None) => run_targets fuel targets (add_stats stats targetStats)
        end
  end.

(** [Run]; [configured] is whether there is a manifest store and a registry. *)
Definition Run (fuel : nat) (configured : bool) (targets : list TenantTarget)
    : wprog (option (Stats * option run_error)) :=
  if negb configured then WRet (Some (zero_stats, Some NotConfigured))
  else run_targets fuel targets zero_stats.

End run.

(** ** The work a manifest still needs *)

Definition on_source (target : TenantTarget) (ps : list Piece) : nat :=
  length (filter (λ p, pc_Backend p = tt_SourceBackend target) ps).

Definition work (target : TenantTarget) (m : ObjectManifest) : nat :=
  if eligible m then S (on_source target (m_Pieces m) + steps_left (phaseOf m)) else 1.

Lemma work_pos target m : (1 ≤ work target m)%nat.
Proof. unfold work. destruct (eligible m); lia. Qed.

Section ends.
Context {G : Gateway} {Rd : Reader}.
Context (isRegistered : string → bool) (PageSize : Z).
Context (D : gset latestKey) (P : nat).

(** Manifests carry their keys, and no manifest has more than [P] pieces. *)
Definition filed (s : Memory.Store) : Prop :=
  ∀ k m, Memory.byKey s !! k = Some m → manifest_key m = k ∧ (length (m_Pieces m) ≤ P)%nat.

Record orderly (s : Memory.Store) : Prop := {
  od_wf : Memory.wf s;
  od_filed : filed s;
  od_dom : dom (Memory.latest s) ⊆ D
}.

Lemma filed_write s m :
  filed s → (length (m_Pieces m) ≤ P)%nat → filed (Memory.Put (manifest_key m) m s).
Proof.
  intros Hf Hp k m'. simpl. intros [[<- <-]|[_ Hm]]%lookup_insert_Some; [|by apply Hf].
  by rewrite Memory.cloneManifest_id.
Qed.

Section target.
Context (target : TenantTarget).
Hypothesis Hdistinct : tt_SourceBackend target ≠ tt_PrimaryBackend target.

(** The pieces loop leaves the manifests alone and no piece on the source. *)
Lemma copy_pieces_keeps {R} Q (k : (Z * Z) * option (list Piece) → prog R) todo seen copied n w :
  0 ≤ copied → 
  (∀ copied' n' res w', ww_store w' = ww_store w → copied ≤ copied' →
     (∀ ps, res = Some ps → length ps = length (seen ++ todo) ∧ on_source target ps = on_source target seen ∧
        (copied' = copied → ps = seen ++ todo) ∧ (copied < copied' → (0 < on_source target todo)%nat)) →
     wwp put_result any (wlift (k ((copied', n'), res))) Q w') →
  wwp put_result any (wlift (copy_pieces target todo seen copied n k)) Q w.
Proof using Hdistinct.
  revert seen copied n w. induction todo as [|p todo IH]; intros seen copied n w Hc Hk; cbn [copy_pieces].
  { apply Hk; [done|lia|]. intros ps [= <-]. rewrite app_nil_r. split_and!; try done; lia. }
  assert (on_source target (p :: todo) =
    if bool_decide (pc_Backend p = tt_SourceBackend target) then S (on_source target todo) else on_source target todo) as Hsrc.
  { unfold on_source. rewrite filter_cons. case_decide; case_bool_decide; done. }
  destruct (decide (pc_Backend p = tt_SourceBackend target)) as [He|Hne].
  2: {
    rewrite bool_decide_eq_true_2 by done. rewrite bool_decide_eq_false_2 in Hsrc by done. apply IH; [done|]. intros copied' n' res w' Hs Hle Hres.
    apply Hk; [done|done|]. intros ps Hps. destruct (Hres ps Hps) as (Hl & Ho & He & Hpos).
    rewrite <- app_assoc in *. rewrite Ho. split_and!; [done| |done|by rewrite Hsrc].
    unfold on_source. rewrite filter_app, filter_cons_False, filter_nil, app_nil_r; done. }
  rewrite bool_decide_eq_false_2 by tauto.
  assert (∀ res w', ww_store w' = ww_store w → (∀ ps, res ≠ Some ps) →
      wwp put_result any (wlift (k ((copied, n), res))) Q w') as Hfail.
    { intros res w' Hs Hres. apply Hk; [done|lia|]. intros ps Hps. by destruct (Hres ps). }
    intros fault _. cbn [do_wcall].
    pose proof (do_shared_other put_result fault (Base (PieceGet (tt_SourceBackend target) (pc_PieceID p) None)) w I) as Hw1.
    destruct (do_shared _ _ _ w) as [rc w1]. cbn [fst snd] in *.
    destruct rc as [[body|]|]; [|by apply Hfail..].
    intros fault' _. cbn [do_wcall].
    pose proof (do_shared_other put_result fault' (Base (PiecePut (tt_PrimaryBackend target) (pc_PieceID p) body)) w1 I) as Hw2.
    destruct (do_shared _ _ _ w1) as [put w2]. cbn [fst snd] in *.
    destruct put as [put|]; [|by apply Hfail; [congruence|]].
    apply IH; [lia|]. intros copied' n' res w' Hs Hle Hres. apply Hk; [congruence|lia|].
    intros ps Hps. destruct (Hres ps Hps) as (Hl & Ho & _ & _). rewrite Ho, Hsrc.
    rewrite bool_decide_eq_true_2 by done. split_and!; [|..|lia].
    + rewrite Hl, !length_app. simpl. lia.
    + unfold on_source. rewrite filter_app, filter_cons_False, filter_nil, app_nil_r; [done|].
      simpl. congruence.
    + lia.
Qed.

Definition handled_one (m : ObjectManifest) (w w' : WWorld) : Prop :=
  Paging.touched (work target) (latest_of (manifest_key m)) (pred (work target m)) 2 (ww_store w) (ww_store w') ∧
  (filed (ww_store w) ∧ dom (Memory.latest (ww_store w)) ⊆ D →
   filed (ww_store w') ∧ dom (Memory.latest (ww_store w')) ⊆ D).

(** Writing a manifest that needs less work. *)
Lemma Put_handled m m' w w' :
  ww_store w' = Memory.Put (manifest_key m') m' (ww_store w) → manifest_key m' = manifest_key m →
  latest_of (manifest_key m) ∈ D → (length (m_Pieces m') ≤ P)%nat → (work target m' < work target m)%nat →
  Paging.touched (work target) (latest_of (manifest_key m)) (pred (work target m)) 1 (ww_store w) (ww_store w') ∧
  (filed (ww_store w) ∧ dom (Memory.latest (ww_store w)) ⊆ D →
   filed (ww_store w') ∧ dom (Memory.latest (ww_store w')) ⊆ D).
Proof using.
  intros Hw Hk HD Hp Hlt. rewrite Hw. split.
  - rewrite <- Hk. apply Paging.Put_touched. lia.
  - intros [Hf Hd]. split; [by apply filed_write|]. simpl. rewrite dom_insert, Hk.
    apply union_subseteq. split; [|done]. by apply singleton_subseteq_l.
Qed.

Lemma advance_keeps {R} Q (k : option bool → prog R) m w :
  (∀ adv w', ww_store w' = ww_store w → wwp put_result any (wlift (k adv)) Q w') →
  (∀ q w', nextPhase (phaseOf m) = Some q → existsb (λ p, bool_decide (pc_Backend p ≠ tt_PrimaryBackend target)) (m_Pieces m) = false →
     ww_store w' = Memory.Put (manifest_key (applyPhase m q)) (applyPhase m q) (ww_store w) →
     wwp put_result any (wlift (k (Some true))) Q w') →
  wwp put_result any (wlift (advancePhase target m k)) Q w.
Proof using.
  intros Hsame Hadv. unfold advancePhase. destruct (existsb _ _) eqn:Hall; [by apply Hsame|].
  destruct (nextPhase (phaseOf m)) as [q|] eqn:Hq; [|by apply Hsame].
  rewrite (nextPhase_legal _ _ Hq). intros fault _. cbn [do_wcall do_shared].
  destruct fault; cbn [fst snd]; [by apply Hsame|]. by eapply Hadv.
Qed.

Lemma on_source_none ps :
  existsb (λ p, bool_decide (pc_Backend p ≠ tt_PrimaryBackend target)) ps = false → on_source target ps = 0%nat.
Proof using Hdistinct.
  unfold on_source. induction ps as [|p ps IH]; [done|]. simpl. intros [Hp%bool_decide_eq_false_1%dec_stable Hps]%orb_false_iff.
  rewrite filter_cons_False; [by apply IH|]. congruence.
Qed.

Lemma work_advance m q :
  eligible m = true → nextPhase (phaseOf m) = Some q →
  (work target (applyPhase m q) < S (on_source target (m_Pieces m) + steps_left (phaseOf m)))%nat.
Proof using.
  intros Hel Hq. destruct (steps_next _ _ Hq) as [Hs _]; [by apply eligible_steps|].
  unfold work. rewrite (phaseOf_applyPhase m _ q Hq), (proj1 (applyPhase_same m q)).
  destruct (eligible (applyPhase m q)); rewrite Hs; lia.
Qed.

Lemma rebalance_one_ends {R} Q (k : Stats → prog R) m stats w :
  (eligible m = true → (length (m_Pieces m) ≤ P)%nat ∧ latest_of (manifest_key m) ∈ D) →
  (∀ stats' w', handled_one m w w' → wwp put_result any (wlift (k stats')) Q w') →
  wwp put_result any (wlift (rebalance_one target m stats k)) Q w.
Proof using Hdistinct.
  intros Htidy Hk. unfold rebalance_one.
  assert (∀ w', ww_store w' = ww_store w → handled_one m w w') as Hsame.
  { intros w' Hs. unfold handled_one. rewrite Hs. split; [|done]. eapply Paging.touched_le, Paging.touched_refl. lia. }
  destruct (eligible m) eqn:Hel; cbn [negb]; [|by apply Hk, Hsame]. destruct (Htidy eq_refl) as [HP HD].
  assert (work target m = S (on_source target (m_Pieces m) + steps_left (phaseOf m))) as Hwork
    by (unfold work; by rewrite Hel).
  unfold rebalanceManifest. apply copy_pieces_keeps; [done|]. intros copied n res w1 Hw1 Hc Hres.
  destruct res as [ps|]; [|by apply Hk, Hsame]. destruct (Hres ps eq_refl) as (Hlen & Hsrc & Heq & Hpos).
  change (on_source target []) with 0%nat in Hsrc.
  simpl in Hlen, Heq. destruct (copied =? 0) eqn:Hz.
  - apply advance_keeps.
    + intros [[]|] w2 Hw2; apply Hk, Hsame; congruence.
    + intros q w2 Hq Hall Hw2. apply Hk.
      destruct (Put_handled m (applyPhase m q) w w2) as [Ht Hd]; try done.
      * by rewrite Hw2, Hw1.
      * apply applyPhase_same.
      * by rewrite (proj1 (applyPhase_same m q)).
      * rewrite Hwork. by apply work_advance.
      * split; [|done]. eapply Paging.touched_le; [|exact Ht]. lia.
  - apply Z.eqb_neq in Hz. specialize (Hpos ltac:(lia)).
    set (m1 := Reads.set_pieces_of m ps). intros fault _. cbn [do_wcall do_shared].
    destruct fault; cbn [fst snd]; [by apply Hk, Hsame|].
    set (w2 := with_store _ w1).
    assert (eligible m1 = true) as Hel1 by done.
    assert (work target m1 = S (steps_left (phaseOf m))) as Hwork1.
    { unfold work. rewrite Hel1. simpl. by rewrite Hsrc. }
    destruct (Put_handled m m1 w w2) as [Ht1 Hd1]; try done; [by rewrite <- Hw1|by simpl; lia|lia|].
    apply advance_keeps.
    + intros adv w3 Hw3. assert (handled_one m w w3) as Hh.
      { unfold handled_one. rewrite Hw3. split; [|done]. eapply Paging.touched_le; [|exact Ht1]. lia. }
      by destruct adv as [[]|]; apply Hk.
    + intros q w3 Hq Hall Hw3. apply Hk.
      destruct (Put_handled m (applyPhase m1 q) w2 w3) as [Ht2 Hd2]; try done.
      * by rewrite (proj2 (applyPhase_same m1 q)).
      * rewrite (proj1 (applyPhase_same m1 q)). simpl. lia.
      * pose proof (work_advance m1 q Hel1 Hq) as Ha. change (m_Pieces m1) with ps in Ha.
        change (phaseOf m1) with (phaseOf m) in Ha. lia.
      * split; [|by intros ?%Hd1%Hd2].
        replace 2 with (1 + 1) by done. by eapply Paging.touched_trans.
Qed.

Lemma rebalance_page_ends ms stats w :
  (∀ m, m ∈ ms → eligible m = true → (length (m_Pieces m) ≤ P)%nat ∧ latest_of (manifest_key m) ∈ D) →
  wwp put_result any (wlift (rebalance_page target ms stats))
    (λ _ w', Paging.handled (work target) 2 ms (ww_store w) (ww_store w') ∧
       (filed (ww_store w) ∧ dom (Memory.latest (ww_store w)) ⊆ D →
        filed (ww_store w') ∧ dom (Memory.latest (ww_store w')) ⊆ D)) w.
Proof using Hdistinct.
  revert stats w. induction ms as [|m ms IH]; intros stats w Hms; cbn [rebalance_page].
  { split; [constructor|done]. }
  apply rebalance_one_ends; [apply Hms; by left|]. intros stats' w1 [Ht1 Hd1].
  eapply wwp_mono; [|apply IH; intros; apply Hms; [by right|done]].
  intros ? w2 [Hh2 Hd2]. split; [|by intros ?%Hd1%Hd2].
  econstructor; [exact Ht1| |exact Hh2]. pose proof (work_pos target m). lia.
Qed.

Lemma page_tidy s cursor limit r m :
  orderly s → Memory.List s (tt_TenantID target) (tt_Bucket target) cursor limit = Ok r → m ∈ lr_Manifests r →
  (length (m_Pieces m) ≤ P)%nat ∧ latest_of (manifest_key m) ∈ D.
Proof using.
  intros [Hwf Hf Hd] Hr Hm.
  destruct (Paging.List_key _ _ s cursor limit r m Hr Hm) as (lk & k & _ & _ & Hk & Hkm).
  destruct (Hf k m Hkm) as [-> Hp]. split; [done|]. apply Hd, elem_of_dom. exists k.
  by rewrite (proj1 (Memory.wf_latest _ Hwf lk k Hk)).
Qed.

Lemma target_pages_end fuel : ∀ cursor after stats w,
  Paging.cursor_at cursor after → orderly (ww_store w) →
  (Paging.weight (tt_TenantID target) (tt_Bucket target) (work target) (ww_store w) after < fuel)%nat →
  Memory.order (ww_store w) +
    2 * Z.of_nat (Paging.weight (tt_TenantID target) (tt_Bucket target) (work target) (ww_store w) after) < 2 ^ 64 →
  wwp put_result any (target_pages PageSize fuel target cursor stats)
    (λ r w', is_Some r ∧ orderly (ww_store w') ∧ Memory.order (ww_store w') ≤ Memory.order (ww_store w) +
       2 * Z.of_nat (Paging.weight (tt_TenantID target) (tt_Bucket target) (work target) (ww_store w) after)) w.
Proof using Hdistinct.
  set (W := Paging.weight (tt_TenantID target) (tt_Bucket target) (work target)).
  induction fuel as [|fuel IH]; intros cursor after stats w Hc Hod Hfuel Hroom; [lia|]. cbn [target_pages].
  intros fault _. cbn [do_wcall fst snd]. destruct fault; [split_and!; [by eexists|done|lia]|].
  destruct (Paging.List_page (tt_TenantID target) (tt_Bucket target) (ww_store w) cursor after PageSize)
    as (page & rest & r & Hr & Hms & Hrows & Hnext); [apply Hod|done|]. rewrite Hr.
  apply wwp_bind. eapply wwp_mono; [|apply rebalance_page_ends; intros; by eapply page_tidy].
  intros stats' w1 [Hh Hd]. destruct (Hd (conj (od_filed _ Hod) (od_dom _ Hod))) as [Hf1 Hd1].
  assert (length page ≤ W (ww_store w) after)%nat as Hlen.
  { unfold W. eapply Nat.le_trans; [|eapply (Paging.weight_ge _ _ (work target)), (work_pos target)].
    rewrite Hrows, length_app. lia. }
  destruct Hnext as [[-> _]|(Hcur & Hpage & next & Hafter & Hc' & Hrest)].
  - rewrite bool_decide_eq_true_2 by done.
    destruct (Paging.handled_weight (tt_TenantID target) (tt_Bucket target) (work target) 2 (lr_Manifests r)
      (ww_store w) (ww_store w1) after) as (Hwf1 & Ho & _);
      [lia|apply Hod|rewrite Hms, length_fmap; lia|done|].
    rewrite Hms, length_fmap in Ho. split_and!; [by eexists|by split|lia].
  - rewrite bool_decide_eq_false_2 by done. rewrite Hms in Hh.
    destruct (Paging.page_weight (tt_TenantID target) (tt_Bucket target) (work target) 2 page rest next after
      (ww_store w) (ww_store w1)) as (Hwf1 & Hlt & Ho);
      [lia|apply Hod|done|done|done|done|apply work_pos|fold W; lia|].
    fold W in Hlt, Ho. eapply wwp_mono; [|apply (IH _ next); [done|by split|lia|lia]].
    intros r' w' (Hr' & Hod' & Ho'). split_and!; [done|done|lia].
Qed.

End target.

(** What a bucket's listing can weigh. *)
Definition capacity : nat := (P + 4) * size D.

Lemma weight_capacity target s after :
  orderly s →
  (Paging.weight (tt_TenantID target) (tt_Bucket target) (work target) s after ≤ capacity)%nat.
Proof.
  intros [Hwf Hf Hd]. unfold capacity.
  assert (size (Memory.latest s) ≤ size D)%nat as Hsize by (rewrite <- size_dom; by apply subseteq_size).
  eapply Nat.le_trans; [apply (Paging.weight_stored _ _ (work target) (P + 4))|nia].
  intros k m Hm. destruct (Hf k m Hm) as [_ HP]. unfold work, on_source.
  pose proof (length_filter (λ p, pc_Backend p = tt_SourceBackend target) (m_Pieces m)).
  assert (steps_left (phaseOf m) ≤ 3)%nat by (unfold steps_left; repeat case_bool_decide; lia).
  destruct (eligible m); lia.
Qed.

Lemma runTarget_ends fuel target w :
  tt_SourceBackend target ≠ tt_PrimaryBackend target → orderly (ww_store w) → (capacity < fuel)%nat →
  Memory.order (ww_store w) + 2 * Z.of_nat capacity < 2 ^ 64 →
  wwp put_result any (runTarget isRegistered PageSize fuel target)
    (λ r w', is_Some r ∧ orderly (ww_store w') ∧
       Memory.order (ww_store w') ≤ Memory.order (ww_store w) + 2 * Z.of_nat capacity) w.
Proof.
  intros Hd Hod Hfuel Hroom. unfold runTarget.
  destruct (isRegistered (tt_SourceBackend target)); cbn [negb]; [|split_and!; [by eexists|done|lia]].
  destruct (isRegistered (tt_PrimaryBackend target)); cbn [negb]; [|split_and!; [by eexists|done|lia]].
  pose proof (weight_capacity target (ww_store w) 0 Hod).
  eapply wwp_mono; [|apply (target_pages_end target Hd fuel "" 0); [apply Paging.cursor_at_start|done|lia|lia]].
  intros r w' (Hr & Hod' & Ho). split_and!; [done|done|lia].
Qed.

Lemma run_targets_end fuel : (capacity < fuel)%nat → ∀ targets stats w,
  Forall (λ target, tt_SourceBackend target ≠ tt_PrimaryBackend target) targets → orderly (ww_store w) →
  Memory.order (ww_store w) + 2 * Z.of_nat capacity * Z.of_nat (length targets) < 2 ^ 64 →
  wwp put_result any (run_targets isRegistered PageSize fuel targets stats) (λ r _, is_Some r) w.
Proof.
  intros Hfuel. induction targets as [|target targets IH]; intros stats w Hds Hod Hroom; cbn [run_targets];
    [by eexists|]. apply Forall_cons in Hds as [Hd Hds]. cbn [length] in Hroom.
  assert (2 * Z.of_nat capacity * Z.of_nat (S (length targets)) =
    2 * Z.of_nat capacity + 2 * Z.of_nat capacity * Z.of_nat (length targets)) as He by nia.
  rewrite He in Hroom. assert (0 ≤ 2 * Z.of_nat capacity * Z.of_nat (length targets)) by nia.
  intros cancelled _. cbn [do_wcall fst snd]. destruct cancelled; [by eexists|].
  apply wwp_bind. eapply wwp_mono; [|apply runTarget_ends; [done|done|done|lia]].
  intros r w' ([[stats' [err|]] ->] & Hod' & Ho); [by eexists|]. apply IH; [done|done|lia].
Qed.

End ends.

Section theorems.
Context {G : Gateway} {Rd : Reader} (isRegistered : string → bool) (PageSize : Z).

(** C18: A pass of the rebalancer ends although its writes put the manifests it
    works on back at the end of the listing it reads: if no target names one
    backend as source and primary, the loop over the pages of every target comes
    to its end, whichever calls fail and however small the pages are. The bound is
    the number of objects times four more than the largest number of pieces of a
    manifest: a manifest is listed again only after its pieces moved or its phase
    advanced. *)
Theorem rebalance_pass_ends fuel targets faults w P :
  Memory.wf (ww_store w) →
  (∀ k m, Memory.byKey (ww_store w) !! k = Some m → manifest_key m = k ∧ (length (m_Pieces m) ≤ P)%nat) →
  Forall (λ target, tt_SourceBackend target ≠ tt_PrimaryBackend target) targets →
  let bound := ((P + 4) * size (Memory.latest (ww_store w)))%nat in
  Memory.order (ww_store w) + 2 * Z.of_nat bound * Z.of_nat (length targets) < 2 ^ 64 → (bound < fuel)%nat →
  is_Some (wexec put_result (Run isRegistered PageSize fuel true targets) faults w).1.
Proof.
  intros Hwf Hf Hd bound Hroom Hfuel. unfold bound in *. rewrite <- size_dom in *.
  apply (wwp_exec put_result any _ (λ r _, is_Some r)); [done|by apply Forall_true|]. cbn [Run negb].
  by apply (run_targets_end isRegistered PageSize (dom (Memory.latest (ww_store w))) P).
Qed.

End theorems.

Section examples.
#[local] Existing Instance Worm.ex_gateway.

(** Two objects in the phase DualWrite, each with its piece on the old backend. *)
Definition ex_manifest (h : string) : ObjectManifest :=
  mkObjectManifest "t1" "photos" h h "v1" 3 16 "" zero_EncryptionConfig zero_PlacementPolicy
    [mkPiece h "" "wasabi" "" "" "" 0 3 0 0 ""] (mkMigrationState 2 "ceph" "wasabi")
    false ∅ "" "" "" "" "" "" ∅ "" zero_time false zero_time.
Definition ex_store : Memory.Store :=
  Memory.Put (manifest_key (ex_manifest "b")) (ex_manifest "b")
    (Memory.Put (manifest_key (ex_manifest "a")) (ex_manifest "a") Memory.New).
Definition ex_world : WWorld :=
  mkWWorld ex_store ∅ {[("wasabi", "a") := ex_bytes; ("wasabi", "b") := ex_bytes]} ∅
    Sessions.NewMemoryStore (λ _, "") 0.
Definition ex_run (pageSize : Z) : option (Stats * option run_error) * WWorld :=
  wexec put_result (Run (λ _, true) pageSize 11 true [ex_target]) [] ex_world.

Lemma rebalance_pass_ends_witness :
  is_Some (wexec put_result (Run (λ _, true) 1 11 true [ex_target]) [false; true] ex_world).1.
Proof.
  apply (rebalance_pass_ends (λ _, true) 1 11 [ex_target] [false; true] ex_world 1).
  - apply Memory.Put_wf; [apply Memory.Put_wf; [apply Memory.New_wf|done]|done].
  - intros k m. simpl. intros [[<- <-]|[_ [[<- <-]|[_ Hm]]%lookup_insert_Some]]%lookup_insert_Some;
      [by vm_compute; split; [|lia]..|]. by rewrite lookup_empty in Hm.
  - by apply Forall_singleton.
  - by vm_compute.
  - apply Nat.ltb_lt. by vm_compute.
Defined.

(** How far a pass takes a migration depends on the size of the pages. With
    pages that hold the whole bucket, a pass moves each manifest one phase on.
    With pages of one manifest, the manifests it wrote are listed again in the
    same pass, so that one pass takes both objects from DualWrite through the
    backup and the drain phase to LocalOnly, with no time in between. *)
Theorem page_size_decides_phase :
  let phases_after pageSize :=
    omap (λ h, phaseOf <$> Memory.byKey (ww_store (ex_run pageSize).2) !! manifest_key (ex_manifest h)) ["a"; "b"] in
  phases_after 500 = [LocalPrimaryWasabiBackup; LocalPrimaryWasabiBackup] ∧
  phases_after 1 = [LocalOnly; LocalOnly] ∧
  (ex_run 1).1 = Some (mkStats 8 2 6 6 0, None).
Proof. vm_compute. split_and!; reflexivity. Qed.

End examples.
End RebalanceLoop.
