(* ===== verification/Listing.v ===== *)
(** * Listings of a bucket

    The two listings a client asks for (ListObjectsV2 and ListObjectVersions),
    over the in-memory manifest store whose cursors they hand out. A client that
    follows the continuation tokens sees exactly the objects a GET finds; the
    listing of versions is exact up to its first thousand objects and silently
    stops there. *)

From S2P Require Import Prelude Bytes GoStrings Manifest Conditionals ManifestStore ContentIndex.
From S2P Require Import ClientSdk ErasureCoding EncryptionPipeline Fabric Handlers Worm MultipartStore Multipart Workers.
Local Open Scope Z_scope.

Module Listings.
Local Open Scope wprog_scope.

Record ListRequest := mkListRequest {
  lq_auth : result Response string;
  lq_bucket : string;
  lq_hasManifests : bool;                 (* a manifest store is configured *)
  lq_query : Values;
  lq_now : nat → string                   (* the readings of the clock, formatted *)
}.

(** ** ListObjectsV2 *)

Record content := mkContent { ct_Key : string; ct_Size : Z; ct_ETag : string }.

Record ListBucketResult := mkListBucketResult {
  lb_Name : string;
  lb_Contents : list content;
  lb_IsTruncated : bool;
  lb_NextContinuationToken : string
}.

Definition piece_etag (m : ObjectManifest) : string :=
  match m_Pieces m with [] => "" | p :: _ => quote (pieceETag p) end.

(** The row of a manifest; [None] is skipped. *)
Definition content_of (m : ObjectManifest) : option content :=
  if bool_decide (m_ObjectKey m = "") then None
  else if m_DeleteMarker m then None
  else Some (mkContent (m_ObjectKey m) (m_ObjectSize m) (piece_etag m)).

Definition max_keys (q : Values) : Z :=
  let s := Values_Get "max-keys" q in
  if bool_decide (s = "") then 1000
  else match ParseInt s with Some n => if 0 <? n then n else 1000 | None => 1000 end.

Definition listBucket (q : ListRequest) : wprog (result Response ListBucketResult) :=
  match lq_auth q with
  | Err e => WRet (Err e)
  | Ok tenantID =>
      if bool_decide (lq_bucket q = "") then WRet (Err (writeError 400 "InvalidArgument"))
      else if negb (lq_hasManifests q) then WRet (Err (writeError 503 "ServiceUnavailable"))
      else
        page <~ ManList tenantID (lq_bucket q) (Values_Get "continuation-token" (lq_query q)) (max_keys (lq_query q));;
        match page with
        | Err _ => WRet (Err (writeError 500 "ManifestListFailed"))
        | Ok page =>
            WRet (Ok (mkListBucketResult (lq_bucket q) (omap content_of (lr_Manifests page))
                        (negb (bool_decide (lr_NextCursor page = ""))) (lr_NextCursor page)))
        end
  end.

(** ** ListObjectVersions *)

Record ListVersionEntry := mkListVersionEntry {
  lv_Key : string;
  lv_VersionID : string;
  lv_IsLatest : bool;
  lv_LastModified : string;
  lv_ETag : string;
  lv_Size : Z;
  lv_StorageClass : string
}.

Record ListDeleteMarkerEntry := mkListDeleteMarkerEntry {
  ld_Key : string;
  ld_VersionID : string;
  ld_IsLatest : bool;
  ld_LastModified : string
}.

Record ListVersionsResult := mkListVersionsResult {
  lvr_Name : string;
  lvr_Prefix : string;
  lvr_MaxKeys : Z;
  lvr_IsTruncated : bool;
  lvr_Versions : list ListVersionEntry;
  lvr_DeleteMarkers : list ListDeleteMarkerEntry
}.

Definition add_version (now : nat → string) (isLatest : bool) (v : ObjectManifest) (out : ListVersionsResult)
    : ListVersionsResult :=
  let at_ := now (length (lvr_Versions out) + length (lvr_DeleteMarkers out))%nat in
  if m_DeleteMarker v then
    mkListVersionsResult (lvr_Name out) (lvr_Prefix out) (lvr_MaxKeys out) (lvr_IsTruncated out) (lvr_Versions out)
      (lvr_DeleteMarkers out ++ [mkListDeleteMarkerEntry (m_ObjectKey v) (m_VersionID v) isLatest at_])
  else
    mkListVersionsResult (lvr_Name out) (lvr_Prefix out) (lvr_MaxKeys out) (lvr_IsTruncated out)
      (lvr_Versions out ++
         [mkListVersionEntry (m_ObjectKey v) (m_VersionID v) isLatest at_ (piece_etag v) (m_ObjectSize v) "STANDARD"])
      (lvr_DeleteMarkers out).

Fixpoint add_versions (now : nat → string) (i : nat) (vs : list ObjectManifest) (out : ListVersionsResult)
    : ListVersionsResult :=
  match vs with
  | [] => out
  | v :: vs => add_versions now (S i) vs (add_version now (i =? 0)%nat v out)
  end.

Fixpoint list_objects (tenantID bucket prefix : string) (now : nat → string) (latests : list ObjectManifest)
    (out : ListVersionsResult) : wprog (result Response ListVersionsResult) :=
  match latests with
  | [] => WRet (Ok out)
  | latest :: latests =>
      if negb (bool_decide (prefix = "")) && negb (HasPrefix (m_ObjectKey latest) prefix)
      then list_objects tenantID bucket prefix now latests out
      else
        versions <~ ManListVersions tenantID bucket (m_ObjectKeyHash latest);;
        match versions with
        | Err _ => WRet (Err (writeError 500 "ManifestListVersionsFailed"))
        | Ok versions => list_objects tenantID bucket prefix now latests (add_versions now 0 versions out)
        end
  end.

Definition ListObjectVersions (q : ListRequest) : wprog (result Response ListVersionsResult) :=
  match lq_auth q with
  | Err e => WRet (Err e)
  | Ok tenantID =>
      if negb (lq_hasManifests q) then WRet (Err (writeError 503 "ServiceUnavailable"))
      else if bool_decide (lq_bucket q = "") then WRet (Err (writeError 400 "InvalidArgument"))
      else
        let prefix := Values_Get "prefix" (lq_query q) in
        listing <~ ManList tenantID (lq_bucket q) "" 1000;;
        match listing with
        | Err _ => WRet (Err (writeError 500 "ManifestListFailed"))
        | Ok listing =>
            list_objects tenantID (lq_bucket q) prefix (lq_now q) (lr_Manifests listing)
              (mkListVersionsResult (lq_bucket q) prefix 1000 false [] [])
        end
  end.

(** ** Stored names *)

Section lists.
Context {G : Gateway}.

(** Versions are stored under the names their manifests have, as every write of
    the handlers does, and no two of the keys have one hash. *)
Record named (l : VersionLog.log) : Prop := {
  nm_version k m : (k, m) ∈ l → m_VersionID m = k_VersionID k;
  nm_hash k m : (k, m) ∈ l → m_ObjectKeyHash m = k_ObjectKeyHash k ∧ k_ObjectKeyHash k = hashObjectKey (m_ObjectKey m);
  nm_nonempty k m : (k, m) ∈ l → m_ObjectKey m ≠ "";
  nm_injective k m key : (k, m) ∈ l → hashObjectKey key = k_ObjectKeyHash k → key = m_ObjectKey m
}.

Context (t b : string) (s : Memory.Store) (l : VersionLog.log).
Hypothesis Hsim : Memory.sim s l.
Hypothesis Hnamed : named l.

Definition in_bucket (e : ManifestKey * ObjectManifest) : Prop := k_TenantID e.1 = t ∧ k_Bucket e.1 = b.

Lemma current_elem k m :
  (k, m) ∈ VersionLog.current t b l ↔
  in_bucket (k, m) ∧ VersionLog.newest (latest_of k) l = Some k ∧ (k, m) ∈ l.
Proof. unfold VersionLog.current. rewrite list_elem_of_filter. unfold in_bucket. simpl. naive_solver. Qed.

Lemma current_NoDup : NoDup (VersionLog.current t b l).
Proof using Hsim.
  apply NoDup_filter, (NoDup_fmap_1 fst), (Memory.sim_NoDup s l), Hsim.
Qed.

Lemma log_functional k m m' : (k, m) ∈ l → (k, m') ∈ l → m = m'.
Proof using Hsim. rewrite !(Memory.sim_elem s l) by done. congruence. Qed.

(** One current version per object. *)
Lemma current_one e e' :
  e ∈ VersionLog.current t b l → e' ∈ VersionLog.current t b l → latest_of e.1 = latest_of e'.1 → e = e'.
Proof using Hsim.
  destruct e as [k m], e' as [k' m']. rewrite !current_elem. simpl.
  intros (_ & Hn & Hin) (_ & Hn' & Hin') Heq. rewrite Heq, Hn' in Hn. injection Hn as ->.
  by rewrite (log_functional k m m').
Qed.

End lists.

(** ** The listing of objects *)

(** The page with the rows [f] makes of it. *)
Definition page_through {X Y} (f : X → option Y) (r : option (list X * string)) : option (list Y * string) :=
  match r with Some (page, next) => Some (omap f page, next) | None => None end.

Lemma follow_omap {X Y} (fetch : string → option (list X * string)) (f : X → option Y) fuel c (xs : list X) :
  follow fetch fuel c = Some xs →
  follow (λ c, page_through f (fetch c)) fuel c = Some (omap f xs).
Proof.
  revert c xs. induction fuel as [|fuel IH]; intros c xs; simpl; [done|].
  destruct (fetch c) as [[page next]|]; simpl; [|done]. case_bool_decide; [by intros [= ->]|].
  intros (ys & Hy & ->)%fmap_Some. rewrite (IH next ys Hy). simpl. by rewrite omap_app.
Qed.

Lemma follow_ext {X} (f g : string → option (list X * string)) fuel c :
  (∀ c, f c = g c) → follow f fuel c = follow g fuel c.
Proof.
  intros Heq. revert c. induction fuel as [|fuel IH]; intros c; simpl; [done|]. rewrite Heq.
  destruct (g c) as [[]|]; [|done]. by rewrite IH.
Qed.

Lemma omap_of_fmap {A B C} (g : A → B) (f : B → option C) (l : list A) : omap f (g <$> l) = omap (f ∘ g) l.
Proof. induction l as [|x l IH]; [done|]. cbn. destruct (f (g x)); [f_equal|]; exact IH. Qed.

Section objects.
Context {G : Gateway}.

(** The page a client gets for a continuation token, with the token of the next. *)
Definition client_page (q : ListRequest) (w : WWorld) (token : string) : option (list content * string) :=
  let q' := mkListRequest (lq_auth q) (lq_bucket q) (lq_hasManifests q)
              (<["continuation-token" := [token]]> (lq_query q)) (lq_now q) in
  match (wexec put_result (listBucket q') [] w).1 with
  | Ok r => Some (lb_Contents r, if lb_IsTruncated r then lb_NextContinuationToken r else "")
  | Err _ => None
  end.

Lemma client_page_list q t w token :
  lq_auth q = Ok t → lq_bucket q ≠ "" → lq_hasManifests q = true →
  client_page q w token = page_through content_of
    (Memory.list_page (ww_store w) t (lq_bucket q) (max_keys (lq_query q)) token).
Proof.
  intros Ha Hb Hm. unfold client_page, listBucket, Memory.list_page. cbn [lq_auth lq_bucket lq_hasManifests lq_query].
  rewrite Ha, Hm, bool_decide_eq_false_2 by done. cbn [negb wexec do_wcall head default fst snd].
  assert (Values_Get "continuation-token" (<["continuation-token" := [token]]> (lq_query q)) = token) as ->.
  { unfold Values_Get. by rewrite lookup_insert_eq. }
  assert (max_keys (<["continuation-token" := [token]]> (lq_query q)) = max_keys (lq_query q)) as ->.
  { unfold max_keys, Values_Get. by rewrite lookup_insert_ne. }
  destruct (Memory.List _ _ _ _ _) as [r|]; [|done]. simpl. f_equal. f_equal. by case_bool_decide.
Qed.

(** A GET of the key finds a version a client may read. *)
Definition readable (t b key : string) (l : VersionLog.log) (m : ObjectManifest) : Prop :=
  VersionLog.get (mkManifestKey t b (hashObjectKey key) "") l = Ok m ∧ m_DeleteMarker m = false.

Lemma current_get t b s l k m :
  Memory.sim s l → k_TenantID k = t → k_Bucket k = b →
  VersionLog.get (mkManifestKey t b (k_ObjectKeyHash k) "") l = Ok m ↔
  ∃ k', latest_of k' = latest_of k ∧ (k', m) ∈ VersionLog.current t b l.
Proof.
  intros Hs <- <-. unfold VersionLog.get, VersionLog.resolve. simpl.
  change (latest_of {| k_TenantID := k_TenantID k; k_Bucket := k_Bucket k; k_ObjectKeyHash := k_ObjectKeyHash k; k_VersionID := "" |})
    with (latest_of k).
  destruct (VersionLog.newest (latest_of k) l) as [k'|] eqn:Hn; simpl.
  - pose proof (VersionLog.newest_Some _ _ _ Hn) as [Hof _]. rewrite (Memory.sim_find _ _ _ Hs). split.
    + intros Hg. exists k'. split; [done|]. apply current_elem. unfold in_bucket. simpl.
      rewrite Hof, (Memory.sim_elem s l) by done. destruct k, k'. unfold latest_of in Hof. simplify_eq/=.
      by destruct (Memory.byKey s !! _); simplify_eq/=.
    + intros (k2 & Hof2 & Hc). apply current_elem in Hc as (_ & Hn2 & Hin). rewrite Hof2, Hn in Hn2.
      injection Hn2 as <-. apply (Memory.sim_elem s l) in Hin; [|done]. by rewrite Hin.
  - split; [done|]. intros (k2 & Hof2 & Hc). apply current_elem in Hc as (_ & Hn2 & _). rewrite Hof2 in Hn2. congruence.
Qed.

Lemma get_current t b s l key m :
  Memory.sim s l → named l →
  readable t b key l m ↔
  (∃ k, (k, m) ∈ VersionLog.current t b l) ∧ m_ObjectKey m = key ∧ m_DeleteMarker m = false.
Proof.
  intros Hs Hnm. unfold readable.
  pose proof (current_get t b s l (mkManifestKey t b (hashObjectKey key) "") m Hs eq_refl eq_refl) as Hg. simpl in Hg.
  rewrite Hg. split.
  - intros ((k & Hof & Hc) & Hdm). split_and!; [by eauto| |done]. unfold latest_of in Hof. injection Hof as _ _ Hh.
    apply current_elem in Hc as (_ & _ & Hin). symmetry. eapply nm_injective; [done|exact Hin|done].
  - intros ((k & Hc) & <- & Hdm). split; [|done]. exists k. split; [|done].
    apply current_elem in Hc as ([Ht Hb] & _ & Hin). destruct (nm_hash l Hnm k m Hin) as [_ Hh].
    unfold latest_of. simpl in *. by rewrite Ht, Hb, Hh.
Qed.

Lemma keys_NoDup t b s l :
  Memory.sim s l → named l → NoDup (ct_Key <$> omap content_of (VersionLog.current t b l).*2).
Proof.
  intros Hs Hnm. rewrite list_fmap_omap, omap_of_fmap. apply NoDup_omap; [|by eapply current_NoDup].
  intros [k m] [k' m'] key Hc Hc' Hk Hk'. eapply current_one; [done..|].
  assert (m_ObjectKey m = key ∧ m_ObjectKey m' = key) as [<- Hk2].
  { unfold content_of in *. simpl in *. repeat case_match; by simplify_eq/=. }
  apply current_elem in Hc as ([Ht Hb] & _ & Hin). apply current_elem in Hc' as ([Ht' Hb'] & _ & Hin').
  destruct (nm_hash l Hnm _ _ Hin) as [_ Hh], (nm_hash l Hnm _ _ Hin') as [_ Hh'].
  unfold latest_of. simpl in *. by rewrite Ht, Hb, Hh, Ht', Hb', Hh', Hk2.
Qed.

(** C13: a client that lists a bucket by following the continuation tokens, whatever
    number of keys it asks for at a time, ends after at most one request more than
    there are objects and has seen every key once, with the size and the ETag of the version
    a GET of the key finds; and every key a GET finds. *)
Theorem listing_agrees_with_get q t w l :
  lq_auth q = Ok t → lq_bucket q ≠ "" → lq_hasManifests q = true →
  Memory.sim (ww_store w) l → named l →
  ∃ cs, follow (client_page q w) (S (length (VersionLog.current t (lq_bucket q) l))) "" = Some cs ∧
    NoDup (ct_Key <$> cs) ∧
    ∀ key size etag, mkContent key size etag ∈ cs ↔
      ∃ m, readable t (lq_bucket q) key l m ∧ m_ObjectSize m = size ∧ piece_etag m = etag.
Proof.
  intros Ha Hb Hm Hs Hnm. exists (omap content_of (VersionLog.current t (lq_bucket q) l).*2). split_and!.
  - rewrite (follow_ext _ (λ c, page_through content_of
      (Memory.list_page (ww_store w) t (lq_bucket q) (max_keys (lq_query q)) c)));
      [|by intros; apply client_page_list].
    by apply follow_omap, Memory.list_visits_current.
  - by eapply keys_NoDup.
  - intros key size etag. rewrite list_elem_of_omap. setoid_rewrite (get_current _ _ _ _ _ _ Hs Hnm).
    setoid_rewrite list_elem_of_fmap. split.
    + intros (m & ([k m'] & -> & Hin) & Hc). simpl in *. exists m'. unfold content_of in Hc.
      repeat case_match; simplify_eq/=. by eauto 10.
    + intros (m & ((k & Hin) & <- & Hdm) & <- & <-). exists m. split; [by exists (k, m)|].
      unfold content_of. rewrite bool_decide_eq_false_2, Hdm; [done|].
      apply current_elem in Hin as (_ & _ & Hin). by eapply nm_nonempty.
Qed.

End objects.

(** ** The listing of versions *)

Section versions.
Context {G : Gateway} (t b : string) (s : Memory.Store) (l : VersionLog.log).
Hypothesis Hsim : Memory.sim s l.
Hypothesis Hnamed : named l.

(** What a row says of a version: key, version, whether it is the latest, size, ETag. *)
Definition live_facts (e : ListVersionEntry) : string * string * bool * Z * string :=
  (lv_Key e, lv_VersionID e, lv_IsLatest e, lv_Size e, lv_ETag e).
Definition marker_facts (e : ListDeleteMarkerEntry) : string * string * bool :=
  (ld_Key e, ld_VersionID e, ld_IsLatest e).

Definition live_row (v : bool * ObjectManifest) : option (string * string * bool * Z * string) :=
  if m_DeleteMarker v.2 then None
  else Some (m_ObjectKey v.2, m_VersionID v.2, v.1, m_ObjectSize v.2, piece_etag v.2).
Definition marker_row (v : bool * ObjectManifest) : option (string * string * bool) :=
  if m_DeleteMarker v.2 then Some (m_ObjectKey v.2, m_VersionID v.2, v.1) else None.

(** A stored version, with whether a GET of its key finds it. *)
Definition flagged (e : ManifestKey * ObjectManifest) : bool * ObjectManifest :=
  (bool_decide (VersionLog.newest (latest_of e.1) l = Some e.1), e.2).

(** [out] lists the versions [vs] after those of [out0]. *)
Definition appends (out0 : ListVersionsResult) (vs : list (bool * ObjectManifest)) (out : ListVersionsResult) : Prop :=
  live_facts <$> lvr_Versions out = (live_facts <$> lvr_Versions out0) ++ omap live_row vs ∧
  marker_facts <$> lvr_DeleteMarkers out = (marker_facts <$> lvr_DeleteMarkers out0) ++ omap marker_row vs ∧
  lvr_IsTruncated out = lvr_IsTruncated out0.

Lemma appends_trans out1 out2 out3 vs ws : appends out1 vs out2 → appends out2 ws out3 → appends out1 (vs ++ ws) out3.
Proof.
  intros (H1 & H2 & H3) (H4 & H5 & H6). unfold appends. rewrite !omap_app, !app_assoc, H4, H5, H1, H2. naive_solver.
Qed.

Lemma appends_one now i v out : appends out [(i, v)] (add_version now i v out).
Proof.
  unfold appends, add_version, live_row, marker_row. destruct (m_DeleteMarker v) eqn:Hd; cbn; rewrite Hd; cbn;
    rewrite ?fmap_app, ?app_nil_r; done.
Qed.

Lemma appends_later now i vs out :
  appends out (pair false <$> vs) (add_versions now (S i) vs out).
Proof.
  revert i out. induction vs as [|v vs IH]; intros i out.
  - unfold appends. by rewrite !app_nil_r.
  - cbn [add_versions fmap list_fmap]. apply (appends_trans _ (add_version now false v out) _ [(false, v)]);
      [apply appends_one|apply IH].
Qed.

(** The versions of an object, newest first: the first is the one a GET finds. *)
Lemma appends_object now k m out :
  (k, m) ∈ VersionLog.current t b l →
  appends out (flagged <$> reverse (VersionLog.versions (latest_of k) l))
    (add_versions now 0 (VersionLog.list_versions (latest_of k) l) out).
Proof using Hsim.
  intros (_ & Hn & _)%current_elem. unfold VersionLog.list_versions.
  pose proof Hn as Hn'. unfold VersionLog.newest in Hn'. apply fmap_Some in Hn' as ([k' m'] & Hl & Hk). simplify_eq/=.
  apply last_Some in Hl as (xs & Hxs). rewrite Hxs, fmap_app, !reverse_app. cbn [reverse rev_append app fmap list_fmap].
  assert (NoDup (VersionLog.versions (latest_of k') l).*1) as Hnd.
  { eapply sublist_NoDup; [by apply (Memory.sim_NoDup s l)|]. apply fmap_sublist, sublist_filter. }
  assert (flagged <$> reverse xs = pair false <$> reverse xs.*2) as Hrest.
  { rewrite <- fmap_reverse, <- list_fmap_compose. apply list_fmap_ext. intros i [k2 m2] Hi.
    apply list_elem_of_lookup_2 in Hi. rewrite elem_of_reverse in Hi. unfold flagged. simpl. f_equal.
    apply bool_decide_eq_false_2. intros Hn2.
    assert (latest_of k2 = latest_of k') as Hof.
    { assert ((k2, m2) ∈ VersionLog.versions (latest_of k') l) as [? _]%list_elem_of_filter; [|done].
      rewrite Hxs, elem_of_app. by left. }
    rewrite Hof, Hn in Hn2. injection Hn2 as ->. rewrite Hxs, fmap_app, NoDup_app in Hnd.
    destruct Hnd as (_ & Hdisj & _). apply (Hdisj k2); [by apply (list_elem_of_fmap_2 fst) in Hi|].
    simpl. by apply list_elem_of_singleton. }
  cbn [add_versions]. simpl. rewrite Hrest. unfold flagged at 1. simpl. rewrite bool_decide_eq_true_2 by done.
  apply (appends_trans _ (add_version now true m' out) _ [(true, m')]); [apply appends_one|apply appends_later].
Qed.

(** The objects the prefix selects. *)
Definition selects (prefix : string) (m : ObjectManifest) : Prop :=
  prefix = "" ∨ HasPrefix (m_ObjectKey m) prefix = true.
#[local] Instance selects_dec prefix m : Decision (selects prefix m).
Proof. unfold selects. apply _. Defined.

Definition versions_of (es : VersionLog.log) : VersionLog.log :=
  concat ((λ e, reverse (VersionLog.versions (latest_of e.1) l)) <$> es).

Lemma objects_appended prefix now es out faults w :
  ww_store w = s → (∀ e, e ∈ es → e ∈ VersionLog.current t b l) →
  let '(res, w') := wexec put_result (list_objects t b prefix now es.*2 out) faults w in
  w' = w ∧ match res with
           | Ok r => appends out (flagged <$> versions_of (filter (λ e, selects prefix e.2) es)) r
           | Err _ => Exists (λ f, f = true) faults
           end.
Proof using Hsim Hnamed.
  intros Hw. revert out faults. induction es as [|[k m] es IH]; intros out faults Hes.
  { simpl. split; [done|]. unfold appends. by rewrite !app_nil_r. }
  assert ((k, m) ∈ VersionLog.current t b l) as Hin by (apply Hes; by left).
  assert (∀ e, e ∈ es → e ∈ VersionLog.current t b l) as Hes' by (intros; apply Hes; by right).
  cbn [fmap list_fmap list_objects snd]. rewrite filter_cons. simpl.
  destruct (negb (bool_decide (prefix = "")) && negb (HasPrefix (m_ObjectKey m) prefix)) eqn:Hp.
  - rewrite decide_False; [by apply IH|]. apply andb_true_iff in Hp as [Hp1%negb_true_iff Hp2%negb_true_iff].
    bool_facts. unfold selects. rewrite Hp2. naive_solver.
  - rewrite decide_True.
    2:{ unfold selects. apply andb_false_iff in Hp as [?%negb_false_iff|?%negb_false_iff]; bool_facts; auto. }
    pose proof (proj1 (current_elem t b l k m) Hin) as ([Ht Hb] & _ & Hl). simpl in Ht, Hb.
    cbn [wexec do_wcall]. destruct (default false (head faults)) eqn:Hf; cbn [fst snd wexec].
    { split; [done|]. destruct faults; simplify_eq/=. by left. }
    rewrite Hw, (Memory.sim_ListVersions _ _ _ s l Hsim), (proj1 (nm_hash l Hnamed k m Hl)).
    replace (mkLatestKey t b (k_ObjectKeyHash k)) with (latest_of k) by (unfold latest_of; by rewrite Ht, Hb).
    specialize (IH (add_versions now 0 (VersionLog.list_versions (latest_of k) l) out) (tail faults) Hes').
    destruct (wexec _ _ (tail faults) w) as [[r|] w']; destruct IH as [-> IH]; (split; [done|]).
    + unfold versions_of. cbn [fmap list_fmap concat]. rewrite fmap_app.
      eapply appends_trans; [by eapply appends_object|exact IH].
    + destruct faults; [done|]. by right.
Qed.

Lemma first_page limit :
  0 < limit →
  ∃ next, Memory.List s t b "" limit = Ok (mkListResult (take (Z.to_nat limit) (VersionLog.current t b l)).*2 next).
Proof using Hsim.
  intros Hlim. unfold Memory.List. rewrite (proj2 (Z.leb_gt limit 0)) by done. rewrite bool_decide_eq_true_2 by done.
  rewrite (Memory.list_rows_current t b 0 s l Hsim) by done. fold (Memory.rows_after s t b l 0).
  rewrite (Memory.rows_after_0 s) by done.
  destruct (Z.ltb_spec limit (Z.of_nat (length (Memory.row_of s <$> VersionLog.current t b l)))) as [Hlt|Hge].
  - eexists. do 2 f_equal. by rewrite <- fmap_take, Memory.row_manifest_of.
  - eexists. do 2 f_equal. rewrite Memory.row_manifest_of, take_ge; [done|]. rewrite length_fmap in Hge. lia.
Qed.

Lemma elem_of_versions_of x es :
  x ∈ versions_of es ↔ ∃ e, e ∈ es ∧ x ∈ VersionLog.versions (latest_of e.1) l.
Proof.
  unfold versions_of. induction es as [|e es IH]; cbn [fmap list_fmap concat].
  - split; [by intros ?%elem_of_nil|intros (? & []%elem_of_nil & _)].
  - rewrite elem_of_app, elem_of_reverse, IH. setoid_rewrite elem_of_cons. naive_solver.
Qed.

Lemma current_length : length (VersionLog.current t b l) = length (Memory.list_rows s t b 0).
Proof using Hsim.
  rewrite (Memory.list_rows_current t b 0 s l Hsim) by done. fold (Memory.rows_after s t b l 0).
  by rewrite (Memory.rows_after_0 s), length_fmap by done.
Qed.

(** The versions of the bucket, grouped by object. *)
Lemma versions_grouped (P : ManifestKey * ObjectManifest → Prop) `{!∀ e, Decision (P e)} :
  (∀ e e', e ∈ l → e' ∈ l → latest_of e.1 = latest_of e'.1 → P e → P e') →
  versions_of (filter P (VersionLog.current t b l)) ≡ₚ filter (λ e, in_bucket t b e ∧ P e) l.
Proof using Hsim.
  intros HP. apply NoDup_Permutation.
  - unfold versions_of. pose proof (NoDup_filter P _ (current_NoDup t b s l Hsim)) as Hnd.
    assert (∀ e, e ∈ filter P (VersionLog.current t b l) → e ∈ VersionLog.current t b l) as Hsub.
    { intros e He. by apply list_elem_of_filter in He as [_ ?]. }
    induction Hnd as [|e es Hnin Hnd IH]; [constructor|]. cbn [fmap list_fmap concat]. apply NoDup_app. split_and!.
    + rewrite reverse_Permutation. apply NoDup_filter, (NoDup_fmap_1 fst), (Memory.sim_NoDup s l Hsim).
    + intros x Hx (e' & He' & Hx')%elem_of_versions_of. rewrite elem_of_reverse in Hx. apply list_elem_of_filter in Hx as [Hx _], Hx' as [Hx' _].
      destruct Hnin. rewrite (current_one t b s l Hsim e e'); [done|apply Hsub; by left|apply Hsub; by right|congruence].
    + apply IH. intros x Hx. apply Hsub. by right.
  - apply NoDup_filter, (NoDup_fmap_1 fst), (Memory.sim_NoDup s l Hsim).
  - intros [k m]. rewrite list_elem_of_filter, elem_of_versions_of. split.
    + intros (e & He & Hx).
      apply list_elem_of_filter in Hx as [Hof Hl], He as [HPe He]. destruct e as [k' m'].
      apply current_elem in He as ([Ht Hb] & Hn & Hin). simpl in *. split; [|done]. split.
      * unfold latest_of in Hof. injection Hof as Hof1 Hof2 _. unfold in_bucket. simpl. by rewrite Hof1, Hof2.
      * by apply (HP (k', m')).
    + intros ([[Ht Hb] HPe] & Hl). simpl in *.
      destruct (VersionLog.newest (latest_of k) l) as [k'|] eqn:Hn.
      2:{ exfalso. unfold VersionLog.newest in Hn. apply fmap_None, last_None in Hn.
          assert ((k, m) ∈ VersionLog.versions (latest_of k) l) as Hin by by apply list_elem_of_filter.
          rewrite Hn in Hin. by apply elem_of_nil in Hin. }
      pose proof (VersionLog.newest_Some _ _ _ Hn) as [Hof ([k2 m2] & -> & Hin)%list_elem_of_fmap]. simpl in *.
      exists (k2, m2). split; [|by apply list_elem_of_filter]. apply list_elem_of_filter.
      split; [by apply (HP (k, m))|]. apply current_elem. unfold in_bucket. simpl. rewrite Hof.
      unfold latest_of in Hof. injection Hof as Hof1 Hof2 _. by rewrite Hof1, Hof2.
Qed.

Lemma selects_object prefix e e' :
  e ∈ l → e' ∈ l → latest_of e.1 = latest_of e'.1 → selects prefix e.2 → selects prefix e'.2.
Proof using Hnamed.
  destruct e as [k m], e' as [k' m']. simpl. intros Hin Hin' Hof. unfold latest_of in Hof. injection Hof as _ _ Hh.
  destruct (nm_hash l Hnamed k m Hin) as [_ Hk]. unfold selects.
  by rewrite (nm_injective l Hnamed k' m' (m_ObjectKey m) Hin') by congruence.
Qed.

(** The object after the first thousand has no row. *)
Lemma unlisted_object prefix k m :
  VersionLog.current t b l !! 1000%nat = Some (k, m) →
  ¬ ∃ v, v ∈ flagged <$> versions_of (filter (λ e, selects prefix e.2) (take 1000 (VersionLog.current t b l))) ∧
      m_ObjectKey v.2 = m_ObjectKey m.
Proof using Hsim Hnamed.
  intros Hk (v & ((k' & m') & -> & Hv)%list_elem_of_fmap & Hkey). simpl in Hkey.
  apply elem_of_versions_of in Hv as (e & [_ He]%list_elem_of_filter & [Hof Hl]%list_elem_of_filter). simpl in Hof.
  apply list_elem_of_lookup in He as (i & Hi). apply lookup_take_Some in Hi as [Hi Hlt].
  pose proof (list_elem_of_lookup_2 _ _ _ Hk) as Hin. pose proof (list_elem_of_lookup_2 _ _ _ Hi) as Hin'.
  destruct e as [k2 m2]. simpl in Hof.
  pose proof Hin as ([Ht Hb] & _ & Hkl)%current_elem. pose proof Hin' as ([Ht' Hb'] & _ & Hkl')%current_elem.
  assert (latest_of k2 = latest_of k) as Hsame.
  { destruct (nm_hash l Hnamed k m Hkl) as [_ Hh], (nm_hash l Hnamed k' m' Hl) as [_ Hh'].
    unfold latest_of in *. simpl in *. injection Hof as _ _ Hh2. congruence. }
  pose proof (current_one t b s l Hsim (k2, m2) (k, m) Hin' Hin Hsame) as Heq. rewrite Heq in Hi.
  pose proof (NoDup_lookup _ _ _ _ (current_NoDup t b s l Hsim) Hi Hk). lia.
Qed.

(** What the listing says, with any call failing. *)
Lemma versions_listed q faults w :
  lq_auth q = Ok t → lq_bucket q = b → b ≠ "" → lq_hasManifests q = true → ww_store w = s →
  let prefix := Values_Get "prefix" (lq_query q) in
  let '(res, w') := wexec put_result (ListObjectVersions q) faults w in
  w' = w ∧ match res with
           | Ok r =>
               let vs := flagged <$> versions_of (filter (λ e, selects prefix e.2) (take 1000 (VersionLog.current t b l))) in
               live_facts <$> lvr_Versions r = omap live_row vs ∧
               marker_facts <$> lvr_DeleteMarkers r = omap marker_row vs ∧ lvr_IsTruncated r = false
           | Err _ => Exists (λ f, f = true) faults
           end.
Proof using Hsim Hnamed.
  intros Ha Hb Hne Hm Hw prefix. unfold ListObjectVersions. rewrite Ha, Hm, Hb, bool_decide_eq_false_2 by done.
  cbn [negb wexec do_wcall]. destruct (default false (head faults)) eqn:Hf; cbn [fst snd wexec].
  { split; [done|]. destruct faults; simplify_eq/=. by left. }
  destruct (first_page 1000) as [next Hp]; [done|]. rewrite Hw, Hp. cbn [lr_Manifests]. fold prefix.
  pose proof (objects_appended prefix (lq_now q) (take 1000 (VersionLog.current t b l))
    (mkListVersionsResult b prefix 1000 false [] []) (tail faults) w Hw) as H.
  change (Z.to_nat 1000) with 1000%nat.
  destruct (wexec _ _ (tail faults) w) as [res w'].
  destruct H as [-> H]; [intros e He; by eapply subseteq_take|]. split; [done|].
  destruct res as [r|]; [exact H|]. destruct faults; [done|]. by right.
Qed.

End versions.

Section theorems.
Context {G : Gateway}.


(** Beyond a thousand objects the listing of versions is cut off without saying so. Some
    stored version of the bucket is in no row, the answer is 200 and IsTruncated
    is false, and there is no marker to ask for the rest with. *)
Theorem versions_listing_drops_objects q t w l :
  lq_auth q = Ok t → lq_bucket q ≠ "" → lq_hasManifests q = true →
  Memory.sim (ww_store w) l → named l →
  (1000 < length (VersionLog.current t (lq_bucket q) l))%nat →
  ∃ r, (wexec put_result (ListObjectVersions q) [] w).1 = Ok r ∧ lvr_IsTruncated r = false ∧
    ∃ k m, (k, m) ∈ l ∧ in_bucket t (lq_bucket q) (k, m) ∧
      m_ObjectKey m ∉ lv_Key <$> lvr_Versions r ∧ m_ObjectKey m ∉ ld_Key <$> lvr_DeleteMarkers r.
Proof.
  intros Ha Hb Hm Hs Hnm Hlen.
  pose proof (versions_listed t _ _ _ Hs Hnm q [] w Ha eq_refl Hb Hm eq_refl) as H.
  destruct (wexec put_result (ListObjectVersions q) [] w) as [[r|e] w']; [|destruct H as [_ H]; by apply Exists_nil in H].
  destruct H as (_ & Hv & Hd & Ht). exists r. split; [done|]. split; [done|].
  set (cur := VersionLog.current t (lq_bucket q) l) in *.
  destruct (lookup_lt_is_Some_2 cur 1000 Hlen) as [[k m] Hk].
  pose proof (list_elem_of_lookup_2 _ _ _ Hk) as Hcur. pose proof Hcur as (Hbk & _ & Hin)%current_elem.
  exists k, m. split_and!; [done|done|..].
  - intros Hkey. apply (unlisted_object t (lq_bucket q) _ l Hs Hnm (Values_Get "prefix" (lq_query q)) k m Hk).
    assert (m_ObjectKey m ∈ (λ f, f.1.1.1.1) <$> (live_facts <$> lvr_Versions r)) as Hkey'.
    { by rewrite <- list_fmap_compose. }
    rewrite Hv in Hkey'. apply list_elem_of_fmap in Hkey' as (f & -> & (v & Hvin & Hrow)%list_elem_of_omap).
    exists v. split; [done|]. unfold live_row in Hrow. by case_match; simplify_eq/=.
  - intros Hkey. apply (unlisted_object t (lq_bucket q) _ l Hs Hnm (Values_Get "prefix" (lq_query q)) k m Hk).
    assert (m_ObjectKey m ∈ (λ f, f.1.1) <$> (marker_facts <$> lvr_DeleteMarkers r)) as Hkey'.
    { by rewrite <- list_fmap_compose. }
    rewrite Hd in Hkey'. apply list_elem_of_fmap in Hkey' as (f & -> & (v & Hvin & Hrow)%list_elem_of_omap).
    exists v. split; [done|]. unfold marker_row in Hrow. by case_match; simplify_eq/=.
Qed.

End theorems.

(** ** Examples *)

Section examples.
#[local] Existing Instance Worm.ex_gateway.

(** A version of a key: its id, and whether it is a delete marker. *)
Definition ex_entry (r : string * string * bool) : ManifestKey * ObjectManifest :=
  let '(key, v, marker) := r in
  (mkManifestKey "t1" "photos" (hashObjectKey key) v,
   mkObjectManifest "t1" "photos" key (hashObjectKey key) v 3 3 "" zero_EncryptionConfig
     (mkPlacementPolicy [] [] 0 false "" "" None None) [] (mkMigrationState 1 "" "") marker ∅
     "" "" "" "" "" "" ∅ "" zero_time false 0).
Definition ex_store (rows : list (string * string * bool)) : Memory.Store :=
  foldl (λ s r, Memory.Put (ex_entry r).1 (ex_entry r).2 s) Memory.New rows.
Definition ex_log (rows : list (string * string * bool)) : VersionLog.log :=
  foldl (λ l r, VersionLog.put (ex_entry r).1 (ex_entry r).2 l) [] rows.
Definition ex_world (rows : list (string * string * bool)) : WWorld :=
  mkWWorld (ex_store rows) ∅ ∅ ∅ Sessions.NewMemoryStore (λ _, "") 0.
Definition ex_request (query : Values) : ListRequest := mkListRequest (Ok "t1") "photos" true query (λ _, "now").

Lemma ex_sim rows :
  Z.of_nat (length rows) < 2 ^ 63 →
  Memory.sim (ex_store rows) (ex_log rows) ∧ Memory.order (ex_store rows) = Z.of_nat (length rows).
Proof.
  unfold ex_store, ex_log. induction rows as [|r rows IH] using rev_ind; intros Hlen.
  { split; [apply Memory.sim_New|done]. }
  rewrite length_app in *. cbn [length] in *. rewrite !foldl_app. cbn [foldl]. destruct IH as [Hs Ho]; [lia|].
  assert (Memory.has_room (foldl (λ s r, Memory.Put (ex_entry r).1 (ex_entry r).2 s) Memory.New rows)) as Hroom.
  { unfold Memory.has_room. rewrite Ho. lia. }
  split; [by apply Memory.sim_Put|]. rewrite Memory.Put_order by apply Hroom || apply (Memory.sim_wf _ _ Hs). lia.
Qed.

Lemma ex_log_rows rows e : e ∈ ex_log rows → ∃ r, r ∈ rows ∧ e = ex_entry r.
Proof.
  unfold ex_log. induction rows as [|r rows IH] using rev_ind; [by intros ?%elem_of_nil|].
  rewrite foldl_app. cbn [foldl]. unfold VersionLog.put.
  intros [[_ He]%list_elem_of_filter|He%list_elem_of_singleton]%elem_of_app.
  - destruct (IH He) as (r' & ? & ?). exists r'. rewrite elem_of_app. auto.
  - exists r. rewrite elem_of_app, list_elem_of_singleton. split; [by right|]. rewrite He. by destruct (ex_entry r).
Qed.

Lemma ex_named rows : Forall (λ r, r.1.1 ≠ "") rows → named (ex_log rows).
Proof.
  intros Hne. rewrite Forall_forall in Hne.
  assert (∀ k m, (k, m) ∈ ex_log rows → ∃ key v marker, key ≠ "" ∧ (k, m) = ex_entry (key, v, marker)) as H.
  { intros k m (r & Hr & He)%ex_log_rows. destruct r as [[key v] marker]. exists key, v, marker. split; [|done].
    by apply (Hne _ Hr). }
  split.
  - intros k m (key & v & marker & _ & He)%H. by simplify_eq/=.
  - intros k m (key & v & marker & _ & He)%H. by simplify_eq/=.
  - intros k m (key & v & marker & ? & He)%H. by simplify_eq/=.
  - intros k m key' (key & v & marker & _ & He)%H Hk. by simplify_eq/=.
Qed.

Definition ex_rows : list (string * string * bool) :=
  [("cat", "v1", false); ("dog", "v1", false); ("cat", "v2", false); ("cow", "v1", false); ("dog", "v2", true)].

Lemma listing_agrees_with_get_witness :
  follow (client_page (ex_request {["max-keys" := ["1"]]}) (ex_world ex_rows)) 4 "" =
    Some [mkContent "cat" 3 ""; mkContent "cow" 3 ""] ∧
  ∃ cs, follow (client_page (ex_request {["max-keys" := ["1"]]}) (ex_world ex_rows))
          (S (length (VersionLog.current "t1" "photos" (ex_log ex_rows)))) "" = Some cs ∧
    NoDup (ct_Key <$> cs) ∧
    ∀ key size etag, mkContent key size etag ∈ cs ↔
      ∃ m, readable "t1" "photos" key (ex_log ex_rows) m ∧ m_ObjectSize m = size ∧ piece_etag m = etag.
Proof.
  split; [vm_compute; reflexivity|].
  apply (listing_agrees_with_get (ex_request {["max-keys" := ["1"]]}) "t1" (ex_world ex_rows) (ex_log ex_rows));
    [done..|by apply ex_sim|apply ex_named; repeat constructor; done].
Defined.


Definition ex_many : list (string * string * bool) :=
  (λ i, (FormatUint i, "v1", false)) <$> seqZ 0 1001.

Lemma versions_listing_drops_objects_witness :
  ∃ r, (wexec put_result (ListObjectVersions (ex_request ∅)) [] (ex_world ex_many)).1 = Ok r ∧
    lvr_IsTruncated r = false ∧
    ∃ k m, (k, m) ∈ ex_log ex_many ∧ in_bucket "t1" "photos" (k, m) ∧
      m_ObjectKey m ∉ lv_Key <$> lvr_Versions r ∧ m_ObjectKey m ∉ ld_Key <$> lvr_DeleteMarkers r.
Proof.
  apply (versions_listing_drops_objects (ex_request ∅) "t1" (ex_world ex_many) (ex_log ex_many));
    [done..| | |].
  - apply ex_sim. vm_compute. reflexivity.
  - apply ex_named, Forall_forall. intros r (i & -> & _)%list_elem_of_fmap. apply FormatUint_nonempty.
  - rewrite (current_length _ _ (ex_store ex_many)) by (apply ex_sim; vm_compute; reflexivity).
    apply Nat.ltb_lt. vm_compute. reflexivity.
Defined.

End examples.
End Listings.
