(* ===== verification/KeyWrapping.v ===== *)
(** * Key wrapping (encryption/envelope.go, encryption/client_sdk/wrap.go,
    kms_wrapper.go, vault_wrapper.go)

    The three wrappers that seal a data encryption key under a customer master
    key: a local key file, AWS KMS and Vault's Transit engine. The file, the KMS
    client and the HTTP client with its JSON decoding are parameters; base64 and
    the escaping of a path segment are those of Go's standard library. *)

From S2P Require Import Prelude Bytes GoStrings ClientSdk EncryptionPipeline.
Local Open Scope Z_scope.

(** ** The envelope *)

Record CustomerMasterKeyRef := mkCustomerMasterKeyRef {
  cmk_URI : string;
  cmk_Version : Z;
  cmk_HolderClass : string
}.

Record EncryptionEnvelope := mkEncryptionEnvelope {
  env_Mode : string;
  env_DEK : WrappedDEK;
  env_CMK : CustomerMasterKeyRef;
  env_ManifestEncrypted : bool
}.

(** [EncryptionMode.Valid] *)
Definition EncryptionMode_Valid (m : string) : bool :=
  bool_decide (m = StrictZK) || bool_decide (m = ManagedEncrypted) || bool_decide (m = PublicDistribution).

Inductive envelope_error := UnknownMode | KeyIDRequired | AlgorithmRequired | URIRequired | HolderRequired.

(** [EncryptionEnvelope.Validate]; [None] is no error. *)
Definition Envelope_Validate (e : EncryptionEnvelope) : option envelope_error :=
  if negb (EncryptionMode_Valid (env_Mode e)) then Some UnknownMode
  else if bool_decide (wd_KeyID (env_DEK e) = "") then Some KeyIDRequired
  else if bool_decide (wd_Algorithm (env_DEK e) = "") then Some AlgorithmRequired
  else if bool_decide (env_Mode e = PublicDistribution) then None
  else if bool_decide (cmk_URI (env_CMK e) = "") then Some URIRequired
  else if bool_decide (cmk_HolderClass (env_CMK e) = "") then Some HolderRequired
  else None.

(** ** Base64 *)

Definition base64_digit (n : N) : ascii :=
  if (n <? 26)%N then ascii_of_N (65 + n)
  else if (n <? 52)%N then ascii_of_N (71 + n)
  else if (n <? 62)%N then ascii_of_N (n - 4)
  else if (n =? 62)%N then "+" else "/".

Definition base64_value (c : ascii) : option N :=
  let n := N_of_ascii c in
  if (65 <=? n)%N && (n <=? 90)%N then Some (n - 65)%N
  else if (97 <=? n)%N && (n <=? 122)%N then Some (n - 71)%N
  else if (48 <=? n)%N && (n <=? 57)%N then Some (n + 4)%N
  else if bool_decide (c = "+"%char) then Some 62%N
  else if bool_decide (c = "/"%char) then Some 63%N
  else None.

(** [base64.StdEncoding.EncodeToString] *)
Fixpoint base64Encode (b : bytes) : string :=
  match b with
  | [] => ""
  | [x] =>
      let n := (N_of_ascii x * 65536)%N in
      String (base64_digit (n / 262144)) (String (base64_digit (n / 4096 mod 64)) "==")
  | [x; y] =>
      let n := (N_of_ascii x * 65536 + N_of_ascii y * 256)%N in
      String (base64_digit (n / 262144)) (String (base64_digit (n / 4096 mod 64))
        (String (base64_digit (n / 64 mod 64)) "="))
  | x :: y :: z :: b =>
      let n := (N_of_ascii x * 65536 + N_of_ascii y * 256 + N_of_ascii z)%N in
      String (base64_digit (n / 262144)) (String (base64_digit (n / 4096 mod 64))
        (String (base64_digit (n / 64 mod 64)) (String (base64_digit (n mod 64)) (base64Encode b))))
  end.

Definition group_bytes (n : N) : bytes := [ascii_of_N (n / 65536); ascii_of_N (n / 256 mod 256); ascii_of_N (n mod 256)].

(** Quartets of digits; padding only ends the last one. *)
Fixpoint base64_groups (s : string) : option bytes :=
  match s with
  | "" => Some []
  | String a (String b (String c (String d s))) =>
      va ← base64_value a; vb ← base64_value b;
      if bool_decide (c = "="%char) then
        if bool_decide (d = "="%char) && bool_decide (s = "")
        then Some (take 1 (group_bytes (va * 262144 + vb * 4096)%N)) else None
      else
        vc ← base64_value c;
        if bool_decide (d = "="%char) then
          if bool_decide (s = "") then Some (take 2 (group_bytes (va * 262144 + vb * 4096 + vc * 64)%N)) else None
        else
          vd ← base64_value d;
          rest ← base64_groups s;
          Some (group_bytes (va * 262144 + vb * 4096 + vc * 64 + vd)%N ++ rest)
  | _ => None
  end.

(** [base64.StdEncoding.DecodeString]: line breaks are skipped. *)
Fixpoint drop_newlines (s : string) : string :=
  match s with
  | "" => ""
  | String c s =>
      if bool_decide (c = "010"%char) || bool_decide (c = "013"%char) then drop_newlines s
      else String c (drop_newlines s)
  end.
Definition base64Decode (s : string) : option bytes := base64_groups (drop_newlines s).

(** *** Decoding undoes encoding *)

Definition digit_ok (n : N) : bool :=
  bool_decide (base64_value (base64_digit n) = Some n) && negb (bool_decide (base64_digit n = "="%char))
  && negb (bool_decide (base64_digit n = "010"%char)) && negb (bool_decide (base64_digit n = "013"%char)).

Lemma digits_ok : forallb digit_ok (N.of_nat <$> seq 0 64) = true.
Proof. by vm_compute. Qed.

Lemma digit_facts n :
  (n < 64)%N →
  base64_value (base64_digit n) = Some n ∧ base64_digit n ≠ "="%char ∧
  base64_digit n ≠ "010"%char ∧ base64_digit n ≠ "013"%char.
Proof.
  intros Hn. pose proof digits_ok as H. rewrite forallb_forall in H. specialize (H n).
  unfold digit_ok in H. rewrite !andb_true_iff, !negb_true_iff, !bool_decide_eq_true, !bool_decide_eq_false in H.
  destruct H as [[[? ?] ?] ?]; [|done]. apply list_elem_of_In, list_elem_of_fmap.
  exists (N.to_nat n). split; [by rewrite N2Nat.id|]. apply elem_of_seq. lia.
Qed.

Lemma byte_lt c : (N_of_ascii c < 256)%N.
Proof. apply N_ascii_bounded. Qed.

Lemma group_split n :
  (n / 262144 * 262144 + n / 4096 mod 64 * 4096 + n / 64 mod 64 * 64 + n mod 64 = n)%N.
Proof. zify. Z.to_euclidean_division_equations. lia. Qed.

Lemma group_bytes_of x y z :
  group_bytes (N_of_ascii x * 65536 + N_of_ascii y * 256 + N_of_ascii z)%N = [x; y; z].
Proof.
  pose proof (byte_lt x). pose proof (byte_lt y). pose proof (byte_lt z). unfold group_bytes.
  assert ((N_of_ascii x * 65536 + N_of_ascii y * 256 + N_of_ascii z) / 65536 = N_of_ascii x)%N as ->
    by (zify; Z.to_euclidean_division_equations; lia).
  assert ((N_of_ascii x * 65536 + N_of_ascii y * 256 + N_of_ascii z) / 256 mod 256 = N_of_ascii y)%N as ->
    by (zify; Z.to_euclidean_division_equations; lia).
  assert ((N_of_ascii x * 65536 + N_of_ascii y * 256 + N_of_ascii z) mod 256 = N_of_ascii z)%N as ->
    by (zify; Z.to_euclidean_division_equations; lia).
  by rewrite !ascii_N_embedding.
Qed.

Lemma digit_of_group x y z :
  let n := (N_of_ascii x * 65536 + N_of_ascii y * 256 + N_of_ascii z)%N in
  (n / 262144 < 64)%N ∧ (n / 4096 mod 64 < 64)%N ∧ (n / 64 mod 64 < 64)%N ∧ (n mod 64 < 64)%N.
Proof.
  pose proof (byte_lt x). pose proof (byte_lt y). pose proof (byte_lt z). intros n. unfold n.
  split_and!; zify; Z.to_euclidean_division_equations; lia.
Qed.

Lemma drop_newlines_keep c s :
  c ≠ "010"%char → c ≠ "013"%char → drop_newlines (String c s) = String c (drop_newlines s).
Proof. intros. simpl. by rewrite !bool_decide_eq_false_2. Qed.

Lemma base64_roundtrip_len n b : (length b ≤ n)%nat → base64Decode (base64Encode b) = Some b.
Proof.
  revert b. induction n as [|n IH]; intros b Hlen; [by destruct b; simpl in *; [|lia]|].
  assert (N_of_ascii zero_byte = 0%N) as Hz by done.
  destruct b as [|x [|y [|z b]]]; [done|..]; unfold base64Decode.
  - pose proof (digit_of_group x zero_byte zero_byte) as (H1 & H2 & _). rewrite Hz in H1, H2. simpl in H1, H2.
    rewrite N.add_0_r, N.add_0_r in H1, H2.
    destruct (digit_facts _ H1) as (V1 & ? & ? & ?), (digit_facts _ H2) as (V2 & ? & ? & ?).
    cbn [base64Encode]. rewrite !drop_newlines_keep by done. cbn [drop_newlines base64_groups].
    simpl bool_decide. cbv iota. rewrite V1, V2. cbn [mbind option_bind].
    pose proof (group_split (N_of_ascii x * 65536)) as Hs.
    assert (N_of_ascii x * 65536 / 64 mod 64 = 0)%N as E1 by (zify; Z.to_euclidean_division_equations; lia).
    assert (N_of_ascii x * 65536 mod 64 = 0)%N as E2 by (zify; Z.to_euclidean_division_equations; lia).
    rewrite E1, E2 in Hs. replace (_ * 262144 + _)%N with (N_of_ascii x * 65536 + N_of_ascii zero_byte * 256 + N_of_ascii zero_byte)%N
      by (rewrite Hz; lia). by rewrite group_bytes_of.
  - pose proof (digit_of_group x y zero_byte) as (H1 & H2 & H3 & _). rewrite Hz in H1, H2, H3. simpl in H1, H2, H3.
    rewrite N.add_0_r in H1, H2, H3.
    destruct (digit_facts _ H1) as (V1 & ? & ? & ?), (digit_facts _ H2) as (V2 & ? & ? & ?),
      (digit_facts _ H3) as (V3 & ? & ? & ?).
    cbn [base64Encode]. rewrite !drop_newlines_keep by done. cbn [drop_newlines base64_groups].
    simpl bool_decide. cbv iota. rewrite V1, V2, V3. cbn [mbind option_bind]. rewrite bool_decide_eq_false_2 by done.
    pose proof (group_split (N_of_ascii x * 65536 + N_of_ascii y * 256)) as Hs.
    assert ((N_of_ascii x * 65536 + N_of_ascii y * 256) mod 64 = 0)%N as E2
      by (zify; Z.to_euclidean_division_equations; lia).
    rewrite E2 in Hs. replace (_ * 262144 + _ + _)%N with (N_of_ascii x * 65536 + N_of_ascii y * 256 + N_of_ascii zero_byte)%N
      by (rewrite Hz; lia). by rewrite group_bytes_of.
  - pose proof (digit_of_group x y z) as (H1 & H2 & H3 & H4). cbv zeta in H1, H2, H3, H4.
    destruct (digit_facts _ H1) as (V1 & ? & ? & ?), (digit_facts _ H2) as (V2 & ? & ? & ?),
      (digit_facts _ H3) as (V3 & ? & ? & ?), (digit_facts _ H4) as (V4 & ? & ? & ?).
    cbn [base64Encode]. rewrite !drop_newlines_keep by done. cbn [base64_groups].
    rewrite V1, V2, V3, V4. cbn [mbind option_bind]. rewrite !bool_decide_eq_false_2 by done.
    specialize (IH b). unfold base64Decode in IH. rewrite IH by (simpl in Hlen; lia). cbn [mbind option_bind].
    by rewrite group_split, group_bytes_of.
Qed.

Lemma base64_roundtrip b : base64Decode (base64Encode b) = Some b.
Proof. by apply (base64_roundtrip_len (length b)). Qed.

Lemma base64Encode_nonempty b : b ≠ [] → base64Encode b ≠ "".
Proof. by destruct b as [|x [|y [|z b]]]. Qed.

(** [url.PathEscape] *)
Definition path_plain (c : ascii) : bool :=
  let n := N_of_ascii c in
  ((97 <=? n)%N && (n <=? 122)%N) || ((65 <=? n)%N && (n <=? 90)%N) || ((48 <=? n)%N && (n <=? 57)%N)
  || bool_decide (c ∈ ["-"; "_"; "."; "~"; "$"; "&"; "+"; "="; ":"; "@"]%char).

Definition upper_hex (n : N) : ascii := if (n <? 10)%N then ascii_of_N (48 + n) else ascii_of_N (55 + n).

Fixpoint PathEscape (s : string) : string :=
  match s with
  | "" => ""
  | String c s =>
      if path_plain c then String c (PathEscape s)
      else String "%" (String (upper_hex (N_of_ascii c / 16)) (String (upper_hex (N_of_ascii c mod 16)) (PathEscape s)))
  end.

Module Wrap.

Inductive wrap_error :=
| PathRequired | KeyFileUnreadable | KeyFileSize | DEKSize | NonceFailed
| UnknownWrapAlgorithm | Truncated | UnwrapFailed
| ClientRequired | KeyURIRequired | EmptyDEK | EmptyCiphertext | EmptyWrappedKey | EmptyPlaintext
| ServiceFailed | KeyMismatch | AddressRequired | TokenRequired | MissingField | BadBase64.

Definition LocalWrapAlgorithm : string := "xchacha20-poly1305-wrap-v1".
Definition KMSWrapAlgorithm : string := "aws-kms-wrap-v1".
Definition VaultWrapAlgorithm : string := "vault-transit-wrap-v1".
Definition DefaultVaultMount : string := "transit".

Section wrappers.
Context {A : AEAD} (sha256 : bytes → bytes).

Definition string_bytes (s : string) : bytes := String.list_ascii_of_string s.

Definition dekKeyID (dek : bytes) (cmk : CustomerMasterKeyRef) : string :=
  String.app "dek-" (hexEncode (take 16 (sha256
    (dek ++ [zero_byte] ++ string_bytes (cmk_URI cmk) ++ [zero_byte] ++ string_bytes (FormatInt (cmk_Version cmk)))))).

(** ** The local key file; [readFile] is [os.ReadFile] *)

Context (readFile : string → option bytes).

Definition loadMasterKey (path : string) : result wrap_error bytes :=
  if bool_decide (path = "") then Err PathRequired
  else match readFile path with
       | None => Err KeyFileUnreadable
       | Some data => if negb (blen data =? KeySize) then Err KeyFileSize else Ok data
       end.

(** [LocalFileWrapper.WrapDEK]; [nonce] is what reading the random source gives. *)
Definition local_WrapDEK (path : string) (nonce : option bytes) (dek : bytes) (cmk : CustomerMasterKeyRef)
    : result wrap_error WrappedDEK :=
  if negb (blen dek =? KeySize) then Err DEKSize
  else match loadMasterKey path with
  | Err e => Err e
  | Ok master =>
      match nonce with
      | None => Err NonceFailed
      | Some nonce =>
          let sealed := aead_Seal master nonce dek (string_bytes (cmk_URI cmk)) in
          Ok (mkWrappedDEK (dekKeyID dek cmk) ContentAlgorithm (nonce ++ sealed) LocalWrapAlgorithm)
      end
  end.

Definition local_UnwrapDEK (path : string) (wrapped : WrappedDEK) (cmk : CustomerMasterKeyRef)
    : result wrap_error bytes :=
  if bool_decide (wd_WrapAlgorithm wrapped ≠ LocalWrapAlgorithm) then Err UnknownWrapAlgorithm
  else match loadMasterKey path with
  | Err e => Err e
  | Ok master =>
      if blen (wd_WrappedKey wrapped) <? NonceSizeX then Err Truncated
      else
        let nonce := take (Z.to_nat NonceSizeX) (wd_WrappedKey wrapped) in
        let ct := drop (Z.to_nat NonceSizeX) (wd_WrappedKey wrapped) in
        match aead_Open master nonce ct (string_bytes (cmk_URI cmk)) with
        | None => Err UnwrapFailed
        | Some dek => Ok dek
        end
  end.

(** ** AWS KMS *)

(** [KMSAPI]: Encrypt takes the KeyId and the plaintext, Decrypt an optional
    KeyId and the blob and reports the plaintext with the id of the key. *)
Record KMSAPI := mkKMSAPI {
  kms_Encrypt : string → bytes → option bytes;
  kms_Decrypt : option string → bytes → option (bytes * option string)
}.

Definition normalizeKMSKeyID (uri : string) : string :=
  if (6 <? String.length uri)%nat && HasPrefix uri "kms://" then default uri (CutPrefix "kms://" uri) else uri.

Definition hasSuffix (s suffix : string) : bool :=
  if bool_decide (suffix = "") || (String.length s <? String.length suffix)%nat then false
  else bool_decide (drop (String.length s - String.length suffix) (string_bytes s) = string_bytes suffix).

Definition kmsKeyIDsEqual (a b : string) : bool :=
  if bool_decide (a = b) then true else hasSuffix a b || hasSuffix b a.

Definition kms_WrapDEK (client : option KMSAPI) (dek : bytes) (cmk : CustomerMasterKeyRef)
    : result wrap_error WrappedDEK :=
  match client with
  | None => Err ClientRequired
  | Some client =>
      if bool_decide (cmk_URI cmk = "") then Err KeyURIRequired
      else if blen dek =? 0 then Err EmptyDEK
      else match kms_Encrypt client (normalizeKMSKeyID (cmk_URI cmk)) dek with
      | None => Err ServiceFailed
      | Some blob =>
          if blen blob =? 0 then Err EmptyCiphertext
          else Ok (mkWrappedDEK (dekKeyID dek cmk) ContentAlgorithm blob KMSWrapAlgorithm)
      end
  end.

Definition kms_UnwrapDEK (client : option KMSAPI) (wrapped : WrappedDEK) (cmk : CustomerMasterKeyRef)
    : result wrap_error bytes :=
  match client with
  | None => Err ClientRequired
  | Some client =>
      if bool_decide (wd_WrapAlgorithm wrapped ≠ KMSWrapAlgorithm) then Err UnknownWrapAlgorithm
      else if blen (wd_WrappedKey wrapped) =? 0 then Err EmptyWrappedKey
      else
        let expectedKey := normalizeKMSKeyID (cmk_URI cmk) in
        match kms_Decrypt client (if bool_decide (expectedKey = "") then None else Some expectedKey)
                (wd_WrappedKey wrapped) with
        | None => Err ServiceFailed
        | Some (plaintext, keyId) =>
            if blen plaintext =? 0 then Err EmptyPlaintext
            else match keyId with
                 | Some keyId =>
                     if negb (bool_decide (expectedKey = "")) && negb (kmsKeyIDsEqual keyId expectedKey)
                     then Err KeyMismatch else Ok plaintext
                 | None => Ok plaintext
                 end
        end
  end.

(** ** Vault *)

Record VaultWrapper := mkVaultWrapper {
  vw_Address : string;
  vw_Token : string;
  vw_Mount : string;
  vw_Namespace : string
}.

(** A response of the server: its status, and its body decoded as JSON: the
    string fields of [data] and the errors. [None] is a body that is not JSON. *)
Record VaultReply := mkVaultReply {
  vr_Status : Z;
  vr_Body : option (gmap string string * list string)
}.

(** The HTTP client: URL, token and namespace headers, and the fields of the
    JSON body; [None] is a transport error. *)
Context (http_Do : string → string → string → gmap string string → option VaultReply).

Definition vault_mount (w : VaultWrapper) : string :=
  if bool_decide (vw_Mount w = "") then DefaultVaultMount else vw_Mount w.

(** [strings.TrimRight(s, "/")] *)
Fixpoint trim_slashes_front (s : string) : string :=
  match s with
  | String c s' => if bool_decide (c = "/"%char) then trim_slashes_front s' else s
  | "" => ""
  end.
Definition TrimRightSlash (s : string) : string := string_rev (trim_slashes_front (string_rev s "")) "".

(** [VaultWrapper.do]: the string fields of [data]. *)
Definition vault_do (w : VaultWrapper) (path : string) (payload : gmap string string)
    : option (gmap string string) :=
  match http_Do (String.app (TrimRightSlash (vw_Address w)) path) (vw_Token w) (vw_Namespace w) payload with
  | None => None
  | Some reply =>
      match vr_Body reply with
      | None => None
      | Some (data, _) => if vr_Status reply / 100 =? 2 then Some data else None
      end
  end.

Definition normalizeVaultKeyName (uri : string) : string :=
  match CutPrefix "vault://" uri with
  | Some name => name
  | None => match CutPrefix "transit://" uri with Some name => name | None => uri end
  end.

Definition vault_path (w : VaultWrapper) (op keyName : string) : string :=
  String.app "/v1/" (String.app (vault_mount w) (String.app op (PathEscape keyName))).

Definition vault_WrapDEK (w : VaultWrapper) (dek : bytes) (cmk : CustomerMasterKeyRef)
    : result wrap_error WrappedDEK :=
  if bool_decide (vw_Address w = "") then Err AddressRequired
  else if bool_decide (vw_Token w = "") then Err TokenRequired
  else if blen dek =? 0 then Err EmptyDEK
  else
    let keyName := normalizeVaultKeyName (cmk_URI cmk) in
    if bool_decide (keyName = "") then Err KeyURIRequired
    else match vault_do w (vault_path w "/encrypt/" keyName) {["plaintext" := base64Encode dek]} with
    | None => Err ServiceFailed
    | Some data =>
        let ciphertext := default "" (data !! "ciphertext") in
        if bool_decide (ciphertext = "") then Err MissingField
        else Ok (mkWrappedDEK (dekKeyID dek cmk) ContentAlgorithm (string_bytes ciphertext) VaultWrapAlgorithm)
    end.

Definition vault_UnwrapDEK (w : VaultWrapper) (wrapped : WrappedDEK) (cmk : CustomerMasterKeyRef)
    : result wrap_error bytes :=
  if bool_decide (wd_WrapAlgorithm wrapped ≠ VaultWrapAlgorithm) then Err UnknownWrapAlgorithm
  else if bool_decide (vw_Address w = "") || bool_decide (vw_Token w = "") then Err AddressRequired
  else
    let keyName := normalizeVaultKeyName (cmk_URI cmk) in
    if bool_decide (keyName = "") then Err KeyURIRequired
    else match vault_do w (vault_path w "/decrypt/" keyName)
                 {["ciphertext" := String.string_of_list_ascii (wd_WrappedKey wrapped)]} with
    | None => Err ServiceFailed
    | Some data =>
        let plain := default "" (data !! "plaintext") in
        if bool_decide (plain = "") then Err MissingField
        else match base64Decode plain with None => Err BadBase64 | Some dek => Ok dek end
    end.

(** ** Wrapping is undone *)

Lemma local_unwrap_wrap {AL : AEADLaws} path nonce dek cmk wr :
  (∀ n, nonce = Some n → blen n = NonceSizeX) →
  local_WrapDEK path nonce dek cmk = Ok wr → local_UnwrapDEK path wr cmk = Ok dek.
Proof.
  intros Hn. unfold local_WrapDEK, local_UnwrapDEK. destruct (negb _); [done|].
  destruct (loadMasterKey path) as [master|]; [|done]. destruct nonce as [nonce|]; [|done].
  specialize (Hn nonce eq_refl). intros [= <-]. simpl.
  assert (length nonce = Z.to_nat NonceSizeX) as Hl by (unfold blen in Hn; lia).
  rewrite (proj2 (Z.ltb_ge _ _)) by (unfold blen in *; rewrite length_app; lia).
  rewrite <- Hl, take_app_length, drop_app_length. by rewrite aead_Open_Seal.
Qed.

(** What the KMS service documents: Decrypt gives back what Encrypt sealed and
    reports the ARN of the key, whichever id, ARN or alias the request named. *)
Definition kms_law (client : KMSAPI) (arn : string → string) : Prop :=
  ∀ key p blob, kms_Encrypt client key p = Some blob →
    kms_Decrypt client (Some key) blob = Some (p, Some (arn key)).

Lemma kms_unwrap_wrap client arn dek cmk wr :
  kms_law client arn →
  kms_WrapDEK (Some client) dek cmk = Ok wr →
  kms_UnwrapDEK (Some client) wr cmk =
    if kmsKeyIDsEqual (arn (normalizeKMSKeyID (cmk_URI cmk))) (normalizeKMSKeyID (cmk_URI cmk))
    then Ok dek else Err KeyMismatch.
Proof.
  intros Hlaw. unfold kms_WrapDEK, kms_UnwrapDEK. case_bool_decide as Huri; [done|].
  destruct (Z.eqb_spec (blen dek) 0) as [|Hdek]; [done|].
  destruct (kms_Encrypt _ _ _) as [blob|] eqn:He; [|done].
  destruct (Z.eqb_spec (blen blob) 0) as [|Hblob]; [done|]. intros [= <-]. simpl.
  rewrite (proj2 (Z.eqb_neq _ _) Hblob).
  assert (normalizeKMSKeyID (cmk_URI cmk) ≠ "") as Hne.
  { unfold normalizeKMSKeyID. destruct (_ && _) eqn:Hp; [|done]. apply andb_true_iff in Hp as [Hl Hp].
    apply bool_decide_eq_true_1 in Hp as [rest Hrest]. rewrite Hrest. simpl.
    apply CutPrefix_Some in Hrest. rewrite Hrest in Hl. intros ->. by vm_compute in Hl. }
  rewrite bool_decide_eq_false_2 by done. rewrite (Hlaw _ _ _ He), (proj2 (Z.eqb_neq _ _) Hdek). simpl.
  by destruct (kmsKeyIDsEqual _ _).
Qed.

(** What Transit documents: decrypting the ciphertext of a plaintext under the
    same key gives the plaintext. *)
Definition transit_law (w : VaultWrapper) : Prop :=
  ∀ key p data c,
    vault_do w (vault_path w "/encrypt/" key) {["plaintext" := p]} = Some data → data !! "ciphertext" = Some c →
    ∃ data', vault_do w (vault_path w "/decrypt/" key) {["ciphertext" := c]} = Some data' ∧
      data' !! "plaintext" = Some p.

Lemma vault_unwrap_wrap w dek cmk wr :
  transit_law w → vault_WrapDEK w dek cmk = Ok wr → vault_UnwrapDEK w wr cmk = Ok dek.
Proof.
  intros Hlaw. unfold vault_WrapDEK, vault_UnwrapDEK.
  case_bool_decide as Ha; [done|]. case_bool_decide as Ht; [done|].
  destruct (Z.eqb_spec (blen dek) 0) as [|Hdek]; [done|]. case_bool_decide as Hk; [done|].
  destruct (vault_do _ _ _) as [data|] eqn:Hd; [|done]. case_bool_decide as Hc; [done|]. intros [= <-]. simpl.
  unfold string_bytes.
  rewrite String.string_of_list_ascii_of_string.
  destruct (data !! "ciphertext") as [c|] eqn:Hc'; simpl in *; [|done].
  destruct (Hlaw _ _ _ _ Hd Hc') as (data' & -> & Hp). rewrite Hp. simpl.
  rewrite bool_decide_eq_false_2, base64_roundtrip; [done|].
  apply base64Encode_nonempty. intros ->. done.
Qed.

(** *** KMS aliases *)

Lemma kmsKeyIDsEqual_suffix a b :
  kmsKeyIDsEqual a b = true →
  (∃ x, string_bytes a = x ++ string_bytes b) ∨ (∃ x, string_bytes b = x ++ string_bytes a).
Proof.
  assert (∀ s t, hasSuffix s t = true → ∃ x, string_bytes s = x ++ string_bytes t) as Hsuf.
  { intros s t. unfold hasSuffix. destruct (_ || _); [done|]. intros Ht%bool_decide_eq_true_1.
    eexists. by rewrite <- Ht, take_drop. }
  unfold kmsKeyIDsEqual. case_bool_decide as He; [intros _; left; exists []; by rewrite He|].
  intros [?%Hsuf|?%Hsuf]%orb_true_iff; [by left|by right].
Qed.

Lemma last_slash (l1 l2 r1 r2 : bytes) c :
  c ∉ r1 → c ∉ r2 → l1 ++ c :: r1 = l2 ++ c :: r2 → l1 = l2.
Proof.
  revert l2. induction l1 as [|x l1 IH]; intros [|y l2] H1 H2 He; simplify_eq/=; [done| | |].
  - destruct H1. apply elem_of_app. right. by left.
  - destruct H2. apply elem_of_app. right. by left.
  - f_equal. by apply IH.
Qed.

Definition slash : ascii := "/".

(** The ARN of a key never matches an alias of the key. *)
Lemma alias_mismatch arn pre id name :
  string_bytes arn = pre ++ string_bytes "key" ++ slash :: id → slash ∉ id →
  slash ∉ string_bytes name →
  kmsKeyIDsEqual arn (String.app "alias/" name) = false.
Proof.
  intros Harn Hid Hname. apply not_true_is_false. intros Heq%kmsKeyIDsEqual_suffix.
  assert (string_bytes (String.app "alias/" name) = string_bytes "alias" ++ slash :: string_bytes name) as Hal by done.
  assert (∀ x y, x ++ string_bytes "key" = y ++ string_bytes "alias" → False) as Hno.
  { intros x y He. apply (f_equal last) in He. unfold string_bytes in He. simpl in He.
    rewrite !last_app in He. by simpl in He. }
  rewrite Hal, Harn in Heq. destruct Heq as [[x He]|[x He]]; rewrite ?app_assoc in He.
  - apply last_slash in He; [|done..]. by apply Hno in He.
  - apply last_slash in He; [|done..]. symmetry in He. by apply (Hno _ []) in He.
Qed.

End wrappers.

(** ** The wrapper of a gateway *)

Section gateway.
Context {A : AEAD} {AL : AEADLaws} (sha256 : bytes → bytes) (readFile : string → option bytes).
Context (http_Do : string → string → string → gmap string string → option VaultReply).
Context (cmk : CustomerMasterKeyRef).

Inductive Wrapper :=
| LocalFileWrapper (path : string)
| KMSWrapper (client : option KMSAPI)
| VaultTransit (w : VaultWrapper).

Definition ok {E X} (r : result E X) : option X := match r with Ok x => Some x | Err _ => None end.

(** [io.ReadFull] of a nonce: the whole nonce or an error. *)
Definition read_nonce (n : bytes) : option bytes := if blen n =? NonceSizeX then Some n else None.

Definition wrap (w : Wrapper) (nonce dek : bytes) : option WrappedDEK :=
  ok match w with
     | LocalFileWrapper path => local_WrapDEK sha256 readFile path (read_nonce nonce) dek cmk
     | KMSWrapper client => kms_WrapDEK sha256 client dek cmk
     | VaultTransit v => vault_WrapDEK sha256 http_Do v dek cmk
     end.

Definition unwrap (w : Wrapper) (wrapped : WrappedDEK) : option bytes :=
  ok match w with
     | LocalFileWrapper path => local_UnwrapDEK readFile path wrapped cmk
     | KMSWrapper client => kms_UnwrapDEK client wrapped cmk
     | VaultTransit v => vault_UnwrapDEK http_Do v wrapped cmk
     end.

(** What each wrapper relies on: the file is the same when it is read again; the
    services decrypt what they encrypted, and the KMS key is configured by its
    ARN or by its id. *)
Definition service_law (w : Wrapper) : Prop :=
  match w with
  | LocalFileWrapper _ => True
  | KMSWrapper client => ∀ c, client = Some c → ∃ arn, kms_law c arn ∧
      kmsKeyIDsEqual (arn (normalizeKMSKeyID (cmk_URI cmk))) (normalizeKMSKeyID (cmk_URI cmk)) = true
  | VaultTransit v => transit_law http_Do v
  end.


(** A KMS key that is configured by an alias, which the code supports by its
    comments, wraps keys that it never unwraps: KMS reports the ARN of the key
    with every Decrypt, the ARN is not the alias nor ends in it, and UnwrapDEK
    takes this for another key. Every object written this way is unreadable. *)
Theorem kms_alias_is_unreadable client arn pre id name nonce dek wr :
  kms_law client arn → normalizeKMSKeyID (cmk_URI cmk) = String.app "alias/" name →
  string_bytes (arn (String.app "alias/" name)) = pre ++ string_bytes "key" ++ slash :: id →
  slash ∉ id → slash ∉ string_bytes name →
  wrap (KMSWrapper (Some client)) nonce dek = Some wr →
  kms_UnwrapDEK (Some client) wr cmk = Err KeyMismatch ∧ unwrap (KMSWrapper (Some client)) wr = None.
Proof using.
  intros Hlaw Huri Harn Hid Hname Hw.
  assert (kms_UnwrapDEK (Some client) wr cmk = Err KeyMismatch) as Hu.
  { unfold wrap in Hw. destruct (kms_WrapDEK _ _ _ _) as [wr'|] eqn:He; [|done]. cbn [ok] in Hw. injection Hw as <-.
    rewrite (kms_unwrap_wrap sha256 client arn dek cmk wr' Hlaw He), Huri.
    by rewrite (alias_mismatch _ pre id name). }
  split; [done|]. unfold unwrap. by rewrite Hu.
Qed.

End gateway.

Section examples.

#[local] Existing Instances Sdk.plain_aead Sdk.plain_aead_laws.

(** A KMS with one key, which has an alias, and the identity for a cipher. *)
Definition ex_arn : string := "arn:aws:kms:eu-west-1:111122223333:key/1234abcd".
Definition ex_kms : KMSAPI := mkKMSAPI (λ _ p, Some p) (λ _ c, Some (c, Some ex_arn)).
Definition ex_dek : bytes := replicate 32 "k"%char.
Definition ex_cmk (uri : string) : CustomerMasterKeyRef := mkCustomerMasterKeyRef uri 1 "gateway_hsm".
Definition ex_http (url token namespace : string) (body : gmap string string) : option VaultReply := None.
Definition ex_file (path : string) : option bytes := Some (replicate 32 "m"%char).

Lemma ex_kms_law : kms_law ex_kms (λ _, ex_arn).
Proof. intros key p blob. simpl. by intros [= ->]. Qed.


Lemma kms_alias_is_unreadable_witness :
  ∃ wr, wrap id ex_file ex_http (ex_cmk "alias/zkof") (KMSWrapper (Some ex_kms)) [] ex_dek = Some wr ∧
    kms_UnwrapDEK (Some ex_kms) wr (ex_cmk "alias/zkof") = Err KeyMismatch ∧
    unwrap ex_file ex_http (ex_cmk "alias/zkof") (KMSWrapper (Some ex_kms)) wr = None.
Proof.
  eexists. split; [reflexivity|].
  apply (kms_alias_is_unreadable id ex_file ex_http (ex_cmk "alias/zkof") ex_kms (λ _, ex_arn)
    (string_bytes "arn:aws:kms:eu-west-1:111122223333:") (string_bytes "1234abcd") "zkof" [] ex_dek);
    [apply ex_kms_law|reflexivity|reflexivity|by apply (bool_decide_unpack _); vm_compute
    |by apply (bool_decide_unpack _); vm_compute|reflexivity].
Defined.

End examples.
End Wrap.
