(* ===== verification/BodyEncryption.v ===== *)
(** * Encryption of manifest bodies (metadata/manifest_store/body_encryptor.go)

    [AEADBodyEncryptor] seals the JSON of a manifest bound to its row, and the
    SQLite store marshals and seals on the way in and opens and unmarshals on the
    way out: the body codec that [SqliteManifests] takes as an interface. The AEAD
    is the parameter of [ClientSdk]; encoding/json is a parameter with the round
    trip of a manifest. *)

From S2P Require Import Prelude Bytes Manifest ManifestStore SqliteManifests ClientSdk.
Local Open Scope Z_scope.

Module Body.

Inductive body_error := BadBodyKey | BodyNonceFailed | BodyTooShort | BodyOpenFailed.

Definition pipe : ascii := "|".
Definition field (s : string) : bytes := String.list_ascii_of_string s.

Definition bodyContextAAD (c : BodyContext) : bytes :=
  if bool_decide (bc_TenantID c = "") && bool_decide (bc_Bucket c = "") && bool_decide (bc_ObjectKeyHash c = "")
  then []
  else field (bc_TenantID c) ++ pipe :: field (bc_Bucket c) ++ pipe :: field (bc_ObjectKeyHash c).

Section encryptor.
Context {A : AEAD}.

(** [NewAEADBodyEncryptor]: an encryptor is its key. *)
Definition NewAEADBodyEncryptor (key : bytes) : result body_error bytes :=
  if negb (blen key =? KeySize) then Err BadBodyKey else Ok key.

(** [Encrypt]; [nonce] is what the random source gives. *)
Definition Encrypt (key : bytes) (nonce : option bytes) (plaintext : bytes) (ctx : BodyContext)
    : result body_error bytes :=
  match nonce with
  | None => Err BodyNonceFailed
  | Some nonce => Ok (nonce ++ aead_Seal key nonce plaintext (bodyContextAAD ctx))
  end.

Definition Decrypt (key ciphertext : bytes) (ctx : BodyContext) : result body_error bytes :=
  if blen ciphertext <? NonceSizeX + Overhead then Err BodyTooShort
  else
    let nonce := take (Z.to_nat NonceSizeX) ciphertext in
    let body := drop (Z.to_nat NonceSizeX) ciphertext in
    let aad := bodyContextAAD ctx in
    match aead_Open key nonce body aad with
    | Some plaintext => Ok plaintext
    | None =>
        if bool_decide (aad = []) then Err BodyOpenFailed
        else match aead_Open key nonce body [] with
             | Some plaintext => Ok plaintext
             | None => Err BodyOpenFailed
             end
    end.

Lemma body_roundtrip {AL : AEADLaws} key nonce p ctx ct :
  (∀ n, nonce = Some n → blen n = NonceSizeX) →
  Encrypt key nonce p ctx = Ok ct → Decrypt key ct ctx = Ok p.
Proof.
  intros Hn. destruct nonce as [nonce|]; [|done]. specialize (Hn nonce eq_refl). intros [= <-]. unfold Decrypt.
  assert (length nonce = Z.to_nat NonceSizeX) as Hl by (unfold blen in Hn; lia).
  pose proof (aead_Seal_length key nonce p (bodyContextAAD ctx)) as Hs. pose proof (blen_nonneg p).
  rewrite (proj2 (Z.ltb_ge _ _)) by (unfold blen in *; rewrite length_app; lia).
  rewrite <- Hl, take_app_length, drop_app_length. by rewrite aead_Open_Seal.
Qed.

End encryptor.

(** ** A body is bound to its row *)

Lemma aad_empty c :
  bodyContextAAD c = [] → bc_TenantID c = "" ∧ bc_Bucket c = "" ∧ bc_ObjectKeyHash c = "".
Proof.
  unfold bodyContextAAD. repeat case_bool_decide; try done; simpl; destruct (field (bc_TenantID c)); done.
Qed.

Lemma field_inj s t : field s = field t → s = t.
Proof.
  unfold field. intros He. rewrite <- (String.string_of_list_ascii_of_string s), He.
  apply String.string_of_list_ascii_of_string.
Qed.

Lemma first_pipe (l1 l2 r1 r2 : bytes) :
  pipe ∉ l1 → pipe ∉ l2 → l1 ++ pipe :: r1 = l2 ++ pipe :: r2 → l1 = l2 ∧ r1 = r2.
Proof.
  revert l2. induction l1 as [|x l1 IH]; intros [|y l2] H1 H2 He; simplify_eq/=; [done| | |].
  - destruct H2. by left.
  - destruct H1. by left.
  - destruct (IH l2) as [-> ->]; [set_solver..|done|done].
Qed.

Lemma last_pipe (l1 l2 r1 r2 : bytes) :
  pipe ∉ r1 → pipe ∉ r2 → l1 ++ pipe :: r1 = l2 ++ pipe :: r2 → l1 = l2 ∧ r1 = r2.
Proof.
  revert l2. induction l1 as [|x l1 IH]; intros [|y l2] H1 H2 He; simplify_eq/=; [done| | |].
  - destruct H1. apply elem_of_app. right. by left.
  - destruct H2. apply elem_of_app. right. by left.
  - destruct (IH l2) as [-> ->]; done.
Qed.

(** The tenant and the key hash delimit the bucket. *)
Definition plain (c : BodyContext) : Prop :=
  bc_TenantID c ≠ "" ∧ pipe ∉ field (bc_TenantID c) ∧ pipe ∉ field (bc_ObjectKeyHash c).

Lemma aad_inj c c' : plain c → plain c' → bodyContextAAD c = bodyContextAAD c' → c = c'.
Proof.
  intros (Ht & Hp & Hh) (Ht' & Hp' & Hh') He. unfold bodyContextAAD in He.
  rewrite (bool_decide_eq_false_2 (bc_TenantID c = "")), (bool_decide_eq_false_2 (bc_TenantID c' = "")) in He by done.
  simpl in He. apply first_pipe in He as [H1 He]; [|done..]. apply last_pipe in He as [H2 H3]; [|done..].
  destruct c, c'. simpl in *. apply field_inj in H1, H2, H3. congruence.
Qed.

Section bound.
Context {A : AEAD} (key : bytes).

(** The bodies that were ever sealed under the key, and that nobody else can
    seal: what opens under the key was sealed, with the same additional data. *)
Definition authentic (sealed : list (BodyContext * bytes)) : Prop :=
  ∀ nonce c a p, aead_Open key nonce c a = Some p → ∃ ctx, (ctx, p) ∈ sealed ∧ a = bodyContextAAD ctx.


End bound.

(** ** The body codec of the SQLite store *)

Section codec.
Context {A : AEAD} {AL : AEADLaws}.
(** [json.Marshal] and [json.Unmarshal] of a manifest, and the encryptor. The
    nonces are those the random source gives for the bodies. *)
Context (Marshal : ObjectManifest → option bytes) (Unmarshal : bytes → option ObjectManifest).
Context (encryptor : option bytes) (nonce : BodyContext → ObjectManifest → option bytes).
Hypothesis Hjson : ∀ m b, Marshal m = Some b → Unmarshal b = Some m.
Hypothesis Hnonce : ∀ c m n, nonce c m = Some n → blen n = NonceSizeX.

Definition seal_body (c : BodyContext) (m : ObjectManifest) : option bytes :=
  match Marshal m with
  | None => None
  | Some body =>
      match encryptor with
      | None => Some body
      | Some key => match Encrypt key (nonce c m) body c with Ok ct => Some ct | Err _ => None end
      end
  end.

Definition decodeBody (c : BodyContext) (body : bytes) : option ObjectManifest :=
  match encryptor with
  | None => Unmarshal body
  | Some key => match Decrypt key body c with Ok opened => Unmarshal opened | Err _ => None end
  end.

Lemma decodeBody_seal_body c m b : seal_body c m = Some b → decodeBody c b = Some m.
Proof using AL Hjson Hnonce.
  unfold seal_body, decodeBody. destruct (Marshal m) as [body|] eqn:Hm; [|done].
  destruct encryptor as [key|]; [|intros [= <-]; by apply Hjson].
  destruct (Encrypt key (nonce c m) body c) as [ct|] eqn:He; [|done]. intros [= <-].
  rewrite (body_roundtrip key (nonce c m) body c ct); [by apply Hjson|by apply Hnonce|done].
Qed.

(** The store of [SqliteManifests] with this codec. *)
#[export] Instance sqlite_codec : BodyCodec bytes := {
  seal := seal_body;
  SqliteManifests.decodeBody := decodeBody;
  decodeBody_seal := decodeBody_seal_body
}.

End codec.

Section examples.

(** A cipher that appends key-independent tags naming the additional data. *)
#[local] Instance tag_aead : AEAD := {
  aead_Seal _ _ p a := p ++ take 16 (a ++ replicate 16 zero_byte);
  aead_Open _ _ c a :=
    if bool_decide (drop (length c - 16) c = take 16 (a ++ replicate 16 zero_byte)) && bool_decide (a = field "t1|photos|a")
       && bool_decide (take (length c - 16) c = field "doc")
    then Some (take (length c - 16) c) else None;
  hkdf_Read _ _ _ _ := None
}.

Definition ex_ctx : BodyContext := mkBodyContext "t1" "photos" "a".
Definition ex_body : bytes := replicate 24 "n"%char ++ aead_Seal [] [] (field "doc") (bodyContextAAD ex_ctx).


End examples.
End Body.
