(* ===== verification/Routing.v ===== *)
(** * Routing of requests

    The dispatcher of the S3 handler: which operation a request reaches, by its
    method, its path and the keys of its query. The sub-resources the gateway
    does not have are refused before anything else is looked at; the theorems
    say which requests reach the two operations that destroy data, and that a
    DELETE addressed to some of the sub-resources deletes the object itself. *)

From S2P Require Import Prelude Bytes GoStrings Manifest ManifestStore ContentIndex ObjectLock ClientSdk ErasureCoding.
From S2P Require Import EncryptionPipeline Fabric Handlers Tagging.
Local Open Scope Z_scope.

Module Routing.

(** The operations, and the refusals of the dispatcher itself. *)
Inductive operation :=
| handleCORSPreflight
| UploadPart | PutObjectTagging | PutBucketVersioning | PutObjectLockConfiguration | PutBucketCors
| PutBucketLifecycleConfiguration | PutBucketNotificationConfiguration | PutBucketEncryption
| PutObjectRetention | PutObjectLegalHold | PutBucket | Copy | Put
| CreateMultipartUpload | CompleteMultipartUpload
| GetObjectTagging | GetObjectLockConfiguration | GetBucketCors | GetBucketLifecycleConfiguration
| GetBucketNotificationConfiguration | GetBucketEncryption | GetObjectRetention | GetObjectLegalHold
| ListMultipartUploads | GetBucketVersioning | ListObjectVersions | listBucket | Get
| HeadBucket | Head
| AbortMultipartUpload | DeleteObjectTagging | DeleteBucketCors | DeleteBucketLifecycleConfiguration
| DeleteBucketEncryption | Delete
| Refuse (status : Z) (code : string).

#[export] Instance operation_eq_dec : EqDecision operation.
Proof. solve_decision. Defined.

Record Request := mkRequest {
  rq_Method : string;
  rq_Path : string;
  rq_Query : Values;
  rq_Header : Header
}.

(** [url.Values.Has] *)
Definition Has (q : Values) (key : string) : bool := bool_decide (is_Some (q !! key)).

(** The keys are those of [unsupportedSubresources], in their order. *)
Definition unsupportedSubresourceKeys : list string :=
  ["accelerate"; "acl"; "analytics"; "intelligent-tiering"; "inventory"; "logging"; "metrics";
   "ownershipControls"; "policy"; "publicAccessBlock"; "replication"; "requestPayment"; "website"].

Definition rejectUnsupportedSubresource (q : Values) : option operation :=
  match filter (λ key, Has q key = true) unsupportedSubresourceKeys with
  | [] => None
  | _ :: _ => Some (Refuse 501 "NotImplemented")
  end.

Definition route_put (r : Request) : operation :=
  let q := rq_Query r in
  let '(bucket, key) := parseBucketKey (rq_Path r) in
  if negb (bool_decide (Values_Get "uploadId" q = "")) && negb (bool_decide (Values_Get "partNumber" q = ""))
  then UploadPart
  else if Has q "tagging" then PutObjectTagging
  else if Has q "versioning" then PutBucketVersioning
  else if Has q "object-lock" then PutObjectLockConfiguration
  else if Has q "cors" then PutBucketCors
  else if Has q "lifecycle" then PutBucketLifecycleConfiguration
  else if Has q "notification" then PutBucketNotificationConfiguration
  else if Has q "encryption" then PutBucketEncryption
  else if Has q "retention" then PutObjectRetention
  else if Has q "legal-hold" then PutObjectLegalHold
  else if bool_decide (key = "") then PutBucket
  else if negb (bool_decide (Header_Get "x-amz-copy-source" (rq_Header r) = "")) then Copy
  else Put.

Definition route_post (r : Request) : operation :=
  let q := rq_Query r in
  if Has q "uploads" then CreateMultipartUpload
  else if negb (bool_decide (Values_Get "uploadId" q = "")) then CompleteMultipartUpload
  else Refuse 405 "MethodNotAllowed".

Definition route_get (r : Request) : operation :=
  let q := rq_Query r in
  let '(bucket, key) := parseBucketKey (rq_Path r) in
  let no_key := bool_decide (key = "") in
  if Has q "tagging" then GetObjectTagging
  else if no_key && Has q "object-lock" then GetObjectLockConfiguration
  else if no_key && Has q "cors" then GetBucketCors
  else if no_key && Has q "lifecycle" then GetBucketLifecycleConfiguration
  else if no_key && Has q "notification" then GetBucketNotificationConfiguration
  else if no_key && Has q "encryption" then GetBucketEncryption
  else if negb no_key && Has q "retention" then GetObjectRetention
  else if negb no_key && Has q "legal-hold" then GetObjectLegalHold
  else if no_key && Has q "uploads" then ListMultipartUploads
  else if no_key && Has q "versioning" then GetBucketVersioning
  else if no_key && Has q "versions" then ListObjectVersions
  else if no_key || Has q "list-type" then listBucket
  else Get.

Definition route_head (r : Request) : operation :=
  let '(bucket, key) := parseBucketKey (rq_Path r) in
  if bool_decide (key = "") then HeadBucket else Head.

Definition route_delete (r : Request) : operation :=
  let q := rq_Query r in
  let '(bucket, key) := parseBucketKey (rq_Path r) in
  if negb (bool_decide (Values_Get "uploadId" q = "")) then AbortMultipartUpload
  else if Has q "tagging" then DeleteObjectTagging
  else if Has q "cors" then DeleteBucketCors
  else if Has q "lifecycle" then DeleteBucketLifecycleConfiguration
  else if Has q "encryption" then DeleteBucketEncryption
  else if bool_decide (key = "") && Has q "notification" then Refuse 405 "MethodNotAllowed"
  else Delete.

Definition dispatch (r : Request) : operation :=
  if bool_decide (rq_Method r = "OPTIONS") then handleCORSPreflight
  else match rejectUnsupportedSubresource (rq_Query r) with
  | Some refusal => refusal
  | None =>
      if bool_decide (rq_Method r = "PUT") then route_put r
      else if bool_decide (rq_Method r = "POST") then route_post r
      else if bool_decide (rq_Method r = "GET") then route_get r
      else if bool_decide (rq_Method r = "HEAD") then route_head r
      else if bool_decide (rq_Method r = "DELETE") then route_delete r
      else Refuse 405 "MethodNotAllowed"
  end.

(** ** What is reached *)

(** The sub-resources the gateway implements. *)
Definition subresources : list string :=
  ["tagging"; "versioning"; "object-lock"; "cors"; "lifecycle"; "notification"; "encryption"; "retention";
   "legal-hold"].

Lemma reject_None q :
  rejectUnsupportedSubresource q = None ↔ ∀ key, key ∈ unsupportedSubresourceKeys → Has q key = false.
Proof.
  unfold rejectUnsupportedSubresource. split.
  - destruct (filter _ _) as [|k ks] eqn:Hf; [|done]. intros _ key Hin. apply not_true_iff_false. intros Hh.
    assert (key ∈ filter (λ key, Has q key = true) unsupportedSubresourceKeys) as Hk by by apply list_elem_of_filter.
    rewrite Hf in Hk. by apply elem_of_nil in Hk.
  - intros Hno. destruct (filter _ _) as [|k ks] eqn:Hf; [done|].
    assert (k ∈ filter (λ key, Has q key = true) unsupportedSubresourceKeys) as [Hh Hin]%list_elem_of_filter.
    { rewrite Hf. by left. }
    by rewrite Hno in Hh.
Qed.

Lemma route_put_Put r :
  route_put r = Put ↔
  (parseBucketKey (rq_Path r)).2 ≠ "" ∧ Header_Get "x-amz-copy-source" (rq_Header r) = "" ∧
  (Values_Get "uploadId" (rq_Query r) = "" ∨ Values_Get "partNumber" (rq_Query r) = "") ∧
  Forall (λ key, Has (rq_Query r) key = false) subresources.
Proof.
  unfold route_put, subresources. destruct (parseBucketKey (rq_Path r)) as [bucket key]. simpl.
  rewrite !Forall_cons, Forall_nil. split.
  - repeat match goal with |- (if ?b then _ else _) = _ → _ => destruct b eqn:? end; intros; simplify_eq.
    assert (Values_Get "uploadId" (rq_Query r) = "" ∨ Values_Get "partNumber" (rq_Query r) = "") as Hu.
    { match goal with H : _ && _ = false |- _ =>
        apply andb_false_iff in H as [?%negb_false_iff|?%negb_false_iff]; bool_facts; auto end. }
    bool_facts. by split_and!.
  - intros (Hk & Hc & Hu & -> & -> & -> & -> & -> & -> & -> & -> & -> & _).
    rewrite Hc, (bool_decide_eq_false_2 (key = "")) by done.
    destruct Hu as [-> | ->]; simpl; [done|]. by rewrite andb_false_r.
Qed.

(** A walk through the conditions of the other methods. *)
Ltac refute_route :=
  repeat match goal with |- (if ?b then _ else _) ≠ _ => destruct b end; done.

Lemma only_put_puts r :
  route_post r ≠ Put ∧ route_get r ≠ Put ∧ route_head r ≠ Put ∧ route_delete r ≠ Put.
Proof.
  unfold route_post, route_get, route_head, route_delete. destruct (parseBucketKey (rq_Path r)) as [bucket key].
  split_and!; refute_route.
Qed.

Lemma only_delete_deletes r :
  route_put r ≠ Delete ∧ route_post r ≠ Delete ∧ route_get r ≠ Delete ∧ route_head r ≠ Delete.
Proof.
  unfold route_put, route_post, route_get, route_head. destruct (parseBucketKey (rq_Path r)) as [bucket key].
  split_and!; refute_route.
Qed.

Lemma reject_refuses q op : rejectUnsupportedSubresource q = Some op → op = Refuse 501 "NotImplemented".
Proof. unfold rejectUnsupportedSubresource. by destruct (filter _ _); intros; simplify_eq. Qed.

(** An object is written by a PUT only when the request names the object and
    nothing else. The operation that replaces an object is reached exactly by the PUT
    requests whose path has a key, whose query has none of the sub-resources,
    implemented or not, and does not name a part of an upload, and that have no
    copy source; a PUT of a sub-resource the gateway lacks is refused with 501. *)
Theorem put_reached_iff_bare r :
  (dispatch r = Put ↔
   rq_Method r = "PUT" ∧ (parseBucketKey (rq_Path r)).2 ≠ "" ∧
   Header_Get "x-amz-copy-source" (rq_Header r) = "" ∧
   (Values_Get "uploadId" (rq_Query r) = "" ∨ Values_Get "partNumber" (rq_Query r) = "") ∧
   Forall (λ key, Has (rq_Query r) key = false) subresources ∧
   Forall (λ key, Has (rq_Query r) key = false) unsupportedSubresourceKeys) ∧
  (rq_Method r = "PUT" → Exists (λ key, Has (rq_Query r) key = true) unsupportedSubresourceKeys →
   dispatch r = Refuse 501 "NotImplemented").
Proof.
  pose proof (only_put_puts r) as (Hpost & Hget & Hhead & Hdel). unfold dispatch.
  destruct (rejectUnsupportedSubresource (rq_Query r)) as [op|] eqn:Hr.
  - pose proof (reject_refuses _ _ Hr) as ->. split; [|by intros -> _].
    split; [by case_bool_decide|]. intros (-> & _ & _ & _ & _ & Hno). rewrite Forall_forall in Hno.
    apply reject_None in Hno. congruence.
  - pose proof (proj1 (reject_None _) Hr) as Hno. rewrite (Forall_forall _ unsupportedSubresourceKeys).
    split; [|intros _ (key & Hin & Hh)%Exists_exists; by rewrite Hno in Hh]. split.
    + repeat case_bool_decide; try done. intros Hp%route_put_Put. naive_solver.
    + intros (-> & Hp). simpl. apply route_put_Put. naive_solver.
Qed.

(** A DELETE addressed to a retention, a legal hold, the lock or versioning
    configuration, or the notifications of an object deletes the object. The dispatcher
    routes the other methods of these sub-resources to their operations, and has no
    case for their DELETE, which falls through to the operation that deletes. *)
Theorem delete_of_subresource_deletes_object r key :
  rq_Method r = "DELETE" → (parseBucketKey (rq_Path r)).2 ≠ "" →
  key ∈ ["retention"; "legal-hold"; "object-lock"; "versioning"; "notification"] →
  rq_Query r = {[key := [""]]} → dispatch r = Delete.
Proof.
  intros Hm Hk Hkey Hq. unfold dispatch, route_delete. rewrite Hm, Hq.
  destruct (parseBucketKey (rq_Path r)) as [bucket k]. simpl in Hk. rewrite (bool_decide_eq_false_2 (k = "")) by done.
  repeat (apply elem_of_cons in Hkey as [->|Hkey]; [vm_compute; reflexivity|]). by apply elem_of_nil in Hkey.
Qed.

Lemma delete_of_subresource_deletes_object_witness :
  dispatch (mkRequest "DELETE" "/photos/cat" {["legal-hold" := [""]]} ∅) = Delete ∧
  dispatch (mkRequest "PUT" "/photos/cat" {["legal-hold" := [""]]} ∅) = PutObjectLegalHold.
Proof.
  split; [|vm_compute; reflexivity].
  apply (delete_of_subresource_deletes_object _ "legal-hold");
    [reflexivity|vm_compute; discriminate|right; left|reflexivity].
Defined.

End Routing.
