(* ===== verification/Cors.v ===== *)
(** * Cross-origin requests

    The CORS rules of a bucket (metadata/cors), and the two places of the
    handler that use them: the headers on the response of an actual request and
    the answer to a preflight. The rules come from the bucket's configuration,
    read through a function of the tenant and the bucket. *)

From S2P Require Import Prelude Bytes GoStrings Manifest ManifestStore ContentIndex ObjectLock ClientSdk ErasureCoding.
From S2P Require Import EncryptionPipeline Fabric Handlers Tagging Routing.
Local Open Scope Z_scope.

(** [strings.ToLower] on ASCII, which header names are; other bytes stay. *)
Definition lower_byte (c : ascii) : ascii :=
  let n := N_of_ascii c in if (65 <=? n)%N && (n <=? 90)%N then ascii_of_N (n + 32) else c.
Fixpoint ToLower (s : string) : string :=
  match s with "" => "" | String c s => String (lower_byte c) (ToLower s) end.

(** [strings.Count(s, string(c))] *)
Fixpoint CountByte (c : ascii) (s : string) : nat :=
  match s with "" => 0 | String a s => (if Ascii.eqb a c then 1 else 0) + CountByte c s end.

(** [strings.Join(l, ", ")] *)
Fixpoint join_csv (l : list string) : string :=
  match l with [] => "" | [x] => x | x :: l => String.app x (String.app ", " (join_csv l)) end.

Module CORS.
Import Routing.

Record Rule := mkRule {
  ID : string;
  AllowedOrigins : list string;
  AllowedMethods : list string;
  AllowedHeaders : list string;
  ExposeHeaders : list string;
  MaxAgeSeconds : Z
}.

Abbreviation Config := (list Rule).

Definition maxRules : nat := 100.
Definition validMethods : list string := ["GET"; "PUT"; "HEAD"; "POST"; "DELETE"].

Inductive cors_error :=
| NoRules | TooManyRules | NoOrigin | NoMethod | EmptyOrigin | OriginWildcards | BadMethod | HeaderWildcards
| IDTooLong | NegativeMaxAge.

Fixpoint origins_valid (os : list string) : option cors_error :=
  match os with
  | [] => None
  | o :: os =>
      if bool_decide (o = "") then Some EmptyOrigin
      else if (1 <? CountByte "*" o)%nat then Some OriginWildcards
      else origins_valid os
  end.

Definition Rule_valid (r : Rule) : option cors_error :=
  match AllowedOrigins r, AllowedMethods r with
  | [], _ => Some NoOrigin
  | _, [] => Some NoMethod
  | os, ms =>
      match origins_valid os with
      | Some e => Some e
      | None =>
          if existsb (λ m, negb (bool_decide (m ∈ validMethods))) ms then Some BadMethod
          else if existsb (λ h, 1 <? CountByte "*" h)%nat (AllowedHeaders r) then Some HeaderWildcards
          else if (255 <? String.length (ID r))%nat then Some IDTooLong
          else if MaxAgeSeconds r <? 0 then Some NegativeMaxAge
          else None
      end
  end.

Fixpoint rules_valid (rs : list Rule) : option cors_error :=
  match rs with
  | [] => None
  | r :: rs => match Rule_valid r with Some e => Some e | None => rules_valid rs end
  end.

Definition Valid (c : Config) : option cors_error :=
  if bool_decide (c = []) then Some NoRules
  else if (maxRules <? length c)%nat then Some TooManyRules
  else rules_valid c.

(** ** Matching *)

Definition wildcardMatch (pattern s : string) : bool :=
  match cut_byte "*" pattern with
  | None => bool_decide (pattern = s)
  | Some (prefix, suffix) =>
      if (String.length s <? String.length prefix + String.length suffix)%nat then false
      else HasPrefix s prefix && HasSuffix s suffix
  end.

Definition originMatches (pattern origin : string) : bool := wildcardMatch pattern origin.
Definition headerMatches (pattern header : string) : bool := wildcardMatch (ToLower pattern) (ToLower header).

Definition matchesOrigin (r : Rule) (origin : string) : bool :=
  if bool_decide (origin = "") then false
  else existsb (λ pattern, originMatches pattern origin) (AllowedOrigins r).

Definition allowsMethod (r : Rule) (method : string) : bool :=
  existsb (λ m, bool_decide (m = method)) (AllowedMethods r).

Definition allowsHeader (r : Rule) (header : string) : bool :=
  existsb (λ pattern, headerMatches pattern header) (AllowedHeaders r).

Definition AllowsHeaders (r : Rule) (requested : list string) : bool :=
  forallb (λ h, let h := TrimSpace h in bool_decide (h = "") || allowsHeader r h) requested.

Definition Match (c : Config) (origin method : string) : option Rule :=
  head (filter (λ r, matchesOrigin r origin && allowsMethod r method = true) c).

(** ** The handler *)

(** The tenant of a request. [Auth] is the configured authenticator, [Resolver] its
    resolution of a tenant from an unverified credential, where it has one. *)
Class Authn := {
  Auth : option (Request → result unit string);
  Resolver : option (Request → option string);
  RequireAuth : bool
}.

Definition AnonymousTenant : string := "anonymous".

Section handler.
Context {A : Authn} (GetCORS : option (string → string → result unit Config)).

Inductive auth_error := ErrAuthMisconfigured | AuthDenied.

Definition authenticateNow (r : Request) : result auth_error string :=
  match Auth with
  | None => if RequireAuth then Err ErrAuthMisconfigured else Ok AnonymousTenant
  | Some authenticate => match authenticate r with Ok t => Ok t | Err _ => Err AuthDenied end
  end.

(** [writeAuthError] *)
Definition writeAuthError (e : auth_error) : Response :=
  match e with
  | ErrAuthMisconfigured => writeError 500 "InternalAuthMisconfigured"
  | AuthDenied => writeError 403 "AccessDenied"
  end.

Definition preflightTenant (r : Request) : option string :=
  match Auth with
  | None => if RequireAuth then None else Some AnonymousTenant
  | Some _ => match Resolver with Some resolve => resolve r | None => None end
  end.

Definition bucketCORSRules (tenantID bucket : string) : option Config :=
  match GetCORS with
  | None => None
  | Some get => if bool_decide (bucket = "") then None
                else match get tenantID bucket with Ok cfg => Some cfg | Err _ => None end
  end.

Definition setCORSResponseHeaders (origin : string) (rule : Rule) (includeExpose : bool) (h : gmap string string)
    : gmap string string :=
  let h := <["access-control-allow-methods" := join_csv (AllowedMethods rule)]>
             (<["access-control-allow-credentials" := "true"]>
                (<["access-control-allow-origin" := origin]> h)) in
  if includeExpose && negb (bool_decide (join_csv (ExposeHeaders rule) = ""))
  then <["access-control-expose-headers" := join_csv (ExposeHeaders rule)]> h
  else h.

(** The headers [applyCORS] puts on the response before the operation runs. *)
Definition applyCORS (r : Request) : gmap string string :=
  let origin := Header_Get "origin" (rq_Header r) in
  if bool_decide (origin = "") then ∅
  else
    let h := {["vary" := "Origin"]} in
    let tenant := match authenticateNow r with Ok t => Some t | Err _ => preflightTenant r end in
    match tenant with
    | None => h
    | Some tenantID =>
        let '(bucket, _) := parseBucketKey (rq_Path r) in
        match bucketCORSRules tenantID bucket with
        | None | Some [] => h
        | Some cfg =>
            match Match cfg origin (rq_Method r) with
            | None => h
            | Some rule => setCORSResponseHeaders origin rule true h
            end
        end
    end.

Definition splitRequestHeaders (v : string) : list string :=
  if bool_decide (TrimSpace v = "") then []
  else filter (λ p, p ≠ "") (TrimSpace <$> SplitByte "," v).

(** The status, the error code and the headers of the answer to a preflight. *)
Definition handleCORSPreflight (r : Request) : Z * string * gmap string string :=
  let origin := Header_Get "origin" (rq_Header r) in
  let reqMethod := Header_Get "access-control-request-method" (rq_Header r) in
  let reqHdr := Header_Get "access-control-request-headers" (rq_Header r) in
  let h : gmap string string := if bool_decide (origin = "") then ∅ else {["vary" := "Origin"]} in
  let forbidden := (403, "AccessForbidden", h) in
  if bool_decide (origin = "") || bool_decide (reqMethod = "") then (400, "InvalidCORSRequest", h)
  else
    let '(bucket, _) := parseBucketKey (rq_Path r) in
    match GetCORS with
    | None => forbidden
    | Some _ =>
        if bool_decide (bucket = "") then forbidden
        else match preflightTenant r with
        | None => forbidden
        | Some tenantID =>
            match bucketCORSRules tenantID bucket with
            | None | Some [] => forbidden
            | Some cfg =>
                match Match cfg origin reqMethod with
                | None => forbidden
                | Some rule =>
                    if negb (AllowsHeaders rule (splitRequestHeaders reqHdr)) then forbidden
                    else
                      let h := setCORSResponseHeaders origin rule false h in
                      let h := if bool_decide (reqHdr = "") then h
                               else <["access-control-allow-headers" := reqHdr]> h in
                      let h := if 0 <? MaxAgeSeconds rule
                               then <["access-control-max-age" := FormatInt (MaxAgeSeconds rule)]> h else h in
                      (200, "", h)
                end
            end
        end
    end.

End handler.

(** ** Facts *)

(** The string is the pattern, or agrees with it around its first star. *)
Definition covered (pattern s : string) : Prop :=
  ContainsByte "*" pattern = false ∧ s = pattern ∨
  ∃ pre suf mid, pattern = pre +:+ String "*" suf ∧ s = pre +:+ mid +:+ suf.

Lemma append_split pre r x suf :
  pre +:+ r = x +:+ suf → (String.length pre ≤ String.length x)%nat → ∃ mid, x = pre +:+ mid ∧ r = mid +:+ suf.
Proof.
  revert x. induction pre as [|c pre IH]; intros x Heq Hlen; [by exists x|].
  destruct x as [|c' x]; simpl in *; [lia|]. injection Heq as -> Heq.
  destruct (IH x Heq) as (mid & -> & ->); [lia|]. by exists mid.
Qed.

Lemma length_string_app s t : String.length (s +:+ t) = (String.length s + String.length t)%nat.
Proof. induction s as [|c s IH]; simpl; [done|]. by rewrite IH. Qed.

Lemma cut_byte_None c s : cut_byte c s = None → ContainsByte c s = false.
Proof.
  induction s as [|a s IH]; simpl; [done|]. destruct (Ascii.eqb a c); [done|].
  destruct (cut_byte c s) as [[]|]; [done|]. by intros _; apply IH.
Qed.

Lemma HasPrefix_iff s p : HasPrefix s p = true ↔ ∃ r, s = p +:+ r.
Proof.
  unfold HasPrefix. rewrite bool_decide_eq_true. split.
  - intros [r Hr]. exists r. by apply CutPrefix_Some.
  - intros [r ->]. rewrite CutPrefix_app. by eexists.
Qed.

Lemma string_rev_app s t : string_rev (s +:+ t) "" = string_rev t "" +:+ string_rev s "".
Proof.
  assert (∀ acc, string_rev (s +:+ t) acc = string_rev t "" +:+ string_rev s acc) as H; [|apply H].
  induction s as [|c s IH]; intros acc; simpl.
  - by rewrite <- string_rev_acc.
  - apply IH.
Qed.

Lemma HasSuffix_iff s p : HasSuffix s p = true ↔ ∃ x, s = x +:+ p.
Proof.
  unfold HasSuffix. rewrite HasPrefix_iff. split.
  - intros [r Hr]. exists (string_rev r ""). apply (f_equal (λ s, string_rev s "")) in Hr.
    by rewrite string_rev_involutive, string_rev_app, string_rev_involutive in Hr.
  - intros [x ->]. exists (string_rev x ""). apply string_rev_app.
Qed.

Lemma wildcardMatch_covered pattern s : wildcardMatch pattern s = true → covered pattern s.
Proof.
  unfold wildcardMatch, covered. destruct (cut_byte "*" pattern) as [[pre suf]|] eqn:Hc.
  - apply cut_byte_Some in Hc as [-> _]. case_match eqn:Hlen; [done|].
    intros ([r Hr]%HasPrefix_iff & [x Hx]%HasSuffix_iff)%andb_true_iff. right.
    apply Nat.ltb_ge in Hlen. rewrite Hx, length_string_app in Hlen.
    rewrite Hr in Hx. destruct (append_split _ _ _ _ Hx) as (mid & -> & ->); [lia|]. by exists pre, suf, mid.
  - intros H. bool_facts. left. split; [by apply cut_byte_None|done].
Qed.

Section facts.
Context {A : Authn} (GetCORS : option (string → string → result unit Config)).

Lemma Match_Some c origin method rule :
  Match c origin method = Some rule →
  rule ∈ c ∧ method ∈ AllowedMethods rule ∧
  ∃ pattern, pattern ∈ AllowedOrigins rule ∧ covered pattern origin.
Proof.
  unfold Match. intros Hh. destruct (filter _ c) as [|x xs] eqn:Hf; simplify_eq/=.
  assert (rule ∈ filter (λ r, matchesOrigin r origin && allowsMethod r method = true) c) as Hin
    by (rewrite Hf; by left).
  apply list_elem_of_filter in Hin as [(Ho & Hm)%andb_true_iff Hin]. split; [done|].
  unfold allowsMethod in Hm. apply existsb_exists in Hm as (m & Hm & ?). bool_facts. subst. split; [by apply list_elem_of_In|].
  unfold matchesOrigin in Ho. case_bool_decide; [done|]. apply existsb_exists in Ho as (p & Hp & Hc).
  exists p. split; [by apply list_elem_of_In|]. by apply wildcardMatch_covered.
Qed.

(** The rules of a bucket allow a request of the method from the origin. *)
Definition allowed (tenantID bucket origin method : string) (rule : Rule) : Prop :=
  (∃ get cfg, GetCORS = Some get ∧ get tenantID bucket = Ok cfg ∧ rule ∈ cfg) ∧
  method ∈ AllowedMethods rule ∧ ∃ pattern, pattern ∈ AllowedOrigins rule ∧ covered pattern origin.

Lemma rules_of tenantID bucket cfg :
  bucketCORSRules GetCORS tenantID bucket = Some cfg →
  ∃ get, GetCORS = Some get ∧ get tenantID bucket = Ok cfg.
Proof. unfold bucketCORSRules. intros H. repeat case_match; simplify_eq. by eexists. Qed.

(** The tenant whose rules an actual request is held against. *)
Definition cors_tenant (r : Request) : option string :=
  match authenticateNow r with Ok t => Some t | Err _ => preflightTenant r end.

Lemma applyCORS_cases r :
  applyCORS GetCORS r !! "access-control-allow-origin" = None ∨
  ∃ tenantID cfg rule,
    cors_tenant r = Some tenantID ∧ bucketCORSRules GetCORS tenantID (parseBucketKey (rq_Path r)).1 = Some cfg ∧
    Match cfg (Header_Get "origin" (rq_Header r)) (rq_Method r) = Some rule ∧
    applyCORS GetCORS r = setCORSResponseHeaders (Header_Get "origin" (rq_Header r)) rule true {["vary" := "Origin"]}.
Proof.
  unfold applyCORS, cors_tenant. destruct (parseBucketKey (rq_Path r)) as [bucket key]. simpl.
  case_bool_decide; [by left|].
  destruct (match authenticateNow r with Ok t => Some t | Err _ => preflightTenant r end) as [t|]; [|by left].
  destruct (bucketCORSRules GetCORS t bucket) as [[|x cfg]|] eqn:Hb; [by left| |by left].
  destruct (Match _ _ _) as [rule|] eqn:Hm; [|by left]. right. by exists t, (x :: cfg), rule.
Qed.

Lemma set_origin origin rule e h :
  setCORSResponseHeaders origin rule e h !! "access-control-allow-origin" = Some origin ∧
  setCORSResponseHeaders origin rule e h !! "access-control-allow-methods" = Some (join_csv (AllowedMethods rule)).
Proof.
  unfold setCORSResponseHeaders. destruct (_ && _).
  - rewrite !(lookup_insert_ne _ "access-control-expose-headers") by done. split; [|apply lookup_insert_eq].
    rewrite !(lookup_insert_ne _ "access-control-allow-methods"), !(lookup_insert_ne _ "access-control-allow-credentials") by done.
    apply lookup_insert_eq.
  - split; [|apply lookup_insert_eq].
    rewrite !(lookup_insert_ne _ "access-control-allow-methods"), !(lookup_insert_ne _ "access-control-allow-credentials") by done.
    apply lookup_insert_eq.
Qed.

Lemma preflight_cases r :
  ((handleCORSPreflight GetCORS r).1.1 ≠ 200 ∧
   (handleCORSPreflight GetCORS r).2 !! "access-control-allow-origin" = None) ∨
  ∃ tenantID cfg rule,
    preflightTenant r = Some tenantID ∧ bucketCORSRules GetCORS tenantID (parseBucketKey (rq_Path r)).1 = Some cfg ∧
    Match cfg (Header_Get "origin" (rq_Header r)) (Header_Get "access-control-request-method" (rq_Header r)) = Some rule ∧
    Header_Get "origin" (rq_Header r) ≠ "" ∧
    (handleCORSPreflight GetCORS r).2 !! "access-control-allow-origin" = Some (Header_Get "origin" (rq_Header r)) ∧
    (handleCORSPreflight GetCORS r).2 !! "access-control-allow-methods" = Some (join_csv (AllowedMethods rule)).
Proof.
  unfold handleCORSPreflight. destruct (parseBucketKey (rq_Path r)) as [bucket key]. simpl.
  set (h := if bool_decide (Header_Get "origin" (rq_Header r) = "") then ∅ else _).
  assert (h !! "access-control-allow-origin" = None) as Hh by (unfold h; by case_bool_decide).
  case_bool_decide as Ho; [by left|]. case_bool_decide as Hmt; [by left|]. simpl.
  destruct GetCORS as [get|] eqn:Hg; [|by left]. case_bool_decide; [by left|].
  destruct (preflightTenant r) as [t|]; [|by left].
  destruct (bucketCORSRules (Some get) t bucket) as [[|x cfg]|] eqn:Hb; [by left| |by left].
  destruct (Match _ _ _) as [rule|] eqn:Hm; [|by left].
  destruct (negb _); [by left|]. right. exists t, (x :: cfg), rule. split_and!; [done..| |].
  - destruct (0 <? _), (bool_decide (Header_Get "access-control-request-headers" _ = "")); simpl;
      rewrite ?(lookup_insert_ne _ "access-control-max-age"), ?(lookup_insert_ne _ "access-control-allow-headers") by done;
      apply set_origin.
  - destruct (0 <? _), (bool_decide (Header_Get "access-control-request-headers" _ = "")); simpl;
      rewrite ?(lookup_insert_ne _ "access-control-max-age"), ?(lookup_insert_ne _ "access-control-allow-headers") by done;
      apply set_origin.
Qed.

(** Cross-origin access is granted only by a rule. Whenever a response says that
    an origin may read it, to an actual request or to a preflight, the origin is the one
    of the request, and the bucket of the path has, for the tenant the request
    resolves to, a rule that lists the method and an origin pattern the origin agrees with:
    the same string, or the same text before and after the star. *)
Theorem cors_grants_are_configured r o :
  (applyCORS GetCORS r !! "access-control-allow-origin" = Some o →
   o = Header_Get "origin" (rq_Header r) ∧
   ∃ tenantID rule, cors_tenant r = Some tenantID ∧
     allowed tenantID (parseBucketKey (rq_Path r)).1 o (rq_Method r) rule) ∧
  ((handleCORSPreflight GetCORS r).2 !! "access-control-allow-origin" = Some o →
   o = Header_Get "origin" (rq_Header r) ∧
   ∃ tenantID rule, preflightTenant r = Some tenantID ∧
     allowed tenantID (parseBucketKey (rq_Path r)).1 o
       (Header_Get "access-control-request-method" (rq_Header r)) rule).
Proof.
  split.
  - destruct (applyCORS_cases r) as [->|(t & cfg & rule & Ht & Hb & Hm & ->)]; [done|].
    rewrite (proj1 (set_origin _ _ _ _)). intros [= <-]. split; [done|]. exists t, rule. split; [done|].
    apply rules_of in Hb as (get & ? & ?). apply Match_Some in Hm as (? & ? & ?). split; [by eauto 10|done].
  - destruct (preflight_cases r) as [[_ ->]|(t & cfg & rule & Ht & Hb & Hm & _ & -> & _)]; [done|].
    intros [= <-]. split; [done|]. exists t, rule. split; [done|].
    apply rules_of in Hb as (get & ? & ?). apply Match_Some in Hm as (? & ? & ?). split; [by eauto 10|done].
Qed.

(** What a preflight promises, the actual request gets. After a preflight that
    answers 200, a request from the same origin to the same path with the method
    the preflight asked for, that resolves to the same tenant, is answered with
    the origin allowed and the method among the allowed ones, whether the operation
    itself succeeds or fails. *)
Theorem preflight_promise_is_kept pre r tenantID :
  (handleCORSPreflight GetCORS pre).1.1 = 200 →
  rq_Path r = rq_Path pre → Header_Get "origin" (rq_Header r) = Header_Get "origin" (rq_Header pre) →
  rq_Method r = Header_Get "access-control-request-method" (rq_Header pre) →
  preflightTenant pre = Some tenantID → cors_tenant r = Some tenantID →
  applyCORS GetCORS r !! "access-control-allow-origin" = Some (Header_Get "origin" (rq_Header r)) ∧
  ∃ rule, applyCORS GetCORS r !! "access-control-allow-methods" = Some (join_csv (AllowedMethods rule)) ∧
    (handleCORSPreflight GetCORS pre).2 !! "access-control-allow-methods" = Some (join_csv (AllowedMethods rule)) ∧
    rq_Method r ∈ AllowedMethods rule.
Proof.
  intros H200 Hp Ho Hm Ht Ht'.
  destruct (preflight_cases pre) as [[? _]|(t & cfg & rule & Hpt & Hb & Hmatch & Hne & _ & Hms)]; [done|].
  rewrite Ht in Hpt. injection Hpt as <-. rewrite <- Hm, <- Ho in Hmatch. rewrite <- Hp in Hb.
  assert (applyCORS GetCORS r = setCORSResponseHeaders (Header_Get "origin" (rq_Header r)) rule true {["vary" := "Origin"]}) as ->.
  { unfold applyCORS. unfold cors_tenant in Ht'. rewrite bool_decide_eq_false_2 by congruence. rewrite Ht'.
    destruct (parseBucketKey (rq_Path r)) as [bucket k]. simpl in Hb. rewrite Hb.
    destruct cfg as [|x cfg]; [done|]. by rewrite Hmatch. }
  destruct (set_origin (Header_Get "origin" (rq_Header r)) rule true {["vary" := "Origin"]}) as [-> ->].
  split; [done|]. exists rule. split_and!; [done|done|]. by apply Match_Some in Hmatch as (_ & ? & _).
Qed.

End facts.

(** ** Examples *)

Section examples.
#[local] Instance ex_auth : Authn := {
  Auth := Some (λ r, if bool_decide (Header_Get "authorization" (rq_Header r) = "good") then Ok "t1" else Err ());
  Resolver := Some (λ _, Some "t1");
  RequireAuth := true
}.

Definition ex_rules : Config :=
  [mkRule "" ["https://*.example.com"] ["GET"] ["content-type"] [] 0;
   mkRule "" ["https://*.example.com"] ["GET"; "PUT"] ["*"] ["ETag"] 3000].
Definition ex_get : option (string → string → result unit Config) :=
  Some (λ t b, if bool_decide (t = "t1" ∧ b = "photos") then Ok ex_rules else Ok []).
Definition ex_preflight (method headers : string) : Request :=
  mkRequest "OPTIONS" "/photos/cat" ∅
    {["origin" := ["https://app.example.com"]; "access-control-request-method" := [method];
      "access-control-request-headers" := [headers]]}.
Definition ex_put : Request :=
  mkRequest "PUT" "/photos/cat" ∅ {["origin" := ["https://app.example.com"]]}.

Lemma preflight_promise_is_kept_witness :
  (handleCORSPreflight ex_get (ex_preflight "PUT" "x-amz-date, content-type")).1.1 = 200 ∧
  applyCORS ex_get ex_put !! "access-control-allow-origin" = Some "https://app.example.com".
Proof.
  split; [vm_compute; reflexivity|].
  destruct (preflight_promise_is_kept ex_get (ex_preflight "PUT" "x-amz-date, content-type") ex_put "t1") as [H _];
    [vm_compute; reflexivity..|exact H].
Defined.

(** A preflight is refused although a rule allows it. The comment of the handler
    says a preflight is refused when no rule allows the origin, the method and the headers;
    the code takes the first rule for the origin and the method, and refuses when
    that one does not list the headers. Here the second rule of a valid configuration allows the
    origin, the method and every header. *)
Theorem preflight_stops_at_first_rule :
  Valid ex_rules = None ∧
  (∃ rule, rule ∈ ex_rules ∧ matchesOrigin rule "https://app.example.com" = true ∧ allowsMethod rule "GET" = true ∧
     AllowsHeaders rule (splitRequestHeaders "x-amz-date") = true) ∧
  (handleCORSPreflight ex_get (ex_preflight "GET" "x-amz-date")).1.1 = 403.
Proof.
  split; [vm_compute; reflexivity|]. split; [|vm_compute; reflexivity].
  eexists. split; [right; left|]. vm_compute. done.
Qed.

End examples.
End CORS.
