(* ===== verification/Notifications.v ===== *)
(** * Event notifications of a bucket

    The rules (metadata/notification), which of them an event fires, and the
    document a client puts and gets (api/s3compat/notification_handler.go). *)

From S2P Require Import Prelude Bytes GoStrings.
Local Open Scope Z_scope.

(** [net/url.Parse]: the scheme and the host of a URL, [None] when it does not parse. *)
Class URLParser := { ParseURL : string → option (string * string) }.

Module Notify.

Definition maxRules : nat := 100.

Abbreviation EventType := string.
Definition ObjectCreatedAll : EventType := "s3:ObjectCreated:*".
Definition ObjectCreatedPut : EventType := "s3:ObjectCreated:Put".
Definition ObjectCreatedCopy : EventType := "s3:ObjectCreated:Copy".
Definition ObjectCreatedCompleteMultipartUpload : EventType := "s3:ObjectCreated:CompleteMultipartUpload".
Definition ObjectRemovedAll : EventType := "s3:ObjectRemoved:*".
Definition ObjectRemovedDelete : EventType := "s3:ObjectRemoved:Delete".
Definition ObjectRemovedDeleteMarkerCreated : EventType := "s3:ObjectRemoved:DeleteMarkerCreated".

Definition configurableEvents : list EventType :=
  [ObjectCreatedAll; ObjectCreatedPut; ObjectCreatedCopy; ObjectCreatedCompleteMultipartUpload; ObjectRemovedAll;
   ObjectRemovedDelete; ObjectRemovedDeleteMarkerCreated].

(** The text before the last colon. *)
Definition class (e : EventType) : string :=
  match cut_byte ":" (string_rev e "") with Some (_, front) => string_rev front "" | None => "" end.

Definition IsObjectCreated (e : EventType) : bool := bool_decide (class e = "s3:ObjectCreated").

Definition covers (sub emitted : EventType) : bool :=
  if bool_decide (sub = emitted) then true
  else if bool_decide (sub = ObjectCreatedAll) || bool_decide (sub = ObjectRemovedAll)
  then bool_decide (class sub = class emitted)
  else false.

Record Rule := mkRule {
  ID : string;
  Events : list EventType;
  Endpoint : string;
  Prefix : string;
  Suffix : string
}.

Abbreviation Config := (list Rule).

Inductive notification_error :=
| TooManyRules | IDTooLong | NoEvent | BadEvent | NoEndpoint | BadURL | BadScheme | NoHost | DuplicateID.

Section valid.
Context {U : URLParser}.

Definition Rule_valid (r : Rule) : option notification_error :=
  if (255 <? String.length (ID r))%nat then Some IDTooLong
  else if bool_decide (Events r = []) then Some NoEvent
  else if existsb (λ e, negb (bool_decide (e ∈ configurableEvents))) (Events r) then Some BadEvent
  else if bool_decide (Endpoint r = "") then Some NoEndpoint
  else match ParseURL (Endpoint r) with
       | None => Some BadURL
       | Some (scheme, host) =>
           if negb (bool_decide (scheme = "http")) && negb (bool_decide (scheme = "https")) then Some BadScheme
           else if bool_decide (host = "") then Some NoHost
           else None
       end.

(** The loop of [Config.Valid], with the ids seen so far. *)
Fixpoint rules_valid (seen : gset string) (rs : list Rule) : option notification_error :=
  match rs with
  | [] => None
  | r :: rs =>
      match Rule_valid r with
      | Some e => Some e
      | None =>
          if bool_decide (ID r = "") then rules_valid seen rs
          else if bool_decide (ID r ∈ seen) then Some DuplicateID
          else rules_valid ({[ID r]} ∪ seen) rs
      end
  end.

Definition Valid (c : Config) : option notification_error :=
  if (maxRules <? length c)%nat then Some TooManyRules else rules_valid ∅ c.

End valid.

Definition fires (emitted : EventType) (key : string) (r : Rule) : bool :=
  if negb (bool_decide (Prefix r = "")) && negb (HasPrefix key (Prefix r)) then false
  else if negb (bool_decide (Suffix r = "")) && negb (HasSuffix key (Suffix r)) then false
  else existsb (λ sub, covers sub emitted) (Events r).

Definition Match (c : Config) (emitted : EventType) (key : string) : list Rule :=
  filter (λ r, fires emitted key r = true) c.

(** ** The document *)

Record filterRuleXML := mkFilterRuleXML { fr_Name : string; fr_Value : string }.

Record webhookConfigurationXML := mkWebhookConfigurationXML {
  wh_ID : string;
  wh_Endpoint : string;
  wh_Events : list string;
  wh_Filter : option (list filterRuleXML)
}.

(** The loop of [filterPrefixSuffix]; [None] is an error. *)
Fixpoint filter_rules (rs : list filterRuleXML) (prefix suffix : option string) : option (string * string) :=
  match rs with
  | [] => Some (default "" prefix, default "" suffix)
  | r :: rs =>
      if bool_decide (fr_Name r = "prefix") then
        match prefix with Some _ => None | None => filter_rules rs (Some (fr_Value r)) suffix end
      else if bool_decide (fr_Name r = "suffix") then
        match suffix with Some _ => None | None => filter_rules rs prefix (Some (fr_Value r)) end
      else None
  end.

Definition filterPrefixSuffix (f : option (list filterRuleXML)) : option (string * string) :=
  match f with None => Some ("", "") | Some rs => filter_rules rs None None end.

Definition webhook_rule (w : webhookConfigurationXML) : option Rule :=
  '(prefix, suffix) ← filterPrefixSuffix (wh_Filter w);
  Some (mkRule (wh_ID w) (wh_Events w) (wh_Endpoint w) prefix suffix).

Definition notificationConfigFromXML (doc : list webhookConfigurationXML) : option Config :=
  mapM webhook_rule doc.

Definition rule_webhook (r : Rule) : webhookConfigurationXML :=
  mkWebhookConfigurationXML (ID r) (Endpoint r) (Events r)
    (if negb (bool_decide (Prefix r = "")) || negb (bool_decide (Suffix r = "")) then
       Some ((if bool_decide (Prefix r = "") then [] else [mkFilterRuleXML "prefix" (Prefix r)]) ++
             (if bool_decide (Suffix r = "") then [] else [mkFilterRuleXML "suffix" (Suffix r)]))
     else None).

Definition notificationConfigToXML (cfg : Config) : list webhookConfigurationXML := rule_webhook <$> cfg.

(** ** Facts *)

Lemma webhook_of_rule r : webhook_rule (rule_webhook r) = Some r.
Proof.
  destruct r as [i es ep p s]. unfold webhook_rule, rule_webhook, filterPrefixSuffix. simpl.
  case_bool_decide; subst; case_bool_decide; subst; done.
Qed.

(** The document a client gets denotes the configuration. *)
Lemma document_denotes cfg : notificationConfigFromXML (notificationConfigToXML cfg) = Some cfg.
Proof.
  unfold notificationConfigFromXML, notificationConfigToXML. apply mapM_fmap_Some. apply webhook_of_rule.
Qed.

End Notify.
