(* ===== verification/LifecycleDoc.v ===== *)
(** * Lifecycle documents (api/s3compat/lifecycle_handler.go)

    The document of the lifecycle sub-resource and its translation to the rules
    and back. The XML itself is an input as the values it decodes to; dates are
    parsed and formatted by functions that stand for those of Go's time package. *)

From S2P Require Import Prelude GoStrings Manifest ObjectLock LifecycleRules.
Local Open Scope Z_scope.

(** [time.Parse] over the layouts the handler tries, in nanoseconds, and
    [Time.Format(time.RFC3339)]. *)
Class DateCodec := {
  ParseDate : string → option Z;
  FormatDate : Z → string
}.

(** A date the layout can express: a whole second of a year of four digits. *)
Definition formattable (t : Z) : Prop :=
  t mod 1000000000 = 0 ∧ -62167219200 ≤ t / 1000000000 < 253402300800.

Class DateCodecLaws `{DateCodec} := {
  FormatDate_nonempty t : FormatDate t ≠ "";
  ParseDate_FormatDate t : formattable t → ParseDate (FormatDate t) = Some t
}.

Module LifecycleDocs.

Record lifecycleTagXML := mkTagXML { lt_Key : string; lt_Value : string }.

Record lifecycleAndXML := mkAndXML {
  la_Prefix : string;
  la_Tags : list lifecycleTagXML;
  la_ObjectSizeGreaterThan : option Z;
  la_ObjectSizeLessThan : option Z
}.

Record lifecycleFilterXML := mkFilterXML {
  lf_Prefix : option string;
  lf_Tag : option lifecycleTagXML;
  lf_ObjectSizeGreaterThan : option Z;
  lf_ObjectSizeLessThan : option Z;
  lf_And : option lifecycleAndXML
}.

Record lifecycleExpirationXML := mkExpirationXML {
  le_Days : Z;
  le_Date : string;
  le_ExpiredObjectDeleteMarker : bool
}.

Record lifecycleTransitionXML := mkTransitionXML {
  ltr_Days : Z;
  ltr_Date : string;
  ltr_StorageClass : string
}.

Record lifecycleRuleXML := mkRuleXML {
  lr_ID : string;
  lr_Prefix : option string;
  lr_Status : string;
  lr_Filter : option lifecycleFilterXML;
  lr_Expiration : option lifecycleExpirationXML;
  lr_Transitions : list lifecycleTransitionXML;
  lr_Abort : option Z                      (* DaysAfterInitiation *)
}.

Section codec.
Context {D : DateCodec}.

Definition parseLifecycleDate (s : string) : option Z :=
  if bool_decide (s = "") then Some zero_time else ParseDate s.

(** The tags of an [And], a later one with the key of an earlier one replacing it. *)
Definition and_tags (tags : list lifecycleTagXML) : gmap string string :=
  foldl (λ m t, <[lt_Key t := lt_Value t]> m) ∅ tags.

Definition lifecycleFilterFromXML (f : lifecycleFilterXML) : option Filter :=
  match lf_And f with
  | Some a =>
      match lf_Prefix f, lf_Tag f, lf_ObjectSizeGreaterThan f, lf_ObjectSizeLessThan f with
      | None, None, None, None =>
          Some (mkFilter (la_Prefix a) (and_tags (la_Tags a)) (la_ObjectSizeGreaterThan a) (la_ObjectSizeLessThan a))
      | _, _, _, _ => None
      end
  | None =>
      let count {X} (o : option X) : Z := match o with Some _ => 1 | None => 0 end in
      let siblings := count (lf_Prefix f) + count (lf_Tag f) + count (lf_ObjectSizeGreaterThan f)
                      + count (lf_ObjectSizeLessThan f) in
      if 1 <? siblings then None
      else Some (mkFilter (default "" (lf_Prefix f))
                   (match lf_Tag f with Some t => {[lt_Key t := lt_Value t]} | None => ∅ end)
                   (lf_ObjectSizeGreaterThan f) (lf_ObjectSizeLessThan f))
  end.

Definition transition_from_xml (t : lifecycleTransitionXML) : option Transition :=
  date ← parseLifecycleDate (ltr_Date t); Some (mkTransition (ltr_Days t) date (ltr_StorageClass t)).

Definition zero_Filter : Filter := mkFilter "" ∅ None None.

(** One rule of [lifecycleConfigFromXML]; [None] is an error. *)
Definition rule_from_xml (r : lifecycleRuleXML) : option Rule :=
  filter ← match lr_Filter r, lr_Prefix r with
           | Some _, Some _ => None
           | Some f, None => lifecycleFilterFromXML f
           | None, Some p => Some (mkFilter p ∅ None None)
           | None, None => Some zero_Filter
           end;
  expiration ← match lr_Expiration r with
               | None => Some None
               | Some e =>
                   date ← parseLifecycleDate (le_Date e);
                   Some (Some (mkExpiration (le_Days e) date (le_ExpiredObjectDeleteMarker e)))
               end;
  transitions ← mapM transition_from_xml (lr_Transitions r);
  Some (mkRule (lr_ID r) (lr_Status r) filter expiration transitions (lr_Abort r)).

Definition lifecycleConfigFromXML (doc : list lifecycleRuleXML) : option Config := mapM rule_from_xml doc.

Definition sortedKeys (m : gmap string string) : list string :=
  sort_slice (key_less id String.ltb) (map_to_list m).*1.

Definition lifecycleFilterToXML (f : Filter) : lifecycleFilterXML :=
  let predicates :=
    (if bool_decide (fl_Prefix f = "") then 0 else 1) + Z.of_nat (size (fl_Tags f))
    + (if fl_ObjectSizeGreaterThan f then 1 else 0) + (if fl_ObjectSizeLessThan f then 1 else 0) in
  if predicates <=? 1 then
    mkFilterXML (if bool_decide (fl_Prefix f = "") then None else Some (fl_Prefix f))
      (match map_to_list (fl_Tags f) with [] => None | (k, v) :: _ => Some (mkTagXML k v) end)
      (fl_ObjectSizeGreaterThan f) (fl_ObjectSizeLessThan f) None
  else
    mkFilterXML None None None None
      (Some (mkAndXML (fl_Prefix f)
               ((λ k, mkTagXML k (default "" (fl_Tags f !! k))) <$> sortedKeys (fl_Tags f))
               (fl_ObjectSizeGreaterThan f) (fl_ObjectSizeLessThan f))).

Definition date_to_xml (date : Z) : string := if IsZero date then "" else FormatDate date.

Definition rule_to_xml (r : Rule) : lifecycleRuleXML :=
  mkRuleXML (rl_ID r) None (rl_Status r)
    (Some (if Filter_Empty (rl_Filter r) then mkFilterXML None None None None None
           else lifecycleFilterToXML (rl_Filter r)))
    ((λ e, mkExpirationXML (ex_Days e) (date_to_xml (ex_Date e)) (ex_ExpiredObjectDeleteMarker e)) <$> rl_Expiration r)
    ((λ t, mkTransitionXML (tr_Days t) (date_to_xml (tr_Date t)) (tr_StorageClass t)) <$> rl_Transitions r)
    (rl_AbortIncompleteMultipartUpload r).

Definition lifecycleConfigToXML (cfg : Config) : list lifecycleRuleXML := rule_to_xml <$> cfg.

(** ** The document a client gets denotes the rules *)

Context {L : DateCodecLaws}.

Lemma and_tags_insert tags m :
  foldl (λ m t, <[lt_Key t := lt_Value t]> m) m tags = and_tags tags ∪ m.
Proof.
  unfold and_tags. revert m. induction tags as [|t tags IH]; intros m; simpl; [by rewrite (left_id_L ∅ (∪))|].
  rewrite IH, (IH (<[lt_Key t := lt_Value t]> ∅)), <- (assoc_L (∪)). f_equal.
  by rewrite insert_empty, insert_union_singleton_l.
Qed.

Lemma and_tags_of_keys (m : gmap string string) keys :
  NoDup keys → (∀ k, k ∈ keys ↔ is_Some (m !! k)) →
  and_tags ((λ k, mkTagXML k (default "" (m !! k))) <$> keys) = m.
Proof.
  intros Hnd Hkeys. apply map_eq. intros k.
  assert (and_tags ((λ k, mkTagXML k (default "" (m !! k))) <$> keys) !! k =
    if bool_decide (k ∈ keys) then Some (default "" (m !! k)) else None) as ->.
  { clear Hkeys. induction keys as [|k' keys IH]; [done|]. apply NoDup_cons in Hnd as [Hnin Hnd].
    rewrite fmap_cons. unfold and_tags at 1. cbn [foldl lt_Key lt_Value]. rewrite and_tags_insert. specialize (IH Hnd).
    destruct (decide (k = k')) as [->|Hne].
    - rewrite (bool_decide_eq_true_2 (k' ∈ _)) by by left. rewrite lookup_union_r; [by rewrite lookup_insert_eq|].
      rewrite IH. by rewrite bool_decide_eq_false_2.
    - rewrite lookup_union_l by by rewrite lookup_insert_ne. rewrite IH.
      rewrite (bool_decide_ext (k ∈ k' :: keys) (k ∈ keys)); [done|]. rewrite elem_of_cons. naive_solver. }
  case_bool_decide as Hk.
  - apply Hkeys in Hk as [v ->]. done.
  - destruct (m !! k) as [v|] eqn:Hm; [|done]. destruct Hk. apply Hkeys. by eexists.
Qed.

Lemma sortedKeys_tags m : and_tags ((λ k, mkTagXML k (default "" (m !! k))) <$> sortedKeys m) = m.
Proof.
  apply and_tags_of_keys; unfold sortedKeys.
  - rewrite (sort_slice_perm id String.ltb). apply NoDup_fst_map_to_list.
  - intros k. rewrite (sort_slice_perm id String.ltb), list_elem_of_fmap. split.
    + intros ([k' v] & -> & Hin%elem_of_map_to_list). by eexists.
    + intros [v Hv]. exists (k, v). split; [done|]. by apply elem_of_map_to_list.
Qed.

Lemma filter_document f : lifecycleFilterFromXML (lifecycleFilterToXML f) = Some f.
Proof.
  destruct f as [p tags gt lt]. unfold lifecycleFilterToXML. cbn [fl_Prefix fl_Tags fl_ObjectSizeGreaterThan fl_ObjectSizeLessThan].
  destruct (Z.leb_spec ((if bool_decide (p = "") then 0 else 1) + Z.of_nat (size tags)
    + (if gt then 1 else 0) + (if lt then 1 else 0)) 1) as [Hle|Hgt].
  - unfold lifecycleFilterFromXML. cbn [lf_And lf_Prefix lf_Tag lf_ObjectSizeGreaterThan lf_ObjectSizeLessThan].
    destruct (map_to_list tags) as [|[k v] [|]] eqn:Htags.
    + apply map_to_list_empty_iff in Htags as ->. rewrite map_size_empty in Hle.
      case_bool_decide; subst; destruct gt, lt; simpl in *; try lia; done.
    + assert (tags = {[k := v]}) as ->.
      { rewrite <- (list_to_map_to_list tags), Htags. done. }
      rewrite map_size_singleton in Hle. case_bool_decide; subst; destruct gt, lt; simpl in *; try lia; done.
    + rewrite <- length_map_to_list, Htags in Hle. simpl in Hle. case_bool_decide; destruct gt, lt; lia.
  - unfold lifecycleFilterFromXML. simpl. by rewrite sortedKeys_tags.
Qed.

(** The dates of a rule have no fraction of a second. *)
Definition whole_seconds (r : Rule) : Prop :=
  (∀ e, rl_Expiration r = Some e → formattable (ex_Date e)) ∧
  Forall (λ t, formattable (tr_Date t)) (rl_Transitions r).

Lemma date_document t : formattable t → parseLifecycleDate (date_to_xml t) = Some t.
Proof using L.
  intros Ht. unfold parseLifecycleDate, date_to_xml, IsZero. destruct (Z.eqb_spec t zero_time) as [->|]; [done|].
  rewrite bool_decide_eq_false_2 by apply FormatDate_nonempty. by apply ParseDate_FormatDate.
Qed.

Lemma rule_document r : whole_seconds r → rule_from_xml (rule_to_xml r) = Some r.
Proof using L.
  destruct r as [i st f e ts ab]. intros [He Hts]. unfold rule_from_xml, rule_to_xml. simpl in *.
  assert (lifecycleFilterFromXML (if Filter_Empty f then mkFilterXML None None None None None
    else lifecycleFilterToXML f) = Some f) as ->.
  { destruct (Filter_Empty f) eqn:Hf; [|apply filter_document]. destruct f as [p tags gt lt].
    unfold Filter_Empty in Hf. simpl in Hf. repeat (apply andb_true_iff in Hf as [Hf ?]). bool_facts. by subst. }
  simpl. assert (mapM transition_from_xml ((λ t, mkTransitionXML (tr_Days t) (date_to_xml (tr_Date t)) (tr_StorageClass t)) <$> ts)
    = Some ts) as ->.
  { apply mapM_fmap_Forall_Some. eapply Forall_impl; [done|]. intros [d dt sc] Hd. unfold transition_from_xml. simpl in *.
    by rewrite date_document. }
  destruct e as [[d dt mk]|]; simpl; [|done]. specialize (He _ eq_refl). simpl in He. by rewrite date_document.
Qed.

(** The document a client gets denotes the rules that were put. *)
Lemma lifecycle_document cfg :
  Forall whole_seconds cfg → lifecycleConfigFromXML (lifecycleConfigToXML cfg) = Some cfg.
Proof using L.
  intros Hw. apply mapM_fmap_Forall_Some. eapply Forall_impl; [done|]. intros r. apply rule_document.
Qed.

End codec.
End LifecycleDocs.
