(* ===== verification/BucketConfig.v ===== *)
(** * Bucket configuration

    The per-bucket configuration store (metadata/bucket_config, in memory) and
    the handlers of the bucket-level sub-resources: versioning, Object Lock, CORS,
    lifecycle, notifications and default encryption. A handler is a program over
    calls to the store, so that requests can fail at any call and overlap. *)

From S2P Require Import Prelude Bytes GoStrings Manifest ManifestStore ContentIndex ObjectLock ClientSdk ErasureCoding.
From S2P Require Import EncryptionPipeline Fabric Handlers Tagging Routing Cors Notifications LifecycleRules LifecycleDoc.
Local Open Scope Z_scope.

(** ** Default encryption (metadata/sse) *)

Record SSEConfig := mkSSEConfig {
  sse_Algorithm : string;
  sse_KMSMasterKeyID : string;
  sse_BucketKeyEnabled : bool
}.

Definition AES256 : string := "AES256".
Definition AWSKMS : string := "aws:kms".
Definition SSE_Empty (c : SSEConfig) : bool := bool_decide (sse_Algorithm c = "").

Inductive sse_error := KMSKeyWithAES256 | AlgorithmRequired | AlgorithmInvalid.

Definition SSE_Valid (c : SSEConfig) : option sse_error :=
  if bool_decide (sse_Algorithm c = AES256) then
    if bool_decide (sse_KMSMasterKeyID c = "") then None else Some KMSKeyWithAES256
  else if bool_decide (sse_Algorithm c = AWSKMS) then None
  else if bool_decide (sse_Algorithm c = "") then Some AlgorithmRequired
  else Some AlgorithmInvalid.

(** ** The store *)

Definition VersioningUnset : string := "".
Definition VersioningEnabled : string := "Enabled".
Definition VersioningSuspended : string := "Suspended".
Definition Versioning_Valid (v : string) : bool :=
  bool_decide (v = VersioningEnabled) || bool_decide (v = VersioningSuspended).

Inductive config_error := KeyRequired | ConfigInvalid | StoreUnavailable.

Module ConfigStore.

Record MemoryStore := mkMemoryStore {
  versioning : gmap string string;
  objectLock : gmap string LockConfig;
  cors : gmap string CORS.Config;
  lifecycle : gmap string Config;
  notif : gmap string Notify.Config;
  encryption : gmap string SSEConfig
}.

Definition NewMemoryStore : MemoryStore := mkMemoryStore ∅ ∅ ∅ ∅ ∅ ∅.

Definition nul : ascii := ascii_of_N 0.
Definition memKey (tenantID bucket : string) : string := String.app tenantID (String nul bucket).

(** The check every operation begins with. *)
Definition keyed {X} (tenantID bucket : string) (k : result config_error X) : result config_error X :=
  if bool_decide (tenantID = "") || bool_decide (bucket = "") then Err KeyRequired else k.

Definition GetVersioning (s : MemoryStore) (t b : string) : result config_error string :=
  keyed t b (Ok (default VersioningUnset (versioning s !! memKey t b))).

Definition SetVersioning (t b state : string) (s : MemoryStore) : result config_error MemoryStore :=
  keyed t b (if negb (Versioning_Valid state) then Err ConfigInvalid
             else Ok (mkMemoryStore (<[memKey t b := state]> (versioning s)) (objectLock s) (cors s) (lifecycle s)
                        (notif s) (encryption s))).

Definition zero_LockConfig : LockConfig := mkLockConfig false "" 0 0.

Definition GetObjectLock (s : MemoryStore) (t b : string) : result config_error LockConfig :=
  keyed t b (Ok (default zero_LockConfig (objectLock s !! memKey t b))).

Definition SetObjectLock (t b : string) (cfg : LockConfig) (s : MemoryStore) : result config_error MemoryStore :=
  keyed t b (match LockConfig_Valid cfg with
             | Some _ => Err ConfigInvalid
             | None => Ok (mkMemoryStore (versioning s) (<[memKey t b := cfg]> (objectLock s)) (cors s) (lifecycle s)
                             (notif s) (encryption s))
             end).

Definition cloneCORS (c : CORS.Config) : CORS.Config :=
  (λ r, CORS.mkRule (CORS.ID r) (CORS.AllowedOrigins r) (CORS.AllowedMethods r) (CORS.AllowedHeaders r)
          (CORS.ExposeHeaders r) (CORS.MaxAgeSeconds r)) <$> c.

Definition set_cors (m : gmap string CORS.Config) (s : MemoryStore) : MemoryStore :=
  mkMemoryStore (versioning s) (objectLock s) m (lifecycle s) (notif s) (encryption s).

Definition GetCORS (s : MemoryStore) (t b : string) : result config_error CORS.Config :=
  keyed t b (Ok (cloneCORS (default [] (cors s !! memKey t b)))).

Definition SetCORS (t b : string) (cfg : CORS.Config) (s : MemoryStore) : result config_error MemoryStore :=
  keyed t b (match CORS.Valid cfg with
             | Some _ => Err ConfigInvalid
             | None => Ok (set_cors (<[memKey t b := cloneCORS cfg]> (cors s)) s)
             end).

Definition DeleteCORS (t b : string) (s : MemoryStore) : result config_error MemoryStore :=
  keyed t b (Ok (set_cors (delete (memKey t b) (cors s)) s)).

Definition cloneLifecycle (c : Config) : Config :=
  (λ r, mkRule (rl_ID r) (rl_Status r)
          (mkFilter (fl_Prefix (rl_Filter r)) (fl_Tags (rl_Filter r)) (fl_ObjectSizeGreaterThan (rl_Filter r))
             (fl_ObjectSizeLessThan (rl_Filter r)))
          (rl_Expiration r) (rl_Transitions r) (rl_AbortIncompleteMultipartUpload r)) <$> c.

Definition set_lifecycle (m : gmap string Config) (s : MemoryStore) : MemoryStore :=
  mkMemoryStore (versioning s) (objectLock s) (cors s) m (notif s) (encryption s).

Definition GetLifecycle (s : MemoryStore) (t b : string) : result config_error Config :=
  keyed t b (Ok (cloneLifecycle (default [] (lifecycle s !! memKey t b)))).

Definition SetLifecycle (t b : string) (cfg : Config) (s : MemoryStore) : result config_error MemoryStore :=
  keyed t b (match Config_Valid cfg with
             | Some _ => Err ConfigInvalid
             | None => Ok (set_lifecycle (<[memKey t b := cloneLifecycle cfg]> (lifecycle s)) s)
             end).

Definition DeleteLifecycle (t b : string) (s : MemoryStore) : result config_error MemoryStore :=
  keyed t b (Ok (set_lifecycle (delete (memKey t b) (lifecycle s)) s)).

(** The entries of the background evaluator; Go visits the map in any order. *)
Definition ListLifecycle (s : MemoryStore) : list (string * string * Config) :=
  omap (λ '(k, cfg), match cut_byte nul k with
                     | Some (t, b) => Some (t, b, cloneLifecycle cfg)
                     | None => None
                     end) (map_to_list (lifecycle s)).

Definition zero_SSEConfig : SSEConfig := mkSSEConfig "" "" false.
Definition set_encryption (m : gmap string SSEConfig) (s : MemoryStore) : MemoryStore :=
  mkMemoryStore (versioning s) (objectLock s) (cors s) (lifecycle s) (notif s) m.

Definition GetEncryption (s : MemoryStore) (t b : string) : result config_error SSEConfig :=
  keyed t b (Ok (default zero_SSEConfig (encryption s !! memKey t b))).

Definition SetEncryption (t b : string) (cfg : SSEConfig) (s : MemoryStore) : result config_error MemoryStore :=
  keyed t b (match SSE_Valid cfg with
             | Some _ => Err ConfigInvalid
             | None => Ok (set_encryption (<[memKey t b := cfg]> (encryption s)) s)
             end).

Definition DeleteEncryption (t b : string) (s : MemoryStore) : result config_error MemoryStore :=
  keyed t b (Ok (set_encryption (delete (memKey t b) (encryption s)) s)).

Definition cloneNotification (c : Notify.Config) : Notify.Config :=
  (λ r, Notify.mkRule (Notify.ID r) (Notify.Events r) (Notify.Endpoint r) (Notify.Prefix r) (Notify.Suffix r)) <$> c.

Definition set_notif (m : gmap string Notify.Config) (s : MemoryStore) : MemoryStore :=
  mkMemoryStore (versioning s) (objectLock s) (cors s) (lifecycle s) m (encryption s).

Definition GetNotification (s : MemoryStore) (t b : string) : result config_error Notify.Config :=
  keyed t b (Ok (cloneNotification (default [] (notif s !! memKey t b)))).

Definition SetNotification `{URLParser} (t b : string) (cfg : Notify.Config) (s : MemoryStore)
    : result config_error MemoryStore :=
  keyed t b (match Notify.Valid cfg with
             | Some _ => Err ConfigInvalid
             | None =>
                 if bool_decide (cfg = []) then Ok (set_notif (delete (memKey t b) (notif s)) s)
                 else Ok (set_notif (<[memKey t b := cloneNotification cfg]> (notif s)) s)
             end).

End ConfigStore.

(** ** Programs over the store *)

Inductive bcall : Type → Type :=
| CGetVersioning (t b : string) : bcall (result config_error string)
| CSetVersioning (t b state : string) : bcall (err_or_nil config_error)
| CGetObjectLock (t b : string) : bcall (result config_error LockConfig)
| CSetObjectLock (t b : string) (cfg : LockConfig) : bcall (err_or_nil config_error)
| CGetCORS (t b : string) : bcall (result config_error CORS.Config)
| CSetCORS (t b : string) (cfg : CORS.Config) : bcall (err_or_nil config_error)
| CDeleteCORS (t b : string) : bcall (err_or_nil config_error)
| CGetLifecycle (t b : string) : bcall (result config_error Config)
| CSetLifecycle (t b : string) (cfg : Config) : bcall (err_or_nil config_error)
| CDeleteLifecycle (t b : string) : bcall (err_or_nil config_error)
| CGetNotification (t b : string) : bcall (result config_error Notify.Config)
| CSetNotification (t b : string) (cfg : Notify.Config) : bcall (err_or_nil config_error)
| CGetEncryption (t b : string) : bcall (result config_error SSEConfig)
| CSetEncryption (t b : string) (cfg : SSEConfig) : bcall (err_or_nil config_error)
| CDeleteEncryption (t b : string) : bcall (err_or_nil config_error).

Inductive bprog (R : Type) : Type :=
| BRet (r : R)
| BCall {A : Type} (c : bcall A) (k : A → bprog R).
Arguments BRet {R} r.
Arguments BCall {R A} c k.

Declare Scope bprog_scope.
Delimit Scope bprog_scope with bprog.
Notation "x '<~' c ';;' k" := (BCall c (λ x, k))
  (at level 100, c at next level, right associativity) : bprog_scope.

Section semantics.
Context {U : URLParser}.
Import ConfigStore.

Definition config_write (s : MemoryStore) (r : result config_error MemoryStore) : err_or_nil config_error * MemoryStore :=
  match r with Ok s' => (Ok (), s') | Err e => (Err e, s) end.

(** One call; a [fault] is a store that cannot be reached. *)
Definition do_bcall {A} (fault : bool) (c : bcall A) (s : MemoryStore) : A * MemoryStore :=
  match c in bcall A return A * MemoryStore with
  | CGetVersioning t b => (if fault then Err StoreUnavailable else GetVersioning s t b, s)
  | CSetVersioning t b st => if fault then (Err StoreUnavailable, s) else config_write s (SetVersioning t b st s)
  | CGetObjectLock t b => (if fault then Err StoreUnavailable else GetObjectLock s t b, s)
  | CSetObjectLock t b cfg => if fault then (Err StoreUnavailable, s) else config_write s (SetObjectLock t b cfg s)
  | CGetCORS t b => (if fault then Err StoreUnavailable else GetCORS s t b, s)
  | CSetCORS t b cfg => if fault then (Err StoreUnavailable, s) else config_write s (SetCORS t b cfg s)
  | CDeleteCORS t b => if fault then (Err StoreUnavailable, s) else config_write s (DeleteCORS t b s)
  | CGetLifecycle t b => (if fault then Err StoreUnavailable else GetLifecycle s t b, s)
  | CSetLifecycle t b cfg => if fault then (Err StoreUnavailable, s) else config_write s (SetLifecycle t b cfg s)
  | CDeleteLifecycle t b => if fault then (Err StoreUnavailable, s) else config_write s (DeleteLifecycle t b s)
  | CGetNotification t b => (if fault then Err StoreUnavailable else GetNotification s t b, s)
  | CSetNotification t b cfg => if fault then (Err StoreUnavailable, s) else config_write s (SetNotification t b cfg s)
  | CGetEncryption t b => (if fault then Err StoreUnavailable else GetEncryption s t b, s)
  | CSetEncryption t b cfg => if fault then (Err StoreUnavailable, s) else config_write s (SetEncryption t b cfg s)
  | CDeleteEncryption t b => if fault then (Err StoreUnavailable, s) else config_write s (DeleteEncryption t b s)
  end.

Fixpoint bexec {R} (p : bprog R) (faults : list bool) (s : MemoryStore) : R * MemoryStore :=
  match p with
  | BRet r => (r, s)
  | BCall c k =>
      let '(a, s') := do_bcall (default false (head faults)) c s in bexec (k a) (tail faults) s'
  end.

(** [Q] holds at the end of every run. *)
Fixpoint bwp {R} (p : bprog R) (Q : R → MemoryStore → Prop) (s : MemoryStore) : Prop :=
  match p with
  | BRet r => Q r s
  | BCall c k => ∀ fault, bwp (k (do_bcall fault c s).1) Q (do_bcall fault c s).2
  end.

Lemma bwp_exec {R} (p : bprog R) Q faults s : bwp p Q s → Q (bexec p faults s).1 (bexec p faults s).2.
Proof.
  revert faults s. induction p as [r|A c k IH]; intros faults s Hp; simpl in *; [done|].
  specialize (Hp (default false (head faults))). destruct (do_bcall _ c s) as [a s']. by apply IH.
Qed.

(** One step of one of the requests in progress. *)
Definition bstep {R} (i : nat) (fault : bool) (c : list (bprog R) * MemoryStore) : option (list (bprog R) * MemoryStore) :=
  match c.1 !! i with
  | Some (BCall call k) =>
      let '(a, s') := do_bcall fault call c.2 in Some (<[i := k a]> c.1, s')
  | _ => None
  end.

Fixpoint bsteps {R} (sched : list nat) (c : list (bprog R) * MemoryStore) : option (list (bprog R) * MemoryStore) :=
  match sched with
  | [] => Some c
  | i :: sched => c' ← bstep i false c; bsteps sched c'
  end.

End semantics.
