(* ===== verification/BucketSafety.v ===== *)
(** * Properties of the bucket configuration

    Requests on the configuration of a bucket, run to their end with any call
    failing, or overlapping. *)

From S2P Require Import Prelude Bytes GoStrings Manifest ManifestStore ContentIndex ObjectLock ClientSdk ErasureCoding.
From S2P Require Import EncryptionPipeline Fabric Handlers Tagging Routing Cors Notifications LifecycleRules LifecycleDoc.
From S2P Require Import BucketConfig BucketHandlers Worm.
Local Open Scope Z_scope.

Module BucketSafety.
Import ConfigStore Subresources.

Section safety.
Context {G : Gateway} {U : URLParser} {DC : DateCodec}.

(** The requests that write a configuration. *)
Inductive request :=
| RVersioning (q : BucketRequest string)
| RLock (q : BucketRequest objectLockConfiguration)
| RCors (q : BucketRequest (list CORS.Rule))
| RDeleteCors (q : BucketRequest unit)
| RLifecycle (q : BucketRequest (list LifecycleDocs.lifecycleRuleXML))
| RDeleteLifecycle (q : BucketRequest unit)
| RNotification (q : BucketRequest (option (list Notify.webhookConfigurationXML)))
| REncryption (q : BucketRequest (list SSEConfig))
| RDeleteEncryption (q : BucketRequest unit).

Definition handle (r : request) : bprog Response :=
  match r with
  | RVersioning q => PutBucketVersioning q
  | RLock q => PutObjectLockConfiguration q
  | RCors q => PutBucketCors q
  | RDeleteCors q => DeleteBucketCors q
  | RLifecycle q => PutBucketLifecycleConfiguration q
  | RDeleteLifecycle q => DeleteBucketLifecycleConfiguration q
  | RNotification q => PutBucketNotificationConfiguration q
  | REncryption q => PutBucketEncryption q
  | RDeleteEncryption q => DeleteBucketEncryption q
  end.

Definition target (r : request) : result Response string * string :=
  match r with
  | RVersioning q => (bq_auth q, bq_path q)
  | RLock q => (bq_auth q, bq_path q)
  | RCors q => (bq_auth q, bq_path q)
  | RDeleteCors q => (bq_auth q, bq_path q)
  | RLifecycle q => (bq_auth q, bq_path q)
  | RDeleteLifecycle q => (bq_auth q, bq_path q)
  | RNotification q => (bq_auth q, bq_path q)
  | REncryption q => (bq_auth q, bq_path q)
  | RDeleteEncryption q => (bq_auth q, bq_path q)
  end.

(** Requests one after the other, each with its faults. *)
Definition bserve (rs : list (request * list bool)) (s : MemoryStore) : MemoryStore :=
  foldl (λ s r, (bexec (handle r.1) r.2 s).2) s rs.

(** ** What a write changes *)

(** The configuration of one bucket. *)
Definition view (k : string) (s : MemoryStore) :=
  (versioning s !! k, objectLock s !! k, cors s !! k, lifecycle s !! k, notif s !! k, encryption s !! k).

(** A request writes at the key of its bucket only, and on the way to a locked or an
    unversioned bucket it has read the other of the two. *)
Inductive written (s : MemoryStore) (k : string) (s' : MemoryStore) : Prop :=
| WNothing : s' = s → written s k s'
| WVersioning state :
    (state = VersioningEnabled ∨ lc_Enabled (default zero_LockConfig (objectLock s !! k)) = false) →
    s' = mkMemoryStore (<[k := state]> (versioning s)) (objectLock s) (cors s) (lifecycle s) (notif s) (encryption s) →
    written s k s'
| WLock cfg :
    lc_Enabled cfg = true → versioning s !! k = Some VersioningEnabled →
    s' = mkMemoryStore (versioning s) (<[k := cfg]> (objectLock s)) (cors s) (lifecycle s) (notif s) (encryption s) →
    written s k s'
| WOther :
    versioning s' = versioning s → objectLock s' = objectLock s →
    (∀ k', k' ≠ k → view k' s' = view k' s) → written s k s'.

Lemma bucket_level_wp {D} (q : BucketRequest D) k Q s :
  (∀ e, Q e s) →
  (∀ t b, bq_auth q = Ok t → parseBucketKey (bq_path q) = (b, "") → b ≠ "" → bwp (k t b) Q s) →
  bwp (bucket_level q k) Q s.
Proof.
  intros Herr Hk. unfold bucket_level. destruct (bq_auth q) as [t|e]; [|apply Herr].
  destruct (parseBucketKey (bq_path q)) as [b key]. case_bool_decide as Hb; [apply Herr|].
  case_bool_decide as Hkey; [|apply Herr]. simpl. destruct (negb _); [apply Herr|]. subst. by apply Hk.
Qed.

Lemma stored_wp status code err (Q : MemoryStore → Prop) s : Q s → bwp (stored status code err) (λ _, Q) s.
Proof. by destruct err. Qed.

(** The key of the bucket a request is for. *)
Definition keyed_by (r : request) (k : string) : Prop :=
  ∃ t b, (target r).1 = Ok t ∧ parseBucketKey (target r).2 = (b, "") ∧ k = memKey t b.

Definition writes (r : request) (s : MemoryStore) (s' : MemoryStore) : Prop :=
  s' = s ∨ ∃ k, keyed_by r k ∧ written s k s'.

Lemma set_written (r : request) s (f : result config_error MemoryStore) k status code :
  keyed_by r k → (∀ s', f = Ok s' → written s k s') →
  bwp (stored status code (config_write s f).1) (λ _, writes r s) (config_write s f).2.
Proof.
  intros Hk Hf. apply stored_wp. destruct f as [s'|e]; simpl; [|by left]. right. exists k. split; [done|by apply Hf].
Qed.

Lemma keyed_Ok {X} t b (r : result config_error X) x : keyed t b r = Ok x → r = Ok x.
Proof. unfold keyed. by destruct (_ || _). Qed.

Lemma keyed_target r t b :
  (target r).1 = Ok t → parseBucketKey (target r).2 = (b, "") → keyed_by r (memKey t b).
Proof. intros ??. by exists t, b. Qed.

Lemma versioning_writes q s : bwp (PutBucketVersioning q) (λ _, writes (RVersioning q) s) s.
Proof.
  apply bucket_level_wp; [by left|]. intros t b Ha Hp Hb. pose proof (keyed_target (RVersioning q) t b Ha Hp) as Hkey.
  destruct (bq_doc q) as [doc|]; [|by left]. destruct (negb (Versioning_Valid doc)) eqn:Hv; [by left|].
  assert (∀ s', SetVersioning t b doc s = Ok s' → s' = mkMemoryStore (<[memKey t b := doc]> (versioning s))
    (objectLock s) (cors s) (lifecycle s) (notif s) (encryption s)) as Hset.
  { intros s' Hs. apply keyed_Ok in Hs. rewrite Hv in Hs. by simplify_eq. }
  case_bool_decide as Hsus.
  - intros fault. destruct fault; [by left|]. cbn [do_bcall fst snd]. unfold GetObjectLock, keyed.
    destruct (_ || _); [by left|]. destruct (lc_Enabled _) eqn:Hl; [by left|]. intros fault.
    destruct fault; [by left|]. apply set_written with (k := memKey t b); [done|].
    intros s' Hs. apply (WVersioning _ _ _ doc); auto.
  - intros fault. destruct fault; [by left|]. apply set_written with (k := memKey t b); [done|].
    intros s' Hs. apply (WVersioning _ _ _ doc); [left|by apply Hset].
    unfold Versioning_Valid in Hv. apply negb_false_iff, orb_true_iff in Hv as [?|?]; by bool_facts.
Qed.

Lemma lock_writes q s : bwp (PutObjectLockConfiguration q) (λ _, writes (RLock q) s) s.
Proof.
  apply bucket_level_wp; [by left|]. intros t b Ha Hp Hb. pose proof (keyed_target (RLock q) t b Ha Hp) as Hkey.
  destruct (bq_doc q) as [doc|]; [|by left]. case_bool_decide; [|by left]. cbn [negb]. cbv zeta.
  destruct (LockConfig_Valid (lock_config doc)) eqn:Hv; [by left|].
  intros fault. destruct fault; [by left|]. cbn [do_bcall fst snd]. unfold GetVersioning, keyed.
  destruct (_ || _); [by left|]. case_bool_decide as Hen; [|by left]. cbn [negb]. intros fault.
  destruct fault; [by left|]. apply set_written with (k := memKey t b); [done|].
  intros s' Hs. apply keyed_Ok in Hs. rewrite Hv in Hs. simplify_eq.
  eapply WLock; [|destruct (versioning s !! memKey t b); simpl in Hen; [by f_equal|done]|done].
  unfold lock_config. by destruct (ol_Rule doc) as [[|]|].
Qed.

(** A write of one of the other configurations. *)
Lemma set_other (r : request) t b s (c : bcall (err_or_nil config_error)) (f : result config_error MemoryStore)
    status code :
  (target r).1 = Ok t → parseBucketKey (target r).2 = (b, "") →
  (∀ fault : bool, do_bcall fault c s = if fault then (Err StoreUnavailable, s) else config_write s (keyed t b f)) →
  (∀ s', keyed t b f = Ok s' → versioning s' = versioning s ∧ objectLock s' = objectLock s ∧
     ∀ k', k' ≠ memKey t b → view k' s' = view k' s) →
  bwp (BCall c (λ err, stored status code err)) (λ _, writes r s) s.
Proof.
  intros Ha Hp Hc Hf fault. rewrite Hc. destruct fault; [by left|]. apply set_written with (k := memKey t b); [by apply keyed_target|].
  intros s' Hs. destruct (Hf s' Hs) as (? & ? & ?). by apply WOther.
Qed.

(** The entry that is replaced or removed is the bucket's. *)
Ltac solve_other :=
  let s' := fresh in let Hs := fresh in
  intros s' Hs; apply keyed_Ok in Hs; simplify_eq; (split; [done|]); (split; [done|]); intros;
  unfold view; cbn; by rewrite ?lookup_insert_ne, ?lookup_delete_ne.

Lemma handle_writes r s : bwp (handle r) (λ _, writes r s) s.
Proof.
  destruct r as [q|q|q|q|q|q|q|q|q]; [apply versioning_writes|apply lock_writes|..];
    cbn [handle]; (apply bucket_level_wp; [intros ?; by left|]); intros t b Ha Hp Hb.
  - destruct (bq_doc q) as [doc|]; [|by left]. cbv zeta. destruct (CORS.Valid (corsConfigFromXML doc)) eqn:Hv; [by left|].
    eapply (set_other (RCors q) t b); [done|done|intros; reflexivity|]. rewrite Hv. solve_other.
  - eapply (set_other (RDeleteCors q) t b); [done|done|intros; reflexivity|]. solve_other.
  - destruct (bq_doc q) as [doc|]; [|by left].
    destruct (LifecycleDocs.lifecycleConfigFromXML doc) as [cfg|]; [|by left].
    destruct (Config_Valid cfg) eqn:Hv; [by left|].
    eapply (set_other (RLifecycle q) t b); [done|done|intros; reflexivity|]. rewrite Hv. solve_other.
  - eapply (set_other (RDeleteLifecycle q) t b); [done|done|intros; reflexivity|]. solve_other.
  - destruct (bq_doc q) as [doc|]; [|by left].
    destruct (match doc with None => Some [] | Some doc => Notify.notificationConfigFromXML doc end) as [cfg|];
      [|by left].
    destruct (Notify.Valid cfg) eqn:Hv; [by left|].
    eapply (set_other (RNotification q) t b); [done|done|intros; reflexivity|]. rewrite Hv. case_bool_decide; solve_other.
  - destruct (negb hasEncryption); [by left|]. destruct (bq_doc q) as [[|cfg [|]]|]; [by left| |by left..].
    destruct (SSE_Valid cfg) eqn:Hv; [by left|].
    eapply (set_other (REncryption q) t b); [done|done|intros; reflexivity|]. rewrite Hv. solve_other.
  - eapply (set_other (RDeleteEncryption q) t b); [done|done|intros; reflexivity|]. solve_other.
Qed.

Lemma served_writes r faults s : writes r s (bexec (handle r) faults s).2.
Proof. apply (bwp_exec _ (λ _, writes r s)), handle_writes. Qed.

(** ** Object Lock and versioning *)

Definition locked (k : string) (s : MemoryStore) : Prop :=
  lc_Enabled (default zero_LockConfig (objectLock s !! k)) = true.

(** Every bucket with Object Lock is versioned. *)
Definition locked_versioned (s : MemoryStore) : Prop :=
  ∀ k, locked k s → versioning s !! k = Some VersioningEnabled.

Lemma writes_locked r s s' k : writes r s s' → locked k s → locked k s'.
Proof.
  intros [->|(k' & _ & [->|state _ ->|cfg Hcfg _ ->|_ Hl _])] Hk; unfold locked in *; [done..| |by rewrite Hl].
  simpl. destruct (decide (k' = k)) as [->|]; [by rewrite lookup_insert_eq|by rewrite lookup_insert_ne].
Qed.

Lemma writes_versioned r s s' : writes r s s' → locked_versioned s → locked_versioned s'.
Proof.
  intros [->|(k' & _ & [->|state Hst ->|cfg _ Hv ->|Hv Hl _])] Hinv k Hk; unfold locked in *; simpl in *.
  - by apply Hinv.
  - by apply Hinv.
  - destruct (decide (k' = k)) as [->|]; [|rewrite lookup_insert_ne by done; by apply Hinv].
    rewrite lookup_insert_eq. destruct Hst as [->|Hst]; [done|congruence].
  - destruct (decide (k' = k)) as [->|]; [done|]. rewrite lookup_insert_ne in Hk by done. by apply Hinv.
  - rewrite Hv. apply Hinv. by rewrite Hl in Hk.
Qed.

Lemma served_locked rs s k :
  locked_versioned s → locked k s → locked_versioned (bserve rs s) ∧ locked k (bserve rs s).
Proof.
  unfold bserve. revert s. induction rs as [|[r faults] rs IH]; intros s Hinv Hk; [done|]. simpl.
  pose proof (served_writes r faults s) as Hw. apply IH; [by eapply writes_versioned|by eapply writes_locked].
Qed.

Lemma served_versioned rs s : locked_versioned s → locked_versioned (bserve rs s).
Proof.
  unfold bserve. revert s. induction rs as [|[r faults] rs IH]; intros s Hinv; [done|]. simpl.
  apply IH. by eapply writes_versioned, Hinv; apply served_writes.
Qed.

(** C15: a bucket that has Object Lock keeps it and stays versioned. After any sequence of
    requests on the configuration of any buckets, one after the other and with any call
    of the store failing, a bucket with Object Lock enabled is versioned, and no
    later sequence of requests turns off its lock or suspends its versioning. *)
Theorem locked_bucket_stays_versioned rs rs' t b :
  t ≠ "" → b ≠ "" →
  let s := bserve rs NewMemoryStore in
  locked (memKey t b) s →
  let s' := bserve rs' s in
  locked (memKey t b) s' ∧ GetVersioning s t b = Ok VersioningEnabled ∧ GetVersioning s' t b = Ok VersioningEnabled.
Proof.
  intros Ht Hb s Hl s'.
  assert (locked_versioned s) as Hinv by (apply served_versioned; by intros k Hk).
  destruct (served_locked rs' s _ Hinv Hl) as [Hinv' Hl']. split; [done|].
  unfold GetVersioning, keyed. rewrite !bool_decide_eq_false_2 by done. simpl.
  subst s'. by rewrite (Hinv _ Hl), (Hinv' _ Hl').
Qed.

(** ** Buckets apart *)

Lemma memKey_inj t b t' b' :
  ContainsByte nul t = false → ContainsByte nul t' = false → memKey t b = memKey t' b' → t = t' ∧ b = b'.
Proof.
  intros Ht Ht' Heq. pose proof (cut_byte_app nul t b Ht) as H. pose proof (cut_byte_app nul t' b' Ht') as H'.
  unfold memKey in Heq. rewrite Heq in H. rewrite H in H'. by simplify_eq.
Qed.

(** The configuration of a bucket is its own. A request, with any call failing, leaves every
    configuration of every bucket of every tenant other than the one it names as
    it was, when no tenant has a zero byte in its name. *)
Theorem bucket_configurations_are_separate r faults s t b :
  ContainsByte nul t = false →
  (∀ t', (target r).1 = Ok t' → ContainsByte nul t' = false) →
  (∀ t', (target r).1 = Ok t' → parseBucketKey (target r).2 = (b, "") → t' ≠ t) →
  view (memKey t b) (bexec (handle r) faults s).2 = view (memKey t b) s.
Proof.
  intros Ht Ht' Hother.
  destruct (served_writes r faults s) as [->|(k & (t' & b' & Ha & Hp & ->) & Hw)]; [done|].
  assert (memKey t' b' ≠ memKey t b) as Hne.
  { intros [-> ->]%memKey_inj; [by eapply Hother|by apply Ht'|done]. }
  unfold view. destruct Hw as [->|state _ ->|cfg _ _ ->|_ _ Hv]; simpl; [done|by rewrite lookup_insert_ne..|].
  by apply Hv.
Qed.

(** ** Round trips *)

Lemma cloneLifecycle_id c : cloneLifecycle c = c.
Proof.
  unfold cloneLifecycle. rewrite <- (list_fmap_id c) at 2. apply list_fmap_ext. intros i [? ? [] ? ? ?] _. done.
Qed.

Lemma cloneCORS_id c : cloneCORS c = c.
Proof. unfold cloneCORS. rewrite <- (list_fmap_id c) at 2. apply list_fmap_ext. by intros i [] _. Qed.

Lemma cloneNotification_id c : cloneNotification c = c.
Proof. unfold cloneNotification. rewrite <- (list_fmap_id c) at 2. apply list_fmap_ext. by intros i [] _. Qed.

(** A document put with 200, whichever calls failed, is got again as a document that
    denotes the same configuration. *)
Definition roundtrips {D E C} (put : BucketRequest D → bprog Response)
    (get : BucketRequest D → string → bprog (result Response E)) (ok : D → Prop) (denotes : D → option C)
    (denotes' : E → option C) : Prop :=
  ∀ q t b doc faults s,
    bq_auth q = Ok t → t ≠ "" → parseBucketKey (bq_path q) = (b, "") → bq_doc q = Ok doc → ok doc →
    let '(r, s') := bexec (put q) faults s in
    rs_status r = 200 →
    ∃ doc', (bexec (get q b) [] s').1 = Ok doc' ∧ denotes' doc' = denotes doc.

(** What a successful PUT leaves, and what a GET of it reads. *)
Lemma roundtrip_intro {D E C} put get ok (denotes : D → option C) (denotes' : E → option C) :
  (∀ q t b doc s, bq_auth q = Ok t → t ≠ "" → parseBucketKey (bq_path q) = (b, "") → b ≠ "" → bq_configured q = true →
     bq_doc q = Ok doc → ok doc →
     bwp (put q) (λ r s', rs_status r = 200 →
       ∃ doc', (bexec (get q b) [] s').1 = Ok doc' ∧ denotes' doc' = denotes doc) s) →
  (∀ q : BucketRequest D, (parseBucketKey (bq_path q)).1 = "" ∨ bq_configured q = false → ∀ s,
     bwp (put q) (λ r _, rs_status r ≠ 200 ∨ ∃ e, bq_auth q = Err e) s) →
  roundtrips put get ok denotes denotes'.
Proof.
  intros Hput Hbad q t b doc faults s Ha Ht Hp Hd Hok.
  destruct (decide (b = "")) as [->|Hb]; [|destruct (bq_configured q) eqn:Hc].
  - pose proof (bwp_exec _ _ faults s (Hbad q ltac:(rewrite Hp; by left) s)) as H.
    destruct (bexec (put q) faults s) as [r s']. simpl in H. intros. destruct H as [?|[e ?]]; [done|congruence].
  - pose proof (bwp_exec _ _ faults s (Hput q t b doc s Ha Ht Hp Hb Hc Hd Hok)) as H.
    destruct (bexec (put q) faults s) as [r s']. exact H.
  - pose proof (bwp_exec _ _ faults s (Hbad q (or_intror Hc) s)) as H.
    destruct (bexec (put q) faults s) as [r s']. simpl in H. intros. destruct H as [?|[e ?]]; [done|congruence].
Qed.

Lemma bucket_level_bad {D} (q : BucketRequest D) k :
  (parseBucketKey (bq_path q)).1 = "" ∨ bq_configured q = false → ∀ s,
  bwp (bucket_level q k) (λ r _, rs_status r ≠ 200 ∨ ∃ e, bq_auth q = Err e) s.
Proof.
  intros Hbad s. unfold bucket_level. destruct (bq_auth q) as [t|e]; [|right; by eexists].
  destruct (parseBucketKey (bq_path q)) as [b key]. simpl in Hbad. case_bool_decide; [by left|].
  case_bool_decide; [|by left]. simpl. destruct Hbad as [|Hc]; [done|]. rewrite Hc. by left.
Qed.

Lemma bucket_level_ok {D} (q : BucketRequest D) t b k :
  bq_auth q = Ok t → parseBucketKey (bq_path q) = (b, "") → b ≠ "" → bq_configured q = true → bucket_level q k = k t b.
Proof.
  intros Ha Hp Hb Hc. unfold bucket_level. rewrite Ha, Hp, Hc, bool_decide_eq_false_2 by done. done.
Qed.

Lemma bucket_read_ok {D R} (q : BucketRequest D) t b (k : _ → bprog (result Response R)) :
  bq_auth q = Ok t → b ≠ "" → bq_configured q = true → bucket_read q b k = k t.
Proof. intros Ha Hb Hc. unfold bucket_read. rewrite Ha, Hc, bool_decide_eq_false_2 by done. done. Qed.

Lemma keyed_ok {X} t b (r : result config_error X) : t ≠ "" → b ≠ "" → keyed t b r = r.
Proof. intros ??. unfold keyed. by rewrite !bool_decide_eq_false_2. Qed.

(** The frame of the six proofs. *)
Ltac roundtrip_frame :=
  apply roundtrip_intro; [|intros; by apply bucket_level_bad];
  intros q t b doc s Ha Ht Hp Hb Hc Hd Hok.

Lemma versioning_roundtrip :
  roundtrips PutBucketVersioning GetBucketVersioning (λ _, True) Some Some.
Proof.
  roundtrip_frame. unfold PutBucketVersioning. rewrite (bucket_level_ok q t b), Hd by done.
  assert (∀ s, Versioning_Valid doc = true → bwp (BCall (CSetVersioning t b doc) (λ err, stored 200 "VersioningPutFailed" err))
    (λ r s', rs_status r = 200 → ∃ doc', (bexec (GetBucketVersioning q b) [] s').1 = Ok doc' ∧ Some doc' = Some doc) s) as Hset.
  { intros s' Hv fault. destruct fault; [done|]. cbn [do_bcall]. unfold SetVersioning. rewrite keyed_ok, Hv by done.
    simpl. intros _. exists doc. unfold GetBucketVersioning. rewrite (bucket_read_ok q t) by done. simpl.
    unfold GetVersioning. rewrite keyed_ok by done. simpl. by rewrite lookup_insert_eq. }
  destruct (Versioning_Valid doc) eqn:Hv; [|done]. simpl negb. cbv iota. case_bool_decide; [|by apply Hset].
  intros fault. destruct fault; [done|]. cbn [do_bcall fst snd]. unfold GetObjectLock. rewrite keyed_ok by done.
  destruct (lc_Enabled _); [done|by apply Hset].
Qed.

Lemma lock_document_denotes cfg :
  lc_Enabled cfg = true → LockConfig_Valid cfg = None → lock_config (lock_document cfg) = cfg.
Proof.
  destruct cfg as [e m d y]. simpl. intros ->. unfold LockConfig_Valid, lock_config, lock_document, HasDefaultRetention. simpl.
  case_bool_decide as Hm; simpl.
  - subst. destruct (Z.eqb_spec d 0) as [->|]; simpl; [|done]. destruct (Z.eqb_spec y 0) as [->|]; [done|]. simpl. done.
  - destruct (Mode_Valid m); simpl; [|done]. destruct (Z.ltb_spec 0 d), (Z.ltb_spec 0 y); simpl; try done.
Qed.

Lemma lock_roundtrip :
  roundtrips PutObjectLockConfiguration GetObjectLockConfiguration (λ _, True) (Some ∘ lock_config) (Some ∘ lock_config).
Proof.
  roundtrip_frame. unfold PutObjectLockConfiguration. rewrite (bucket_level_ok q t b), Hd by done.
  case_bool_decide; [|done]. simpl negb. cbv iota zeta. destruct (LockConfig_Valid _) eqn:Hv; [done|].
  intros fault. destruct fault; [done|]. cbn [do_bcall fst snd]. unfold GetVersioning. rewrite keyed_ok by done.
  case_bool_decide; [|done]. simpl negb. cbv iota. intros fault. destruct fault; [done|]. cbn [do_bcall].
  unfold SetObjectLock. rewrite keyed_ok, Hv by done. simpl. intros _. exists (lock_document (lock_config doc)).
  assert (lc_Enabled (lock_config doc) = true) as He by (unfold lock_config; by destruct (ol_Rule doc) as [[]|]).
  unfold GetObjectLockConfiguration. rewrite (bucket_read_ok q t) by done. simpl. unfold GetObjectLock.
  rewrite keyed_ok by done. simpl. rewrite lookup_insert_eq. simpl. rewrite He. split; [done|]. simpl. f_equal.
  by apply lock_document_denotes.
Qed.

Lemma cors_roundtrip : roundtrips PutBucketCors GetBucketCors (λ _, True) Some Some.
Proof.
  roundtrip_frame. unfold PutBucketCors. rewrite (bucket_level_ok q t b), Hd by done. cbv zeta.
  change (corsConfigFromXML doc) with (cloneCORS doc). rewrite cloneCORS_id. destruct (CORS.Valid doc) eqn:Hv; [done|].
  intros fault. destruct fault; [done|]. cbn [do_bcall]. unfold SetCORS. rewrite keyed_ok, Hv by done. simpl. intros _.
  exists doc. unfold GetBucketCors. rewrite (bucket_read_ok q t) by done. simpl. unfold GetCORS. rewrite keyed_ok by done.
  simpl. rewrite lookup_insert_eq. simpl. rewrite !cloneCORS_id.
  rewrite bool_decide_eq_false_2 by (intros ->; done). done.
Qed.

Lemma lifecycle_roundtrip {L : DateCodecLaws} :
  roundtrips PutBucketLifecycleConfiguration GetBucketLifecycleConfiguration
    (λ doc, ∀ cfg, LifecycleDocs.lifecycleConfigFromXML doc = Some cfg → Forall LifecycleDocs.whole_seconds cfg)
    LifecycleDocs.lifecycleConfigFromXML LifecycleDocs.lifecycleConfigFromXML.
Proof.
  roundtrip_frame. unfold PutBucketLifecycleConfiguration. rewrite (bucket_level_ok q t b), Hd by done.
  destruct (LifecycleDocs.lifecycleConfigFromXML doc) as [cfg|]; [|done]. specialize (Hok cfg eq_refl).
  destruct (Config_Valid cfg) eqn:Hv; [done|]. intros fault. destruct fault; [done|]. cbn [do_bcall].
  unfold SetLifecycle. rewrite keyed_ok, Hv by done. simpl. intros _.
  exists (LifecycleDocs.lifecycleConfigToXML cfg). unfold GetBucketLifecycleConfiguration.
  rewrite (bucket_read_ok q t) by done. simpl. unfold GetLifecycle. rewrite keyed_ok by done.
  simpl. rewrite lookup_insert_eq. simpl. rewrite !cloneLifecycle_id.
  rewrite bool_decide_eq_false_2 by (intros ->; done). simpl. split; [done|]. by apply LifecycleDocs.lifecycle_document.
Qed.

Definition notification_denotes (doc : option (list Notify.webhookConfigurationXML)) : option Notify.Config :=
  match doc with None => Some [] | Some doc => Notify.notificationConfigFromXML doc end.

Lemma notification_roundtrip :
  roundtrips PutBucketNotificationConfiguration GetBucketNotificationConfiguration (λ _, True)
    notification_denotes Notify.notificationConfigFromXML.
Proof.
  roundtrip_frame. unfold PutBucketNotificationConfiguration. rewrite (bucket_level_ok q t b), Hd by done.
  change (match doc with None => Some [] | Some doc => Notify.notificationConfigFromXML doc end)
    with (notification_denotes doc).
  destruct (notification_denotes doc) as [cfg|]; [|done].
  destruct (Notify.Valid cfg) eqn:Hv; [done|]. intros fault. destruct fault; [done|]. cbn [do_bcall].
  unfold SetNotification. rewrite keyed_ok, Hv by done.
  assert (∀ s', default [] (notif s' !! memKey t b) = cfg →
    ∃ doc', (bexec (GetBucketNotificationConfiguration q b) [] s').1 = Ok doc' ∧
      Notify.notificationConfigFromXML doc' = Some cfg) as Hget.
  { intros s' Hs'. exists (Notify.notificationConfigToXML cfg). unfold GetBucketNotificationConfiguration.
    rewrite (bucket_read_ok q t) by done. simpl. unfold GetNotification. rewrite keyed_ok by done.
    rewrite Hs', cloneNotification_id. split; [done|]. apply Notify.document_denotes. }
  case_bool_decide as Hcfg; simpl; intros _; apply Hget; simpl.
  - subst. by rewrite lookup_delete_eq.
  - by rewrite lookup_insert_eq, cloneNotification_id.
Qed.

Lemma encryption_roundtrip : roundtrips PutBucketEncryption GetBucketEncryption (λ _, True) Some Some.
Proof.
  roundtrip_frame. unfold PutBucketEncryption. rewrite (bucket_level_ok q t b), Hd by done.
  destruct (negb hasEncryption); [done|]. destruct doc as [|cfg [|]]; [done| |done].
  destruct (SSE_Valid cfg) eqn:Hv; [done|]. intros fault. destruct fault; [done|]. cbn [do_bcall].
  unfold SetEncryption. rewrite keyed_ok, Hv by done. simpl. intros _.
  exists [cfg]. unfold GetBucketEncryption. rewrite (bucket_read_ok q t) by done. simpl. unfold GetEncryption.
  rewrite keyed_ok by done. simpl. rewrite lookup_insert_eq. simpl.
  assert (SSE_Empty cfg = false) as ->.
  { unfold SSE_Empty. apply bool_decide_eq_false_2. intros He. unfold SSE_Valid in Hv. rewrite He in Hv. done. }
  split; [|done]. by destruct cfg.
Qed.


End safety.

(** ** Examples *)

Section examples.
#[local] Existing Instance Worm.ex_gateway.
#[local] Instance ex_urls : URLParser := {
  ParseURL s := match CutPrefix "https://" s with Some host => Some ("https", host) | None => None end
}.
#[local] Instance ex_dates : DateCodec := {
  ParseDate s := (λ n, n * 1000000000) <$> ParseInt s;
  FormatDate t := FormatInt (t / 1000000000)
}.

#[local] Instance ex_dates_laws : DateCodecLaws.
Proof.
  split.
  - intros t. cbn. unfold FormatInt. destruct (_ <? 0); [done|]. apply FormatUint_nonempty.
  - intros t [Hm Hr]. cbn. rewrite ParseInt_FormatInt by (unfold is_int64; lia). simpl. f_equal.
    pose proof (Z.div_mod t 1000000000). lia.
Qed.

Definition ex_request {D} (doc : D) : BucketRequest D := mkBucketRequest (Ok "t1") "/photos" true (Ok doc).
Definition ex_lock : objectLockConfiguration :=
  mkObjectLockConfiguration "Enabled" (Some (Some (mkDefaultRetention ModeCompliance 30 0))).

Lemma locked_bucket_stays_versioned_witness :
  let rs := [(RVersioning (ex_request "Enabled"), []); (RLock (ex_request ex_lock), [])] in
  let rs' := [(RVersioning (ex_request "Suspended"), []); (RLock (ex_request ex_lock), [true])] in
  let s' := bserve rs' (bserve rs NewMemoryStore) in
  locked (memKey "t1" "photos") s' ∧ GetVersioning s' "t1" "photos" = Ok VersioningEnabled.
Proof.
  intros rs rs' s'.
  destruct (locked_bucket_stays_versioned rs rs' "t1" "photos") as (Hl & _ & Hv);
    [discriminate|discriminate|vm_compute; reflexivity|]. exact (conj Hl Hv).
Defined.

Lemma bucket_configurations_are_separate_witness :
  let s := bserve [(RVersioning (ex_request "Enabled"), [])] NewMemoryStore in
  view (memKey "t2" "photos") (bexec (handle (RVersioning (ex_request "Suspended"))) [] s).2 =
  view (memKey "t2" "photos") s.
Proof.
  intros s. apply bucket_configurations_are_separate.
  - reflexivity.
  - intros t' [= <-]. reflexivity.
  - intros t' [= <-] _. discriminate.
Defined.

(** Requests that overlap can leave a bucket locked and not versioned. A request
    that suspends versioning reads that the bucket has no Object Lock, a request that enables
    it reads that the bucket is versioned, and then both write: both answer 200, and the bucket
    is in the state each of them refuses to enter. *)
Theorem overlapping_requests_lock_unversioned_bucket :
  let s := bserve [(RVersioning (ex_request "Enabled"), [])] NewMemoryStore in
  ∃ ps s', bsteps [0; 1; 0; 1]%nat
             ([handle (RVersioning (ex_request "Suspended")); handle (RLock (ex_request ex_lock))], s) = Some (ps, s') ∧
    ps = [BRet (done 200); BRet (done 200)] ∧
    locked (memKey "t1" "photos") s' ∧ GetVersioning s' "t1" "photos" = Ok VersioningSuspended.
Proof.
  intros s. eexists _, _. split; [vm_compute; reflexivity|]. split; [reflexivity|].
  split; vm_compute; reflexivity.
Qed.


End examples.
End BucketSafety.
