(* ===== verification/Tenants.v ===== *)
(** * Tenants

    The tenant record (metadata/tenant/tenant.go) and the in-memory directory of
    tenants and their access keys (internal/auth/tenant_store.go), which the
    authenticator asks for the secret of an access key. *)

From stdpp Require Import gmap strings.
From Stdlib Require Import SpecFloat.
From S2P Require Import Prelude.
Local Open Scope Z_scope.

(** ** The record *)

Record Keys := mkKeys { RootKeyRef : string; DEKPolicy : string }.

Record Budgets := mkBudgets {
  EgressTBMonth : spec_float;             (* a float64 *)
  RequestsPerSec : Z
}.

Record AbuseConfig := mkAbuseConfig { AnomalyProfile : string; CDNShielding : string }.

Record Billing := mkBilling { Currency : string; InvoiceGroup : string }.

Record Tenant := mkTenant {
  tn_ID : string;
  tn_Name : string;
  tn_ContractType : string;
  tn_LicenseTier : string;
  tn_Keys : Keys;
  tn_PolicyRef : string;                  (* PlacementDefault.PolicyRef *)
  tn_Budgets : Budgets;
  tn_Abuse : AbuseConfig;
  tn_Billing : Billing
}.

Definition ContractType_Valid (c : string) : bool :=
  bool_decide (c ∈ ["b2c_pooled"; "b2b_dedicated"; "sovereign"; "byoc"]).

Definition LicenseTier_Valid (l : string) : bool :=
  bool_decide (l ∈ ["beta"; "archive"; "standard"; "hot"; "dedicated"; "sovereign"]).

Definition DEKPolicy_Valid (d : string) : bool := bool_decide (d ∈ ["per_object"; "per_bucket"]).

Inductive tenant_error :=
| IdRequired | NameRequired | UnknownContractType | UnknownLicenseTier | RootKeyRefRequired
| UnknownDEKPolicy | PolicyRefRequired | EgressNegative | RequestsNegative | CurrencyRequired.

(** The first check that fails. *)
Definition Tenant_Validate (t : Tenant) : option tenant_error :=
  if bool_decide (tn_ID t = "") then Some IdRequired
  else if bool_decide (tn_Name t = "") then Some NameRequired
  else if negb (ContractType_Valid (tn_ContractType t)) then Some UnknownContractType
  else if negb (LicenseTier_Valid (tn_LicenseTier t)) then Some UnknownLicenseTier
  else if bool_decide (RootKeyRef (tn_Keys t) = "") then Some RootKeyRefRequired
  else if negb (DEKPolicy_Valid (DEKPolicy (tn_Keys t))) then Some UnknownDEKPolicy
  else if bool_decide (tn_PolicyRef t = "") then Some PolicyRefRequired
  else if SFltb (EgressTBMonth (tn_Budgets t)) (S754_zero false) then Some EgressNegative
  else if RequestsPerSec (tn_Budgets t) <? 0 then Some RequestsNegative
  else if bool_decide (Currency (tn_Billing t) = "") then Some CurrencyRequired
  else None.

(** ** The directory *)

Record TenantBinding := mkTenantBinding {
  tb_AccessKey : string;
  tb_SecretKey : string;
  tb_Tenant : Tenant
}.

Inductive store_error := TenantIDRequired | TenantExists | AccessKeyRequired | SecretKeyRequired.

Module TenantDirectory.

Record MemoryTenantStore := mkMemoryTenantStore {
  byAccess : gmap string TenantBinding;
  tenants : gmap string Tenant
}.

Definition NewMemoryTenantStore : MemoryTenantStore := mkMemoryTenantStore ∅ ∅.

(** Whether a binding belongs to the tenant. *)
Definition bound_to (tenantID : string) (b : TenantBinding) : bool := bool_decide (tn_ID (tb_Tenant b) = tenantID).

Definition CreateTenant (t : Tenant) (s : MemoryTenantStore) : result store_error MemoryTenantStore :=
  if bool_decide (tn_ID t = "") then Err TenantIDRequired
  else if bool_decide (is_Some (tenants s !! tn_ID t)) then Err TenantExists
  else if negb (bool_decide (filter (λ kb, bound_to (tn_ID t) kb.2 = true) (byAccess s) = ∅)) then Err TenantExists
  else Ok (mkMemoryTenantStore (byAccess s) (<[tn_ID t := t]> (tenants s))).

Definition DeleteTenant (tenantID : string) (s : MemoryTenantStore) : result store_error MemoryTenantStore :=
  if bool_decide (tenantID = "") then Err TenantIDRequired
  else Ok (mkMemoryTenantStore (filter (λ kb, bound_to tenantID kb.2 = false) (byAccess s))
             (delete tenantID (tenants s))).

Definition AddBinding (b : TenantBinding) (s : MemoryTenantStore) : result store_error MemoryTenantStore :=
  if bool_decide (tb_AccessKey b = "") then Err AccessKeyRequired
  else if bool_decide (tb_SecretKey b = "") then Err SecretKeyRequired
  else if bool_decide (tn_ID (tb_Tenant b) = "") then Err TenantIDRequired
  else Ok (mkMemoryTenantStore (<[tb_AccessKey b := b]> (byAccess s)) (tenants s)).

Definition LookupByAccessKey (s : MemoryTenantStore) (accessKey : string) : option TenantBinding :=
  byAccess s !! accessKey.

(** The bindings of a tenant in the order the loop meets them: [order] lists the
    access keys of the map in the order of the iteration, which Go leaves open. *)
Definition bindings_of (s : MemoryTenantStore) (order : list string) (tenantID : string) : list TenantBinding :=
  filter (λ b, bound_to tenantID b = true) (omap (λ k, byAccess s !! k) order).

Definition LookupByTenantID (s : MemoryTenantStore) (order : list string) (tenantID : string)
    : option TenantBinding :=
  match bindings_of s order tenantID with
  | b :: _ => Some b
  | [] => t ← tenants s !! tenantID; Some (mkTenantBinding "" "" t)
  end.

Definition Size (s : MemoryTenantStore) : nat := size (byAccess s).

Definition tenant_ids (s : MemoryTenantStore) : gset string :=
  list_to_set ((λ kb, tn_ID (tb_Tenant kb.2)) <$> map_to_list (byAccess s)) ∪ dom (tenants s).

Definition CountTenants (s : MemoryTenantStore) : nat := size (tenant_ids s).

Definition ListBindingsByTenantID (s : MemoryTenantStore) (order : list string) (tenantID : string)
    : list TenantBinding := bindings_of s order tenantID.

Definition RemoveBinding (accessKey : string) (s : MemoryTenantStore) : result store_error MemoryTenantStore :=
  if bool_decide (accessKey = "") then Err AccessKeyRequired
  else Ok (mkMemoryTenantStore (delete accessKey (byAccess s)) (tenants s)).

(** The bindings of a file, once decoded: those before the first refused one are kept. *)
Fixpoint LoadBindings (bs : list TenantBinding) (s : MemoryTenantStore)
    : MemoryTenantStore * option store_error :=
  match bs with
  | [] => (s, None)
  | b :: bs => match AddBinding b s with Err e => (s, Some e) | Ok s => LoadBindings bs s end
  end.

(** ** The invariant of the directory *)

(** Every row is stored under its own access key, has a secret and a tenant. *)
Record directory_ok (s : MemoryTenantStore) : Prop := {
  dir_keys : map_Forall (λ k b, tb_AccessKey b = k ∧ k ≠ "" ∧ tb_SecretKey b ≠ "" ∧ tn_ID (tb_Tenant b) ≠ "") (byAccess s);
  dir_tenants : map_Forall (λ id t, tn_ID t = id ∧ id ≠ "") (tenants s)
}.

Inductive operation :=
| OpCreateTenant (t : Tenant) | OpDeleteTenant (tenantID : string) | OpAddBinding (b : TenantBinding)
| OpRemoveBinding (accessKey : string) | OpLoadBindings (bs : list TenantBinding).

Definition apply_op (o : operation) (s : MemoryTenantStore) : MemoryTenantStore :=
  let ok r := match r with Ok s' => s' | Err _ => s end in
  match o with
  | OpCreateTenant t => ok (CreateTenant t s)
  | OpDeleteTenant id => ok (DeleteTenant id s)
  | OpAddBinding b => ok (AddBinding b s)
  | OpRemoveBinding k => ok (RemoveBinding k s)
  | OpLoadBindings bs => (LoadBindings bs s).1
  end.

Lemma AddBinding_ok b s s' : directory_ok s → AddBinding b s = Ok s' → directory_ok s'.
Proof.
  intros [Hk Ht]. unfold AddBinding. repeat case_bool_decide; try done. intros [= <-].
  split; [|done]. by apply map_Forall_insert_2.
Qed.

Lemma LoadBindings_ok bs s : directory_ok s → directory_ok (LoadBindings bs s).1.
Proof.
  revert s. induction bs as [|b bs IH]; intros s Hs; simpl; [done|].
  destruct (AddBinding b s) as [s'|] eqn:E; [|done]. by eapply IH, AddBinding_ok.
Qed.

Lemma directory_step_ok o s : directory_ok s → directory_ok (apply_op o s).
Proof.
  intros Hs. pose proof Hs as [Hk Ht]. destruct o as [t|id|b|k|bs]; simpl.
  - unfold CreateTenant. case_bool_decide; [done|]. case_bool_decide; [done|]. destruct (negb _); [done|].
    split; [done|]. by apply map_Forall_insert_2.
  - unfold DeleteTenant. case_bool_decide; [done|]. split; simpl.
    + intros k b [Hb _]%map_lookup_filter_Some. by apply Hk.
    + by apply map_Forall_delete.
  - destruct (AddBinding b s) eqn:E; [|done]. by eapply AddBinding_ok.
  - unfold RemoveBinding. case_bool_decide; [done|]. split; [by apply map_Forall_delete|done].
  - by apply LoadBindings_ok.
Qed.

(** A lookup of the directory finds a row under its own access key. *)
Lemma lookup_own ops k b :
  LookupByAccessKey (foldr apply_op NewMemoryTenantStore ops) k = Some b →
  tb_AccessKey b = k ∧ k ≠ "" ∧ tb_SecretKey b ≠ "" ∧ tn_ID (tb_Tenant b) ≠ "".
Proof.
  assert (directory_ok (foldr apply_op NewMemoryTenantStore ops)) as [Hk _].
  { induction ops as [|o ops IH]; [by split|]. by apply directory_step_ok. }
  apply Hk.
Qed.

(** ** Revocation *)

Lemma deleted_tenant_unbound tenantID s s' k b :
  DeleteTenant tenantID s = Ok s' → LookupByAccessKey s' k = Some b → tn_ID (tb_Tenant b) ≠ tenantID.
Proof.
  unfold DeleteTenant, LookupByAccessKey. case_bool_decide; [done|]. intros [= <-].
  intros [_ Hb]%map_lookup_filter_Some. by apply bool_decide_eq_false in Hb.
Qed.

Lemma removed_key_unbound k s s' : RemoveBinding k s = Ok s' → LookupByAccessKey s' k = None.
Proof. unfold RemoveBinding. case_bool_decide; [done|]. intros [= <-]. apply lookup_delete_eq. Qed.

Lemma deleted_tenant_gone tenantID s s' order :
  DeleteTenant tenantID s = Ok s' → LookupByTenantID s' order tenantID = None ∧ tenantID ∉ tenant_ids s'.
Proof.
  intros Hd. assert (bindings_of s' order tenantID = []) as Hnone.
  { unfold bindings_of. apply filter_none, Forall_forall. intros b (k & _ & Hb)%list_elem_of_omap.
    apply (deleted_tenant_unbound _ _ _ k b Hd) in Hb. unfold bound_to. by rewrite bool_decide_eq_true. }
  assert (tenants s' !! tenantID = None) as Ht.
  { revert Hd. unfold DeleteTenant. case_bool_decide; [done|]. intros [= <-]. apply lookup_delete_eq. }
  split; [unfold LookupByTenantID; by rewrite Hnone, Ht|].
  intros [Hin|Hin]%elem_of_union; [|by apply elem_of_dom in Hin as [? ?]; congruence].
  apply elem_of_list_to_set, list_elem_of_fmap in Hin as ([k b] & Heq & Hb%elem_of_map_to_list).
  by apply (deleted_tenant_unbound _ _ _ k b Hd) in Hb.
Qed.

End TenantDirectory.
