(* ===== verification/SigV4.v ===== *)
(** * Request signatures

    The AWS Signature Version 4 authenticator of the gateway
    (internal/auth/authenticator.go): the canonical form of a request, its
    signature under the secret of an access key, the two strategies that find a
    signature (in the Authorization header, or in the query of a presigned URL)
    and the signatures of the chunks of a streamed body. SHA-256 and HMAC are
    parameters; times are nanoseconds since 1970. *)

From stdpp Require Import gmap strings.
From S2P Require Import Prelude Bytes GoStrings ObjectLock Tagging Routing Cors Tenants.
Local Open Scope Z_scope.

(** The hash functions, on bytes. *)
Class SigCrypto := {
  sha256 : string → string;
  hmacSHA256 : string → string → string       (* key, data *)
}.

(** [time.Parse(time.RFC1123, s)], with the instant in the form 20060102T150405Z. *)
Class HTTPDates := { parseRFC1123 : string → option (string * Z) }.

Module Signing.

(** ** Requests *)

(** What the authenticator reads of a request. The names of [hr_Header] are in
    lower case; the path is decoded, the query is not. *)
Record HTTPRequest := mkHTTPRequest {
  hr_Method : string;
  hr_Host : string;
  hr_URLHost : string;
  hr_Path : string;
  hr_RawQuery : string;
  hr_Header : Header
}.

(** [r.URL.Query()], which drops malformed pairs *)
Definition Query (r : HTTPRequest) : Values := (ParseQuery (hr_RawQuery r)).1.

(** [r.Header.Get], [Set] and [Del] with the name in any case *)
Definition HGet (name : string) (r : HTTPRequest) : string := Header_Get (ToLower name) (hr_Header r).
Definition with_header (h : Header) (r : HTTPRequest) : HTTPRequest :=
  mkHTTPRequest (hr_Method r) (hr_Host r) (hr_URLHost r) (hr_Path r) (hr_RawQuery r) h.
Definition HSet (name value : string) (r : HTTPRequest) : HTTPRequest :=
  with_header (<[ToLower name := [value]]> (hr_Header r)) r.
Definition HDel (name : string) (r : HTTPRequest) : HTTPRequest :=
  with_header (delete (ToLower name) (hr_Header r)) r.
Definition with_raw_query (q : string) (r : HTTPRequest) : HTTPRequest :=
  mkHTTPRequest (hr_Method r) (hr_Host r) (hr_URLHost r) (hr_Path r) q (hr_Header r).

(** ** Encodings *)

Definition sigV4UnreservedChar (c : ascii) : bool :=
  let n := N_of_ascii c in
  ((65 <=? n)%N && (n <=? 90)%N) || ((97 <=? n)%N && (n <=? 122)%N) || ((48 <=? n)%N && (n <=? 57)%N)
  || byte_in [45; 95; 46; 126]%N c.

Fixpoint all_unreserved (s : string) : bool :=
  match s with "" => true | String c s => sigV4UnreservedChar c && all_unreserved s end.

Definition hex_upper (n : N) : ascii := ascii_of_N (if (n <? 10)%N then 48 + n else 55 + n).
Definition hex_lower (n : N) : ascii := ascii_of_N (if (n <? 10)%N then 48 + n else 87 + n).

Fixpoint encode_loop (s : string) : string :=
  match s with
  | "" => ""
  | String c s =>
      if sigV4UnreservedChar c then String c (encode_loop s)
      else String "%" (String (hex_upper (N_of_ascii c / 16)) (String (hex_upper (N_of_ascii c mod 16)) (encode_loop s)))
  end.

Definition sigV4PercentEncode (s : string) : string := if all_unreserved s then s else encode_loop s.

(** [hex.EncodeToString] *)
Fixpoint EncodeToString (s : string) : string :=
  match s with
  | "" => ""
  | String c s => String (hex_lower (N_of_ascii c / 16)) (String (hex_lower (N_of_ascii c mod 16)) (EncodeToString s))
  end.

(** ** The canonical request *)

Definition canonicalURI (path : string) : string :=
  if bool_decide (path = "") then "/" else Join "/" (sigV4PercentEncode <$> SplitByte "/" path).

(** A decoded side of a pair; malformed escapes stay as they are. *)
Definition decoded (s : string) : string := default s (QueryUnescape s).

Definition query_pair (p : string) : string * string :=
  let '(k, v) := default (p, "") (cut_byte "=" p) in (decoded k, decoded v).

Definition query_pairs (raw : string) : list (string * string) :=
  query_pair <$> filter (λ p, p ≠ "") (SplitByte "&" raw).

Definition encode_pair (kv : string * string) : string * string :=
  (sigV4PercentEncode kv.1, sigV4PercentEncode kv.2).

Definition pair_less (x y : string * string) : bool :=
  if bool_decide (x.1 ≠ y.1) then String.ltb x.1 y.1 else String.ltb x.2 y.2.

Definition render_pair (kv : string * string) : string := kv.1 +:+ "=" +:+ kv.2.

Definition canonicalQuery (raw : string) : string :=
  if bool_decide (raw = "") then ""
  else Join "&" (render_pair <$> sort_slice pair_less (encode_pair <$> query_pairs raw)).

Fixpoint buildCanonicalHeaders (r : HTTPRequest) (signedHeaders : list string) (host : string) : string :=
  match signedHeaders with
  | [] => ""
  | name :: names =>
      let value := if bool_decide (ToLower name = "host") then host else HGet name r in
      ToLower name +:+ ":" +:+ TrimSpace value +:+ newline +:+ buildCanonicalHeaders r names host
  end.

(** ** The signature *)

Record parsedAuthHeader := mkParsedAuthHeader {
  pa_AccessKey : string;
  pa_Date : string;
  pa_Region : string;
  pa_Service : string;
  pa_SignedHeaders : list string;
  pa_Signature : string;
  pa_CredentialScope : string
}.

Inductive auth_error :=
| NotConfigured | NoCredential | MissingAuthorization | UnsupportedScheme | MalformedSegment | MalformedCredential
| MissingFields | UnknownAccessKey | MissingDate | InvalidDate | ClockSkew | MissingHost | SignatureMismatch
| UnsupportedAlgorithm | MissingCredential | MissingSignedHeaders | MissingAmzDate | MissingExpires | InvalidExpires
| DatedInFuture | Expired | ChunkKeyRequired | ChunkScopeRequired | ChunkMismatch.

Section signature.
Context {C : SigCrypto}.

Definition deriveSigningKey (secretKey date region service : string) : string :=
  let kDate := hmacSHA256 ("AWS4" +:+ secretKey) date in
  let kRegion := hmacSHA256 kDate region in
  let kService := hmacSHA256 kRegion service in
  hmacSHA256 kService "aws4_request".

Definition scope_of (p : parsedAuthHeader) : string :=
  Join "/" [pa_Date p; pa_Region p; pa_Service p; "aws4_request"].

Definition payload_hash (r : HTTPRequest) : string :=
  if bool_decide (HGet "x-amz-content-sha256" r = "") then "UNSIGNED-PAYLOAD" else HGet "x-amz-content-sha256" r.

Definition canonical_request (r : HTTPRequest) (p : parsedAuthHeader) (host : string) : string :=
  Join newline
    [hr_Method r; canonicalURI (hr_Path r); canonicalQuery (hr_RawQuery r);
     buildCanonicalHeaders r (pa_SignedHeaders p) host; Join ";" (pa_SignedHeaders p); payload_hash r].

Definition string_to_sign (r : HTTPRequest) (p : parsedAuthHeader) (host : string) : string :=
  Join newline ["AWS4-HMAC-SHA256"; HGet "x-amz-date" r; scope_of p;
                EncodeToString (sha256 (canonical_request r p host))].

Definition request_host (r : HTTPRequest) : string :=
  if bool_decide (hr_Host r = "") then hr_URLHost r else hr_Host r.

Definition signRequest (r : HTTPRequest) (p : parsedAuthHeader) (secretKey : string) : result auth_error string :=
  let host := request_host r in
  if bool_decide (host = "") then Err MissingHost
  else
    let kSigning := deriveSigningKey secretKey (pa_Date p) (pa_Region p) (pa_Service p) in
    Ok (EncodeToString (hmacSHA256 kSigning (string_to_sign r p host))).

(** ** The chunks of a streamed body *)

Definition ComputeChunkSignature (prevSig chunkData signingKey timestamp scope : string) : result auth_error string :=
  if bool_decide (signingKey = "") then Err ChunkKeyRequired
  else if bool_decide (timestamp = "") || bool_decide (scope = "") then Err ChunkScopeRequired
  else Ok (EncodeToString (hmacSHA256 signingKey
         (Join newline ["AWS4-HMAC-SHA256-PAYLOAD"; timestamp; scope; prevSig; EncodeToString (sha256 "");
                        EncodeToString (sha256 chunkData)]))).

Definition VerifyChunkSignature (prevSig chunkData signingKey timestamp scope receivedSig : string)
    : result auth_error string :=
  match ComputeChunkSignature prevSig chunkData signingKey timestamp scope with
  | Err e => Err e
  | Ok expected => if bool_decide (receivedSig = expected) then Ok expected else Err ChunkMismatch
  end.
End signature.

(** ** The Authorization header *)

Definition sortStrings (l : list string) : list string := sort_slice (key_less id String.ltb) l.

Definition set_field (key val : string) (p : parsedAuthHeader) : result auth_error parsedAuthHeader :=
  if bool_decide (key = "Credential") then
    match SplitByte "/" val with
    | [ak; date; region; service; _] =>
        Ok (mkParsedAuthHeader ak date region service (pa_SignedHeaders p) (pa_Signature p) val)
    | _ => Err MalformedCredential
    end
  else if bool_decide (key = "SignedHeaders") then
    Ok (mkParsedAuthHeader (pa_AccessKey p) (pa_Date p) (pa_Region p) (pa_Service p) (sortStrings (SplitByte ";" val))
          (pa_Signature p) (pa_CredentialScope p))
  else if bool_decide (key = "Signature") then
    Ok (mkParsedAuthHeader (pa_AccessKey p) (pa_Date p) (pa_Region p) (pa_Service p) (pa_SignedHeaders p) val
          (pa_CredentialScope p))
  else Ok p.

Fixpoint parse_segments (parts : list string) (p : parsedAuthHeader) : result auth_error parsedAuthHeader :=
  match parts with
  | [] => Ok p
  | raw :: parts =>
      match cut_byte "=" (TrimSpace raw) with
      | None => Err MalformedSegment
      | Some (key, val) =>
          match set_field key val p with Err e => Err e | Ok p => parse_segments parts p end
      end
  end.

Definition authPrefix : string := "AWS4-HMAC-SHA256 ".

Definition parseAuthHeader (authz : string) : result auth_error parsedAuthHeader :=
  if negb (HasPrefix authz authPrefix) then Err UnsupportedScheme
  else
    match parse_segments (SplitByte "," (TrimPrefix authz authPrefix)) (mkParsedAuthHeader "" "" "" "" [] "" "") with
    | Err e => Err e
    | Ok p =>
        if bool_decide (pa_AccessKey p = "") || bool_decide (pa_Signature p = "") || bool_decide (pa_SignedHeaders p = [])
        then Err MissingFields else Ok p
    end.

(** ** Timestamps *)

Definition digit_value (c : ascii) : Z := Z.of_N (N_of_ascii c) - 48.

(** [getnum] of package time: one digit may stand for two unless [fixed]. *)
Definition getnum (fixed : bool) (s : string) : option (Z * string) :=
  match s with
  | String a r =>
      if negb (is_digit a) then None
      else
        match r with
        | String b r' =>
            if is_digit b then Some (10 * digit_value a + digit_value b, r')
            else if fixed then None else Some (digit_value a, r)
        | "" => if fixed then None else Some (digit_value a, "")
        end
  | "" => None
  end.

(** The digits a string begins with, as a number, how many they are, and the rest. *)
Fixpoint leading_digits (s : string) (acc : Z) (n : nat) : Z * nat * string :=
  match s with
  | String c r => if is_digit c then leading_digits r (10 * acc + digit_value c) (S n) else (acc, n, s)
  | "" => (acc, n, "")
  end.

(** A fraction of a second is accepted after the seconds though the layout has none; digits after the ninth
    are dropped. *)
Definition fraction (s : string) : Z * string :=
  match s with
  | String c r =>
      let '(v, n, rest) := leading_digits r 0 0 in
      if byte_in [44; 46]%N c && (0 <? n)%nat
      then (if (n <=? 9)%nat then v * 10 ^ (9 - Z.of_nat n) else v / 10 ^ (Z.of_nat n - 9), rest)
      else (0, s)
  | "" => (0, s)
  end.

Definition isLeap (y : Z) : bool := (y mod 4 =? 0) && (negb (y mod 100 =? 0) || (y mod 400 =? 0)).

Definition daysIn (m y : Z) : Z :=
  if m =? 2 then if isLeap y then 29 else 28 else 30 + (m + m / 8) mod 2.

(** [time.Date(y, m, d, h, mi, s, ns, time.UTC)] for a valid date *)
Definition Date (y m d h mi s ns : Z) : Z :=
  let y' := if m <=? 2 then y - 1 else y in
  let day := days_to_march y' + (153 * ((m + 9) mod 12) + 2) / 5 + d - 1 - 719468 in
  day * day_ns + ((h * 60 + mi) * 60 + s) * 1000000000 + ns.

(** The year of the layout: four digits. *)
Definition parse_year (s : string) : option (Z * string) :=
  match s with
  | String a (String b (String c (String d r))) =>
      if is_digit a && is_digit b && is_digit c && is_digit d
      then Some (1000 * digit_value a + 100 * digit_value b + 10 * digit_value c + digit_value d, r)
      else None
  | _ => None
  end.

(** [time.Parse("20060102T150405Z", s)] *)
Definition parseISO (s : string) : option Z :=
  '(year, s) ← parse_year s;
  '(month, s) ← getnum true s;
  '(day, s) ← getnum true s;
  s ← CutPrefix "T" s;
  '(hour, s) ← getnum false s;
  '(minute, s) ← getnum true s;
  '(sec, s) ← getnum true s;
  let '(ns, s) := fraction s in
  if negb (bool_decide (s = "Z")) then None
  else if (month <? 1) || (12 <? month) || (day <? 1) || (daysIn month year <? day) || (23 <? hour) || (59 <? minute)
          || (59 <? sec) then None
  else Some (Date year month day hour minute sec ns).

(** [t.Sub(u)], which saturates *)
Definition Sub (t u : Z) : Z := Z.max (- 2 ^ 63) (Z.min (2 ^ 63 - 1) (t - u)).

(** ** The strategies *)

Record AuthResult := mkAuthResult {
  ar_TenantID : string;
  ar_SigningKey : string;                 (* "" when there is none *)
  ar_SeedSig : string;
  ar_IsChunked : bool;
  ar_Timestamp : string;
  ar_Scope : string
}.

(** [strings.EqualFold(s, t)] for an ASCII [t] in lower case: the long s and the Kelvin sign fold to ASCII. *)
Fixpoint fold_ascii (s : string) : string :=
  match s with
  | String a s' =>
      match s' with
      | String b s'' =>
          if byte_in [197]%N a && byte_in [191]%N b then String "s" (fold_ascii s'')
          else
            match s'' with
            | String c s3 =>
                if byte_in [226]%N a && byte_in [132]%N b && byte_in [170]%N c then String "k" (fold_ascii s3)
                else String (lower_byte a) (fold_ascii s')
            | "" => String (lower_byte a) (fold_ascii s')
            end
      | "" => String (lower_byte a) ""
      end
  | "" => ""
  end.

Definition isChunkedRequest (r : HTTPRequest) : bool :=
  let enc := HGet "Content-Encoding" r in
  if bool_decide (enc = "") then false
  else existsb (λ p, bool_decide (fold_ascii (TrimSpace p) = "aws-chunked")) (SplitByte "," enc).

Definition cloneForSigning (r : HTTPRequest) (dateHeader : string) : HTTPRequest := HSet "x-amz-date" dateHeader r.

Definition stripQueryParam (raw name : string) : string :=
  if bool_decide (raw = "") then ""
  else Join "&" (filter (λ seg, HasPrefix seg (name +:+ "=") || bool_decide (seg = name) = false) (SplitByte "&" raw)).

Section strategies.
Context {C : SigCrypto} {HD : HTTPDates}.

(** The clock is read once; [now] is that reading. *)
Record AuthStrategy := mkAuthStrategy {
  as_Matches : HTTPRequest → bool;
  as_Authenticate : HTTPRequest → (string → option TenantBinding) → Z → Z → result auth_error AuthResult
}.

Definition parseSigningTimestamp (r : HTTPRequest) : result auth_error (string * Z) :=
  let amz := HGet "x-amz-date" r in
  let dateHeader := if bool_decide (amz = "") then HGet "Date" r else amz in
  if bool_decide (dateHeader = "") then Err MissingDate
  else match parseISO dateHeader with
  | Some t => Ok (dateHeader, t)
  | None => match parseRFC1123 dateHeader with Some iso => Ok iso | None => Err InvalidDate end
  end.

Definition HeaderV4_Matches (r : HTTPRequest) : bool := HasPrefix (HGet "Authorization" r) authPrefix.

Definition HeaderV4_Authenticate (r : HTTPRequest) (lookup : string → option TenantBinding) (now skew : Z)
    : result auth_error AuthResult :=
  let authz := HGet "Authorization" r in
  if bool_decide (authz = "") then Err MissingAuthorization
  else match parseAuthHeader authz with
  | Err e => Err e
  | Ok parsed =>
      match lookup (pa_AccessKey parsed) with
      | None => Err UnknownAccessKey
      | Some binding =>
          match parseSigningTimestamp r with
          | Err e => Err e
          | Ok (dateHeader, reqTime) =>
              let diff := Sub now reqTime in
              if (skew <? diff) || (diff <? - skew) then Err ClockSkew
              else match signRequest (cloneForSigning r dateHeader) parsed (tb_SecretKey binding) with
              | Err e => Err e
              | Ok expected =>
                  if negb (bool_decide (expected = pa_Signature parsed)) then Err SignatureMismatch
                  else
                    let tenantID := tn_ID (tb_Tenant binding) in
                    if isChunkedRequest r then
                      Ok (mkAuthResult tenantID
                            (deriveSigningKey (tb_SecretKey binding) (pa_Date parsed) (pa_Region parsed) (pa_Service parsed))
                            (pa_Signature parsed) true dateHeader (scope_of parsed))
                    else Ok (mkAuthResult tenantID "" "" false dateHeader (scope_of parsed))
              end
          end
      end
  end.

Definition PresignedV4_Matches (r : HTTPRequest) : bool :=
  negb (bool_decide (Values_Get "X-Amz-Signature" (Query r) = "")).

(** The credential of a presigned URL. *)
Definition presigned_credential (q : Values) : result auth_error parsedAuthHeader :=
  if negb (bool_decide (Values_Get "X-Amz-Algorithm" q = "AWS4-HMAC-SHA256")) then Err UnsupportedAlgorithm
  else if bool_decide (Values_Get "X-Amz-Credential" q = "") then Err MissingCredential
  else match SplitByte "/" (Values_Get "X-Amz-Credential" q) with
  | [ak; date; region; service; terminal] =>
      if negb (bool_decide (terminal = "aws4_request")) then Err MalformedCredential
      else if bool_decide (Values_Get "X-Amz-SignedHeaders" q = "") then Err MissingSignedHeaders
      else Ok (mkParsedAuthHeader ak date region service
                 (sortStrings (SplitByte ";" (Values_Get "X-Amz-SignedHeaders" q))) (Values_Get "X-Amz-Signature" q) "")
  | _ => Err MalformedCredential
  end.

(** The instant of a presigned URL and the seconds it is valid for. *)
Definition presigned_validity (q : Values) : result auth_error (Z * Z) :=
  if bool_decide (Values_Get "X-Amz-Date" q = "") then Err MissingAmzDate
  else match parseISO (Values_Get "X-Amz-Date" q) with
  | None => Err InvalidDate
  | Some reqTime =>
      if bool_decide (Values_Get "X-Amz-Expires" q = "") then Err MissingExpires
      else match ParseInt (Values_Get "X-Amz-Expires" q) with
      | None => Err InvalidExpires
      | Some expiresSec =>
          if (expiresSec <=? 0) || (604800 <? expiresSec) then Err InvalidExpires else Ok (reqTime, expiresSec)
      end
  end.

Definition presigned_clone (r : HTTPRequest) (dateStr : string) : HTTPRequest :=
  HDel "x-amz-content-sha256"
    (HSet "x-amz-date" dateStr (with_raw_query (stripQueryParam (hr_RawQuery r) "X-Amz-Signature") r)).

Definition PresignedV4_Authenticate (r : HTTPRequest) (lookup : string → option TenantBinding) (now skew : Z)
    : result auth_error AuthResult :=
  let q := Query r in
  match presigned_credential q with
  | Err e => Err e
  | Ok p =>
      match presigned_validity q with
      | Err e => Err e
      | Ok (reqTime, expiresSec) =>
          match lookup (pa_AccessKey p) with
          | None => Err UnknownAccessKey
          | Some binding =>
              if Before now (reqTime - skew) then Err DatedInFuture
              else if After now (reqTime + wrap64 (expiresSec * 1000000000 + skew)) then Err Expired
              else match signRequest (presigned_clone r (Values_Get "X-Amz-Date" q)) p (tb_SecretKey binding) with
              | Err e => Err e
              | Ok expected =>
                  if negb (bool_decide (expected = pa_Signature p)) then Err SignatureMismatch
                  else Ok (mkAuthResult (tn_ID (tb_Tenant binding)) "" "" false (Values_Get "X-Amz-Date" q) (scope_of p))
              end
          end
      end
  end.

Definition PresignedV4Strategy : AuthStrategy := mkAuthStrategy PresignedV4_Matches PresignedV4_Authenticate.
Definition HeaderV4Strategy : AuthStrategy := mkAuthStrategy HeaderV4_Matches HeaderV4_Authenticate.

Definition DefaultStrategies : list AuthStrategy := [PresignedV4Strategy; HeaderV4Strategy].

(** ** The authenticator *)

Record HMACAuthenticator := mkHMACAuthenticator {
  ha_Store : option (string → option TenantBinding);     (* LookupByAccessKey *)
  ha_Region : string;
  ha_Service : string;
  ha_Now : Z;                                            (* the reading of the clock *)
  ha_MaxClockSkew : Z;
  ha_Strategies : list AuthStrategy
}.

Definition fifteen_minutes : Z := 15 * 60 * 1000000000.

Definition NewHMACAuthenticator (store : option (string → option TenantBinding)) (now : Z) : HMACAuthenticator :=
  mkHMACAuthenticator store "us-east-1" "s3" now fifteen_minutes DefaultStrategies.

Definition skew_of (a : HMACAuthenticator) : Z := if ha_MaxClockSkew a <=? 0 then fifteen_minutes else ha_MaxClockSkew a.
Definition strategies_of (a : HMACAuthenticator) : list AuthStrategy :=
  match ha_Strategies a with [] => DefaultStrategies | l => l end.

Definition AuthenticateEx (a : HMACAuthenticator) (r : HTTPRequest) : result auth_error AuthResult :=
  match ha_Store a with
  | None => Err NotConfigured
  | Some lookup =>
      match head (filter (λ s, as_Matches s r = true) (strategies_of a)) with
      | Some s => as_Authenticate s r lookup (ha_Now a) (skew_of a)
      | None => Err NoCredential
      end
  end.

Definition Authenticate (a : HMACAuthenticator) (r : HTTPRequest) : result auth_error string :=
  match AuthenticateEx a r with Err e => Err e | Ok res => Ok (ar_TenantID res) end.

Definition accessKeyFromRequest (r : HTTPRequest) : string :=
  let header :=
    match HGet "Authorization" r with
    | "" => ""
    | authz => match parseAuthHeader authz with Ok parsed => pa_AccessKey parsed | Err _ => "" end
    end in
  match SplitByte "/" (Values_Get "X-Amz-Credential" (Query r)) with
  | [ak; _; _; _; "aws4_request"] => ak
  | _ => header
  end.

(** The store is the one the gateway was started with. *)
Definition ResolveTenantUnverified (a : HMACAuthenticator) (r : HTTPRequest) : option string :=
  let accessKey := accessKeyFromRequest r in
  if bool_decide (accessKey = "") then None
  else lookup ← ha_Store a; binding ← lookup accessKey; Some (tn_ID (tb_Tenant binding)).

End strategies.

End Signing.
