(* ===== verification/SigV4Canonical.v ===== *)
(** * Canonical requests are faithful

    The canonical form of a request determines the request: percent-encoding and
    hexadecimal lose nothing, and the separators of the canonical request cannot
    be forged by the parts, so two requests with the same string to sign agree on
    everything that is signed. *)

From stdpp Require Import gmap strings.
From S2P Require Import Prelude Bytes GoStrings ObjectLock Tagging Routing Cors Tenants SigV4.
Local Open Scope Z_scope.

Module Canonical.
Import Signing.

Definition nl : ascii := ascii_of_N 10.

(** ** Splitting and joining *)

Lemma SplitByte_split c s t : SplitByte c (s +:+ String c t) = SplitByte c s ++ SplitByte c t.
Proof.
  induction s as [|a s IH]; simpl; [by rewrite Ascii.eqb_refl|].
  destruct (Ascii.eqb_spec a c); [by rewrite IH|]. rewrite IH. by destruct (SplitByte c s) eqn:E; [destruct s; simpl in E; repeat case_match|].
Qed.

Lemma SplitByte_sep c s t : SplitByte c (s +:+ String c "" +:+ t) = SplitByte c s ++ SplitByte c t.
Proof. apply SplitByte_split. Qed.

Lemma SplitByte_ne c s : SplitByte c s ≠ [].
Proof. destruct s as [|a s]; simpl; [done|]. repeat case_match; done. Qed.

Lemma Join_SplitByte c s : Join (String c "") (SplitByte c s) = s.
Proof.
  induction s as [|a s IH]; simpl; [done|]. pose proof (SplitByte_ne c s).
  destruct (Ascii.eqb_spec a c) as [->|].
  - destruct (SplitByte c s) as [|x xs] eqn:E; [done|]. simpl in *. by rewrite <- IH.
  - destruct (SplitByte c s) as [|x xs] eqn:E; [done|]. rewrite <- IH. by destruct xs.
Qed.

Lemma SplitByte_inj c s t : SplitByte c s = SplitByte c t → s = t.
Proof. intros H. by rewrite <- (Join_SplitByte c s), H, Join_SplitByte. Qed.

Lemma SplitByte_free c s : Forall (λ x, ContainsByte c x = false) (SplitByte c s).
Proof.
  induction s as [|a s IH]; simpl; [by repeat constructor|].
  destruct (Ascii.eqb_spec a c) as [|Hne]; [by constructor|].
  destruct (SplitByte c s) as [|x xs]; inversion_clear IH; constructor; simpl; try done.
  - by rewrite orb_false_r; apply Ascii.eqb_neq.
  - by apply orb_false_iff; split; [apply Ascii.eqb_neq|].
Qed.

Lemma SplitByte_Join c l :
  l ≠ [] → Forall (λ x, ContainsByte c x = false) l → SplitByte c (Join (String c "") l) = l.
Proof.
  induction l as [|x l IH]; [done|]. intros _ [Hx Hl]%Forall_cons. destruct l as [|y l].
  - by apply SplitByte_none.
  - change (Join (String c "") (x :: y :: l)) with (x +:+ String c (Join (String c "") (y :: l))).
    by rewrite SplitByte_app, IH.
Qed.

Lemma Join_inj c l l' :
  l ≠ [] → l' ≠ [] → Forall (λ x, ContainsByte c x = false) l → Forall (λ x, ContainsByte c x = false) l' →
  Join (String c "") l = Join (String c "") l' → l = l'.
Proof. intros Hl Hl' Hf Hf' Heq. by rewrite <- (SplitByte_Join c l), Heq, SplitByte_Join. Qed.

(** A byte-free prefix up to the first separator is determined. *)
Lemma cut_inj c x y s t :
  ContainsByte c x = false → ContainsByte c y = false → x +:+ String c s = y +:+ String c t → x = y ∧ s = t.
Proof.
  intros Hx Hy Heq. assert (cut_byte c (x +:+ String c s) = cut_byte c (y +:+ String c t)) as H by by rewrite Heq.
  rewrite !cut_byte_app in H by done. by injection H.
Qed.

Lemma app_cancel p s t : p +:+ s = p +:+ t → s = t.
Proof. induction p as [|a p IH]; simpl; [done|]. intros [= H]. by apply IH. Qed.

(** ** Percent-encoding *)

Lemma percent_encode_loop s : sigV4PercentEncode s = encode_loop s.
Proof.
  unfold sigV4PercentEncode. destruct (all_unreserved s) eqn:E; [|done].
  induction s as [|c s IH]; simpl in *; [done|]. apply andb_true_iff in E as [Hc Hs].
  by rewrite Hc, <- IH.
Qed.

(** Facts about single bytes, by cases over the 256 of them. *)
Lemma all_bytes (P : ascii → bool) :
  forallb (λ n, P (ascii_of_nat n)) (seq 0 256) = true → ∀ c, P c = true.
Proof.
  intros H c. rewrite <- (ascii_nat_embedding c). apply (proj1 (forallb_forall _ _) H).
  apply in_seq. pose proof (nat_ascii_bounded c). lia.
Qed.

Definition hex_decodes (c : ascii) : bool :=
  bool_decide (unhex (hex_upper (N_of_ascii c / 16)) = Some (N_of_ascii c / 16)%N) &&
  bool_decide (unhex (hex_upper (N_of_ascii c mod 16)) = Some (N_of_ascii c mod 16)%N) &&
  bool_decide (ascii_of_N (N_of_ascii c / 16 * 16 + N_of_ascii c mod 16) = c).

Lemma hex_decodes_all c : hex_decodes c = true.
Proof. revert c. apply all_bytes. vm_compute. reflexivity. Qed.

Lemma unreserved_plain c :
  sigV4UnreservedChar c = true → ∀ s, QueryUnescape (String c s) = String c <$> QueryUnescape s.
Proof.
  assert (∀ c, negb (sigV4UnreservedChar c) || negb (bool_decide (c = "%"%char ∨ c = "+"%char)) = true) as H.
  { apply all_bytes. vm_compute. reflexivity. }
  intros Hc s. specialize (H c). rewrite Hc in H. simpl in H. apply negb_true_iff, bool_decide_eq_false in H.
  destruct c as [[] [] [] [] [] [] [] []]; try reflexivity; naive_solver.
Qed.

Lemma QueryUnescape_encode s : QueryUnescape (encode_loop s) = Some s.
Proof.
  induction s as [|c s IH]; simpl; [done|]. destruct (sigV4UnreservedChar c) eqn:Hc.
  - by rewrite unreserved_plain, IH.
  - pose proof (hex_decodes_all c) as H. unfold hex_decodes in H.
    apply andb_true_iff in H as [[H1 H2]%andb_true_iff H3].
    apply bool_decide_eq_true in H1, H2, H3. simpl. rewrite H1. simpl. rewrite H2. simpl. rewrite IH. simpl.
    by rewrite H3.
Qed.

Lemma encode_inj s t : sigV4PercentEncode s = sigV4PercentEncode t → s = t.
Proof.
  rewrite !percent_encode_loop. intros H. apply (inj Some). by rewrite <- !QueryUnescape_encode, H.
Qed.

(** The bytes of an encoded string: unreserved ones and percent signs. *)
Lemma encode_free c s : sigV4UnreservedChar c = false → c ≠ "%"%char → ContainsByte c (sigV4PercentEncode s) = false.
Proof.
  intros Hc Hp. rewrite percent_encode_loop.
  assert (∀ a, sigV4UnreservedChar (hex_upper (N_of_ascii a / 16)) && sigV4UnreservedChar (hex_upper (N_of_ascii a mod 16)) = true)
    as Hhex by (apply all_bytes; vm_compute; reflexivity).
  assert (∀ a, sigV4UnreservedChar a = true → Ascii.eqb a c = false) as Hne.
  { intros a Ha. apply Ascii.eqb_neq. congruence. }
  induction s as [|a s IH]; [done|]. cbn [encode_loop]. destruct (sigV4UnreservedChar a) eqn:Ha.
  - cbn [ContainsByte]. by rewrite Hne, IH.
  - specialize (Hhex a). apply andb_true_iff in Hhex as [H1 H2]. cbn [ContainsByte].
    rewrite (Hne _ H1), (Hne _ H2), IH. destruct (Ascii.eqb_spec "%" c); [congruence|done].
Qed.

Lemma EncodeToString_inj s t : EncodeToString s = EncodeToString t → s = t.
Proof.
  set (dec := λ a b, (λ n, (if (n <? 58)%N then n - 48 else n - 87)%N) <$> [N_of_ascii a; N_of_ascii b]).
  assert (∀ c, bool_decide (dec (hex_lower (N_of_ascii c / 16)) (hex_lower (N_of_ascii c mod 16)) =
                            [N_of_ascii c / 16; N_of_ascii c mod 16]%N) = true) as Hdec.
  { apply all_bytes. vm_compute. reflexivity. }
  revert t. induction s as [|c s IH]; intros [|d t]; simpl; try done. intros [= H1 H2 H3].
  f_equal; [|by apply IH].
  pose proof (Hdec c) as Hc%bool_decide_eq_true. pose proof (Hdec d) as Hd%bool_decide_eq_true.
  rewrite H1, H2, Hd in Hc. injection Hc as Hq Hr.
  rewrite <- (ascii_N_embedding c), <- (ascii_N_embedding d). f_equal. pose proof (N.div_mod (N_of_ascii c) 16). pose proof (N.div_mod (N_of_ascii d) 16). lia.
Qed.

(** ** Path and query *)

Lemma fmap_inj_list {A B} (f : A → B) (l l' : list A) : (∀ x y, f x = f y → x = y) → f <$> l = f <$> l' → l = l'.
Proof.
  intros Hf. revert l'. induction l as [|x l IH]; intros [|y l']; simpl; try done.
  intros [= Hx Hl]. f_equal; eauto.
Qed.

(** The path as it is signed: an empty one counts as the root. *)
Definition signed_path (r : HTTPRequest) : string := if bool_decide (hr_Path r = "") then "/" else hr_Path r.

Lemma canonicalURI_path p : canonicalURI p = Join "/" (sigV4PercentEncode <$> SplitByte "/" (if bool_decide (p = "") then "/" else p)).
Proof. unfold canonicalURI. by case_bool_decide. Qed.

Lemma canonicalURI_inj r1 r2 : canonicalURI (hr_Path r1) = canonicalURI (hr_Path r2) → signed_path r1 = signed_path r2.
Proof.
  rewrite !canonicalURI_path. fold (signed_path r1) (signed_path r2). intros H.
  apply (SplitByte_inj "/"), (fmap_inj_list _ _ _ encode_inj), (Join_inj "/"); [| |apply Forall_fmap..|done].
  1,2: by intros ?%fmap_nil_inv; eapply SplitByte_ne.
  all: apply Forall_true; intros s; by apply encode_free.
Qed.

Lemma canonicalURI_free p : ContainsByte nl (canonicalURI p) = false.
Proof.
  rewrite canonicalURI_path. generalize (SplitByte "/" (if bool_decide (p = "") then "/" else p)) as l.
  intros l. induction l as [|x l IH]; [done|]. destruct l as [|y l]; [by apply encode_free|].
  change (Join "/" (sigV4PercentEncode <$> x :: y :: l)) with
    (sigV4PercentEncode x +:+ String "/" (Join "/" (sigV4PercentEncode <$> y :: l))).
  rewrite ContainsByte_app, encode_free by done. exact IH.
Qed.

#[export] Instance pair_less_strict : StrictLess pair_less.
Proof.
  split.
  - intros [a b]; unfold pair_less; simpl. rewrite bool_decide_eq_false_2 by naive_solver. apply (less_irrefl (klt:=String.ltb)).
  - intros [a b] [a' b'] [a'' b'']; unfold pair_less; simpl. repeat case_bool_decide; subst; try naive_solver.
    all: intros Hxy Hyz; pose proof (less_trans (klt:=String.ltb) _ _ _ Hxy Hyz) as Hxz; try done.
    by rewrite (less_irrefl (klt:=String.ltb)) in Hxz.
  - intros [a b] [a' b'] Hne; unfold pair_less; simpl. repeat case_bool_decide; subst; try naive_solver.
    all: apply (less_total (klt:=String.ltb)); congruence.
Qed.

(** The parameters of a query as they are signed, in canonical order. *)
Definition canonical_pairs (raw : string) : list (string * string) := sort_slice pair_less (encode_pair <$> query_pairs raw).

Lemma canonicalQuery_eq raw : canonicalQuery raw = Join "&" (render_pair <$> canonical_pairs raw).
Proof. unfold canonicalQuery. by case_bool_decide; [subst|]. Qed.

Lemma canonical_pairs_perm raw : canonical_pairs raw ≡ₚ encode_pair <$> query_pairs raw.
Proof. apply merge_sort_Permutation. Qed.

Lemma canonical_pairs_encoded raw : Forall (λ kv, ∃ x, kv = encode_pair x) (canonical_pairs raw).
Proof. rewrite canonical_pairs_perm, Forall_fmap. apply Forall_true. by eexists. Qed.

Lemma render_free c kv : sigV4UnreservedChar c = false → c ≠ "%"%char → c ≠ "="%char →
  ContainsByte c (render_pair (encode_pair kv)) = false.
Proof.
  intros Hc Hp He. unfold render_pair, encode_pair. cbn [fst snd]. rewrite !ContainsByte_app, !encode_free by done.
  cbn [ContainsByte]. by destruct (Ascii.eqb_spec "=" c).
Qed.

Lemma render_inj x y : render_pair (encode_pair x) = render_pair (encode_pair y) → x = y.
Proof.
  unfold render_pair, encode_pair. simpl. intros [Hk Hv]%cut_inj; [|by apply encode_free..].
  destruct x, y. simpl in *. by apply encode_inj in Hk as ->, Hv as ->.
Qed.

Lemma render_encoded raw c : sigV4UnreservedChar c = false → c ≠ "%"%char → c ≠ "="%char →
  Forall (λ s, ContainsByte c s = false) (render_pair <$> canonical_pairs raw).
Proof.
  intros ???. rewrite Forall_fmap. eapply Forall_impl; [apply canonical_pairs_encoded|].
  intros ? (x & ->). by apply render_free.
Qed.

Lemma canonicalQuery_free raw : ContainsByte nl (canonicalQuery raw) = false.
Proof.
  rewrite canonicalQuery_eq. assert (Forall (λ s, ContainsByte nl s = false) (render_pair <$> canonical_pairs raw)) as H.
  { by apply render_encoded. }
  induction (render_pair <$> canonical_pairs raw) as [|x l IH]; [done|]. apply Forall_cons in H as [Hx Hl].
  destruct l as [|y l]; [done|].
  change (Join "&" (x :: y :: l)) with (x +:+ String "&" (Join "&" (y :: l))).
  rewrite ContainsByte_app, Hx. by apply IH.
Qed.

Lemma render_pairs_split raw : canonical_pairs raw ≠ [] →
  SplitByte "&" (canonicalQuery raw) = render_pair <$> canonical_pairs raw.
Proof.
  intros Hne. rewrite canonicalQuery_eq. apply SplitByte_Join; [by intros ?%fmap_nil_inv|by apply render_encoded].
Qed.

Lemma canonicalQuery_nil raw : canonicalQuery raw = "" → canonical_pairs raw = [].
Proof.
  rewrite canonicalQuery_eq. destruct (canonical_pairs raw) as [|[k v] l]; [done|].
  intros H. exfalso. apply (f_equal (ContainsByte "=")) in H. revert H. destruct l; cbn [fmap list_fmap Join].
  all: unfold render_pair; simpl; rewrite !ContainsByte_app; simpl; by rewrite ?orb_true_r.
Qed.

Lemma canonical_pairs_inj q1 q2 : canonicalQuery q1 = canonicalQuery q2 → canonical_pairs q1 = canonical_pairs q2.
Proof.
  intros H. destruct (decide (canonical_pairs q1 = [])) as [H1|H1].
    - assert (canonicalQuery q1 = "") as H0 by by rewrite canonicalQuery_eq, H1. rewrite H1. symmetry.
      apply canonicalQuery_nil. congruence.
    - destruct (decide (canonical_pairs q2 = [])) as [H2|H2].
      + exfalso. apply H1, canonicalQuery_nil. by rewrite H, canonicalQuery_eq, H2.
      + assert (render_pair <$> canonical_pairs q1 = render_pair <$> canonical_pairs q2) as Hr.
        { by rewrite <- !render_pairs_split, H. }
        pose proof (canonical_pairs_encoded q1) as F1. pose proof (canonical_pairs_encoded q2) as F2.
        clear H H1 H2. revert Hr F1 F2. generalize (canonical_pairs q1), (canonical_pairs q2). intros l1.
        induction l1 as [|x l1 IH]; intros [|y l2]; simpl; try done.
        intros [= Hx Hl] [(a & ->) F1]%Forall_cons [(b & ->) F2]%Forall_cons.
        apply render_inj in Hx as ->. f_equal. by apply IH.
Qed.

(** Equal canonical queries carry the same parameters, each as often. *)
Lemma canonicalQuery_inj q1 q2 : canonicalQuery q1 = canonicalQuery q2 → query_pairs q1 ≡ₚ query_pairs q2.
Proof.
  intros Hc%canonical_pairs_inj.
  assert (encode_pair <$> query_pairs q1 ≡ₚ encode_pair <$> query_pairs q2) as Hp.
  { by rewrite <- !canonical_pairs_perm, Hc. }
  apply (fmap_Permutation (λ kv, (decoded kv.1, decoded kv.2))) in Hp. rewrite <- !list_fmap_compose in Hp.
  assert (∀ l : list (string * string), (λ kv, (decoded kv.1, decoded kv.2)) ∘ encode_pair <$> l = l) as Hid; [|by rewrite !Hid in Hp].
  intros l. rewrite <- (list_fmap_id l) at 2. apply list_fmap_ext. intros _ [k v] _. unfold compose, decoded. simpl.
  by rewrite !percent_encode_loop, !QueryUnescape_encode.
Qed.

(** ** Headers *)

(** The value of a signed header. *)
Definition signed_value (r : HTTPRequest) (host name : string) : string :=
  TrimSpace (if bool_decide (ToLower name = "host") then host else HGet name r).

Lemma canonical_headers_inj r1 r2 h1 h2 names :
  Forall (λ n, ContainsByte nl (signed_value r1 h1 n) = false ∧ ContainsByte nl (signed_value r2 h2 n) = false) names →
  buildCanonicalHeaders r1 names h1 = buildCanonicalHeaders r2 names h2 →
  Forall (λ n, signed_value r1 h1 n = signed_value r2 h2 n) names.
Proof.
  induction names as [|n names IH]; [done|]. intros [[H1 H2] Hn]%Forall_cons. cbn [buildCanonicalHeaders].
  fold (signed_value r1 h1 n) (signed_value r2 h2 n).
  intros Heq%app_cancel%app_cancel. apply (cut_inj nl) in Heq as [Hv Hr]; [|done..]. constructor; [done|by apply IH].
Qed.

(** ** The request *)

(** No line breaks where HTTP allows none: in the method, the signed header names and values, and the payload
    hash. *)
Definition clean (r : HTTPRequest) (p : parsedAuthHeader) (host : string) : Prop :=
  ContainsByte nl (hr_Method r) = false ∧ ContainsByte nl (Join ";" (pa_SignedHeaders p)) = false ∧
  ContainsByte nl (payload_hash r) = false ∧
  Forall (λ n, ContainsByte nl (signed_value r host n) = false) (pa_SignedHeaders p).

(** The names of a credential come from a split at semicolons. *)
Definition named (p : parsedAuthHeader) : Prop :=
  pa_SignedHeaders p ≠ [] ∧ Forall (λ n, ContainsByte ";" n = false) (pa_SignedHeaders p).

Lemma canonical_request_lines r p host : clean r p host →
  SplitByte nl (canonical_request r p host) =
  [hr_Method r; canonicalURI (hr_Path r); canonicalQuery (hr_RawQuery r)] ++
  SplitByte nl (buildCanonicalHeaders r (pa_SignedHeaders p) host) ++ [Join ";" (pa_SignedHeaders p); payload_hash r].
Proof.
  intros (Hm & Hs & Hp & _). unfold canonical_request.
  change newline with (String nl ""). cbn [Join]. rewrite !SplitByte_sep.
  by rewrite (SplitByte_none nl (hr_Method r)), (SplitByte_none nl (canonicalURI _)), (SplitByte_none nl (canonicalQuery _)),
    (SplitByte_none nl (Join ";" _)), (SplitByte_none nl (payload_hash r)) by (done || apply canonicalURI_free || apply canonicalQuery_free).
Qed.

(** Two requests with one canonical request agree on everything it names. *)
Lemma canonical_request_inj r1 r2 p1 p2 h1 h2 :
  clean r1 p1 h1 → clean r2 p2 h2 → named p1 → named p2 →
  canonical_request r1 p1 h1 = canonical_request r2 p2 h2 →
  hr_Method r1 = hr_Method r2 ∧ signed_path r1 = signed_path r2 ∧
  query_pairs (hr_RawQuery r1) ≡ₚ query_pairs (hr_RawQuery r2) ∧
  pa_SignedHeaders p1 = pa_SignedHeaders p2 ∧
  Forall (λ n, signed_value r1 h1 n = signed_value r2 h2 n) (pa_SignedHeaders p1) ∧ payload_hash r1 = payload_hash r2.
Proof.
  intros C1 C2 [N1 F1] [N2 F2] Heq. apply (f_equal (SplitByte nl)) in Heq.
  rewrite !canonical_request_lines in Heq by done. injection Heq as Hm Hu Hq Hrest.
  apply app_inj_2 in Hrest as [Hh Ht]; [|done]. injection Ht as Hs Hp.
  apply (Join_inj ";") in Hs; [|done..]. apply SplitByte_inj in Hh. rewrite <- Hs in Hh.
  split_and!; [done|by apply canonicalURI_inj|by apply canonicalQuery_inj|done| |done].
  destruct C1 as (_ & _ & _ & C1), C2 as (_ & _ & _ & C2). rewrite <- Hs in C2.
  eapply canonical_headers_inj; [|done]. by apply Forall_and.
Qed.

End Canonical.
