(* ===== verification/RateLimit.v ===== *)
(** * Rate limits and budgets

    The two guards in front of the S3 handler (internal/auth/rate_limit.go and
    internal/auth/abuse.go): the token bucket and the monthly egress budget of a
    tenant, the detection of anomalies, and the shielding gate. Float64
    arithmetic is IEEE binary64 (Stdlib's SpecFloat); a reading of the clock is
    an argument of the operation that makes it. *)

From stdpp Require Import gmap strings.
From Stdlib Require Import SpecFloat.
From S2P Require Import Prelude Bytes GoStrings ObjectLock EncryptionPipeline Fabric Handlers HotCache Tagging.
From S2P Require Import Routing Cors Tenants SigV4.
Local Open Scope Z_scope.

(** ** Floats and times *)

Definition float64_add (x y : float64) : float64 := SFadd 53 1024 x y.
Definition float64_sub (x y : float64) : float64 := SFsub 53 1024 x y.
Definition float64_div (x y : float64) : float64 := SFdiv 53 1024 x y.
Definition float64_half : float64 := S754_finite false 4503599627370496 (-53).
(** The literal 0.3. *)
Definition float64_0_3 : float64 := S754_finite false 5404319552844595 (-54).

(** [uint64(x)]; out of range it is what amd64 computes. *)
Definition uint64_of_float64 (x : float64) : Z :=
  match x with
  | S754_zero _ => 0
  | S754_finite false m e =>
      let v := if 0 <=? e then Z.pos m * 2 ^ e else Z.pos m / 2 ^ (- e) in
      if v <? 2 ^ 64 then v else 2 ^ 63
  | _ => 2 ^ 63
  end.

Definition second_ns : Z := 1000000000.

(** [Duration.Seconds]: the remainder has the sign of the dividend, as in Go. *)
Definition Seconds (d : Z) : float64 :=
  float64_add (float64_of_int64 (Z.quot d second_ns)) (float64_div (float64_of_int64 (Z.rem d second_ns)) (float64_of_int64 second_ns)).

(** Year and month of an instant in UTC. *)
Definition civil_month (t : Z) : Z * Z :=
  let d := t / day_ns in
  let y := march_year d in
  let doy := d + 719468 - days_to_march y in
  let mp := (5 * doy + 2) / 153 in
  if mp <? 10 then (y, mp + 3) else (y + 1, mp - 9).

Definition monthStart (t : Z) : Z := let '(y, m) := civil_month t in Signing.Date y m 1 0 0 0 0.
Definition sameMonth (a b : Z) : bool := bool_decide (civil_month a = civil_month b).

Definition minFloat (a b : float64) : float64 := if SFltb a b then a else b.

(** An alert on the billing stream: tenant, dimension and amount. *)
Inductive Dimension := AbuseBudgetExhausted | AbuseAnomalyAlert.
Definition alert : Type := string * Dimension * Z.

(** The monthly counter both guards keep for a tenant. *)
Record egressTracker := mkEgressTracker { et_monthStart : Z; et_bytes : Z }.

(** The counter of the month of [now]. *)
Definition current_tracker (t : option egressTracker) (now : Z) : egressTracker :=
  let t := default (mkEgressTracker (monthStart now) 0) t in
  if sameMonth (et_monthStart t) now then t else mkEgressTracker (monthStart now) 0.

Definition count_egress (n : Z) (t : egressTracker) : egressTracker :=
  mkEgressTracker (et_monthStart t) (wrap64 (et_bytes t + n)).

Definition minute_ns : Z := 60 * second_ns.

(** ** The rate limiter *)

Module Limiter.

Record bucket := mkBucket { bk_tokens : float64; bk_capacity : float64; bk_refillPS : float64; bk_lastEvent : Z }.

Record anomalyTracker := mkAnomalyTracker {
  an_windowStart : Z;
  an_windowReqs : Z;
  an_windowEgressByte : Z;
  an_baselineReqs : float64;
  an_baselineEgress : float64;
  an_lastAlertAt : Z;
  an_throttleUntil : Z
}.

(** The configured part and the state of a [RateLimiter]. *)
Record RateLimiter := mkRateLimiter {
  rl_Lookup : string → option (Z * Z);              (* requests per second, burst *)
  rl_EgressLookup : option (string → option Z);
  rl_AnomalyMultiplier : float64;
  rl_AnomalyWindow : Z;
  rl_AnomalyCooldown : Z;
  rl_BaselineAlpha : float64;
  rl_MinBaselineReqs : float64;
  rl_MinBaselineEgressBytes : float64;
  rl_ThrottleOnAnomaly : bool;
  rl_FailClosed : bool
}.

Record state := mkState {
  buckets : gmap string bucket;
  egress : gmap string egressTracker;
  anomaly : gmap string anomalyTracker
}.

Definition NewState : state := mkState ∅ ∅ ∅.

Section limiter.
Context (l : RateLimiter).

(** The bucket of a tenant with its present limits. *)
Definition fresh_bucket (rps burst now : Z) (b : option bucket) : bucket :=
  match b with
  | None => mkBucket (float64_of_int64 burst) (float64_of_int64 burst) (float64_of_int64 rps) now
  | Some b => mkBucket (bk_tokens b) (float64_of_int64 burst) (float64_of_int64 rps) (bk_lastEvent b)
  end.

Definition refill (now : Z) (b : bucket) : bucket :=
  let elapsed := Seconds (Signing.Sub now (bk_lastEvent b)) in
  let tokens := if SFltb float64_zero elapsed
                then minFloat (bk_capacity b) (float64_add (bk_tokens b) (float64_mul elapsed (bk_refillPS b)))
                else bk_tokens b in
  mkBucket tokens (bk_capacity b) (bk_refillPS b) now.

Definition Allow (tenantID : string) (now : Z) (s : state) : bool * state :=
  match rl_Lookup l tenantID with
  | None => (negb (rl_FailClosed l), s)
  | Some (rps, burst) =>
      if rps <=? 0 then (true, s)
      else
        let burst := if burst <=? 0 then rps else burst in
        let b := refill now (fresh_bucket rps burst now (buckets s !! tenantID)) in
        if SFltb (bk_tokens b) float64_one
        then (false, mkState (<[tenantID := b]> (buckets s)) (egress s) (anomaly s))
        else
          let b := mkBucket (float64_sub (bk_tokens b) float64_one) (bk_capacity b) (bk_refillPS b) (bk_lastEvent b) in
          (true, mkState (<[tenantID := b]> (buckets s)) (egress s) (anomaly s))
  end.

Definition AllowEgress (tenantID : string) (now : Z) (s : state) : bool * state * list alert :=
  match rl_EgressLookup l with
  | None => (true, s, [])
  | Some lookup =>
      match lookup tenantID with
      | None => (negb (rl_FailClosed l), s, [])
      | Some budget =>
          if budget <=? 0 then (true, s, [])
          else
            let t := current_tracker (egress s !! tenantID) now in
            let s := mkState (buckets s) (<[tenantID := t]> (egress s)) (anomaly s) in
            if budget <=? et_bytes t then (false, s, [(tenantID, AbuseBudgetExhausted, 1)]) else (true, s, [])
      end
  end.

Definition anomalyWindow : Z := if rl_AnomalyWindow l <=? 0 then minute_ns else rl_AnomalyWindow l.

(** A configured float, or its default when it is not positive. *)
Definition or_default (x d : float64) : float64 := if SFleb x float64_zero then d else x.

Definition rollWindow (a : anomalyTracker) (now window : Z) : anomalyTracker :=
  let elapsed := Seconds (Signing.Sub now (an_windowStart a)) in
  let elapsed := if SFleb elapsed float64_zero then Seconds window else elapsed in
  let reqsPerSec := float64_div (float64_of_int64 (an_windowReqs a)) elapsed in
  let egressBps := float64_div (float64_of_int64 (an_windowEgressByte a)) elapsed in
  let alpha := rl_BaselineAlpha l in
  let alpha := if SFleb alpha float64_zero || SFltb float64_one alpha then float64_0_3 else alpha in
  let fold x base := float64_add (float64_mul alpha x) (float64_mul (float64_sub float64_one alpha) base) in
  let first := SFeqb (an_baselineReqs a) float64_zero && SFeqb (an_baselineEgress a) float64_zero in
  mkAnomalyTracker now 0 0
    (if first then reqsPerSec else fold reqsPerSec (an_baselineReqs a))
    (if first then egressBps else fold egressBps (an_baselineEgress a))
    (an_lastAlertAt a) (an_throttleUntil a).

Definition anomaly_ratio (a : anomalyTracker) (elapsed : float64) : float64 :=
  let atLeast x m := if SFltb x m then m else x in
  let baselineReqs := atLeast (an_baselineReqs a) (or_default (rl_MinBaselineReqs l) float64_one) in
  let baselineEgress := atLeast (an_baselineEgress a) (or_default (rl_MinBaselineEgressBytes l) (float64_of_int64 1024)) in
  let reqsRatio := float64_div (float64_div (float64_of_int64 (an_windowReqs a)) elapsed) baselineReqs in
  let egressRatio := float64_div (float64_div (float64_of_int64 (an_windowEgressByte a)) elapsed) baselineEgress in
  if SFltb reqsRatio egressRatio then egressRatio else reqsRatio.

(** The decision to raise an alert; the amount is the rounded ratio. *)
Definition maybeAlert (a : anomalyTracker) (now window : Z) : anomalyTracker * option Z :=
  let elapsed := Seconds (Signing.Sub now (an_windowStart a)) in
  if SFleb elapsed float64_zero then (a, None)
  else
    let ratio := anomaly_ratio a elapsed in
    if SFltb ratio (or_default (rl_AnomalyMultiplier l) (float64_of_int64 10)) then (a, None)
    else
      let cooldown := if rl_AnomalyCooldown l <=? 0 then window else rl_AnomalyCooldown l in
      if negb (IsZero (an_lastAlertAt a)) && (Signing.Sub now (an_lastAlertAt a) <? cooldown) then (a, None)
      else (mkAnomalyTracker (an_windowStart a) (an_windowReqs a) (an_windowEgressByte a) (an_baselineReqs a)
              (an_baselineEgress a) now (now + cooldown),
            Some (uint64_of_float64 (float64_add ratio float64_half))).

Definition zero_tracker (now : Z) : anomalyTracker :=
  mkAnomalyTracker now 0 0 float64_zero float64_zero zero_time zero_time.

Definition Observe (tenantID : string) (egressBytes now : Z) (s : state) : state * list alert :=
  if bool_decide (tenantID = "") then (s, [])
  else
    let egressBytes := if egressBytes <? 0 then 0 else egressBytes in
    let t := count_egress egressBytes (current_tracker (egress s !! tenantID) now) in
    let a := default (zero_tracker now) (anomaly s !! tenantID) in
    let window := anomalyWindow in
    let a := if window <=? Signing.Sub now (an_windowStart a) then rollWindow a now window else a in
    let a := mkAnomalyTracker (an_windowStart a) (wrap64 (an_windowReqs a + 1)) (wrap64 (an_windowEgressByte a + egressBytes))
               (an_baselineReqs a) (an_baselineEgress a) (an_lastAlertAt a) (an_throttleUntil a) in
    let '(a, decision) := maybeAlert a now window in
    (mkState (buckets s) (<[tenantID := t]> (egress s)) (<[tenantID := a]> (anomaly s)),
     match decision with Some ratio => [(tenantID, AbuseAnomalyAlert, ratio)] | None => [] end).

Definition throttling (tenantID : string) (now : Z) (s : state) : bool :=
  match anomaly s !! tenantID with None => false | Some a => Before now (an_throttleUntil a) end.

Record RateLimiterSnapshot := mkSnapshot {
  sn_EgressBytesThisMonth : Z; sn_MonthStart : Z; sn_WindowReqs : Z; sn_WindowEgressBytes : Z;
  sn_BaselineReqs : float64; sn_BaselineEgressBytes : float64; sn_LastAlertAt : Z
}.

Definition Snapshot (tenantID : string) (s : state) : RateLimiterSnapshot * bool :=
  let '(bytes, start) := match egress s !! tenantID with Some e => (et_bytes e, et_monthStart e) | None => (0, zero_time) end in
  let found := bool_decide (is_Some (egress s !! tenantID) ∨ is_Some (anomaly s !! tenantID)) in
  match anomaly s !! tenantID with
  | Some a => (mkSnapshot bytes start (an_windowReqs a) (an_windowEgressByte a) (an_baselineReqs a) (an_baselineEgress a)
                 (an_lastAlertAt a), found)
  | None => (mkSnapshot bytes start 0 0 float64_zero float64_zero zero_time, found)
  end.

(** One request. [clock] gives the readings of the clock at the checks and after the response; [served] is the
    number of bytes the handler writes for it. *)
Record clock_readings := mkReadings { c_allow : Z; c_egress : Z; c_throttle : Z; c_observe : Z }.

Inductive verdict := Served (bytes : Z) | Refused (retryAfter : string).

Definition Middleware (tenant : option string) (served : Z) (c : clock_readings) (s : state)
    : verdict * state * list alert :=
  match tenant with
  | None => (Served served, s, [])
  | Some tenantID =>
      let '(ok, s) := Allow tenantID (c_allow c) s in
      if negb ok then (Refused "1", s, [])
      else
        let '(ok, s, alerts) := AllowEgress tenantID (c_egress c) s in
        if negb ok then (Refused "3600", s, alerts)
        else if rl_ThrottleOnAnomaly l && throttling tenantID (c_throttle c) s then (Refused "60", s, alerts)
        else let '(s, more) := Observe tenantID served (c_observe c) s in (Served served, s, alerts ++ more)
  end.

End limiter.
End Limiter.

(** ** The limits of a tenant *)

Definition TenantBudgetsLookup (lookup : string → option TenantBinding) (tenantID : string) : option (Z * Z) :=
  b ← lookup tenantID;
  let rps := RequestsPerSec (tn_Budgets (tb_Tenant b)) in
  Some (if rps <=? 0 then (0, 0) else (rps, rps)).

Definition bytesPerTB : Z := 2 ^ 40.

(** [tenantEgressBudgetBytes] *)
Definition tenantEgressBudgetBytes (t : Tenant) : Z :=
  if SFleb (EgressTBMonth (tn_Budgets t)) float64_zero then 0
  else int64_of_float64 (float64_mul (EgressTBMonth (tn_Budgets t)) (float64_of_int64 bytesPerTB)).

Definition TenantEgressBudgetLookup (lookup : string → option TenantBinding) (tenantID : string) : option Z :=
  b ← lookup tenantID; Some (tenantEgressBudgetBytes (tb_Tenant b)).

(** ** The abuse guard *)

Module Guard.

Record abuseAnomalyTracker := mkAbuseAnomalyTracker {
  aa_windowStart : Z;
  aa_windowBytes : Z;
  aa_baseline : float64;
  aa_lastAlertAt : Z;
  aa_throttleUntil : Z
}.

Record AbuseGuard := mkAbuseGuard {
  ag_Tenants : string → option Tenant;
  ag_AnomalyMultiplier : float64;
  ag_AnomalyWindow : Z;
  ag_AnomalyCooldown : Z;
  ag_BaselineAlpha : float64;
  ag_MinBaselineEgressBytes : float64;
  ag_ThrottleOnAnomaly : bool;
  ag_CDNHeaders : list string
}.

Record state := mkState { egress : gmap string egressTracker; anomaly : gmap string abuseAnomalyTracker }.

Definition NewState : state := mkState ∅ ∅.

Definition DefaultCDNHeaders : list string := ["Cf-Connecting-Ip"; "Cf-Ray"; "X-Amz-Cf-Id"; "Fastly-Client-Ip"].

Inductive guard_verdict (V : Type) := Forwarded (v : V) | GuardRefused (status : Z).
Arguments Forwarded {V}.
Arguments GuardRefused {V}.

#[export] Instance guard_verdict_eq_dec `{EqDecision V} : EqDecision (guard_verdict V).
Proof. solve_decision. Defined.

Section guard.
Context (g : AbuseGuard).

Definition allowCDN (t : Tenant) (h : Header) : bool :=
  if negb (bool_decide (CDNShielding (tn_Abuse t) = "enabled")) then true
  else
    let headers := match ag_CDNHeaders g with [] => DefaultCDNHeaders | hs => hs end in
    existsb (λ n, negb (bool_decide (TrimSpace (Header_Get (ToLower n) h) = ""))) headers.

Definition allowBudget (tenantID : string) (t : Tenant) (now : Z) (s : state) : bool * state * list alert :=
  let budget := tenantEgressBudgetBytes t in
  if budget <=? 0 then (true, s, [])
  else
    let tr := current_tracker (egress s !! tenantID) now in
    let s := mkState (<[tenantID := tr]> (egress s)) (anomaly s) in
    if budget <=? et_bytes tr then (false, s, [(tenantID, AbuseBudgetExhausted, 1)]) else (true, s, []).

Definition window : Z := if ag_AnomalyWindow g <=? 0 then minute_ns else ag_AnomalyWindow g.

Definition rollWindow (a : abuseAnomalyTracker) (now window : Z) : abuseAnomalyTracker :=
  let elapsed := Seconds (Signing.Sub now (aa_windowStart a)) in
  let elapsed := if SFleb elapsed float64_zero then Seconds window else elapsed in
  let bps := float64_div (float64_of_int64 (aa_windowBytes a)) elapsed in
  let alpha := ag_BaselineAlpha g in
  let alpha := if SFleb alpha float64_zero || SFltb float64_one alpha then float64_0_3 else alpha in
  let baseline :=
    if SFeqb (aa_baseline a) float64_zero then bps
    else float64_add (float64_mul alpha bps) (float64_mul (float64_sub float64_one alpha) (aa_baseline a)) in
  mkAbuseAnomalyTracker now 0 baseline (aa_lastAlertAt a) (aa_throttleUntil a).

Definition maybeAlert (a : abuseAnomalyTracker) (now window : Z) : abuseAnomalyTracker * option Z :=
  let multiplier := Limiter.or_default (ag_AnomalyMultiplier g) (float64_of_int64 2) in
  let elapsed := Seconds (Signing.Sub now (aa_windowStart a)) in
  if SFleb elapsed float64_zero then (a, None)
  else
    let currentBps := float64_div (float64_of_int64 (aa_windowBytes a)) elapsed in
    let minBaseline := Limiter.or_default (ag_MinBaselineEgressBytes g) (float64_of_int64 1024) in
    let baseline := if SFltb (aa_baseline a) minBaseline then minBaseline else aa_baseline a in
    let ratio := float64_div currentBps baseline in
    if SFltb ratio multiplier then (a, None)
    else
      let cooldown := if ag_AnomalyCooldown g <=? 0 then window else ag_AnomalyCooldown g in
      if negb (IsZero (aa_lastAlertAt a)) && (Signing.Sub now (aa_lastAlertAt a) <? cooldown) then (a, None)
      else (mkAbuseAnomalyTracker (aa_windowStart a) (aa_windowBytes a) (aa_baseline a) now (now + cooldown),
            Some (uint64_of_float64 (float64_add ratio float64_half))).

Definition zero_tracker (now : Z) : abuseAnomalyTracker := mkAbuseAnomalyTracker now 0 float64_zero zero_time zero_time.

Definition Observe (tenantID : string) (egressBytes now : Z) (s : state) : state * list alert :=
  if bool_decide (tenantID = "") || (egressBytes <=? 0) then (s, [])
  else
    let tr := count_egress egressBytes (current_tracker (egress s !! tenantID) now) in
    let a := default (zero_tracker now) (anomaly s !! tenantID) in
    let a := if window <=? Signing.Sub now (aa_windowStart a) then rollWindow a now window else a in
    let a := mkAbuseAnomalyTracker (aa_windowStart a) (wrap64 (aa_windowBytes a + egressBytes)) (aa_baseline a)
               (aa_lastAlertAt a) (aa_throttleUntil a) in
    let '(a, decision) := maybeAlert a now window in
    (mkState (<[tenantID := tr]> (egress s)) (<[tenantID := a]> (anomaly s)),
     match decision with Some ratio => [(tenantID, AbuseAnomalyAlert, ratio)] | None => [] end).

Definition throttling (tenantID : string) (now : Z) (s : state) : bool :=
  match anomaly s !! tenantID with None => false | Some a => Before now (aa_throttleUntil a) end.

(** The checks before the handler: the refusal, if any. *)
Definition admission (tenantID : string) (t : Tenant) (h : Header) (c_budget c_throttle : Z) (s : state)
    : option Z * state * list alert :=
  if negb (allowCDN t h) then (Some 403, s, [])
  else
    let '(ok, s, alerts) := allowBudget tenantID t c_budget s in
    if negb ok then (Some 429, s, alerts)
    else if ag_ThrottleOnAnomaly g && throttling tenantID c_throttle s then (Some 429, s, alerts)
    else (None, s, alerts).

(** [next] is the handler behind the guard: its answer, the bytes it writes and the world it leaves. *)
Definition Middleware {V W} (tenant : option string) (h : Header) (next : W → V * Z * W) (c_budget c_throttle c_observe : Z)
    (s : state) (w : W) : guard_verdict V * state * W * list alert :=
  let unwatched := let '(v, n, w) := next w in (Forwarded v, s, w, []) in
  match tenant with
  | None => unwatched
  | Some tenantID =>
      match ag_Tenants g tenantID with
      | None => unwatched
      | Some t =>
          match admission tenantID t h c_budget c_throttle s with
          | (Some status, s, alerts) => (GuardRefused status, s, w, alerts)
          | (None, s, alerts) =>
              let '(v, n, w) := next w in
              let '(s, more) := Observe tenantID n c_observe s in (Forwarded v, s, w, alerts ++ more)
          end
      end
  end.

End guard.
End Guard.
