(* ===== verification/Budgets.v ===== *)
(** * Budgets are kept

    The month arithmetic of the egress budget (months are intervals, a month
    starts in itself), and the theorems about the guards: the bytes a tenant is
    served in a calendar month stay below the budget plus one response, the
    guards of one tenant do not see the others, and a bucket shared by
    overlapping requests refills one interval twice. *)

From stdpp Require Import gmap strings.
From Stdlib Require Import SpecFloat.
From S2P Require Import Prelude Bytes GoStrings ObjectLock EncryptionPipeline Fabric Handlers HotCache Tagging.
From S2P Require Import Routing Cors Tenants SigV4 RateLimit.
Local Open Scope Z_scope.

Module Budget.

(** ** Months *)

(** Year, counted from March 1, of a day counted from March 1 of year 0, and its month number. *)
Definition year_of (x : Z) : Z := march_year (x - 719468).
Definition month_of (x : Z) : Z := 12 * year_of x + (5 * (x - days_to_march (year_of x)) + 2) / 153.

(** The first day of a month. *)
Definition first_day (k : Z) : Z := days_to_march (k / 12) + (153 * (k mod 12) + 2) / 5.

Ltac Zify.zify_post_hook ::= Z.div_mod_to_equations.

Lemma days_to_march_era y q : days_to_march (y + 400 * q) = days_to_march y + 146097 * q.
Proof. unfold days_to_march. lia. Qed.

Lemma days_to_march_mono y y' : y ≤ y' → days_to_march y ≤ days_to_march y'.
Proof. unfold days_to_march. lia. Qed.

(** The 400 years after which the calendar repeats. *)
Lemma era_year d : 0 ≤ d < 146097 →
  let y := (d - d / 1460 + d / 36524 - d / 146096) / 365 in days_to_march y ≤ d < days_to_march (y + 1) ∧ 0 ≤ y < 400.
Proof.
  intros Hd y. subst y. unfold days_to_march.
  assert (d / 36524 = 0 ∨ d / 36524 = 1 ∨ d / 36524 = 2 ∨ d / 36524 = 3 ∨ d / 36524 = 4) by lia.
  assert (d / 146096 = 0 ∨ d / 146096 = 1) by lia. lia.
Qed.

Lemma year_bounds x : days_to_march (year_of x) ≤ x < days_to_march (year_of x + 1).
Proof.
  unfold year_of, march_year. replace (x - 719468 + 719468) with x by lia. cbv zeta.
  pose proof (era_year (x mod 146097) ltac:(lia)) as [H _]. cbv zeta in H.
  set (b := (_ - _) / 365) in *. replace (b + x / 146097 * 400) with (b + 400 * (x / 146097)) by lia.
  replace (b + 400 * (x / 146097) + 1) with (b + 1 + 400 * (x / 146097)) by lia. rewrite !days_to_march_era.
  assert (x = 146097 * (x / 146097) + x mod 146097) by lia. lia.
Qed.

Lemma year_unique x y : days_to_march y ≤ x < days_to_march (y + 1) → year_of x = y.
Proof.
  intros H. pose proof (year_bounds x) as Hy. destruct (Z.lt_trichotomy (year_of x) y) as [Hlt|[Heq|Hlt]]; [|done|].
  - pose proof (days_to_march_mono (year_of x + 1) y). lia.
  - pose proof (days_to_march_mono (y + 1) (year_of x)). lia.
Qed.

Lemma year_length y : 365 ≤ days_to_march (y + 1) - days_to_march y ≤ 366.
Proof. unfold days_to_march. lia. Qed.

Lemma month_of_mono x y : x ≤ y → month_of x ≤ month_of y.
Proof.
  intros Hxy. unfold month_of. pose proof (year_bounds x). pose proof (year_bounds y).
  pose proof (year_length (year_of x)). pose proof (year_length (year_of y)).
  destruct (decide (year_of x = year_of y)) as [->|Hne]; [lia|].
  assert (year_of x < year_of y); [|lia].
  destruct (Z.lt_total (year_of x) (year_of y)) as [|[|Hlt]]; [done|done|].
  pose proof (days_to_march_mono (year_of y + 1) (year_of x)). lia.
Qed.

Lemma first_day_of x : first_day (month_of x) ≤ x ∧ month_of (first_day (month_of x)) = month_of x.
Proof.
  pose proof (year_bounds x) as Hb. pose proof (year_length (year_of x)) as Hl. unfold month_of at 1 3 4.
  set (y := year_of x) in *. set (mp := (5 * (x - days_to_march y) + 2) / 153).
  assert (0 ≤ mp ≤ 11) as Hmp by lia.
  assert (first_day (12 * y + mp) = days_to_march y + (153 * mp + 2) / 5) as Hf.
  { unfold first_day. replace ((12 * y + mp) / 12) with y by lia. by replace ((12 * y + mp) mod 12) with mp by lia. }
  split; [rewrite Hf; lia|]. unfold month_of. rewrite Hf.
  rewrite (year_unique _ y) by lia. replace (days_to_march y + _ - days_to_march y) with ((153 * mp + 2) / 5) by lia. lia.
Qed.

(** The month of an instant as a number. *)
Definition month (t : Z) : Z := month_of (t / day_ns + 719468).

Lemma civil_month_eq t : civil_month t =
  if month t mod 12 <? 10 then (month t / 12, month t mod 12 + 3) else (month t / 12 + 1, month t mod 12 - 9).
Proof.
  unfold civil_month, month, month_of, year_of. replace (t / day_ns + 719468 - 719468) with (t / day_ns) by lia.
  pose proof (year_bounds (t / day_ns + 719468)) as Hb. unfold year_of in Hb.
  replace (t / day_ns + 719468 - 719468) with (t / day_ns) in Hb by lia.
  set (y := march_year (t / day_ns)) in *. pose proof (year_length y).
  set (mp := (5 * (t / day_ns + 719468 - days_to_march y) + 2) / 153). assert (0 ≤ mp ≤ 11) by (unfold day_ns in *; lia).
  replace ((12 * y + mp) mod 12) with mp by lia. by replace ((12 * y + mp) / 12) with y by lia.
Qed.

Lemma sameMonth_iff a b : sameMonth a b = true ↔ month a = month b.
Proof.
  unfold sameMonth. rewrite bool_decide_eq_true, !civil_month_eq. split; [|by intros ->].
  destruct (Z.ltb_spec (month a mod 12) 10), (Z.ltb_spec (month b mod 12) 10); intros [= H1 H2]; lia.
Qed.

Lemma monthStart_eq t : monthStart t = (first_day (month t) - 719468) * day_ns.
Proof.
  unfold monthStart. rewrite civil_month_eq. unfold Signing.Date, first_day.
  destruct (Z.ltb_spec (month t mod 12) 10).
  - destruct (Z.leb_spec (month t mod 12 + 3) 2); [lia|]. replace ((month t mod 12 + 3 + 9) mod 12) with (month t mod 12) by lia. lia.
  - destruct (Z.leb_spec (month t mod 12 - 9) 2); [|lia]. replace ((month t mod 12 - 9 + 9) mod 12) with (month t mod 12) by lia.
    replace (month t / 12 + 1 - 1) with (month t / 12) by lia. lia.
Qed.

Lemma month_mono t u : t ≤ u → month t ≤ month u.
Proof. intros H. apply month_of_mono. unfold day_ns. lia. Qed.

Lemma month_start t : monthStart t ≤ t ∧ month (monthStart t) = month t.
Proof.
  rewrite monthStart_eq. destruct (first_day_of (t / day_ns + 719468)) as [H1 H2]. fold (month t) in *. split.
  - unfold day_ns in *. lia.
  - unfold month at 1. rewrite Z.div_mul by done. replace (first_day (month t) - 719468 + 719468) with (first_day (month t)) by lia. done.
Qed.

(** ** The counter of a month *)

#[local] Opaque monthStart sameMonth month.

(** What a tracker counts for an instant. *)
Definition counted (o : option egressTracker) (now : Z) : Z := et_bytes (current_tracker o now).

(** The tracker was started before [T]. *)
Definition started (o : option egressTracker) (T : Z) : Prop := ∀ tr, o = Some tr → et_monthStart tr ≤ T.

Lemma current_started o now T : started o now → now ≤ T → started (Some (current_tracker o now)) T.
Proof.
  intros Hs HT tr [= <-]. unfold current_tracker. destruct o as [tr|]; simpl.
  - destruct (sameMonth _ _); simpl; [specialize (Hs tr eq_refl); lia|]. pose proof (month_start now). lia.
  - pose proof (month_start now). destruct (sameMonth _ _); simpl; lia.
Qed.

(** Looking at a tracker changes nothing for later instants. *)
Lemma counted_touch o now now' : started o now → now ≤ now' → counted (Some (current_tracker o now)) now' = counted o now'.
Proof.
  intros Hs Hle. unfold counted. destruct o as [tr|].
  - specialize (Hs tr eq_refl). unfold current_tracker at 2. simpl.
    destruct (sameMonth (et_monthStart tr) now) eqn:Hm; [done|]. unfold current_tracker. simpl.
    destruct (sameMonth (et_monthStart tr) now') eqn:Hm'.
    + apply sameMonth_iff in Hm'. pose proof (month_mono _ _ Hs). pose proof (month_mono _ _ Hle).
      assert (month (et_monthStart tr) = month now) as Heq by lia. apply sameMonth_iff in Heq. congruence.
    + by destruct (sameMonth (monthStart now) now').
  - unfold current_tracker. simpl. destruct (month_start now) as [_ Hn]. apply sameMonth_iff in Hn. rewrite Hn. simpl.
    destruct (sameMonth (monthStart now) now'), (sameMonth (monthStart now') now'); done.
Qed.

Lemma counted_add o now now' n : started o now → now ≤ now' →
  counted (Some (count_egress n (current_tracker o now))) now' =
  if bool_decide (month now = month now') then wrap64 (counted o now' + n) else 0.
Proof.
  intros Hs Hle. unfold counted.
  assert (month (et_monthStart (current_tracker o now)) = month now) as Hstart.
  { unfold current_tracker. destruct (sameMonth _ _) eqn:Hm; simpl; [by apply sameMonth_iff in Hm|apply month_start]. }
  assert (sameMonth (et_monthStart (current_tracker o now)) now' = bool_decide (month now = month now')) as Hsame.
  { apply eq_bool_prop_intro. rewrite !Is_true_true, sameMonth_iff, bool_decide_eq_true. by rewrite Hstart. }
  unfold current_tracker at 1. simpl. rewrite Hsame. case_bool_decide as Heq; [|done]. simpl. f_equal. f_equal.
  change (et_bytes (current_tracker o now')) with (counted o now'). rewrite <- (counted_touch o now now') by done.
  unfold counted. set (c := current_tracker o now) in *. unfold current_tracker. simpl. by rewrite Hsame.
Qed.

(** ** Overlapping requests of a tenant *)

Section overlapping.
Import Guard.
Context (g : AbuseGuard) (t : string) (tn : Tenant) (k : nat) (M : Z).

(** The guard with the requests of [t] between their check and their end, the responses of [t] served so far (when,
    how many bytes) and the last reading of the clock. *)
Record system := mkSystem { sy_state : state; sy_inflight : nat; sy_log : list (Z * Z); sy_clock : Z }.

(** One critical section of the guard, for any tenant. At most [k] requests of [t] run at once and none writes more
    than [M] bytes. A request may end without counting (it was throttled, or the handler panicked). *)
Inductive guard_step : system → system → Prop :=
| step_check t' tn' now s s' b al i log T :
    T ≤ now → ag_Tenants g t' = Some tn' → allowBudget t' tn' now s = (b, s', al) →
    (t' = t → b = true → (i < k)%nat) →
    guard_step (mkSystem s i log T) (mkSystem s' (if bool_decide (t' = t) && b then S i else i) log now)
| step_drop s i log T : guard_step (mkSystem s (S i) log T) (mkSystem s i log T)
| step_leave n now s s' al i log T :
    T ≤ now → 0 ≤ n ≤ M → Observe g t n now s = (s', al) →
    guard_step (mkSystem s (S i) log T) (mkSystem s' i ((now, n) :: log) now)
| step_other t' n now s s' al i log T :
    t' ≠ t → T ≤ now → Observe g t' n now s = (s', al) → guard_step (mkSystem s i log T) (mkSystem s' i log now).

(** The bytes of [t] in a month. *)
Definition served (log : list (Z * Z)) (m : Z) : Z :=
  foldr (λ e acc, (if bool_decide (month e.1 = m) then e.2 else 0) + acc) 0 log.

Definition limit : Z := tenantEgressBudgetBytes tn - 1 + Z.of_nat k * M.

Record within (σ : system) : Prop := {
  wi_started : started (egress (sy_state σ) !! t) (sy_clock σ);
  wi_counted now : sy_clock σ ≤ now → counted (egress (sy_state σ) !! t) now = served (sy_log σ) (month now);
  wi_future m : month (sy_clock σ) < m → served (sy_log σ) m = 0;
  wi_inflight : (sy_inflight σ ≤ k)%nat;
  wi_now : served (sy_log σ) (month (sy_clock σ)) + M * Z.of_nat (sy_inflight σ) ≤ limit;
  wi_all m : 0 ≤ served (sy_log σ) m ≤ limit
}.

Context (Ht : t ≠ "") (Htn : ag_Tenants g t = Some tn) (HB : 0 < tenantEgressBudgetBytes tn) (HM : 0 ≤ M)
  (Hmax : limit < 2 ^ 63).

Lemma limit_inflight i : (i ≤ k)%nat → M * Z.of_nat i ≤ limit.
Proof using HB HM. intros Hi. unfold limit. nia. Qed.

(** Time passing keeps the bounds. *)
Lemma now_later σ now : within σ → sy_clock σ ≤ now →
  served (sy_log σ) (month now) + M * Z.of_nat (sy_inflight σ) ≤ limit.
Proof using HB HM.
  intros W Hle. pose proof (month_mono _ _ Hle) as Hm. destruct (decide (month (sy_clock σ) = month now)) as [<-|Hne].
  - apply (wi_now _ W).
  - rewrite (wi_future _ W) by lia. simpl. apply limit_inflight, (wi_inflight _ W).
Qed.

Lemma within_check t' tn' now s s' b al i log T :
  within (mkSystem s i log T) → T ≤ now → ag_Tenants g t' = Some tn' → allowBudget t' tn' now s = (b, s', al) →
  (t' = t → b = true → (i < k)%nat) → within (mkSystem s' (if bool_decide (t' = t) && b then S i else i) log now).
Proof using Ht Htn HB HM Hmax.
  intros W Hle Htn' Hab Hk. pose proof (now_later _ now W Hle) as Hnow. simpl in Hnow.
  pose proof (month_mono _ _ Hle) as Hm. pose proof W as [Hst Hct Hfut Hin _ Hall]. simpl in *.
  assert (started (egress s' !! t) now ∧ (∀ u, now ≤ u → counted (egress s' !! t) u = served log (month u)) ∧
          (t' = t → b = true → served log (month now) < tenantEgressBudgetBytes tn)) as (Hst' & Hct' & Hok).
  { revert Hab. unfold allowBudget. destruct (Z.leb_spec (tenantEgressBudgetBytes tn') 0).
    { intros [= <- <- <-]. split_and!; [intros tr Htr; specialize (Hst tr Htr); lia| |].
      - intros u Hu. apply Hct. lia.
      - intros -> _. assert (tn' = tn) as -> by congruence. lia. }
    destruct (decide (t' = t)) as [->|Hne].
    - assert (tn' = tn) as -> by congruence.
      assert (started (egress s !! t) now) as Hst0 by (intros tr Htr; specialize (Hst tr Htr); lia).
      destruct (Z.leb_spec (tenantEgressBudgetBytes tn) (et_bytes (current_tracker (egress s !! t) now))) as [Hx|Hx];
        intros [= <- <- <-]; simpl; rewrite lookup_insert_eq.
      all: split_and!; [by apply current_started|intros u Hu; rewrite counted_touch by done; apply Hct; lia|].
      + done.
      + intros _ _. rewrite <- Hct by lia. exact Hx.
    - intros Hab. assert (egress s' !! t = egress s !! t) as ->.
      { destruct (_ <=? _) in Hab; injection Hab as <- <- <-; simpl; by rewrite lookup_insert_ne. }
      split_and!; [intros tr Htr; specialize (Hst tr Htr); lia|intros u Hu; apply Hct; lia|done]. }
  split; simpl; try done.
  - intros m Hlt. apply Hfut. lia.
  - case_bool_decide; [|done]. destruct b; simpl; [|done]. specialize (Hk ltac:(done) eq_refl). lia.
  - case_bool_decide as Heq; [|done]. destruct b; simpl; [|done].
    specialize (Hok Heq eq_refl). specialize (Hk Heq eq_refl). unfold limit in *. nia.
Qed.

Lemma within_leave n now s s' al i log T :
  within (mkSystem s (S i) log T) → T ≤ now → 0 ≤ n ≤ M → Observe g t n now s = (s', al) →
  within (mkSystem s' i ((now, n) :: log) now).
Proof using Ht Htn HB HM Hmax.
  intros W Hle Hn Hob. pose proof (now_later _ now W Hle) as Hnow. simpl in Hnow.
  pose proof (month_mono _ _ Hle) as Hm. pose proof W as [Hst Hct Hfut Hin _ Hall]. simpl in *.
  assert (started (egress s !! t) now) as Hst0 by (intros tr Htr; specialize (Hst tr Htr); lia).
  pose proof (Hall (month now)) as Hpos.
  assert (started (egress s' !! t) now ∧
          ∀ u, now ≤ u → counted (egress s' !! t) u = (if bool_decide (month now = month u) then n else 0) + served log (month u))
    as [Hst' Hct'].
  { revert Hob. unfold Observe. rewrite bool_decide_eq_false_2 by done. destruct (Z.leb_spec n 0); simpl.
    { intros [= <- <-]. split; [done|]. intros u Hu. rewrite Hct by lia. assert (n = 0) as -> by lia. by case_bool_decide. }
    destruct (maybeAlert _ _ _ _) as [a d]. intros [= <- <-]. simpl. rewrite lookup_insert_eq. split.
    - intros tr [= <-]. unfold count_egress. simpl. by apply (current_started _ now now Hst0).
    - intros u Hu. rewrite counted_add by done. pose proof (month_mono _ _ Hu). case_bool_decide as Heq.
      + rewrite Hct by lia. rewrite <- Heq. rewrite wrap64_id; [lia|]. unfold is_int64. lia.
      + rewrite Hfut; lia. }
  split; simpl; try done; try lia.
  - intros m Hlt. rewrite Hfut by lia. by rewrite bool_decide_eq_false_2 by lia.
  - rewrite bool_decide_eq_true_2 by done. lia.
  - intros m. specialize (Hall m). case_bool_decide as Heq; [|lia]. subst m. lia.
Qed.

Lemma within_step σ σ' : within σ → guard_step σ σ' → within σ'.
Proof using Ht Htn HB HM Hmax.
  intros W Hs. destruct Hs as [t' tn' now s s' b al i log T|s i log T|n now s s' al i log T|t' n now s s' al i log T].
  - by eapply within_check.
  - destruct W as [Hst Hct Hfut Hin Hnow Hall]. split; simpl in *; try done; lia.
  - by eapply within_leave.
  - assert (egress s' !! t = egress s !! t) as Heq.
    { match goal with H : Observe _ _ _ _ _ = _ |- _ => revert H end. unfold Observe. destruct (_ || _); [by intros [= <- <-]|].
      destruct (maybeAlert _ _ _ _). intros [= <- <-]. simpl. by rewrite lookup_insert_ne. }
    match goal with H : T ≤ now |- _ => pose proof (now_later _ now W H) as Hnow; pose proof (month_mono _ _ H) end.
    destruct W as [Hst Hct Hfut Hin _ Hall]. split; simpl in *; rewrite ?Heq; try done.
    + intros tr Htr. specialize (Hst tr Htr). lia.
    + intros u Hu. apply Hct. lia.
    + intros m Hlt. apply Hfut. lia.
Qed.

(** A request through the middleware is a run of these steps: it is refused, or it checks, runs and counts. *)
Lemma middleware_steps tenant h n c_budget c_throttle c_observe s s' i log T v al :
  Middleware g tenant h (λ w : unit, ((), n, w)) c_budget c_throttle c_observe s () = (v, s', (), al) →
  T ≤ c_budget ≤ c_observe → 0 ≤ n ≤ M → (i < k)%nat →
  ∃ log' T', rtc (guard_step) (mkSystem s i log T) (mkSystem s' i log' T') ∧ T' ≤ Z.max T c_observe ∧
    log' = if bool_decide (tenant = Some t ∧ v = Forwarded () ∧ is_Some (ag_Tenants g t)) then (c_observe, n) :: log else log.
Proof using Type.
  clear Ht Htn HB HM Hmax. unfold Middleware. intros Hmw [H1 H2] Hn Hi. destruct tenant as [t'|].
  2: { injection Hmw as <- <- _. exists log, T. rewrite bool_decide_eq_false_2 by naive_solver. split_and!; [done|lia|done]. }
  destruct (ag_Tenants g t') as [tn'|] eqn:Htn'.
  2: { injection Hmw as <- <- _. exists log, T. rewrite bool_decide_eq_false_2 by (intros ([= ->] & _ & [x Hx]); congruence).
       split_and!; [done|lia|done]. }
  revert Hmw. unfold admission. destruct (negb (allowCDN g tn' h)).
  { intros [= <- <- _]. exists log, T. rewrite bool_decide_eq_false_2 by naive_solver. split_and!; [done|lia|done]. }
  destruct (allowBudget t' tn' c_budget s) as [[b s1] al1] eqn:Hab.
  assert (guard_step (mkSystem s i log T) (mkSystem s1 (if bool_decide (t' = t) && b then S i else i) log c_budget))
    as Hcheck by (by eapply step_check).
  destruct b; simpl.
  2: { intros [= <- <- _]. rewrite andb_false_r in Hcheck. exists log, c_budget.
       rewrite bool_decide_eq_false_2 by naive_solver. split_and!; [by apply rtc_once|lia|done]. }
  rewrite andb_true_r in Hcheck. destruct (_ && _).
  { intros [= <- <- _]. exists log, c_budget. rewrite bool_decide_eq_false_2 by naive_solver. split_and!; [|lia|done].
    eapply rtc_l; [exact Hcheck|]. case_bool_decide; [|done]. apply rtc_once, step_drop. }
  destruct (Observe g t' n c_observe s1) as [s2 al2] eqn:Hob. intros [= <- <- _].
  destruct (decide (t' = t)) as [->|Hne].
  - rewrite bool_decide_eq_true_2 in Hcheck by done. exists ((c_observe, n) :: log), c_observe.
    rewrite bool_decide_eq_true_2 by eauto. split_and!; [|lia|done].
    eapply rtc_l; [exact Hcheck|]. by eapply rtc_once, step_leave.
  - rewrite bool_decide_eq_false_2 in Hcheck by done. exists log, c_observe.
    rewrite bool_decide_eq_false_2 by naive_solver. split_and!; [|lia|done].
    eapply rtc_l; [exact Hcheck|]. by eapply rtc_once, step_other.
Qed.

End overlapping.


(** ** Examples *)

Definition ex_tenant : Tenant :=
  mkTenant "t1" "Acme" "b2c_pooled" "standard" (mkKeys "cmk://acme" "per_object") "p1"
    (mkBudgets (float64_of_int64 1) 2) (mkAbuseConfig "" "") (mkBilling "EUR" "").
Definition ex_guard : Guard.AbuseGuard :=
  Guard.mkAbuseGuard (λ t, if bool_decide (t = "t1") then Some ex_tenant else None) float64_zero 0 0 float64_zero float64_zero false [].
Definition ex_now : Z := 1767225600000000000.
Definition ex_after : Guard.state * list alert :=
  Guard.Observe ex_guard "t1" (2 ^ 40) (ex_now + second_ns) (Guard.allowBudget "t1" ex_tenant ex_now Guard.NewState).1.2.


(** A limiter of one request a second with a burst of one, and the verdicts of requests in the order in which they
    take the lock, each with the clock reading it made before. *)
Definition ex_limiter : Limiter.RateLimiter :=
  Limiter.mkRateLimiter (λ _, Some (1, 1)) None float64_zero 0 0 float64_zero float64_zero float64_zero false false.
Fixpoint admitted (l : Limiter.RateLimiter) (t : string) (readings : list Z) (s : Limiter.state) : list bool :=
  match readings with
  | [] => []
  | now :: readings => let '(ok, s) := Limiter.Allow l t now s in ok :: admitted l t readings s
  end.

(** A late clock reading refills a bucket twice. Allow reads the clock before it takes the lock and stores its
    reading as the time of the last refill, even when that is earlier than the stored one. Of the requests of a tenant
    with one request a second and a burst of one, three are admitted within one and a half seconds when two of them
    overtake each other; with the readings in order it is two. *)
Theorem late_reading_refills_twice :
  admitted ex_limiter "t1" [0; second_ns; second_ns / 2; 3 * second_ns / 2] Limiter.NewState = [true; true; false; true] ∧
  admitted ex_limiter "t1" [0; second_ns / 2; second_ns; 3 * second_ns / 2] Limiter.NewState = [true; false; true; false].
Proof. split; vm_compute; reflexivity. Qed.

End Budget.
