(* ===== verification/Totp.v ===== *)
(** * One-time passwords

    The time-based one-time passwords of the console (api/console/totp.go): the
    base32 form of a shared secret, the HOTP value of a counter, and the
    verification of a code within one time step of the clock. HMAC-SHA1 is a
    parameter whose output has twenty bytes, and the Unicode case tables of
    [strings] are a parameter that leaves upper-case ASCII alone. *)

From S2P Require Import Prelude Bytes GoStrings.
Local Open Scope Z_scope.

(** [strings.ToLower] and [strings.ToUpper] *)
Class CaseTables := {
  toLower : string → string;
  toUpper : string → string
}.

(** Text of ASCII capitals and digits is its own upper case. *)
Definition capital (c : ascii) : bool :=
  is_digit c || (65 <=? N_of_ascii c)%N && (N_of_ascii c <=? 90)%N.

Fixpoint capitals (s : string) : bool := match s with "" => true | String c s => capital c && capitals s end.

Class CaseLaws `{CaseTables} := { toUpper_capitals s : capitals s = true → toUpper s = s }.

(** [hmac.New(sha1.New, key)], one write and the sum *)
Class HmacSHA1 := {
  hmacSHA1 : bytes → bytes → bytes;
  hmacSHA1_size key msg : length (hmacSHA1 key msg) = 20%nat
}.

(** ** Base32 without padding *)

Module Base32.

Definition digit (n : Z) : ascii := ascii_of_N (Z.to_N (if n <? 26 then 65 + n else 24 + n)).

Definition value (c : ascii) : option Z :=
  let n := byte_value c in
  if (65 <=? n) && (n <=? 90) then Some (n - 65)
  else if (50 <=? n) && (n <=? 55) then Some (n - 24)
  else None.

(** How many digits encode that many bytes of a block, and the other way round. *)
Definition digits_of (n : nat) : nat := (match n with 0 => 0 | 1 => 2 | 2 => 4 | 3 => 5 | 4 => 7 | _ => 8 end)%nat.
Definition bytes_of (n : nat) : nat :=
  (match n with 2 => 1 | 4 => 2 | 5 => 3 | 7 => 4 | 8 => 5 | _ => 0 end)%nat.

(** The 40 bits of up to five bytes, and of up to eight digits. *)
Definition block_value (b : bytes) : Z :=
  foldl (λ v c, v * 256 + byte_value c) 0 (b ++ replicate (5 - length b) zero_byte).
Definition quantum_value (ds : list Z) : Z := foldl (λ v d, v * 32 + d) 0 (ds ++ replicate (8 - length ds) 0).

Definition encode_block (b : bytes) : list Z :=
  take (digits_of (length b)) ((λ i, block_value b / 2 ^ (5 * i) mod 32) <$> [7; 6; 5; 4; 3; 2; 1; 0]).
Definition decode_quantum (ds : list Z) : bytes :=
  take (bytes_of (length ds)) (byte_at (quantum_value ds) <$> [4; 3; 2; 1; 0]).

Fixpoint encode (b : bytes) : list Z :=
  match b with
  | [] => []
  | b0 :: b1 :: b2 :: b3 :: b4 :: ((_ :: _) as b) => encode_block [b0; b1; b2; b3; b4] ++ encode b
  | b => encode_block b
  end.

Fixpoint decode (ds : list Z) : bytes :=
  match ds with
  | [] => []
  | d0 :: d1 :: d2 :: d3 :: d4 :: d5 :: d6 :: d7 :: ((_ :: _) as ds) =>
      decode_quantum [d0; d1; d2; d3; d4; d5; d6; d7] ++ decode ds
  | ds => decode_quantum ds
  end.

(** [EncodeToString] and [DecodeString] of [base32.StdEncoding.WithPadding(NoPadding)]:
    line breaks are skipped, another byte outside the alphabet is an error, and a
    last quantum of one, three or six digits decodes to nothing. *)
Definition EncodeToString (b : bytes) : string := String.string_of_list_ascii (digit <$> encode b).
Definition line_break (c : ascii) : bool := byte_in [10; 13]%N c.
Definition DecodeString (s : string) : option bytes :=
  decode <$> mapM value (filter (λ c, line_break c = false) (String.list_ascii_of_string s)).

(** *** Decoding undoes encoding *)

Lemma digit_value n : 0 ≤ n < 32 → value (digit n) = Some n ∧ line_break (digit n) = false ∧ capital (digit n) = true.
Proof.
  intros Hn. assert (forallb (λ k, bool_decide (value (digit (Z.of_nat k)) = Some (Z.of_nat k)) &&
    negb (line_break (digit (Z.of_nat k))) && capital (digit (Z.of_nat k))) (seq 0 32) = true) as H by by vm_compute.
  rewrite forallb_forall in H. specialize (H (Z.to_nat n)). rewrite Z2Nat.id in H by lia.
  rewrite !andb_true_iff, negb_true_iff, bool_decide_eq_true in H. destruct H as [[? ?] ?]; [|done].
  apply in_seq. lia.
Qed.

Lemma encode_block_range b : Forall (λ d, 0 ≤ d < 32) (encode_block b).
Proof.
  unfold encode_block. apply Forall_take, Forall_fmap, Forall_forall. intros i _.
  apply Z.mod_pos_bound. lia.
Qed.

Lemma byte_value_range c : 0 ≤ byte_value c < 256.
Proof. unfold byte_value. pose proof (N_ascii_bounded c). lia. Qed.

Lemma byte_at_value v i c : 0 ≤ v → 0 ≤ i → v / 2 ^ (8 * i) mod 256 = byte_value c → byte_at v i = c.
Proof.
  intros Hv Hi Heq. rewrite <- byte_value_at in Heq by done. unfold byte_value in Heq.
  rewrite <- (ascii_N_embedding (byte_at v i)), <- (ascii_N_embedding c). f_equal. lia.
Qed.

#[local] Ltac Zify.zify_post_hook ::= Z.div_mod_to_equations.

(** The digits of a value that is a multiple of what the missing digits count. *)
Lemma quantum_of_digits v k :
  0 ≤ v < 2 ^ 40 → (k ≤ 8)%nat → v mod 2 ^ (5 * Z.of_nat (8 - k)) = 0 →
  quantum_value (take k ((λ i, v / 2 ^ (5 * i) mod 32) <$> [7; 6; 5; 4; 3; 2; 1; 0])) = v.
Proof.
  intros Hv Hk Hm. unfold quantum_value.
  do 9 (destruct k as [|k]; [cbn in *; lia|]). lia.
Qed.

Lemma bytes_of_value v js b :
  0 ≤ v → Forall (λ i, 0 ≤ i) js → Forall2 (λ i c, v / 2 ^ (8 * i) mod 256 = byte_value c) js b → byte_at v <$> js = b.
Proof.
  intros Hv Hi. induction 1 as [|i c js b Hic _ IH]; [done|]. apply Forall_cons in Hi as [Hi0 Hi]. cbn.
  f_equal; [by apply byte_at_value|by apply IH].
Qed.

Lemma decode_encode_block b : (0 < length b ≤ 5)%nat → decode_quantum (encode_block b) = b.
Proof.
  intros Hb. unfold decode_quantum, encode_block. rewrite length_take, length_fmap.
  assert (0 ≤ block_value b < 2 ^ 40 ∧ block_value b mod 2 ^ (5 * Z.of_nat (8 - digits_of (length b))) = 0 ∧
    bytes_of (digits_of (length b)) = length b ∧
    Forall2 (λ i c, block_value b / 2 ^ (8 * i) mod 256 = byte_value c) (take (length b) [4; 3; 2; 1; 0]) b)
    as (Hv & Hm & Hn & Hbytes).
  { destruct b as [|b0 [|b1 [|b2 [|b3 [|b4 [|]]]]]]; simpl in Hb; try lia;
      repeat match goal with c : ascii |- _ =>
        lazymatch goal with H : 0 ≤ byte_value c < 256 |- _ => fail | _ => pose proof (byte_value_range c) end end;
      unfold block_value; cbn -[byte_value zero_byte Z.div Z.modulo]; change (byte_value zero_byte) with 0;
      split_and!; try lia; repeat (apply Forall2_cons; split || apply Forall2_nil); try done; lia. }
  rewrite quantum_of_digits by (try done; destruct (length b) as [|[|[|[|[|[|]]]]]]; simpl; lia).
  replace (Nat.min _ _) with (digits_of (length b)) by (destruct (length b) as [|[|[|[|[|[|]]]]]]; simpl; lia).
  rewrite Hn, <- fmap_take. clear Hn Hm Hb.
  assert (Forall (λ i, 0 ≤ i) (take (length b) [4; 3; 2; 1; 0])) as Hi by (apply Forall_take; repeat constructor; lia).
  apply bytes_of_value; tauto.
Qed.

Lemma encode_cons b b' :
  length b = 5%nat → b' ≠ [] → encode (b ++ b') = encode_block b ++ encode b'.
Proof. intros Hb Hne. do 6 (destruct b as [|? b]; try done). destruct b'; [done|reflexivity]. Qed.

Lemma decode_cons ds ds' :
  length ds = 8%nat → ds' ≠ [] → decode (ds ++ ds') = decode_quantum ds ++ decode ds'.
Proof. intros Hd Hne. do 9 (destruct ds as [|? ds]; try done). destruct ds'; [done|reflexivity]. Qed.

Lemma encode_small b : (0 < length b ≤ 5)%nat → encode b = encode_block b.
Proof. intros Hb. do 6 (destruct b as [|? b]; simpl in Hb; try lia; try done). Qed.

Lemma decode_small ds : (0 < length ds ≤ 8)%nat → decode ds = decode_quantum ds.
Proof. intros Hb. do 9 (destruct ds as [|? ds]; simpl in Hb; try lia; try done). Qed.

Lemma length_encode_block b : (length b ≤ 5)%nat → length (encode_block b) = digits_of (length b).
Proof.
  intros Hb. unfold encode_block. rewrite length_take, length_fmap.
  destruct (length b) as [|[|[|[|[|[|]]]]]]; simpl; lia.
Qed.

Lemma encode_ne b : b ≠ [] → encode b ≠ [].
Proof. do 6 (destruct b as [|? b]; try done). Qed.

Lemma encode_facts b : Forall (λ d, 0 ≤ d < 32) (encode b) ∧ decode (encode b) = b.
Proof.
  remember (length b) as n eqn:Hn. revert b Hn. induction n as [n IH] using lt_wf_ind. intros b ->.
  destruct (decide (b = [])) as [->|Hne]; [done|].
  destruct (decide (length b ≤ 5)%nat) as [Hs|Hl].
  - assert (0 < length b ≤ 5)%nat by (destruct b; simpl in *; [done|lia]). rewrite encode_small by done.
    split; [apply encode_block_range|]. rewrite decode_small; [by apply decode_encode_block|].
    rewrite length_encode_block by lia. destruct (length b) as [|[|[|[|[|[|]]]]]]; simpl; lia.
  - assert (length (take 5 b) = 5%nat) as H5 by (rewrite length_take; lia).
    assert (drop 5 b ≠ []) as Hd by (intros H%(f_equal length); rewrite length_drop in H; simpl in H; lia).
    rewrite <- (take_drop 5 b), encode_cons by done.
    destruct (IH (length (drop 5 b))) with (b := drop 5 b) as [Hr Hdec]; [rewrite length_drop; lia|done|].
    split; [apply Forall_app; split; [apply encode_block_range|done]|].
    rewrite decode_cons; [|by rewrite length_encode_block, H5 by lia|by apply encode_ne].
    by rewrite Hdec, decode_encode_block by lia.
Qed.

Lemma EncodeToString_capitals b : capitals (EncodeToString b) = true.
Proof.
  unfold EncodeToString. destruct (encode_facts b) as [Hr _]. induction Hr as [|d ds Hd _ IH]; [done|].
  rewrite fmap_cons. cbn [String.string_of_list_ascii capitals]. rewrite IH.
  by destruct (digit_value d Hd) as (_ & _ & ->).
Qed.

Lemma DecodeString_EncodeToString b : DecodeString (EncodeToString b) = Some b.
Proof.
  unfold DecodeString, EncodeToString. rewrite String.list_ascii_of_string_of_list_ascii.
  destruct (encode_facts b) as [Hr Hd].
  assert (mapM value (filter (λ c, line_break c = false) (digit <$> encode b)) = Some (encode b)) as ->; [|by rewrite <- Hd at 2].
  clear Hd. induction Hr as [|d ds Hd _ IH]; [done|]. destruct (digit_value d Hd) as (Hv & Hl & _).
  rewrite fmap_cons, filter_cons_True by done. cbn. rewrite Hv. cbn. by rewrite IH.
Qed.

End Base32.

(** ** Codes *)

Module Totp.

Definition totpPeriod : Z := 30.                  (* seconds *)
Definition totpDigits : Z := 6.
Definition totpSkewSteps : Z := 1.
Definition totpSecretBytes : nat := 20.

(** [t.Unix()] of an instant in nanoseconds. *)
Definition Unix (t : Z) : Z := t / 1000000000.

Section totp.
Context `{!CaseTables, !HmacSHA1}.

(** [rnd] is what the reader of random bytes returns. *)
Definition newTOTPSecret (rnd : option bytes) : option string := Base32.EncodeToString <$> rnd.

Definition totpStep (t : Z) : Z := Z.quot (Unix t) totpPeriod.

Definition byte_of (sum : bytes) (i : Z) : Z := byte_value (nth (Z.to_nat i) sum zero_byte).

(** The four bytes the last nibble selects, without the top bit. *)
Definition truncation (sum : bytes) : Z :=
  let offset := Z.land (byte_of sum (blen sum - 1)) 15 in
  Z.lor (Z.lor (Z.lor (Z.shiftl (Z.land (byte_of sum offset) 127) 24) (Z.shiftl (byte_of sum (offset + 1)) 16))
    (Z.shiftl (byte_of sum (offset + 2)) 8)) (byte_of sum (offset + 3)).

Fixpoint zeros (n : nat) : string := match n with 0%nat => "" | S n => String "0" (zeros n) end.

(** [fmt.Sprintf("%0*d", width, n)] of an unsigned number *)
Definition zero_padded (width n : Z) : string :=
  let s := FormatUint n in zeros (Z.to_nat width - String.length s) +:+ s.

Definition hotpCode (key : bytes) (counter : Z) : string :=
  zero_padded totpDigits (truncation (hmacSHA1 key (PutUint64 (wrapu64 counter))) mod 10 ^ totpDigits).

(** [strings.TrimRight(s, "=")] *)
Fixpoint trim_equals (s : string) : string :=
  match s with String "=" s => trim_equals s | s => s end.
Definition TrimRightEquals (s : string) : string := string_rev (trim_equals (string_rev s "")) "".

Definition decodeTOTPSecret (secretB32 : string) : option bytes :=
  Base32.DecodeString (TrimRightEquals (toUpper (TrimSpace secretB32))).

(** The first of the steps whose code is the one given. *)
Fixpoint first_match (key : bytes) (code : string) (steps : list Z) : option Z :=
  match steps with
  | [] => None
  | step :: steps => if bool_decide (hotpCode key step = code) then Some step else first_match key code steps
  end.

Definition window (t : Z) : list Z := (λ delta, wrap64 (totpStep t + delta)) <$> [- totpSkewSteps; 0; totpSkewSteps].

Definition totpVerify (secretB32 code : string) (t : Z) : option Z :=
  let code := TrimSpace code in
  if negb (Z.of_nat (String.length code) =? totpDigits) then None
  else match ParseInt code with
       | None => None
       | Some _ =>
           match decodeTOTPSecret secretB32 with
           | None => None
           | Some key => first_match key code (window t)
           end
       end.

(** [url.Values.Encode] writes the parameters in the order of their names. *)
Definition enrollment_query (issuer secretB32 : string) : string :=
  "algorithm=SHA1&digits=6&issuer=" +:+ QueryEscape issuer +:+ "&period=30&secret=" +:+ QueryEscape secretB32.

Definition totpEnrollmentURI (issuer account secretB32 : string) : string :=
  "otpauth://totp/" +:+ PathEscape (issuer +:+ ":" +:+ account) +:+ "?" +:+ enrollment_query issuer secretB32.

End totp.

(** ** Facts *)

(** *** The shape of a code *)

Lemma of_uint_acc_ge d acc : Z.pos acc * 10 ^ Z.of_nat (Decimal.nb_digits d) ≤ Z.pos (Pos.of_uint_acc d acc).
Proof.
  revert acc. induction d as [|d IH|d IH|d IH|d IH|d IH|d IH|d IH|d IH|d IH|d IH]; intros acc;
    cbn [Decimal.nb_digits Pos.of_uint_acc]; [lia|..]; (etrans; [|apply IH]); rewrite Nat2Z.inj_succ, Z.pow_succ_r by lia;
    pose proof (Z.pow_nonneg 10 (Z.of_nat (Decimal.nb_digits d))); nia.
Qed.

Lemma to_uint_digits n k : 0 ≤ n < 10 ^ Z.of_nat k → (0 < k)%nat → (Decimal.nb_digits (N.to_uint (Z.to_N n)) ≤ k)%nat.
Proof.
  intros Hn Hk. remember (N.to_uint (Z.to_N n)) as d eqn:Hd.
  assert (Z.of_N (N.of_uint d) = n) as Hv by (subst d; rewrite DecimalN.Unsigned.of_to; lia).
  assert (d = Decimal.unorm d) as Hnorm by (rewrite <- DecimalN.Unsigned.to_of; subst d; by rewrite DecimalN.Unsigned.of_to).
  assert (∀ l acc, Z.pos (Pos.of_uint_acc l acc) = n → (S (Decimal.nb_digits l) ≤ k)%nat) as Hlead.
  { intros l acc Hl. pose proof (of_uint_acc_ge l acc) as Hge. rewrite Hl in Hge.
    apply Nat.nlt_ge. intros Hlt. assert (10 ^ Z.of_nat k ≤ 10 ^ Z.of_nat (Decimal.nb_digits l)) by (apply Z.pow_le_mono_r; lia).
    nia. }
  destruct d as [|l|l|l|l|l|l|l|l|l|l]; simpl in Hv |- *; [lia| |by eapply Hlead..].
  assert (l = Decimal.Nil) as ->; [|simpl; lia].
  unfold Decimal.unorm in Hnorm. simpl in Hnorm. destruct (Decimal.nzhead l) eqn:E; try congruence.
  exfalso. revert E. clear. intros E. induction l; simpl in E; try discriminate. by apply IHl.
Qed.

Lemma zeros_uint k d :
  zeros k +:+ DecimalString.NilEmpty.string_of_uint d = DecimalString.NilEmpty.string_of_uint (Nat.iter k Decimal.D0 d).
Proof. induction k as [|k IH]; [done|]. simpl. by rewrite <- IH. Qed.

Lemma string_of_uint_length d : String.length (DecimalString.NilEmpty.string_of_uint d) = Decimal.nb_digits d.
Proof. induction d; simpl; by f_equal. Qed.

(** A code is six decimal digits. *)
Lemma zero_padded_shape n (w : nat) :
  0 ≤ n < 10 ^ Z.of_nat w → (0 < w < 19)%nat → let s := zero_padded (Z.of_nat w) n in
  String.length s = w ∧ all_digits s = true ∧ ParseInt s = Some n.
Proof.
  intros Hn Hw s. pose proof (to_uint_digits n w Hn ltac:(lia)) as Hd.
  assert (s = DecimalString.NilEmpty.string_of_uint
    (Nat.iter (w - Decimal.nb_digits (N.to_uint (Z.to_N n))) Decimal.D0 (N.to_uint (Z.to_N n)))) as ->.
  { unfold s, zero_padded, FormatUint. rewrite <- zeros_uint.
    replace (DecimalString.NilZero.string_of_uint (N.to_uint (Z.to_N n))) with (DecimalString.NilEmpty.string_of_uint (N.to_uint (Z.to_N n)))
      by (pose proof (to_uint_nonnil (Z.to_N n)); by destruct (N.to_uint (Z.to_N n))).
    by rewrite string_of_uint_length, Nat2Z.id. }
  remember (Nat.iter _ _ _) as d eqn:E.
  assert (d ≠ Decimal.Nil ∧ Decimal.nb_digits d = w ∧ N.of_uint d = Z.to_N n) as (Hne & Hlen & Hv).
  { subst d. pose proof (to_uint_nonnil (Z.to_N n)). split_and!.
    - by destruct (w - _)%nat.
    - rewrite DecimalFacts.nb_digits_iter_D0. lia.
    - generalize (w - Decimal.nb_digits (N.to_uint (Z.to_N n)))%nat. intros k.
      induction k as [|k IH]; [apply DecimalN.Unsigned.of_to|done]. }
  rewrite string_of_uint_length. split_and!; [done|apply all_digits_uint|].
  replace (DecimalString.NilEmpty.string_of_uint d) with (DecimalString.NilZero.string_of_uint d) by by destruct d.
  rewrite ParseInt_unsigned by by destruct d. rewrite DecimalString.NilZero.usu by done. rewrite Hv. simpl. rewrite Z2N.id by lia.
  rewrite (proj2 (Z.ltb_lt _ _)); [done|].
  assert (10 ^ Z.of_nat w ≤ 10 ^ 18) by (apply Z.pow_le_mono_r; lia). lia.
Qed.

Lemma digits_visible s : all_digits s = true → visible s = true.
Proof.
  induction s as [|c s IH]; simpl; [done|]. unfold is_digit. intros [[H1%N.leb_le H2%N.leb_le]%andb_true_iff Hs]%andb_true_iff.
  rewrite IH by done. rewrite (proj2 (N.leb_le 33 _)), (proj2 (N.leb_le _ 126)) by lia. done.
Qed.

Lemma capitals_visible s : capitals s = true → visible s = true.
Proof.
  induction s as [|c s IH]; simpl; [done|]. intros [Hc Hs]%andb_true_iff. rewrite IH, andb_true_r by done.
  unfold capital, is_digit in Hc. rewrite orb_true_iff, !andb_true_iff, !N.leb_le in Hc.
  rewrite andb_true_iff, !N.leb_le. lia.
Qed.

Lemma capitals_rev s acc : capitals s = true → capitals acc = true → capitals (string_rev s acc) = true.
Proof.
  revert acc. induction s as [|c s IH]; intros acc; simpl; [done|]. intros [Hc Hs]%andb_true_iff Ha.
  apply IH; [done|]. simpl. by rewrite Hc.
Qed.

Lemma TrimRightEquals_capitals s : capitals s = true → TrimRightEquals s = s.
Proof.
  intros Hs. unfold TrimRightEquals. rewrite <- (string_rev_involutive s) at 2. f_equal.
  assert (capitals (string_rev s "") = true) as Hr by by apply capitals_rev.
  destruct (string_rev s "") as [|[[] [] [] [] [] [] [] []] r]; done.
Qed.

Section facts.
Context `{!CaseTables, !CaseLaws, !HmacSHA1}.

Lemma decode_own_secret key : decodeTOTPSecret (Base32.EncodeToString key) = Some key.
Proof.
  unfold decodeTOTPSecret. pose proof (Base32.EncodeToString_capitals key) as Hc.
  rewrite TrimSpace_visible by by apply capitals_visible. rewrite toUpper_capitals by done.
  rewrite TrimRightEquals_capitals by done. apply Base32.DecodeString_EncodeToString.
Qed.

(** The four bytes of the truncation are bytes of the sum. *)
Lemma truncation_in_range key msg :
  Z.land (byte_of (hmacSHA1 key msg) (blen (hmacSHA1 key msg) - 1)) 15 + 3 < blen (hmacSHA1 key msg).
Proof.
  unfold blen. rewrite hmacSHA1_size. change 15 with (Z.ones 4). rewrite Z.land_ones by lia.
  pose proof (Z.mod_pos_bound (byte_of (hmacSHA1 key msg) (Z.of_nat 20 - 1)) (2 ^ 4)). lia.
Qed.

Lemma hotpCode_shape key step :
  String.length (hotpCode key step) = 6%nat ∧ visible (hotpCode key step) = true ∧ is_Some (ParseInt (hotpCode key step)).
Proof.
  unfold hotpCode. set (n := _ mod _). assert (0 ≤ n < 10 ^ Z.of_nat 6) as Hn by (apply Z.mod_pos_bound; done).
  destruct (zero_padded_shape n 6 Hn ltac:(lia)) as (Hl & Hd & Hp). change totpDigits with (Z.of_nat 6).
  split_and!; [done|by apply digits_visible|by rewrite Hp].
Qed.

Lemma first_match_spec key code steps step :
  first_match key code steps = Some step → step ∈ steps ∧ hotpCode key step = code.
Proof.
  induction steps as [|s steps IH]; simpl; [done|]. case_bool_decide as Hs.
  - intros [= <-]. by split; [left|].
  - intros [Hin Hc]%IH. by split; [right|].
Qed.

Lemma first_match_complete key code steps step :
  step ∈ steps → hotpCode key step = code → is_Some (first_match key code steps).
Proof.
  intros Hin Hc. induction steps as [|s steps IH]; [by apply elem_of_nil in Hin|]. simpl.
  case_bool_decide as Hs; [by eexists|]. apply elem_of_cons in Hin as [->|Hin]; [done|by apply IH].
Qed.

(** An accepted code is the code of its key for a step of the window. *)
Lemma totpVerify_sound secret code t step :
  totpVerify secret code t = Some step →
  step ∈ window t ∧ ∃ key, decodeTOTPSecret secret = Some key ∧ hotpCode key step = TrimSpace code.
Proof.
  unfold totpVerify. destruct (negb _); [done|]. destruct (ParseInt _); [|done].
  destruct (decodeTOTPSecret secret) as [key|]; [|done]. intros [Hin Hc]%first_match_spec. eauto.
Qed.

Lemma totpVerify_complete key step t :
  step ∈ window t →
  ∃ step', totpVerify (Base32.EncodeToString key) (hotpCode key step) t = Some step' ∧ step' ∈ window t ∧
    hotpCode key step' = hotpCode key step.
Proof.
  intros Hin. destruct (hotpCode_shape key step) as (Hl & Hv & [n Hp]).
  assert (∃ step', totpVerify (Base32.EncodeToString key) (hotpCode key step) t = Some step') as [step' Hok].
  { unfold totpVerify. rewrite TrimSpace_visible by done. rewrite Hl, Hp, decode_own_secret.
    by eapply first_match_complete. }
  exists step'. split; [done|]. apply totpVerify_sound in Hok as [Hs (key' & Hk & Hc)].
  rewrite decode_own_secret in Hk. injection Hk as <-. rewrite TrimSpace_visible in Hc by done. done.
Qed.

(** *** The published algorithm *)

(** HOTP as RFC 4226 writes it: of a sum of twenty bytes, the four bytes at the
    offset in the last nibble, as a big-endian number of 31 bits. *)
Definition dynamic_truncation (sum : bytes) : Z :=
  let offset := byte_value (nth 19 sum zero_byte) mod 16 in
  foldl (λ v c, v * 256 + byte_value c) 0 (take 4 (drop (Z.to_nat offset) sum)) mod 2 ^ 31.

Definition rfc4226 (key : bytes) (counter : Z) : string :=
  zero_padded 6 (dynamic_truncation (hmacSHA1 key (PutUint64 counter)) mod 10 ^ 6).

Lemma lor_shiftl_add a b k : 0 ≤ k → 0 ≤ b < 2 ^ k → Z.lor (Z.shiftl a k) b = a * 2 ^ k + b.
Proof.
  intros Hk Hb. destruct (decide (b = 0)) as [->|Hne]; [rewrite Z.lor_0_r, Z.shiftl_mul_pow2; lia|].
  assert (Z.log2 b < k) as Hlog by (apply Z.log2_lt_pow2; lia).
  assert (Z.land (Z.shiftl a k) b = 0) as Hand.
  { apply Z.bits_inj'. intros i Hi. rewrite Z.land_spec, Z.bits_0, Z.shiftl_spec by done.
    destruct (decide (i < k)); [by rewrite (Z.testbit_neg_r a) by lia|].
    by rewrite (Z.bits_above_log2 b), andb_false_r by lia. }
  rewrite <- Z.lxor_lor, <- Z.add_nocarry_lxor, Z.shiftl_mul_pow2 by done. done.
Qed.

Lemma take_drop_nth (sum : bytes) o :
  (o + 3 < length sum)%nat →
  take 4 (drop o sum) = [nth o sum zero_byte; nth (o + 1) sum zero_byte; nth (o + 2) sum zero_byte; nth (o + 3) sum zero_byte].
Proof.
  revert sum. induction o as [|o IH]; intros sum Ho.
  - do 4 (destruct sum as [|? sum]; [simpl in Ho; lia|]). done.
  - destruct sum as [|b sum]; [simpl in Ho; lia|]. simpl in *. apply IH. lia.
Qed.

Lemma truncation_is_rfc key msg : truncation (hmacSHA1 key msg) = dynamic_truncation (hmacSHA1 key msg).
Proof.
  pose proof (hmacSHA1_size key msg) as Hn. set (sum := hmacSHA1 key msg) in *.
  unfold truncation, dynamic_truncation, byte_of, blen. rewrite Hn. change (Z.to_nat (Z.of_nat 20 - 1)) with 19%nat.
  change 15 with (Z.ones 4). rewrite Z.land_ones by lia. set (o := _ mod 2 ^ 4).
  change (byte_value (nth 19 sum zero_byte) mod 16) with o.
  assert (0 ≤ o < 16) by (apply Z.mod_pos_bound; lia).
  rewrite take_drop_nth by (rewrite Hn; lia). rewrite !Z2Nat.inj_add by lia. change (Z.to_nat 1) with 1%nat.
  change (Z.to_nat 2) with 2%nat. change (Z.to_nat 3) with 3%nat. cbn [foldl].
  generalize (nth (Z.to_nat o) sum zero_byte) (nth (Z.to_nat o + 1) sum zero_byte) (nth (Z.to_nat o + 2) sum zero_byte)
    (nth (Z.to_nat o + 3) sum zero_byte). intros a b c d.
  change 127 with (Z.ones 7). rewrite Z.land_ones by lia.
  pose proof (Base32.byte_value_range a). pose proof (Base32.byte_value_range b).
  pose proof (Base32.byte_value_range c). pose proof (Base32.byte_value_range d).
  rewrite (lor_shiftl_add _ (Z.shiftl (byte_value b) 16) 24) by (rewrite ?Z.shiftl_mul_pow2; lia).
  rewrite (Z.shiftl_mul_pow2 _ 16) by lia.
  replace (byte_value a mod 2 ^ 7 * 2 ^ 24 + byte_value b * 2 ^ 16) with (Z.shiftl (byte_value a mod 2 ^ 7 * 2 ^ 8 + byte_value b) 16)
    by (rewrite Z.shiftl_mul_pow2; lia).
  rewrite (lor_shiftl_add _ (Z.shiftl (byte_value c) 8) 16) by (rewrite ?Z.shiftl_mul_pow2; lia).
  rewrite (Z.shiftl_mul_pow2 _ 8) by lia.
  replace ((byte_value a mod 2 ^ 7 * 2 ^ 8 + byte_value b) * 2 ^ 16 + byte_value c * 2 ^ 8)
    with (Z.shiftl ((byte_value a mod 2 ^ 7 * 2 ^ 8 + byte_value b) * 2 ^ 8 + byte_value c) 8)
    by (rewrite Z.shiftl_mul_pow2; lia).
  rewrite lor_shiftl_add by lia.
  pose proof (Z.mod_pos_bound (byte_value a) (2 ^ 7) ltac:(lia)).
  apply (Z.mod_unique_pos _ _ (byte_value a / 2 ^ 7)); pose proof (Z.div_mod (byte_value a) (2 ^ 7) ltac:(lia)); lia.
Qed.

(** The code of a counter is the published one. *)
Lemma hotpCode_is_rfc key counter : is_uint64 counter → hotpCode key counter = rfc4226 key counter.
Proof. intros Hc. unfold hotpCode, rfc4226. by rewrite wrapu64_id, truncation_is_rfc by done. Qed.

(** *** The enrollment URI *)

(** What an authenticator reads of the URI: the secret of the query after the first question mark. *)
Definition secret_of_uri (uri : string) : option string :=
  (λ q, Values_Get "secret" (ParseQuery q.2).1) <$> cut_byte "?" uri.

Lemma PathEscape_free s : ContainsByte "?" (PathEscape s) = false.
Proof.
  induction s as [|a s IH]; [done|]. change (PathEscape (String a s)) with (path_escape_byte a +:+ PathEscape s).
  rewrite ContainsByte_app, IH, orb_false_r. destruct a as [[] [] [] [] [] [] [] []]; reflexivity.
Qed.

Lemma enrollment_uri_carries_secret issuer account secret :
  secret_of_uri (totpEnrollmentURI issuer account secret) = Some secret.
Proof.
  unfold secret_of_uri, totpEnrollmentURI, enrollment_query. set (l := PathEscape _).
  set (x := QueryEscape issuer). set (y := QueryEscape secret).
  assert (SplitByte "&" ("algorithm=SHA1&digits=6&issuer=" +:+ x +:+ "&period=30&secret=" +:+ y) =
    ["algorithm=SHA1"; "digits=6"; "issuer=" +:+ x; "period=30"; "secret=" +:+ y]) as Hsplit.
  { change ("algorithm=SHA1&digits=6&issuer=" +:+ x +:+ "&period=30&secret=" +:+ y) with
      ("algorithm=SHA1" +:+ String "&" ("digits=6" +:+ String "&" (("issuer=" +:+ x) +:+ String "&" ("period=30" +:+ String "&" ("secret=" +:+ y))))).
    rewrite !SplitByte_app; [|reflexivity..|exact (QueryEscape_free "&" issuer eq_refl)|reflexivity|reflexivity].
    by rewrite SplitByte_none by exact (QueryEscape_free "&" secret eq_refl). }
  assert (cut_byte "?" ("otpauth://totp/" +:+ l +:+ "?" +:+ "algorithm=SHA1&digits=6&issuer=" +:+ x +:+ "&period=30&secret=" +:+ y)
    = Some ("otpauth://totp/" +:+ l, "algorithm=SHA1&digits=6&issuer=" +:+ x +:+ "&period=30&secret=" +:+ y)) as ->.
  { apply (cut_byte_app "?" ("otpauth://totp/" +:+ l)). exact (PathEscape_free _). }
  cbn [fmap option_fmap option_map snd]. unfold ParseQuery. rewrite Hsplit. f_equal.
  rewrite (parse_pairs_cons "algorithm" "SHA1" "algorithm" "SHA1"), (parse_pairs_cons "digits" "6" "digits" "6") by done.
  rewrite (parse_pairs_cons "issuer" x "issuer" issuer)
    by (done || exact (QueryEscape_free ";" issuer eq_refl) || apply QueryUnescape_QueryEscape).
  rewrite (parse_pairs_cons "period" "30" "period" "30") by done.
  rewrite (parse_pairs_cons "secret" y "secret" secret)
    by (done || exact (QueryEscape_free ";" secret eq_refl) || apply QueryUnescape_QueryEscape).
  unfold Values_Get. cbn [parse_pairs fst]. by rewrite lookup_insert_eq, !lookup_insert_ne by done.
Qed.

End facts.
End Totp.
