(* ===== verification/ConsoleStores.v ===== *)
(** * The stores of the console's sign-in

    The users, access tokens, refresh tokens and second factors of the tenant
    console (api/console): the in-memory stores and, for refresh tokens and second
    factors, the SQLite stores. The stores of refresh tokens and of second factors
    are used through an interface (the type classes [RefreshTokenStore] and
    [MFAStore]), whose laws say what a call may do to the rows it keeps; both
    implementations satisfy them, so what is proved from the laws holds for either. *)

From S2P Require Import Prelude Bytes GoStrings Tenants SigV4 Totp.
Local Open Scope Z_scope.

(** What a call meets: the clock, the bytes of the random generator (or its
    failure), the database statements that fail, numbered as the call issues them,
    and the order in which Go iterates a map. *)
Record draw := mkDraw {
  d_now : Z;
  d_family : option string;
  d_raw : option string;
  d_fault : nat → bool;
  d_order : list string
}.

(** ** Users *)

Module Users.
Record memoryAuthRow := mkMemoryAuthRow {
  au_PasswordHash : string;
  au_TenantID : string;
  au_Verified : bool;
  au_VerificationToken : string
}.

Abbreviation MemoryAuthStore := (gmap string memoryAuthRow).

Section users.
Context `{!CaseTables}.

Inductive auth_error :=
| EmailRequired | EmailRegistered | TenantIDMissing | TenantNotFound | TokenRequired | TokenInvalid.

Definition CreateUser (email passwordHash tenantID : string) (s : MemoryAuthStore) : result auth_error MemoryAuthStore :=
  if bool_decide (email = "") then Err EmailRequired
  else if bool_decide (is_Some (s !! toLower email)) then Err EmailRegistered
  else Ok (<[toLower email := mkMemoryAuthRow passwordHash tenantID false ""]> s).

Definition LookupUser (email : string) (s : MemoryAuthStore) : option (string * string) :=
  (λ row, (au_PasswordHash row, au_TenantID row)) <$> s !! toLower email.

Definition DeleteUser (email : string) (s : MemoryAuthStore) : result auth_error MemoryAuthStore :=
  if bool_decide (email = "") then Err EmailRequired else Ok (delete (toLower email) s).

(** The first row a loop over the map meets that satisfies [f]. *)
Fixpoint first_row (f : memoryAuthRow → bool) (order : list string) (s : MemoryAuthStore)
    : option (string * memoryAuthRow) :=
  match order with
  | [] => None
  | email :: order =>
      match s !! email with
      | Some row => if f row then Some (email, row) else first_row f order s
      | None => first_row f order s
      end
  end.

Definition of_tenant (tenantID : string) (row : memoryAuthRow) : bool := bool_decide (au_TenantID row = tenantID).

Definition IsVerified (order : list string) (tenantID : string) (s : MemoryAuthStore) : bool * bool :=
  if bool_decide (tenantID = "") then (false, false)
  else match first_row (of_tenant tenantID) order s with
       | Some (_, row) => (au_Verified row, true)
       | None => (false, false)
       end.

Definition verified (row : memoryAuthRow) : memoryAuthRow :=
  mkMemoryAuthRow (au_PasswordHash row) (au_TenantID row) true "".

Definition MarkVerified (order : list string) (tenantID : string) (s : MemoryAuthStore)
    : result auth_error MemoryAuthStore :=
  if bool_decide (tenantID = "") then Err TenantIDMissing
  else match first_row (of_tenant tenantID) order s with
       | Some (email, row) => Ok (<[email := verified row]> s)
       | None => Err TenantNotFound
       end.

Definition SetVerificationToken (order : list string) (tenantID token : string) (s : MemoryAuthStore)
    : result auth_error MemoryAuthStore :=
  if bool_decide (tenantID = "") then Err TenantIDMissing
  else if bool_decide (token = "") then Err TokenRequired
  else match first_row (of_tenant tenantID) order s with
       | Some (email, row) =>
           Ok (<[email := mkMemoryAuthRow (au_PasswordHash row) (au_TenantID row) (au_Verified row) token]> s)
       | None => Err TenantNotFound
       end.

Definition pending_token (token : string) (row : memoryAuthRow) : bool :=
  negb (bool_decide (au_VerificationToken row = "")) && bool_decide (token = au_VerificationToken row).

Definition ConsumeVerificationToken (order : list string) (token : string) (s : MemoryAuthStore)
    : result auth_error (string * MemoryAuthStore) :=
  if bool_decide (token = "") then Err TokenRequired
  else match first_row (pending_token token) order s with
       | Some (email, row) => Ok (au_TenantID row, <[email := verified row]> s)
       | None => Err TokenInvalid
       end.

End users.
End Users.

(** ** Refresh tokens *)

Module Refresh.
Record row := mkRow { r_tenantID : string; r_familyID : string; r_expiresAt : Z; r_consumed : bool }.

Abbreviation rows := (gmap string row).

Section refresh.
Context `{!SigCrypto}.

Record RefreshToken := mkRefreshToken { Raw : string; TenantID : string; ExpiresAt : Z }.

Inductive refresh_error := TenantRequired | RefreshTokenInvalid | RefreshTokenReuse | StoreFailed.

Definition DefaultRefreshTokenTTL : Z := 30 * 24 * 3600 * 1000000000.

(** [RefreshConfig.ttl] of a configured TTL. *)
Definition ttl (TTL : Z) : Z := if TTL <=? 0 then DefaultRefreshTokenTTL else TTL.

Definition hashRefreshToken (raw : string) : string := Signing.EncodeToString (sha256 raw).

Definition consume (r : row) : row := mkRow (r_tenantID r) (r_familyID r) (r_expiresAt r) true.

Definition answer : Type := result refresh_error RefreshToken.

(** *** In memory *)

Record MemoryRefreshTokenStore := mkMemory { mem_TTL : Z; mem_rows : rows }.

Definition with_rows (m : rows) (s : MemoryRefreshTokenStore) : MemoryRefreshTokenStore := mkMemory (mem_TTL s) m.

Definition mintLocked (d : draw) (tenantID familyID : string) (s : MemoryRefreshTokenStore)
    : answer * MemoryRefreshTokenStore :=
  match d_raw d with
  | None => (Err StoreFailed, s)
  | Some raw =>
      let expiresAt := d_now d + ttl (mem_TTL s) in
      (Ok (mkRefreshToken raw tenantID expiresAt),
       with_rows (<[hashRefreshToken raw := mkRow tenantID familyID expiresAt false]> (mem_rows s)) s)
  end.

Definition Memory_Issue (d : draw) (tenantID : string) (s : MemoryRefreshTokenStore) : answer * MemoryRefreshTokenStore :=
  if bool_decide (tenantID = "") then (Err TenantRequired, s)
  else match d_family d with
       | None => (Err StoreFailed, s)
       | Some family => mintLocked d tenantID family s
       end.

Definition revokeFamilyLocked (familyID : string) (m : rows) : rows := filter (λ hr, r_familyID hr.2 ≠ familyID) m.

Definition Memory_Rotate (d : draw) (rawToken : string) (s : MemoryRefreshTokenStore) : answer * MemoryRefreshTokenStore :=
  if bool_decide (rawToken = "") then (Err RefreshTokenInvalid, s)
  else
    let hash := hashRefreshToken rawToken in
    match mem_rows s !! hash with
    | None => (Err RefreshTokenInvalid, s)
    | Some r =>
        if negb (Before (d_now d) (r_expiresAt r)) then (Err RefreshTokenInvalid, with_rows (delete hash (mem_rows s)) s)
        else if r_consumed r then (Err RefreshTokenReuse, with_rows (revokeFamilyLocked (r_familyID r) (mem_rows s)) s)
        else match d_raw d with
             | None => (Err StoreFailed, s)
             | Some raw =>
                 let expiresAt := d_now d + ttl (mem_TTL s) in
                 (Ok (mkRefreshToken raw (r_tenantID r) expiresAt),
                  with_rows (<[hashRefreshToken raw := mkRow (r_tenantID r) (r_familyID r) expiresAt false]>
                    (<[hash := consume r]> (mem_rows s))) s)
             end
    end.

Definition Memory_Revoke (d : draw) (rawToken : string) (s : MemoryRefreshTokenStore)
    : result refresh_error () * MemoryRefreshTokenStore :=
  if bool_decide (rawToken = "") then (Ok (), s)
  else (Ok (), with_rows (delete (hashRefreshToken rawToken) (mem_rows s)) s).

Definition Memory_RevokeAllForTenant (d : draw) (tenantID : string) (s : MemoryRefreshTokenStore)
    : result refresh_error () * MemoryRefreshTokenStore :=
  if bool_decide (tenantID = "") then (Ok (), s)
  else (Ok (), with_rows (filter (λ hr, r_tenantID hr.2 ≠ tenantID) (mem_rows s)) s).

(** *** In SQLite *)

(** The table by its primary key; [expires_at] is the int64 of [UnixNano]. *)
Record SQLiteRefreshTokenStore := mkSQLite { sql_TTL : Z; refresh_tokens : rows }.

Definition with_table (m : rows) (s : SQLiteRefreshTokenStore) : SQLiteRefreshTokenStore := mkSQLite (sql_TTL s) m.

Definition UnixNano (t : Z) : Z := wrap64 t.

(** [INSERT INTO refresh_tokens]: refused when the key is there. *)
Definition insert_row (hash : string) (r : row) (m : rows) : option rows :=
  if bool_decide (is_Some (m !! hash)) then None else Some (<[hash := r]> m).

Definition SQLite_Issue (d : draw) (tenantID : string) (s : SQLiteRefreshTokenStore) : answer * SQLiteRefreshTokenStore :=
  if bool_decide (tenantID = "") then (Err TenantRequired, s)
  else match d_family d, d_raw d with
       | Some family, Some raw =>
           let expiresAt := d_now d + ttl (sql_TTL s) in
           match if d_fault d 0 then None
                 else insert_row (hashRefreshToken raw) (mkRow tenantID family (UnixNano expiresAt) false) (refresh_tokens s) with
           | None => (Err StoreFailed, s)
           | Some m => (Ok (mkRefreshToken raw tenantID expiresAt), with_table m s)
           end
       | _, _ => (Err StoreFailed, s)
       end.

(** The statements are numbered: begin, select, then the writes and the commit;
    a return before the commit rolls the transaction back. *)
Definition SQLite_Rotate (d : draw) (rawToken : string) (s : SQLiteRefreshTokenStore) : answer * SQLiteRefreshTokenStore :=
  if bool_decide (rawToken = "") then (Err RefreshTokenInvalid, s)
  else if d_fault d 0 || d_fault d 1 then (Err StoreFailed, s)
  else
    let hash := hashRefreshToken rawToken in
    match refresh_tokens s !! hash with
    | None => (Err RefreshTokenInvalid, s)
    | Some r =>
        if r_expiresAt r <=? UnixNano (d_now d) then
          (Err RefreshTokenInvalid,
           if d_fault d 2 || d_fault d 3 then s else with_table (delete hash (refresh_tokens s)) s)
        else if r_consumed r then
          if d_fault d 2 || d_fault d 3 then (Err StoreFailed, s)
          else (Err RefreshTokenReuse,
                with_table (filter (λ hr, r_familyID hr.2 ≠ r_familyID r) (refresh_tokens s)) s)
        else if d_fault d 2 then (Err StoreFailed, s)
        else match d_raw d with
             | None => (Err StoreFailed, s)
             | Some raw =>
                 let newExpiresAt := d_now d + ttl (sql_TTL s) in
                 match if d_fault d 3 then None
                       else insert_row (hashRefreshToken raw)
                              (mkRow (r_tenantID r) (r_familyID r) (UnixNano newExpiresAt) false)
                              (<[hash := consume r]> (refresh_tokens s)) with
                 | None => (Err StoreFailed, s)
                 | Some m =>
                     if d_fault d 4 then (Err StoreFailed, s)
                     else (Ok (mkRefreshToken raw (r_tenantID r) newExpiresAt), with_table m s)
                 end
             end
    end.

Definition SQLite_Revoke (d : draw) (rawToken : string) (s : SQLiteRefreshTokenStore)
    : result refresh_error () * SQLiteRefreshTokenStore :=
  if bool_decide (rawToken = "") then (Ok (), s)
  else if d_fault d 0 then (Err StoreFailed, s)
  else (Ok (), with_table (delete (hashRefreshToken rawToken) (refresh_tokens s)) s).

Definition SQLite_RevokeAllForTenant (d : draw) (tenantID : string) (s : SQLiteRefreshTokenStore)
    : result refresh_error () * SQLiteRefreshTokenStore :=
  if bool_decide (tenantID = "") then (Ok (), s)
  else if d_fault d 0 then (Err StoreFailed, s)
  else (Ok (), with_table (filter (λ hr, r_tenantID hr.2 ≠ tenantID) (refresh_tokens s)) s).

(** *** The interface *)

Inductive op := OpIssue (tenantID : string) | OpRotate (rawToken : string) | OpRevoke (rawToken : string)
| OpRevokeAll (tenantID : string).

(** The answer to an operation: a token, or that it is done. *)
Inductive reply := RToken (a : answer) | RDone (a : result refresh_error ()).

(** What an operation may do to the rows. A failure leaves them as they were; an
    expired token is refused whether or not its row could be dropped. *)
Inductive performs (life : Z) (d : draw) (m : rows) : op → reply → rows → Prop :=
| issue_unnamed : performs life d m (OpIssue "") (RToken (Err TenantRequired)) m
| issue_failed t : performs life d m (OpIssue t) (RToken (Err StoreFailed)) m
| issue_done t f raw :
    t ≠ "" → d_family d = Some f → d_raw d = Some raw →
    performs life d m (OpIssue t) (RToken (Ok (mkRefreshToken raw t (d_now d + life))))
      (<[hashRefreshToken raw := mkRow t f (d_now d + life) false]> m)
| rotate_unknown raw :
    raw = "" ∨ m !! hashRefreshToken raw = None → performs life d m (OpRotate raw) (RToken (Err RefreshTokenInvalid)) m
| rotate_expired raw r m' :
    m !! hashRefreshToken raw = Some r → r_expiresAt r ≤ d_now d → m' = m ∨ m' = delete (hashRefreshToken raw) m →
    performs life d m (OpRotate raw) (RToken (Err RefreshTokenInvalid)) m'
| rotate_reuse raw r :
    m !! hashRefreshToken raw = Some r → d_now d < r_expiresAt r → r_consumed r = true →
    performs life d m (OpRotate raw) (RToken (Err RefreshTokenReuse)) (revokeFamilyLocked (r_familyID r) m)
| rotate_failed raw : performs life d m (OpRotate raw) (RToken (Err StoreFailed)) m
| rotate_done raw r raw' :
    raw ≠ "" → m !! hashRefreshToken raw = Some r → d_now d < r_expiresAt r → r_consumed r = false → d_raw d = Some raw' →
    performs life d m (OpRotate raw) (RToken (Ok (mkRefreshToken raw' (r_tenantID r) (d_now d + life))))
      (<[hashRefreshToken raw' := mkRow (r_tenantID r) (r_familyID r) (d_now d + life) false]>
        (<[hashRefreshToken raw := consume r]> m))
| revoke_none : performs life d m (OpRevoke "") (RDone (Ok ())) m
| revoke_failed raw : performs life d m (OpRevoke raw) (RDone (Err StoreFailed)) m
| revoke_done raw : performs life d m (OpRevoke raw) (RDone (Ok ())) (delete (hashRefreshToken raw) m)
| revoke_all_none : performs life d m (OpRevokeAll "") (RDone (Ok ())) m
| revoke_all_failed t : performs life d m (OpRevokeAll t) (RDone (Err StoreFailed)) m
| revoke_all_done t :
    performs life d m (OpRevokeAll t) (RDone (Ok ())) (filter (λ hr, r_tenantID hr.2 ≠ t) m).

End refresh.

(** The interface of the console to its refresh tokens. *)
Class RefreshTokenStore (T : Type) := {
  Issue : draw → string → T → answer * T;
  Rotate : draw → string → T → answer * T;
  Revoke : draw → string → T → result refresh_error () * T;
  RevokeAllForTenant : draw → string → T → result refresh_error () * T
}.

Definition perform {T : Type} `{!RefreshTokenStore T} (o : op) (d : draw) (s : T) : reply * T :=
  match o with
  | OpIssue t => let '(a, s) := Issue d t s in (RToken a, s)
  | OpRotate raw => let '(a, s) := Rotate d raw s in (RToken a, s)
  | OpRevoke raw => let '(a, s) := Revoke d raw s in (RDone a, s)
  | OpRevokeAll t => let '(a, s) := RevokeAllForTenant d t s in (RDone a, s)
  end.

(** What the console relies on: every operation does what [performs] allows, for a
    clock that the store can represent. *)
Class RefreshTokenLaws (T : Type) `{!SigCrypto, !RefreshTokenStore T} := {
  rows_of : T → rows;
  life_of : T → Z;
  clock_ok : T → Z → Prop;
  perform_life o d s : life_of (perform o d s).2 = life_of s;
  perform_clock o d s t : clock_ok (perform o d s).2 t ↔ clock_ok s t;
  perform_law o d s :
    clock_ok s (d_now d) → performs (life_of s) d (rows_of s) o (perform o d s).1 (rows_of (perform o d s).2)
}.

Section instances.
Context `{!SigCrypto}.

#[local] Ltac unfold_store :=
  unfold Memory_Issue, mintLocked, Memory_Rotate, Memory_Revoke, Memory_RevokeAllForTenant,
    SQLite_Issue, SQLite_Rotate, SQLite_Revoke, SQLite_RevokeAllForTenant.

#[local] Ltac by_performs :=
  subst; simpl; unfold Before in *; bool_facts;
  repeat match goal with H : negb _ = _ |- _ => apply (f_equal negb) in H; rewrite negb_involutive in H; simpl in H end;
  bool_facts;
  first [by econstructor; eauto
        | by eapply rotate_expired; [eassumption|lia|tauto]
        | by eapply rotate_reuse; [eassumption|lia|done]
        | by eapply rotate_done; [done|eassumption|lia|done|done]].

#[export] Instance Memory_store : RefreshTokenStore MemoryRefreshTokenStore :=
  {| Issue := Memory_Issue; Rotate := Memory_Rotate; Revoke := Memory_Revoke;
     RevokeAllForTenant := Memory_RevokeAllForTenant |}.

#[export] Instance SQLite_store : RefreshTokenStore SQLiteRefreshTokenStore :=
  {| Issue := SQLite_Issue; Rotate := SQLite_Rotate; Revoke := SQLite_Revoke;
     RevokeAllForTenant := SQLite_RevokeAllForTenant |}.

#[export] Program Instance Memory_laws : RefreshTokenLaws MemoryRefreshTokenStore :=
  {| rows_of := mem_rows; life_of := λ s, ttl (mem_TTL s); clock_ok := λ _ _, True |}.
Next Obligation. intros [t|raw|raw|t] d s; simpl; unfold_store; branches; done. Qed.
Next Obligation. done. Qed.
Next Obligation. intros [t|raw|raw|t] d s _; simpl; unfold_store; branches; by_performs. Qed.

(** The table keeps an int64 of nanoseconds: the clock must be within its range
    for the lifetime of a token. *)
#[export] Program Instance SQLite_laws : RefreshTokenLaws SQLiteRefreshTokenStore :=
  {| rows_of := refresh_tokens; life_of := λ s, ttl (sql_TTL s);
     clock_ok := λ s t, is_int64 t ∧ is_int64 (t + ttl (sql_TTL s)) |}.
Next Obligation. intros [t|raw|raw|t] d s; simpl; unfold_store; branches; done. Qed.
Next Obligation. intros [t|raw|raw|t] d s c; simpl; unfold_store; branches; done. Qed.
Next Obligation.
  intros [t|raw|raw|t] d s [Hn Hl]; simpl; unfold_store; unfold UnixNano, insert_row; rewrite ?(wrap64_id _ Hn), ?(wrap64_id _ Hl);
    branches; by_performs.
Qed.

End instances.
End Refresh.

(** ** Second factors *)

Module Mfa.

Record MFARecord := mkMFARecord { Secret : string; Active : bool; LastStep : Z; RecoveryRemaining : Z }.

Inductive mfa_error := FieldsRequired | NotEnrolled | AlreadyActive | MFAFailed.

Record memoryMFARow := mkMFARow {
  mf_secret : string;
  mf_active : bool;
  mf_lastStep : Z;
  mf_recovery : gset string                        (* unused recovery-code hashes *)
}.

Abbreviation enrollments := (gmap string memoryMFARow).

Definition pending (secret : string) : memoryMFARow := mkMFARow secret false 0 ∅.
Definition activated (firstStep : Z) (hashes : list string) (r : memoryMFARow) : memoryMFARow :=
  mkMFARow (mf_secret r) true firstStep (list_to_set hashes).
Definition stepped (step : Z) (r : memoryMFARow) : memoryMFARow :=
  mkMFARow (mf_secret r) (mf_active r) step (mf_recovery r).
Definition spent (codeHash : string) (r : memoryMFARow) : memoryMFARow :=
  mkMFARow (mf_secret r) (mf_active r) (mf_lastStep r) (mf_recovery r ∖ {[codeHash]}).
Definition record_of (r : memoryMFARow) : MFARecord :=
  mkMFARecord (mf_secret r) (mf_active r) (mf_lastStep r) (Z.of_nat (size (mf_recovery r))).

(** *** In memory *)

Definition Memory_BeginEnrollment (d : draw) (tenantID secret : string) (s : enrollments) : result mfa_error () * enrollments :=
  if bool_decide (tenantID = "") || bool_decide (secret = "") then (Err FieldsRequired, s)
  else match s !! tenantID with
       | Some r => if mf_active r then (Err AlreadyActive, s) else (Ok (), <[tenantID := pending secret]> s)
       | None => (Ok (), <[tenantID := pending secret]> s)
       end.

Definition Memory_GetMFA (d : draw) (tenantID : string) (s : enrollments) : result mfa_error (option MFARecord) :=
  Ok (record_of <$> s !! tenantID).

Definition Memory_Activate (d : draw) (tenantID expectedSecret : string) (firstStep : Z) (recoveryHashes : list string)
    (s : enrollments) : result mfa_error () * enrollments :=
  match s !! tenantID with
  | None => (Err NotEnrolled, s)
  | Some r =>
      if mf_active r then (Err NotEnrolled, s)
      else if negb (bool_decide (mf_secret r = expectedSecret)) then (Err NotEnrolled, s)
      else (Ok (), <[tenantID := activated firstStep recoveryHashes r]> s)
  end.

Definition Memory_MarkTOTPStep (d : draw) (tenantID : string) (step : Z) (s : enrollments) : result mfa_error bool * enrollments :=
  match s !! tenantID with
  | None => (Ok false, s)
  | Some r =>
      if negb (mf_active r) then (Ok false, s)
      else if step <=? mf_lastStep r then (Ok false, s)
      else (Ok true, <[tenantID := stepped step r]> s)
  end.

Definition Memory_ConsumeRecoveryCode (d : draw) (tenantID codeHash : string) (s : enrollments)
    : result mfa_error bool * enrollments :=
  match s !! tenantID with
  | None => (Ok false, s)
  | Some r =>
      if negb (mf_active r) then (Ok false, s)
      else if bool_decide (codeHash ∈ mf_recovery r) then (Ok true, <[tenantID := spent codeHash r]> s)
      else (Ok false, s)
  end.

Definition Memory_Disable (d : draw) (tenantID : string) (s : enrollments) : result mfa_error () * enrollments :=
  (Ok (), delete tenantID s).

Definition Memory_DisablePending (d : draw) (tenantID : string) (s : enrollments) : result mfa_error bool * enrollments :=
  match s !! tenantID with
  | None => (Ok false, s)
  | Some r => if mf_active r then (Ok false, s) else (Ok true, delete tenantID s)
  end.

(** *** In SQLite *)

(** Sealing of the secret at rest: [rnd] is the nonce, or the failure to draw one. *)
Class SecretSealer := {
  Seal : option string → string → string → option string;      (* nonce, plaintext, tenant *)
  Open : string → string → option string;                      (* stored, tenant *)
  Open_Seal rnd p t c : Seal rnd p t = Some c → Open c t = Some p
}.

Record credential := mkCredential { c_secret : string; c_active : bool; c_last_step : Z }.

(** [mfa_credentials] by its key, and [mfa_recovery_codes]. *)
Record SQLiteMFAStore := mkSQLiteMFA {
  mfa_credentials : gmap string credential;
  mfa_recovery_codes : gset (string * string)
}.

Section sqlite.
Context (sealer : option SecretSealer).

Definition sealSecretWith (d : draw) (plaintext tenantID : string) : option string :=
  match sealer with None => Some plaintext | Some sl => @Seal sl (d_raw d) plaintext tenantID end.
Definition openSecretWith (stored tenantID : string) : option string :=
  match sealer with None => Some stored | Some sl => @Open sl stored tenantID end.

Definition codes_of (tenantID : string) (cs : gset (string * string)) : gset (string * string) :=
  filter (λ th, th.1 = tenantID) cs.
(** [DELETE FROM mfa_recovery_codes WHERE tenant_id = ?] *)
Definition clear_codes (tenantID : string) (cs : gset (string * string)) : gset (string * string) :=
  filter (λ th, th.1 ≠ tenantID) cs.

(** Whether one of the statements [lo], ..., [lo + n - 1] fails. *)
Definition fails (d : draw) (lo n : nat) : bool := existsb (d_fault d) (seq lo n).

(** Statements: begin, select, upsert, delete, commit. *)
Definition SQLite_BeginEnrollment (d : draw) (tenantID secret : string) (s : SQLiteMFAStore) : result mfa_error () * SQLiteMFAStore :=
  if bool_decide (tenantID = "") || bool_decide (secret = "") then (Err FieldsRequired, s)
  else match sealSecretWith d secret tenantID with
  | None => (Err MFAFailed, s)
  | Some stored =>
      if fails d 0 2 then (Err MFAFailed, s)
      else
        let write :=
          if fails d 2 3 then (Err MFAFailed, s)
          else (Ok (), mkSQLiteMFA (<[tenantID := mkCredential stored false 0]> (mfa_credentials s))
                         (clear_codes tenantID (mfa_recovery_codes s))) in
        match mfa_credentials s !! tenantID with
        | Some c => if c_active c then (Err AlreadyActive, s) else write
        | None => write
        end
  end.

Definition SQLite_GetMFA (d : draw) (tenantID : string) (s : SQLiteMFAStore) : result mfa_error (option MFARecord) :=
  if d_fault d 0 then Err MFAFailed
  else match mfa_credentials s !! tenantID with
       | None => Ok None
       | Some c =>
           match openSecretWith (c_secret c) tenantID with
           | None => Err MFAFailed
           | Some secret =>
               if d_fault d 1 then Err MFAFailed
               else Ok (Some (mkMFARecord secret (c_active c) (c_last_step c)
                                (Z.of_nat (size (codes_of tenantID (mfa_recovery_codes s))))))
           end
       end.

(** Insert the codes one by one; a code that is there breaks the primary key. *)
Fixpoint insert_codes (d : draw) (n : nat) (tenantID : string) (hashes : list string) (cs : gset (string * string))
    : option (gset (string * string)) :=
  match hashes with
  | [] => Some cs
  | h :: hashes =>
      if d_fault d n || bool_decide ((tenantID, h) ∈ cs) then None
      else insert_codes d (S n) tenantID hashes ({[(tenantID, h)]} ∪ cs)
  end.

(** Statements: begin, select, update, its row count, delete, the inserts, commit. *)
Definition SQLite_Activate (d : draw) (tenantID expectedSecret : string) (firstStep : Z) (recoveryHashes : list string)
    (s : SQLiteMFAStore) : result mfa_error () * SQLiteMFAStore :=
  if fails d 0 2 then (Err MFAFailed, s)
  else match mfa_credentials s !! tenantID with
  | None => (Err NotEnrolled, s)
  | Some c =>
      if c_active c then (Err NotEnrolled, s)
      else match openSecretWith (c_secret c) tenantID with
      | None => (Err MFAFailed, s)
      | Some opened =>
          if negb (bool_decide (opened = expectedSecret)) then (Err NotEnrolled, s)
          else if fails d 2 3 then (Err MFAFailed, s)
          else match insert_codes d 5 tenantID recoveryHashes (clear_codes tenantID (mfa_recovery_codes s)) with
          | None => (Err MFAFailed, s)
          | Some cs =>
              if d_fault d (5 + length recoveryHashes) then (Err MFAFailed, s)
              else (Ok (), mkSQLiteMFA (<[tenantID := mkCredential (c_secret c) true firstStep]> (mfa_credentials s)) cs)
          end
      end
  end.

(** The update, outside a transaction; its row count may fail after it. *)
Definition SQLite_MarkTOTPStep (d : draw) (tenantID : string) (step : Z) (s : SQLiteMFAStore) : result mfa_error bool * SQLiteMFAStore :=
  if d_fault d 0 then (Err MFAFailed, s)
  else
    let '(n, s') :=
      match mfa_credentials s !! tenantID with
      | Some c =>
          if c_active c && (c_last_step c <? step)
          then (1%nat, mkSQLiteMFA (<[tenantID := mkCredential (c_secret c) (c_active c) step]> (mfa_credentials s))
                         (mfa_recovery_codes s))
          else (0%nat, s)
      | None => (0%nat, s)
      end in
    (if d_fault d 1 then Err MFAFailed else Ok (Nat.eqb n 1), s').

Definition SQLite_ConsumeRecoveryCode (d : draw) (tenantID codeHash : string) (s : SQLiteMFAStore)
    : result mfa_error bool * SQLiteMFAStore :=
  if bool_decide (codeHash = "") then (Ok false, s)
  else if d_fault d 0 then (Err MFAFailed, s)
  else
    let there := bool_decide ((tenantID, codeHash) ∈ mfa_recovery_codes s) &&
      match mfa_credentials s !! tenantID with Some c => c_active c | None => false end in
    (if d_fault d 1 then Err MFAFailed else Ok there,
     if there then mkSQLiteMFA (mfa_credentials s) (mfa_recovery_codes s ∖ {[(tenantID, codeHash)]}) else s).

(** Statements: begin, delete codes, delete credentials, commit. *)
Definition SQLite_Disable (d : draw) (tenantID : string) (s : SQLiteMFAStore) : result mfa_error () * SQLiteMFAStore :=
  if fails d 0 4 then (Err MFAFailed, s)
  else (Ok (), mkSQLiteMFA (delete tenantID (mfa_credentials s)) (clear_codes tenantID (mfa_recovery_codes s))).

(** Statements: begin, delete, its row count, delete codes, commit. *)
Definition SQLite_DisablePending (d : draw) (tenantID : string) (s : SQLiteMFAStore) : result mfa_error bool * SQLiteMFAStore :=
  if fails d 0 3 then (Err MFAFailed, s)
  else match mfa_credentials s !! tenantID with
  | Some c =>
      if c_active c then (Ok false, s)
      else if fails d 3 2 then (Err MFAFailed, s)
      else (Ok true, mkSQLiteMFA (delete tenantID (mfa_credentials s)) (clear_codes tenantID (mfa_recovery_codes s)))
  | None => (Ok false, s)
  end.

End sqlite.

(** *** The interface *)

Inductive op :=
| OpBegin (tenantID secret : string) | OpGet (tenantID : string)
| OpActivate (tenantID expectedSecret : string) (firstStep : Z) (recoveryHashes : list string)
| OpMark (tenantID : string) (step : Z) | OpConsume (tenantID codeHash : string)
| OpDisable (tenantID : string) | OpDisablePending (tenantID : string).

Inductive reply :=
| RUnit (a : result mfa_error ()) | RBool (a : result mfa_error bool) | RRecord (a : result mfa_error (option MFARecord)).

(** What an operation may do to the enrollments. A failure leaves them as they
    were, but for the two single statements, which may have taken effect. *)
Inductive performs (m : enrollments) : op → reply → enrollments → Prop :=
| begin_refused t s e : e = FieldsRequired ∨ e = MFAFailed → performs m (OpBegin t s) (RUnit (Err e)) m
| begin_active t s r : m !! t = Some r → mf_active r = true → performs m (OpBegin t s) (RUnit (Err AlreadyActive)) m
| begin_done t s :
    (∀ r, m !! t = Some r → mf_active r = false) → performs m (OpBegin t s) (RUnit (Ok ())) (<[t := pending s]> m)
| get_failed t : performs m (OpGet t) (RRecord (Err MFAFailed)) m
| get_done t : performs m (OpGet t) (RRecord (Ok (record_of <$> m !! t))) m
| activate_refused t e st hs :
    (∀ r, m !! t = Some r → mf_active r = true ∨ mf_secret r ≠ e) →
    performs m (OpActivate t e st hs) (RUnit (Err NotEnrolled)) m
| activate_failed t e st hs : performs m (OpActivate t e st hs) (RUnit (Err MFAFailed)) m
| activate_done t e st hs r :
    m !! t = Some r → mf_active r = false → mf_secret r = e →
    performs m (OpActivate t e st hs) (RUnit (Ok ())) (<[t := activated st hs r]> m)
| mark_refused t st :
    (∀ r, m !! t = Some r → mf_active r = false ∨ st ≤ mf_lastStep r) → performs m (OpMark t st) (RBool (Ok false)) m
| mark_failed t st : performs m (OpMark t st) (RBool (Err MFAFailed)) m
| mark_done t st r a :
    m !! t = Some r → mf_active r = true → mf_lastStep r < st → a = Ok true ∨ a = Err MFAFailed →
    performs m (OpMark t st) (RBool a) (<[t := stepped st r]> m)
| consume_refused t h :
    h = "" ∨ (∀ r, m !! t = Some r → mf_active r = false ∨ h ∉ mf_recovery r) →
    performs m (OpConsume t h) (RBool (Ok false)) m
| consume_failed t h : performs m (OpConsume t h) (RBool (Err MFAFailed)) m
| consume_done t h r a :
    m !! t = Some r → mf_active r = true → h ∈ mf_recovery r → a = Ok true ∨ a = Err MFAFailed →
    performs m (OpConsume t h) (RBool a) (<[t := spent h r]> m)
| disable_failed t : performs m (OpDisable t) (RUnit (Err MFAFailed)) m
| disable_done t : performs m (OpDisable t) (RUnit (Ok ())) (delete t m)
| disable_pending_refused t :
    (∀ r, m !! t = Some r → mf_active r = true) → performs m (OpDisablePending t) (RBool (Ok false)) m
| disable_pending_failed t : performs m (OpDisablePending t) (RBool (Err MFAFailed)) m
| disable_pending_done t r :
    m !! t = Some r → mf_active r = false → performs m (OpDisablePending t) (RBool (Ok true)) (delete t m).

(** The interface of the console to the second factors. *)
Class MFAStore (T : Type) := {
  BeginEnrollment : draw → string → string → T → result mfa_error () * T;
  GetMFA : draw → string → T → result mfa_error (option MFARecord);
  Activate : draw → string → string → Z → list string → T → result mfa_error () * T;
  MarkTOTPStep : draw → string → Z → T → result mfa_error bool * T;
  ConsumeRecoveryCode : draw → string → string → T → result mfa_error bool * T;
  Disable : draw → string → T → result mfa_error () * T;
  DisablePending : draw → string → T → result mfa_error bool * T
}.

Definition perform {T : Type} `{!MFAStore T} (o : op) (d : draw) (s : T) : reply * T :=
  match o with
  | OpBegin t x => let '(a, s) := BeginEnrollment d t x s in (RUnit a, s)
  | OpGet t => (RRecord (GetMFA d t s), s)
  | OpActivate t e st hs => let '(a, s) := Activate d t e st hs s in (RUnit a, s)
  | OpMark t st => let '(a, s) := MarkTOTPStep d t st s in (RBool a, s)
  | OpConsume t h => let '(a, s) := ConsumeRecoveryCode d t h s in (RBool a, s)
  | OpDisable t => let '(a, s) := Disable d t s in (RUnit a, s)
  | OpDisablePending t => let '(a, s) := DisablePending d t s in (RBool a, s)
  end.

Class MFALaws (T : Type) `{!MFAStore T} := {
  enrollments_of : T → enrollments;
  mfa_ok : T → Prop;
  perform_ok o d s : mfa_ok s → mfa_ok (perform o d s).2;
  perform_enrollments o d s :
    mfa_ok s → performs (enrollments_of s) o (perform o d s).1 (enrollments_of (perform o d s).2)
}.

#[export] Instance Memory_mfa : MFAStore enrollments :=
  {| BeginEnrollment := Memory_BeginEnrollment; GetMFA := Memory_GetMFA; Activate := Memory_Activate;
     MarkTOTPStep := Memory_MarkTOTPStep; ConsumeRecoveryCode := Memory_ConsumeRecoveryCode;
     Disable := Memory_Disable; DisablePending := Memory_DisablePending |}.

#[export] Program Instance Memory_mfa_laws : MFALaws enrollments :=
  {| enrollments_of := λ s, s; mfa_ok := λ _, True |}.
Next Obligation. done. Qed.
Next Obligation.
  intros [t x|t|t e st hs|t st|t h|t|t] d s _; simpl;
    unfold Memory_BeginEnrollment, Memory_GetMFA, Memory_Activate, Memory_MarkTOTPStep, Memory_ConsumeRecoveryCode,
      Memory_Disable, Memory_DisablePending;
    branches;
    repeat match goal with H : negb _ = _ |- _ => apply (f_equal negb) in H; rewrite negb_involutive in H; simpl in H end;
    bool_facts; try case_match; simplify_eq/=;
    first [by econstructor; eauto; naive_solver | constructor; naive_solver].
Qed.

End Mfa.
