(* ===== verification/MfaSqlite.v ===== *)
(** * The SQLite store of second factors keeps its promises

    The two tables of [SQLiteMFAStore] as enrollments: the secret is what opens the
    sealed column, the unused recovery codes are the rows of the tenant in the
    second table. With that reading the store satisfies the laws of [MFAStore]. *)

From S2P Require Import Prelude Bytes GoStrings Tenants SigV4 Totp ConsoleStores.
Import Mfa.
Local Open Scope Z_scope.

Section sqlite_laws.
Context (sealer : option SecretSealer).

#[local] Instance SQLite_mfa : MFAStore SQLiteMFAStore :=
  {| BeginEnrollment := SQLite_BeginEnrollment sealer; GetMFA := SQLite_GetMFA sealer; Activate := SQLite_Activate sealer;
     MarkTOTPStep := SQLite_MarkTOTPStep; ConsumeRecoveryCode := SQLite_ConsumeRecoveryCode;
     Disable := SQLite_Disable; DisablePending := SQLite_DisablePending |}.

Definition unused (tenantID : string) (cs : gset (string * string)) : gset string := set_map snd (codes_of tenantID cs).

Definition enrollment (cs : gset (string * string)) (tenantID : string) (c : credential) : memoryMFARow :=
  mkMFARow (default "" (openSecretWith sealer (c_secret c) tenantID)) (c_active c) (c_last_step c) (unused tenantID cs).

Definition tables (s : SQLiteMFAStore) : enrollments :=
  map_imap (λ t c, Some (enrollment (mfa_recovery_codes s) t c)) (mfa_credentials s).

Definition secrets_open (s : SQLiteMFAStore) : Prop :=
  map_Forall (λ t c, is_Some (openSecretWith sealer (c_secret c) t)) (mfa_credentials s).

Lemma tables_lookup s t : tables s !! t = enrollment (mfa_recovery_codes s) t <$> mfa_credentials s !! t.
Proof. unfold tables. rewrite map_lookup_imap. by destruct (mfa_credentials s !! t). Qed.

Lemma elem_unused t h cs : h ∈ unused t cs ↔ (t, h) ∈ cs.
Proof.
  unfold unused, codes_of. rewrite elem_of_map. split.
  - intros ([t' h'] & -> & [Ht Hin]%elem_of_filter). simpl in *. by subst.
  - intros Hin. exists (t, h). split; [done|]. by apply elem_of_filter.
Qed.

Lemma unused_other t' cs cs' : (∀ h, (t', h) ∈ cs' ↔ (t', h) ∈ cs) → unused t' cs' = unused t' cs.
Proof. intros H. apply set_eq. intros h. rewrite !elem_unused. apply H. Qed.

Lemma clear_codes_other t t' cs : t ≠ t' → unused t' (clear_codes t cs) = unused t' cs.
Proof.
  intros Hne. apply unused_other. intros h. unfold clear_codes. rewrite elem_of_filter. simpl. naive_solver.
Qed.

Lemma clear_codes_own t cs : unused t (clear_codes t cs) = ∅.
Proof. apply set_eq. intros h. rewrite elem_unused. unfold clear_codes. rewrite elem_of_filter. set_solver. Qed.

Lemma size_unused t cs : size (unused t cs) = size (codes_of t cs).
Proof.
  unfold unused, set_map. rewrite size_list_to_set; [by rewrite length_fmap|].
  apply NoDup_fmap_2_strong, NoDup_elements. intros [t1 h1] [t2 h2].
  rewrite !elem_of_elements. unfold codes_of. rewrite !elem_of_filter. simpl. naive_solver.
Qed.

(** One row written, the codes of the other tenants kept. *)
Lemma tables_insert s t c cs r :
  (∀ t', t' ≠ t → unused t' cs = unused t' (mfa_recovery_codes s)) → enrollment cs t c = r →
  tables (mkSQLiteMFA (<[t := c]> (mfa_credentials s)) cs) = <[t := r]> (tables s).
Proof.
  intros Hcs <-. apply map_eq. intros t'. rewrite tables_lookup. simpl. destruct (decide (t' = t)) as [->|Hne].
  - by rewrite !lookup_insert_eq.
  - rewrite !lookup_insert_ne, tables_lookup by done. destruct (mfa_credentials s !! t'); [|done]. simpl.
    unfold enrollment. by rewrite Hcs.
Qed.

Lemma tables_delete s t cs :
  (∀ t', t' ≠ t → unused t' cs = unused t' (mfa_recovery_codes s)) →
  tables (mkSQLiteMFA (delete t (mfa_credentials s)) cs) = delete t (tables s).
Proof.
  intros Hcs. apply map_eq. intros t'. rewrite tables_lookup. simpl. destruct (decide (t' = t)) as [->|Hne].
  - by rewrite !lookup_delete_eq.
  - rewrite !lookup_delete_ne, tables_lookup by done. destruct (mfa_credentials s !! t'); [|done]. simpl.
    unfold enrollment. by rewrite Hcs.
Qed.

Lemma insert_codes_spec d n t hs cs cs' :
  insert_codes d n t hs cs = Some cs' → ∀ t' h, (t', h) ∈ cs' ↔ (t', h) ∈ cs ∨ t' = t ∧ h ∈ hs.
Proof.
  revert n cs. induction hs as [|h0 hs IH]; intros n cs; simpl.
  - intros [= <-] t' h. set_solver.
  - destruct (d_fault d n || _); [done|]. intros Hi t' h. rewrite (IH _ _ Hi). set_solver.
Qed.

Lemma seal_opens d p t c : sealSecretWith sealer d p t = Some c → openSecretWith sealer c t = Some p.
Proof. unfold sealSecretWith, openSecretWith. destruct sealer; [apply Open_Seal|by intros [= ->]]. Qed.

(** What a row of the table says of the enrollment. *)
Lemma tables_active s t c : mfa_credentials s !! t = Some c →
  ∃ r, tables s !! t = Some r ∧ mf_active r = c_active c ∧ mf_lastStep r = c_last_step c ∧
    mf_recovery r = unused t (mfa_recovery_codes s) ∧ mf_secret r = default "" (openSecretWith sealer (c_secret c) t).
Proof. intros Hc. exists (enrollment (mfa_recovery_codes s) t c). by rewrite tables_lookup, Hc. Qed.

Lemma tables_none s t : mfa_credentials s !! t = None → tables s !! t = None.
Proof. intros Hc. by rewrite tables_lookup, Hc. Qed.

Lemma begin_law t x d s :
  performs (tables s) (OpBegin t x) (perform (OpBegin t x) d s).1 (tables (perform (OpBegin t x) d s).2).
Proof.
  simpl. unfold SQLite_BeginEnrollment. destruct (bool_decide (t = "") || _); [constructor; tauto|].
  destruct (sealSecretWith sealer d x t) as [stored|] eqn:Hseal; [|constructor; tauto].
  destruct (fails d 0 2); [constructor; tauto|].
  assert (tables (mkSQLiteMFA (<[t := mkCredential stored false 0]> (mfa_credentials s)) (clear_codes t (mfa_recovery_codes s)))
    = <[t := pending x]> (tables s)) as Hw.
  { apply tables_insert; [intros; by apply clear_codes_other|]. unfold enrollment, pending. simpl.
    by rewrite (seal_opens _ _ _ _ Hseal), clear_codes_own. }
  destruct (mfa_credentials s !! t) as [c|] eqn:Hc.
  - destruct (tables_active s t c Hc) as (r & Hr & Ha & _). destruct (c_active c).
    + by apply (begin_active _ _ _ r).
    + destruct (fails d 2 3); [constructor; tauto|]. simpl. rewrite Hw. constructor. congruence.
  - apply tables_none in Hc. destruct (fails d 2 3); [constructor; tauto|]. simpl. rewrite Hw. constructor. congruence.
Qed.

Lemma get_law t d s :
  secrets_open s → performs (tables s) (OpGet t) (perform (OpGet t) d s).1 (tables (perform (OpGet t) d s).2).
Proof.
  intros Hok. simpl. unfold SQLite_GetMFA. destruct (d_fault d 0); [constructor|].
  destruct (mfa_credentials s !! t) as [c|] eqn:Hc.
  - destruct (Hok t c Hc) as [p Hp]. rewrite Hp. destruct (d_fault d 1); [constructor|].
    replace (mkMFARecord _ _ _ _) with (record_of (enrollment (mfa_recovery_codes s) t c)).
    + replace (Some (record_of (enrollment (mfa_recovery_codes s) t c))) with (record_of <$> tables s !! t)
        by by rewrite tables_lookup, Hc. constructor.
    + unfold record_of, enrollment. simpl. by rewrite Hp, size_unused.
  - replace None with (record_of <$> tables s !! t) by by rewrite tables_lookup, Hc. constructor.
Qed.

Lemma activate_law t e st hs d s :
  secrets_open s → performs (tables s) (OpActivate t e st hs) (perform (OpActivate t e st hs) d s).1
    (tables (perform (OpActivate t e st hs) d s).2).
Proof.
  intros Hok. simpl. unfold SQLite_Activate. destruct (fails d 0 2); [constructor|].
  destruct (mfa_credentials s !! t) as [c|] eqn:Hc; [|simpl; constructor; apply tables_none in Hc; congruence].
  destruct (tables_active s t c Hc) as (r & Hr & Ha & _ & _ & Hs). destruct (Hok t c Hc) as [p Hp]. rewrite Hp in Hs |- *.
  destruct (c_active c); [constructor; naive_solver|]. case_bool_decide as He; simpl; [|constructor; naive_solver].
  destruct (fails d 2 3); [constructor|].
  destruct (insert_codes d 5 t hs _) as [cs|] eqn:Hi; [|constructor]. destruct (d_fault d _); [constructor|].
  simpl. rewrite (tables_insert _ _ _ _ (activated st hs r)); [apply activate_done; simpl in Hs; congruence|..].
  - intros t' Hne. rewrite <- (clear_codes_other t t' (mfa_recovery_codes s)) by done.
    apply unused_other. intros h. rewrite (insert_codes_spec _ _ _ _ _ _ Hi). naive_solver.
  - unfold enrollment, activated. simpl. rewrite Hp. simpl in *. f_equal; [done|].
    apply set_eq. intros h. rewrite elem_unused, (insert_codes_spec _ _ _ _ _ _ Hi), elem_of_list_to_set.
    rewrite <- elem_unused, clear_codes_own. set_solver.
Qed.

Lemma mark_law t st d s :
  performs (tables s) (OpMark t st) (perform (OpMark t st) d s).1 (tables (perform (OpMark t st) d s).2).
Proof.
  simpl. unfold SQLite_MarkTOTPStep. destruct (d_fault d 0); [constructor|].
  destruct (mfa_credentials s !! t) as [c|] eqn:Hc.
  - destruct (tables_active s t c Hc) as (r & Hr & Ha & Hl & Hrec & Hs).
    destruct (c_active c) eqn:Hact; simpl; [destruct (Z.ltb_spec (c_last_step c) st)|].
    + simpl. rewrite (tables_insert _ _ _ _ (stepped st r)); [|done|].
      * apply (mark_done _ _ _ r); [done|done|lia|]. destruct (d_fault d 1); tauto.
      * unfold enrollment, stepped. simpl. by rewrite Ha, Hrec, Hs.
    + destruct (d_fault d 1); simpl; constructor. intros r' Hr'. right. assert (r' = r) as -> by congruence. lia.
    + destruct (d_fault d 1); simpl; constructor. intros r' Hr'. left. congruence.
  - apply tables_none in Hc. destruct (d_fault d 1); simpl; constructor. congruence.
Qed.

Lemma consume_law t h d s :
  performs (tables s) (OpConsume t h) (perform (OpConsume t h) d s).1 (tables (perform (OpConsume t h) d s).2).
Proof.
  simpl. unfold SQLite_ConsumeRecoveryCode. case_bool_decide as Hh; [constructor; by left|].
  destruct (d_fault d 0); [constructor|].
  destruct (mfa_credentials s !! t) as [c|] eqn:Hc.
  - destruct (tables_active s t c Hc) as (r & Hr & Ha & Hl & Hrec & Hs).
    case_bool_decide as Hin; simpl; [destruct (c_active c) eqn:Hact|].
    + assert (tables (mkSQLiteMFA (mfa_credentials s) (mfa_recovery_codes s ∖ {[(t, h)]})) = <[t := spent h r]> (tables s)) as ->.
      { rewrite <- (insert_id (mfa_credentials s) t c) at 1 by done. apply tables_insert.
        - intros t' Hne. apply unused_other. set_solver.
        - unfold enrollment, spent. simpl. rewrite Ha, Hl, Hrec, Hs, Hact. f_equal. apply set_eq. intros h'.
          rewrite elem_of_difference, !elem_unused. set_solver. }
      apply (consume_done _ _ _ r); [done|done|by rewrite Hrec, elem_unused|]. destruct (d_fault d 1); tauto.
    + destruct (d_fault d 1); simpl; constructor. right. intros r' Hr'. left. congruence.
    + destruct (d_fault d 1); simpl; constructor. right. intros r' Hr'. right. simplify_eq. by rewrite Hrec, elem_unused.
  - apply tables_none in Hc. rewrite andb_false_r. destruct (d_fault d 1); simpl; constructor. right. congruence.
Qed.

Lemma disable_law t d s :
  performs (tables s) (OpDisable t) (perform (OpDisable t) d s).1 (tables (perform (OpDisable t) d s).2).
Proof.
  simpl. unfold SQLite_Disable. destruct (fails d 0 4); [constructor|]. simpl.
  rewrite tables_delete; [constructor|]. intros t' Hne. by apply clear_codes_other.
Qed.

Lemma disable_pending_law t d s :
  performs (tables s) (OpDisablePending t) (perform (OpDisablePending t) d s).1 (tables (perform (OpDisablePending t) d s).2).
Proof.
  simpl. unfold SQLite_DisablePending. destruct (fails d 0 3); [constructor|].
  destruct (mfa_credentials s !! t) as [c|] eqn:Hc; [|simpl; constructor; apply tables_none in Hc; congruence].
  destruct (tables_active s t c Hc) as (r & Hr & Ha & _). destruct (c_active c); [simpl; constructor; congruence|].
  destruct (fails d 3 2); [constructor|]. simpl. rewrite tables_delete; [by apply (disable_pending_done _ _ r)|].
  intros t' Hne. by apply clear_codes_other.
Qed.

Lemma secrets_stay_open o d s : secrets_open s → secrets_open (perform o d s).2.
Proof.
  intros Hok. destruct o as [t x|t|t e st hs|t st|t h|t|t]; simpl.
  - unfold SQLite_BeginEnrollment. branches; simpl; try done; apply map_Forall_insert_2; try done; simpl;
      erewrite seal_opens by done; by eexists.
  - done.
  - unfold SQLite_Activate. branches; simpl; try done. apply map_Forall_insert_2; [|done]. simpl. by eexists.
  - unfold SQLite_MarkTOTPStep. branches; simpl; try done. apply map_Forall_insert_2; [|done]. simpl. by eapply Hok.
  - unfold SQLite_ConsumeRecoveryCode. branches; done.
  - unfold SQLite_Disable. branches; simpl; [done|]. by apply map_Forall_delete.
  - unfold SQLite_DisablePending. branches; simpl; try done. by apply map_Forall_delete.
Qed.

#[local] Program Instance SQLite_mfa_laws : MFALaws SQLiteMFAStore := {| enrollments_of := tables; mfa_ok := secrets_open |}.
Next Obligation. apply secrets_stay_open. Qed.
Next Obligation.
  intros [t x|t|t e st hs|t st|t h|t|t] d s Hok;
    eauto using begin_law, get_law, activate_law, mark_law, consume_law, disable_law, disable_pending_law.
Qed.

End sqlite_laws.
