(* ===== verification/ConsoleHistory.v ===== *)
(** * Histories of the console's stores

    What holds of refresh tokens and of second factors after any sequence of calls,
    in whatever order the requests of any number of clients make them and whichever
    of them fail. Both are proved from the laws of the interfaces, so they hold for
    the in-memory and for the SQLite stores. *)

From S2P Require Import Prelude Bytes GoStrings Tenants SigV4 Totp ConsoleStores.
Local Open Scope Z_scope.

(** ** Refresh tokens *)

Module RefreshHistory.
Import Refresh.
Section history.
Context {T : Type} `{!SigCrypto, !RefreshTokenStore T, !RefreshTokenLaws T}.

(** What an observer of the answers knows: the session of every token that was
    handed out, the tokens that were exchanged, and the sessions in which a token
    was presented again. *)
Record ghost := mkGhost {
  g_session : gmap string string;
  g_exchanged : gset string;
  g_ended : gset string
}.

Definition observe (o : op) (d : draw) (r : reply) (g : ghost) : ghost :=
  match o, r with
  | OpIssue _, RToken (Ok tok) =>
      mkGhost (<[hashRefreshToken (Raw tok) := default "" (d_family d)]> (g_session g)) (g_exchanged g) (g_ended g)
  | OpRotate raw, RToken (Ok tok) =>
      mkGhost (<[hashRefreshToken (Raw tok) := default "" (g_session g !! hashRefreshToken raw)]> (g_session g))
        ({[hashRefreshToken raw]} ∪ g_exchanged g) (g_ended g)
  | OpRotate raw, RToken (Err RefreshTokenReuse) =>
      mkGhost (g_session g) (g_exchanged g) ({[default "" (g_session g !! hashRefreshToken raw)]} ∪ g_ended g)
  | _, _ => g
  end.

Definition call : Type := op * draw.

Definition step (sg : T * ghost) (c : call) : T * ghost :=
  let '(r, s) := perform c.1 c.2 sg.1 in (s, observe c.1 c.2 r sg.2).

Definition run (s : T) (h : list call) : T * ghost := foldl step (s, mkGhost ∅ ∅ ∅) h.

(** The random bytes a history draws do not repeat. *)
Definition hashes (h : list call) : list string := omap (λ c, hashRefreshToken <$> d_raw c.2) h.
Definition families (h : list call) : list string := omap (λ c, d_family c.2) h.

Record fresh (s : T) (h : list call) : Prop := {
  fresh_empty : rows_of s = ∅;
  fresh_hashes : NoDup (hashes h);
  fresh_families : NoDup (families h);
  fresh_clock : Forall (λ c, clock_ok s (d_now c.2)) h
}.

Record coherent (h : list call) (m : rows) (g : ghost) : Prop := {
  co_rows hash r : m !! hash = Some r → g_session g !! hash = Some (r_familyID r);
  co_session hash f : g_session g !! hash = Some f → hash ∈ hashes h ∧ f ∈ families h;
  co_exchanged hash r : hash ∈ g_exchanged g → m !! hash = Some r → r_consumed r = true;
  co_exchanged_old hash : hash ∈ g_exchanged g → hash ∈ hashes h;
  co_ended f hash r : f ∈ g_ended g → m !! hash = Some r → r_familyID r ≠ f;
  co_ended_old f : f ∈ g_ended g → f ∈ families h;
  co_live h1 h2 r1 r2 :
    m !! h1 = Some r1 → m !! h2 = Some r2 → r_familyID r1 = r_familyID r2 → r_consumed r1 = false → r_consumed r2 = false → h1 = h2
}.

Lemma hashes_snoc h c : hashes (h ++ [c]) = hashes h ++ option_list (hashRefreshToken <$> d_raw c.2).
Proof. unfold hashes. rewrite omap_app. simpl. by destruct (d_raw c.2). Qed.

Lemma families_snoc h c : families (h ++ [c]) = families h ++ option_list (d_family c.2).
Proof. unfold families. rewrite omap_app. simpl. by destruct (d_family c.2). Qed.

(** Fewer rows, and the same knowledge. *)
Lemma coherent_weaken h c m m' g : coherent h m g → m' ⊆ m → coherent (h ++ [c]) m' g.
Proof.
  intros [C1 C2 C3 C4 C5 C6 C7] Hm. rewrite map_subseteq_spec in Hm.
  split; rewrite ?hashes_snoc, ?families_snoc; intros; rewrite ?elem_of_app; naive_solver.
Qed.

(** A new token of a session none of whose other tokens is live. *)
Lemma coherent_insert h c m g raw t f exp :
  d_raw c.2 = Some raw → hashRefreshToken raw ∉ hashes h → f ∈ families (h ++ [c]) → f ∉ g_ended g →
  coherent h m g → (∀ hash r, m !! hash = Some r → r_familyID r = f → r_consumed r = true) →
  coherent (h ++ [c]) (<[hashRefreshToken raw := mkRow t f exp false]> m)
    (mkGhost (<[hashRefreshToken raw := f]> (g_session g)) (g_exchanged g) (g_ended g)).
Proof.
  intros Hraw Hnew Hf Hend [C1 C2 C3 C4 C5 C6 C7] Hspent.
  assert (hashes (h ++ [c]) = hashes h ++ [hashRefreshToken raw]) as Hh by (rewrite hashes_snoc, Hraw; done).
  assert (∀ x, x ∈ families h → x ∈ families (h ++ [c])) as Hfam by (intros x; rewrite families_snoc, elem_of_app; auto).
  split; simpl; rewrite ?Hh.
  - intros hash r [[<- <-]|[Hne Hr]]%lookup_insert_Some; [by rewrite lookup_insert_eq|].
    rewrite lookup_insert_ne by done. by apply C1.
  - intros hash f' [[<- <-]|[Hne Hr]]%lookup_insert_Some; rewrite elem_of_app, list_elem_of_singleton; [auto|].
    apply C2 in Hr as [? ?]. auto.
  - intros hash r Hx [[<- <-]|[Hne Hr]]%lookup_insert_Some; [|by eapply C3]. by apply C4 in Hx.
  - intros hash Hx. rewrite elem_of_app. auto.
  - intros f' hash r Hx [[<- <-]|[Hne Hr]]%lookup_insert_Some; [simpl; congruence|by eapply C5].
  - auto.
  - intros h1 h2 r1 r2 [[<- <-]|[Hne1 Hr1]]%lookup_insert_Some [[<- <-]|[Hne2 Hr2]]%lookup_insert_Some; simpl;
      [done|intros Hf' _ Hc; by rewrite (Hspent _ _ Hr2) in Hc|intros Hf' Hc; by rewrite (Hspent _ _ Hr1) in Hc|by eapply C7].
Qed.

(** A token that is exchanged is consumed. *)
Lemma coherent_consume h m g hash r :
  m !! hash = Some r → coherent h m g →
  coherent h (<[hash := consume r]> m) (mkGhost (g_session g) ({[hash]} ∪ g_exchanged g) (g_ended g)).
Proof.
  intros Hr [C1 C2 C3 C4 C5 C6 C7]. split; simpl.
  - intros hash' r' [[<- <-]|[_ Hr']]%lookup_insert_Some; [|by apply C1]. by apply C1 in Hr.
  - done.
  - intros hash' r' Hx [[<- <-]|[Hne Hr']]%lookup_insert_Some; [done|]. apply (C3 hash'); [set_solver|done].
  - intros hash' [->%elem_of_singleton|Hx]%elem_of_union; [|auto]. by apply C1, C2 in Hr as [? _].
  - intros f hash' r' Hx [[<- <-]|[Hne Hr']]%lookup_insert_Some; [exact (C5 _ _ _ Hx Hr)|exact (C5 _ _ _ Hx Hr')].
  - done.
  - intros h1 h2 r1 r2 [[<- <-]|[_ Hr1]]%lookup_insert_Some [[<- <-]|[_ Hr2]]%lookup_insert_Some; simpl; try done. by eapply C7.
Qed.

(** A session that is ended loses all its rows. *)
Lemma coherent_end h c m g hash r :
  m !! hash = Some r → coherent h m g →
  coherent (h ++ [c]) (revokeFamilyLocked (r_familyID r) m)
    (mkGhost (g_session g) (g_exchanged g) ({[r_familyID r]} ∪ g_ended g)).
Proof.
  intros Hr Hco. assert (revokeFamilyLocked (r_familyID r) m ⊆ m) as Hsub by apply map_filter_subseteq.
  pose proof (co_rows _ _ _ Hco _ _ Hr) as Hs. apply (co_session _ _ _ Hco) in Hs as [_ Hf].
  destruct (coherent_weaken h c m _ g Hco Hsub) as [C1 C2 C3 C4 C5 C6 C7]. split; simpl; try done.
  - intros f hash' r' [->%elem_of_singleton|Hx]%elem_of_union Hr'; [|by eapply C5].
    by apply map_lookup_filter_Some in Hr' as [_ ?].
  - intros f [->%elem_of_singleton|Hx]%elem_of_union; [|auto]. rewrite families_snoc, elem_of_app. auto.
Qed.

Lemma coherent_step h c m g r m' life :
  coherent h m g → NoDup (hashes (h ++ [c])) → NoDup (families (h ++ [c])) → performs life c.2 m c.1 r m' →
  coherent (h ++ [c]) m' (observe c.1 c.2 r g).
Proof.
  intros Hco Hh Hf Hp.
  assert (∀ raw, d_raw c.2 = Some raw → hashRefreshToken raw ∉ hashes h) as Hnew.
  { intros raw Hr. rewrite hashes_snoc, Hr in Hh. apply NoDup_app in Hh as (_ & Hd & _). intros Hin. apply (Hd _ Hin). by left. }
  assert (∀ f, d_family c.2 = Some f → f ∉ families h) as Hnewf.
  { intros f Hr. rewrite families_snoc, Hr in Hf. apply NoDup_app in Hf as (_ & Hd & _). intros Hin. apply (Hd _ Hin). by left. }
  destruct c as [o d]; simpl in *.
  destruct Hp as [|t|t f raw Ht Hdf Hdr|raw _|raw r m' Hr _ Hm'|raw r Hr _ Hc|raw|raw r raw' _ Hr _ Hc Hd| |raw|raw| |t|t];
    simpl; try (by eapply coherent_weaken); try (eapply coherent_weaken; [done|apply delete_subseteq || apply map_filter_subseteq]).
  - rewrite Hdf. apply coherent_insert; try done; auto.
    + rewrite families_snoc. simpl. rewrite Hdf. apply elem_of_app. right. by left.
    + intros Hx%(co_ended_old _ _ _ Hco). by eapply Hnewf.
    + intros hash r Hr Hrf. apply (co_rows _ _ _ Hco), (co_session _ _ _ Hco) in Hr as [_ Hin].
      simpl in Hrf. rewrite Hrf in Hin. by destruct (Hnewf _ Hdf).
  - destruct Hm' as [->| ->]; (eapply coherent_weaken; [done|]); [done|apply delete_subseteq].
  - rewrite (co_rows _ _ _ Hco _ _ Hr). by eapply coherent_end.
  - pose proof (co_rows _ _ _ Hco _ _ Hr) as Hs. rewrite Hs. simpl.
    pose proof (coherent_insert h (OpRotate raw, d) (<[hashRefreshToken raw := consume r]> m)
      (mkGhost (g_session g) ({[hashRefreshToken raw]} ∪ g_exchanged g) (g_ended g)) raw' (r_tenantID r) (r_familyID r) (d_now d + life)) as Hi.
    simpl in Hi. apply Hi; try done; clear Hi.
    + by apply Hnew.
    + apply (co_session _ _ _ Hco) in Hs as [_ Hs]. rewrite families_snoc, elem_of_app. auto.
    + intros Hx. by apply (co_ended _ _ _ Hco _ _ _ Hx Hr).
    + by apply coherent_consume.
    + intros hash r' [[<- <-]|[Hne Hr']]%lookup_insert_Some Hfam; [done|]. destruct (r_consumed r') eqn:Hc'; [done|].
      destruct Hne. by eapply (co_live _ _ _ Hco).
Qed.

Lemma coherent_run s h :
  fresh s h → coherent h (rows_of (run s h).1) (run s h).2 ∧ ∀ t, clock_ok (run s h).1 t ↔ clock_ok s t.
Proof.
  unfold run. induction h as [|c h IH] using rev_ind; intros [He Hh Hf Hc]; simpl.
  - rewrite He. split; [split; simpl; intros; set_solver|done].
  - rewrite foldl_app. simpl. apply Forall_app in Hc as [Hc [Hc0 _]%Forall_cons].
    rewrite hashes_snoc in Hh. rewrite families_snoc in Hf.
    pose proof (NoDup_app (hashes h) (option_list (hashRefreshToken <$> d_raw c.2))) as [Hh1 _].
    pose proof (NoDup_app (families h) (option_list (d_family c.2))) as [Hf1 _].
    destruct IH as [Hco Hclk]; [split; try done; [by apply Hh1 in Hh as [? _]|by apply Hf1 in Hf as [? _]]|].
    destruct (foldl step _ h) as [s1 g1]. unfold step. simpl in *.
    pose proof (perform_law c.1 c.2 s1 (proj2 (Hclk _) Hc0)) as Hp. pose proof (perform_clock c.1 c.2 s1) as Hk.
    destruct (perform c.1 c.2 s1) as [r s2]. simpl in *. split.
    + eapply coherent_step; [done|by rewrite hashes_snoc|by rewrite families_snoc|done].
    + intros t. by rewrite Hk.
Qed.

(** What it takes for a token to be exchanged. *)
Lemma rotated_live s d raw tok :
  clock_ok s (d_now d) → (Rotate d raw s).1 = Ok tok →
  ∃ r, rows_of s !! hashRefreshToken raw = Some r ∧ r_consumed r = false ∧ TenantID tok = r_tenantID r ∧
    d_now d < r_expiresAt r.
Proof.
  intros Hc Hok. pose proof (perform_law (OpRotate raw) d s Hc) as Hp. simpl in Hp.
  destruct (Rotate d raw s) as [a s']. simpl in *. subst a. inversion Hp; subst. eauto.
Qed.


End history.

(** A token is issued and exchanged twice; the last of the three is good. *)
Section example.
#[local] Instance ex_crypto : SigCrypto := {| sha256 d := d; hmacSHA256 k d := k +:+ d |}.
Definition ex_draw (now : Z) (family raw : option string) : draw := mkDraw now family raw (λ _, false) [].
Definition ex_history : list call :=
  [(OpIssue "t", ex_draw 0 (Some "f") (Some "one")); (OpRotate "one", ex_draw 1 None (Some "two"));
   (OpRotate "two", ex_draw 2 None (Some "three")); (OpRotate "four", ex_draw 3 None None)].

End example.
End RefreshHistory.

(** ** Second factors *)

Module MfaHistory.
Import Mfa.
Section history.
Context {T : Type} `{!MFAStore T, !MFALaws T}.

(** What was accepted as a second factor: of which tenant, in which of its
    enrollments, and which time step or recovery code. The code that activates an
    enrollment counts. *)
Definition factor : Type := string * nat * (Z + string).

Record ghost := mkGhost { g_enrollment : gmap string nat; g_accepted : list factor }.

Definition enrollment_no (g : ghost) (t : string) : nat := default 0%nat (g_enrollment g !! t).

Definition observe (o : op) (r : reply) (g : ghost) : ghost :=
  match o, r with
  | OpActivate t _ st _, RUnit (Ok _) =>
      let n := S (enrollment_no g t) in mkGhost (<[t := n]> (g_enrollment g)) ((t, n, inl st) :: g_accepted g)
  | OpMark t st, RBool (Ok true) => mkGhost (g_enrollment g) ((t, enrollment_no g t, inl st) :: g_accepted g)
  | OpConsume t h, RBool (Ok true) => mkGhost (g_enrollment g) ((t, enrollment_no g t, inr h) :: g_accepted g)
  | _, _ => g
  end.

Definition call : Type := op * draw.

Definition step (sg : T * ghost) (c : call) : T * ghost :=
  let '(r, s) := perform c.1 c.2 sg.1 in (s, observe c.1 r sg.2).

Definition run (s : T) (h : list call) : T * ghost := foldl step (s, mkGhost ∅ []) h.

Record spent_once (m : enrollments) (g : ghost) : Prop := {
  sp_nodup : NoDup (g_accepted g);
  sp_past t n k : (t, n, k) ∈ g_accepted g → (n ≤ enrollment_no g t)%nat;
  sp_steps t r st : m !! t = Some r → mf_active r = true → (t, enrollment_no g t, inl st) ∈ g_accepted g → st ≤ mf_lastStep r;
  sp_codes t r h : m !! t = Some r → mf_active r = true → (t, enrollment_no g t, inr h) ∈ g_accepted g → h ∉ mf_recovery r
}.

(** A row that is inactive, or that accepts no more than before, keeps the record. *)
Lemma spent_once_write m g t r' :
  spent_once m g →
  (mf_active r' = true → ∃ r, m !! t = Some r ∧ mf_active r = true ∧ mf_lastStep r ≤ mf_lastStep r' ∧ mf_recovery r' ⊆ mf_recovery r) →
  spent_once (<[t := r']> m) g.
Proof.
  intros [S1 S2 S3 S4] Hr. split; [done|done|..].
  - intros t' r0 st [[<- <-]|[_ H0]]%lookup_insert_Some; [|by eapply S3]. intros Ha Hin.
    destruct (Hr Ha) as (r & Hm & Ha' & Hl & _). pose proof (S3 t r st Hm Ha' Hin). lia.
  - intros t' r0 st [[<- <-]|[_ H0]]%lookup_insert_Some; [|by eapply S4]. intros Ha Hin.
    destruct (Hr Ha) as (r & Hm & Ha' & _ & Hl). pose proof (S4 t r st Hm Ha' Hin). set_solver.
Qed.

Lemma spent_once_delete m g t : spent_once m g → spent_once (delete t m) g.
Proof.
  intros [S1 S2 S3 S4]. split; [done|done|..]; intros t' r0 st [_ H0]%lookup_delete_Some; [by eapply S3|by eapply S4].
Qed.

(** A new factor of the present enrollment. *)
Lemma spent_once_accept m g t k :
  spent_once m g → (t, enrollment_no g t, k) ∉ g_accepted g →
  (∀ r, m !! t = Some r → mf_active r = true → match k with inl st => st ≤ mf_lastStep r | inr h => h ∉ mf_recovery r end) →
  spent_once m (mkGhost (g_enrollment g) ((t, enrollment_no g t, k) :: g_accepted g)).
Proof.
  intros [S1 S2 S3 S4] Hk Hr. split; simpl.
  - by constructor.
  - intros t' n k' [[= Ht Hn _]|Hin]%elem_of_cons; [subst; done|by eapply S2].
  - intros t' r st Hm Ha [[= Ht _ Hs]|Hin]%elem_of_cons; [subst; by apply (Hr r)|by eapply S3].
  - intros t' r st Hm Ha [[= Ht _ Hs]|Hin]%elem_of_cons; [subst; by apply (Hr r)|by eapply S4].
Qed.

(** A new enrollment, activated with a step. *)
Lemma spent_once_activate m g t st hs r :
  spent_once m g →
  spent_once (<[t := activated st hs r]> m)
    (mkGhost (<[t := S (enrollment_no g t)]> (g_enrollment g)) ((t, S (enrollment_no g t), inl st) :: g_accepted g)).
Proof.
  intros [S1 S2 S3 S4].
  assert (∀ t', enrollment_no (mkGhost (<[t := S (enrollment_no g t)]> (g_enrollment g)) ((t, S (enrollment_no g t), inl st) :: g_accepted g)) t'
    = if bool_decide (t' = t) then S (enrollment_no g t) else enrollment_no g t') as Hno.
  { intros t'. unfold enrollment_no at 1. simpl. case_bool_decide as E; [subst; by rewrite lookup_insert_eq|by rewrite lookup_insert_ne]. }
  assert (∀ k, (t, S (enrollment_no g t), k) ∉ g_accepted g) as Hnew by (intros k Hin%S2; lia).
  split; simpl.
  - by constructor.
  - intros t' n k. rewrite Hno. intros [[= -> -> _]|Hin%S2]%elem_of_cons; [by rewrite bool_decide_eq_true_2|].
    case_bool_decide; subst; lia.
  - intros t' r0 st' H0 Ha. rewrite Hno. apply lookup_insert_Some in H0 as [[<- <-]|[Hne H0]].
    + rewrite bool_decide_eq_true_2 by done. intros [[= ->]|Hin]%elem_of_cons; [done|by apply Hnew in Hin].
    + rewrite bool_decide_eq_false_2 by done. intros [[= ?]|Hin]%elem_of_cons; [done|by eapply S3].
  - intros t' r0 h H0 Ha. rewrite Hno. apply lookup_insert_Some in H0 as [[<- <-]|[Hne H0]].
    + rewrite bool_decide_eq_true_2 by done. intros [?|Hin]%elem_of_cons; [done|by apply Hnew in Hin].
    + rewrite bool_decide_eq_false_2 by done. intros [Heq|Hin]%elem_of_cons; [congruence|by eapply S4].
Qed.

Lemma spent_once_step m m' o r g : spent_once m g → performs m o r m' → spent_once m' (observe o r g).
Proof.
  intros Hs Hp.
  destruct Hp as [t x e _|t x r _ _|t x Hr|t|t|t e st hs _|t e st hs|t e st hs r Hr Ha He|t st _|t st|t st r a Hr Ha Hl Hok
    |t h _|t h|t h r a Hr Ha Hin Hok|t|t|t _|t|t r Hr Ha]; simpl; try done.
  - by apply spent_once_write.
  - by apply spent_once_activate.
  - assert (spent_once (<[t := stepped st r]> m) g) as Hw by (apply spent_once_write; [done|]; intros _; exists r; simpl; split_and!; done || lia).
    destruct Hok as [-> | ->]; [|done]. apply spent_once_accept; [done|..].
    + intros Hin. pose proof (sp_steps _ _ Hs t r st Hr Ha Hin). lia.
    + intros r'. rewrite lookup_insert_eq. intros [= <-]. done.
  - assert (spent_once (<[t := spent h r]> m) g) as Hw
      by (apply spent_once_write; [done|]; intros _; exists r; simpl; split_and!; [done..|set_solver]).
    destruct Hok as [-> | ->]; [|done]. apply spent_once_accept; [done|..].
    + intros Hx. by apply (sp_codes _ _ Hs t r h Hr Ha Hx).
    + intros r'. rewrite lookup_insert_eq. intros [= <-] _. simpl. set_solver.
  - by apply spent_once_delete.
  - by apply spent_once_delete.
Qed.

(** C35: A second factor is accepted once. After any sequence of calls, failed ones included, the time steps and the
    recovery codes that were accepted of a tenant within one enrollment, the code that activated it among them, are
    all different. *)
Theorem second_factor_accepted_once s h :
  mfa_ok s → enrollments_of s = ∅ → NoDup (g_accepted (run s h).2).
Proof.
  intros Hok He. assert (spent_once (enrollments_of (run s h).1) (run s h).2 ∧ mfa_ok (run s h).1) as [[? _ _ _] _]; [|done].
  unfold run. induction h as [|c h IH] using rev_ind; simpl.
  - rewrite He. split; [split; simpl; [constructor|..]; intros; set_solver|done].
  - rewrite foldl_app. simpl. destruct IH as [IH Hok']. destruct (foldl step _ h) as [s1 g1]. unfold step. simpl in *.
    pose proof (perform_enrollments c.1 c.2 s1 Hok') as Hp. pose proof (perform_ok c.1 c.2 s1 Hok') as Hok2.
    destruct (perform c.1 c.2 s1) as [r s2]. simpl in *. split; [by eapply spent_once_step|done].
Qed.

End history.

(** A replayed code and a replayed recovery code, and the same code in a second enrollment. *)
Section example.
Definition ex_history : list call :=
  let d := mkDraw 0 None None (λ _, false) [] in
  (λ o, (o, d)) <$>
  [OpBegin "t" "S"; OpActivate "t" "S" 7 ["c"; "d"]; OpMark "t" 7; OpMark "t" 8; OpMark "t" 8; OpConsume "t" "c"; OpConsume "t" "c";
   OpDisable "t"; OpBegin "t" "R"; OpActivate "t" "R" 8 ["c"]].

Lemma second_factor_accepted_once_witness :
  g_accepted (run ∅ ex_history).2 = [("t", 2%nat, inl 8); ("t", 1%nat, inr "c"); ("t", 1%nat, inl 8); ("t", 1%nat, inl 7)] ∧
  NoDup (g_accepted (run ∅ ex_history).2).
Proof. split; [by vm_compute|]. by apply (second_factor_accepted_once ∅ ex_history). Defined.
End example.
End MfaHistory.
