(* ===== verification/ConsoleAuth.v ===== *)
(** * Sign-up, login and sessions of the console

    The handlers under /api/v1/auth/ (api/console/auth_handler.go) as programs over
    calls to their stores, hooks and random generators, and the world in which the
    calls run: the in-memory users, tenants and access tokens, and any store of
    refresh tokens and of second factors with the interfaces of [ConsoleStores].
    JSON decoding is an input of a request: the decoded payload, or the error. *)

From S2P Require Import Prelude Bytes GoStrings Tenants SigV4 Totp ConsoleStores.
From Stdlib Require Import SpecFloat.
Import Users Refresh Mfa.
Local Open Scope Z_scope.

(** ** Calls *)

(** [bcrypt]: a hash is drawn with a salt; a password of more than 72 bytes has none. *)
Class Bcrypt := {
  GenerateWithSalt : string → string → option string;
  CompareHashAndPassword : string → string → bool
}.

(** The errors of [consoleTenantAdapter] (cmd/gateway/main.go). *)
Inductive key_error := KeyTenantNotFound | KeyAlreadyBound | KeyRejected (e : store_error).

Inductive acall : Type → Type :=
| Now : acall Z
| NewTenantID : acall (option string)
| GenerateKey : acall (option (string * string))
| NewVerificationToken : acall (option string)
| NewTOTPSecret : acall (option string)
| RecoveryCodes : acall (option (list string))
| GenerateFromPassword (password : string) : acall (option string)
| VerifyCAPTCHA (token : string) : acall bool
| ResolveOAuth (token : string) : acall (option string)
| SendVerificationEmail (email tenantID token : string) : acall bool
| ALookupUser (email : string) : acall (option (string * string))
| ACreateUser (email passwordHash tenantID : string) : acall (result auth_error ())
| ADeleteUser (email : string) : acall (result auth_error ())
| ASetVerificationToken (tenantID token : string) : acall (result auth_error ())
| AConsumeVerificationToken (token : string) : acall (result auth_error string)
| LookupTenant (tenantID : string) : acall (option Tenant)
| ACreateTenant (t : Tenant) : acall (result store_error ())
| ADeleteTenant (tenantID : string) : acall (result store_error ())
| AddAPIKey (tenantID accessKey secretKey : string) : acall (result key_error ())
| IssueToken (tenantID : string) : acall (option string)
| RIssue (tenantID : string) : acall answer
| RRotate (rawToken : string) : acall answer
| RRevoke (rawToken : string) : acall (result refresh_error ())
| RRevokeAllForTenant (tenantID : string) : acall (result refresh_error ())
| MBeginEnrollment (tenantID secret : string) : acall (result mfa_error ())
| MGetMFA (tenantID : string) : acall (result mfa_error (option MFARecord))
| MActivate (tenantID secret : string) (step : Z) (hashes : list string) : acall (result mfa_error ())
| MMarkTOTPStep (tenantID : string) (step : Z) : acall (result mfa_error bool)
| MConsumeRecoveryCode (tenantID codeHash : string) : acall (result mfa_error bool)
| MDisable (tenantID : string) : acall (result mfa_error ())
| MDisablePending (tenantID : string) : acall (result mfa_error bool)
| EmitTenantCreated (tenantID : string) (at_ : Z) : acall ()
| EnsureCustomer (tenantID email name : string) : acall bool.

Inductive aprog (R : Type) : Type :=
| ARet (r : R)
| ACall {A : Type} (c : acall A) (k : A → aprog R).
Arguments ARet {R} r.
Arguments ACall {R A} c k.

Fixpoint abind {R R'} (p : aprog R) (f : R → aprog R') : aprog R' :=
  match p with ARet r => f r | ACall c k => ACall c (λ a, abind (k a) f) end.

Declare Scope aprog_scope.
Delimit Scope aprog_scope with aprog.
Notation "x '<~' c ';;' k" := (ACall c (λ x, k))
  (at level 100, c at next level, right associativity) : aprog_scope.
Notation "x '<-' p ';;;' k" := (abind p (λ x, k))
  (at level 100, p at next level, right associativity) : aprog_scope.

(** ** Requests and responses *)

Inductive decode_error := PayloadTooLarge | PayloadMalformed.
Abbreviation body := (result decode_error).

Record signupRequest := mkSignupRequest {
  sr_Email : string; sr_Password : string; sr_TenantName : string; sr_CAPTCHAToken : string; sr_OAuthToken : string }.
Record loginRequest := mkLoginRequest {
  lr_Email : string; lr_Password : string; lr_TOTPCode : string; lr_RecoveryCode : string }.
Record mfaRequest := mkMfaRequest {
  mr_Email : string; mr_Password : string; mr_TOTPCode : string; mr_RecoveryCode : string }.

Record TenantSummary := mkTenantSummary {
  ts_ID : string; ts_Name : string; ts_ContractType : string; ts_LicenseTier : string; ts_PolicyRef : string;
  ts_RequestsPerSec : Z; ts_BurstRequests : Z; ts_EgressTBMonth : spec_float; ts_CreatedAt : Z }.

Record AuthResponse := mkAuthResponse {
  ar_Tenant : TenantSummary; ar_Token : string; ar_AccessKey : string; ar_SecretKey : string; ar_CreatedAt : Z;
  ar_RefreshToken : string; ar_RefreshTokenExpiresAt : Z }.

Inductive payload :=
| ErrorMessage (message : string)
| Session (r : AuthResponse)
| Verified (tenantID : string)
| MfaRequired (mfaInvalid : bool)
| Enrolled (secret otpauthUri : string)
| Activated (recoveryCodes : list string)
| MfaInactive
| NoContent.

Record response := mkResponse { rs_Status : Z; rs_Body : payload }.

Definition writeError (status : Z) (message : string) : response := mkResponse status (ErrorMessage message).
Definition writeInternalError (message : string) : response := writeError 500 message.

(** Which of the optional parts are configured; the access tokens always are. *)
Record AuthConfig := mkAuthConfig {
  has_Tenants : bool; has_Auth : bool; has_RefreshTokens : bool; has_MFA : bool; cfg_MFAIssuer : string;
  has_CAPTCHA : bool; has_Email : bool; has_OAuth : bool; has_BillingSink : bool; has_BillingProvider : bool }.

Definition DefaultMFAIssuer : string := "zk-object-fabric".

(** [NewAuthHandler] fills the defaults in. *)
Definition NewAuthHandler (c : AuthConfig) : AuthConfig :=
  mkAuthConfig (has_Tenants c) (has_Auth c) (has_RefreshTokens c) (has_MFA c)
    (if bool_decide (TrimSpace (cfg_MFAIssuer c) = "") then DefaultMFAIssuer else cfg_MFAIssuer c)
    (has_CAPTCHA c) (has_Email c) (has_OAuth c) (has_BillingSink c) (has_BillingProvider c).

(** ** Handlers *)

Definition defaultB2CTenant (id name : string) : Tenant :=
  mkTenant id name "b2c_pooled" "standard" (mkKeys "cmk://shared/b2c" "per_object") "b2c_pooled_default"
    (mkBudgets (S754_finite false 4503599627370496 (-52)) 50) (mkAbuseConfig "" "") (mkBilling "USD" "").

Definition summarizeTenantAt (t : Tenant) (createdAt : Z) : TenantSummary :=
  mkTenantSummary (tn_ID t) (tn_Name t) (tn_ContractType t) (tn_LicenseTier t) (tn_PolicyRef t)
    (RequestsPerSec (tn_Budgets t)) (wrap64 (2 * RequestsPerSec (tn_Budgets t))) (EgressTBMonth (tn_Budgets t)) createdAt.

Definition summarizeTenant (t : Tenant) : TenantSummary := summarizeTenantAt t zero_time.

Section handlers.
Context `{!CaseTables, !HmacSHA1, !SigCrypto, !Bcrypt}.
Context (h : AuthConfig).
Local Open Scope aprog_scope.

Definition decode_failure (what : string) (e : decode_error) : response :=
  match e with
  | PayloadTooLarge => writeError 413 (what +:+ " payload exceeds 16384 bytes")
  | PayloadMalformed => writeError 400 ("decode " +:+ what)
  end.

(** The verify endpoint answers every decoding error with 400. *)
Definition verify (req : body string) : aprog response :=
  if negb (has_Auth h) then ARet (writeError 503 "auth store not configured")
  else match req with
  | Err _ => ARet (writeError 400 "decode verify")
  | Ok tok =>
      let token := TrimSpace tok in
      if bool_decide (token = "") then ARet (writeError 400 "token is required")
      else
        r <~ AConsumeVerificationToken token;;
        match r with
        | Err _ => ARet (writeError 401 "invalid or expired verification token")
        | Ok tenantID => ARet (mkResponse 200 (Verified tenantID))
        end
  end.

(** Best effort: no store, or a failure, is no token. *)
Definition issueRefreshToken (tenantID : string) : aprog (string * Z) :=
  if negb (has_RefreshTokens h) then ARet ("", zero_time)
  else
    r <~ RIssue tenantID;;
    match r with Err _ => ARet ("", zero_time) | Ok rt => ARet (Raw rt, ExpiresAt rt) end.

Definition rollbackTenant (tenantID : string) (r : response) : aprog response :=
  _ <~ ADeleteTenant tenantID;; ARet r.

Definition rollbackUserAndTenant (email tenantID : string) (r : response) : aprog response :=
  _ <~ ADeleteUser email;; rollbackTenant tenantID r.

(** The password hash a sign-up stores, or the response that ends it. *)
Definition signup_credential (req : signupRequest) (tenantID : string) : aprog (result response string) :=
  if bool_decide (sr_OAuthToken req = "") then
    hash <~ GenerateFromPassword (sr_Password req);;
    match hash with
    | None => r <- rollbackTenant tenantID (writeInternalError "hash password failed");;; ARet (Err r)
    | Some hash => ARet (Ok hash)
    end
  else if negb (has_OAuth h) then
    r <- rollbackTenant tenantID (writeError 503 "oauth provider not configured");;; ARet (Err r)
  else
    subject <~ ResolveOAuth (sr_OAuthToken req);;
    match subject with
    | None => r <- rollbackTenant tenantID (writeError 401 "oauth resolve");;; ARet (Err r)
    | Some subject => ARet (Ok ("oauth:" +:+ subject))
    end.

(** The verification token and its email; a failure to send is ignored. *)
Definition signup_verification (email tenantID : string) : aprog (option response) :=
  if negb (has_Email h) then ARet None
  else
    vtoken <~ NewVerificationToken;;
    match vtoken with
    | None => r <- rollbackUserAndTenant email tenantID (writeInternalError "mint verification token failed");;; ARet (Some r)
    | Some vtoken =>
        set <~ ASetVerificationToken tenantID vtoken;;
        match set with
        | Err _ => r <- rollbackUserAndTenant email tenantID (writeInternalError "store verification token failed");;; ARet (Some r)
        | Ok _ => _ <~ SendVerificationEmail email tenantID vtoken;; ARet None
        end
    end.

(** The access token, the notices to billing and the response. *)
Definition signup_finish (email tenantName tenantID accessKey secretKey : string) (newTenant : Tenant) : aprog response :=
  token <~ IssueToken tenantID;;
  match token with
  | None => rollbackUserAndTenant email tenantID (writeInternalError "issue token failed")
  | Some token =>
      createdAt <~ Now;;
      _ <- (if has_BillingSink h then x <~ EmitTenantCreated tenantID createdAt;; ARet x else ARet ());;;
      _ <- (if has_BillingProvider h then x <~ EnsureCustomer tenantID email tenantName;; ARet x else ARet true);;;
      rt <- issueRefreshToken tenantID;;;
      ARet (mkResponse 201 (Session (mkAuthResponse (summarizeTenantAt newTenant createdAt) token accessKey secretKey createdAt rt.1 rt.2)))
  end.

(** From the duplicate check on. *)
Definition signup_create (req : signupRequest) (email tenantName : string) : aprog response :=
  user <~ ALookupUser email;;
  match user with
  | Some _ => ARet (writeError 409 "email is already registered")
  | None =>
      id <~ NewTenantID;;
      match id with
      | None => ARet (writeInternalError "mint tenant id failed")
      | Some tenantID =>
          let newTenant := defaultB2CTenant tenantID tenantName in
          created <~ ACreateTenant newTenant;;
          match created with
          | Err _ => ARet (writeInternalError "create tenant failed")
          | Ok _ =>
              cred <- signup_credential req tenantID;;;
              match cred with
              | Err r => ARet r
              | Ok passwordHash =>
                  user <~ ACreateUser email passwordHash tenantID;;
                  match user with
                  | Err _ => rollbackTenant tenantID (writeError 409 "email is already registered")
                  | Ok _ =>
                      key <~ GenerateKey;;
                      match key with
                      | None => rollbackUserAndTenant email tenantID (writeInternalError "generate key failed")
                      | Some (accessKey, secretKey) =>
                          added <~ AddAPIKey tenantID accessKey secretKey;;
                          match added with
                          | Err _ => rollbackUserAndTenant email tenantID (writeInternalError "register key failed")
                          | Ok _ =>
                              v <- signup_verification email tenantID;;;
                              match v with
                              | Some r => ARet r
                              | None => signup_finish email tenantName tenantID accessKey secretKey newTenant
                              end
                          end
                      end
                  end
              end
          end
      end
  end.

Definition signup (req : body signupRequest) : aprog response :=
  if negb (has_Tenants h) || negb (has_Auth h) then ARet (writeError 503 "auth store not configured")
  else match req with
  | Err e => ARet (decode_failure "signup" e)
  | Ok req =>
      let email := TrimSpace (sr_Email req) in
      let tenantName := TrimSpace (sr_TenantName req) in
      if bool_decide (email = "") || negb (ContainsByte "@" email)
      then ARet (writeError 400 "email is required and must contain '@'")
      else if bool_decide (sr_OAuthToken req = "") && (Z.of_nat (String.length (sr_Password req)) <? 8)
      then ARet (writeError 400 "password must be at least 8 characters")
      else
        let tenantName := if bool_decide (tenantName = "") then email else tenantName in
        if has_CAPTCHA h then
          ok <~ VerifyCAPTCHA (sr_CAPTCHAToken req);;
          if ok : bool then signup_create req email tenantName else ARet (writeError 403 "captcha verification failed")
        else signup_create req email tenantName
  end.

Definition hashRecoveryCode (code : string) : string := Signing.EncodeToString (sha256 (toUpper (TrimSpace code))).

(** [None] is an error of the store. *)
Definition checkSecondFactor (tenantID : string) (rec : MFARecord) (totpCode recoveryCode : string)
    : aprog (result mfa_error bool) :=
  let code := TrimSpace recoveryCode in
  if negb (bool_decide (code = "")) then
    r <~ MConsumeRecoveryCode tenantID (hashRecoveryCode code);; ARet r
  else
    let code := TrimSpace totpCode in
    if bool_decide (code = "") then ARet (Ok false)
    else
      now <~ Now;;
      match Totp.totpVerify (Secret rec) code now with
      | None => ARet (Ok false)
      | Some step => r <~ MMarkTOTPStep tenantID step;; ARet r
      end.

(** [None]: the login may go on. *)
Definition enforceSecondFactor (tenantID totpCode recoveryCode : string) : aprog (option response) :=
  if negb (has_MFA h) then ARet None
  else
    r <~ MGetMFA tenantID;;
    match r with
    | Err _ => ARet (Some (writeError 503 "login temporarily unavailable; please retry"))
    | Ok None => ARet None
    | Ok (Some rec) =>
        if negb (Active rec) then ARet None
        else
          valid <- checkSecondFactor tenantID rec totpCode recoveryCode;;;
          match valid with
          | Err _ => ARet (Some (writeError 503 "login temporarily unavailable; please retry"))
          | Ok true => ARet None
          | Ok false =>
              let codeSupplied := negb (bool_decide (TrimSpace totpCode = "")) || negb (bool_decide (TrimSpace recoveryCode = "")) in
              ARet (Some (mkResponse 401 (MfaRequired codeSupplied)))
          end
    end.

(** Who a password lets in: the tenant of the user, or nobody. *)
Definition password_opens (user : option (string * string)) (password : string) : option string :=
  match user with
  | None => None
  | Some (hash, tenantID) =>
      if bool_decide (hash = "") || HasPrefix hash "oauth:" then None
      else if CompareHashAndPassword hash password then Some tenantID else None
  end.

Definition login (req : body loginRequest) : aprog response :=
  if negb (has_Tenants h) || negb (has_Auth h) then ARet (writeError 503 "auth store not configured")
  else match req with
  | Err e => ARet (decode_failure "login" e)
  | Ok req =>
      let email := TrimSpace (lr_Email req) in
      if bool_decide (email = "") || bool_decide (lr_Password req = "")
      then ARet (writeError 400 "email and password are required")
      else
        user <~ ALookupUser email;;
        match password_opens user (lr_Password req) with
        | None => ARet (writeError 401 "invalid email or password")
        | Some tenantID =>
            t <~ LookupTenant tenantID;;
            match t with
            | None => ARet (writeError 500 "tenant record missing for user")
            | Some t =>
                stop <- enforceSecondFactor tenantID (lr_TOTPCode req) (lr_RecoveryCode req);;;
                match stop with
                | Some r => ARet r
                | None =>
                    token <~ IssueToken tenantID;;
                    match token with
                    | None => ARet (writeInternalError "issue token failed")
                    | Some token =>
                        rt <- issueRefreshToken tenantID;;;
                        ARet (mkResponse 200 (Session (mkAuthResponse (summarizeTenant t) token "" "" zero_time rt.1 rt.2)))
                    end
                end
            end
        end
  end.

(** The tenant of a caller who has given the password, or the response. *)
Definition authenticateMFARequest (req : body mfaRequest) : aprog (result response (string * mfaRequest)) :=
  match req with
  | Err e => ARet (Err (decode_failure "mfa" e))
  | Ok req =>
      let email := TrimSpace (mr_Email req) in
      let req := mkMfaRequest email (mr_Password req) (mr_TOTPCode req) (mr_RecoveryCode req) in
      if bool_decide (email = "") || bool_decide (mr_Password req = "")
      then ARet (Err (writeError 400 "email and password are required"))
      else
        user <~ ALookupUser email;;
        match password_opens user (mr_Password req) with
        | None => ARet (Err (writeError 401 "invalid email or password"))
        | Some tid => ARet (Ok (tid, req))
        end
  end.

Definition mfa_guarded (req : body mfaRequest) (k : string → mfaRequest → aprog response) : aprog response :=
  if negb (has_MFA h) then ARet (writeError 503 "mfa is not configured")
  else if negb (has_Auth h) then ARet (writeError 503 "auth store not configured")
  else
    a <- authenticateMFARequest req;;;
    match a with Err r => ARet r | Ok (tenantID, req) => k tenantID req end.

Definition mfaEnroll (req : body mfaRequest) : aprog response :=
  mfa_guarded req (λ tenantID req,
    secret <~ NewTOTPSecret;;
    match secret with
    | None => ARet (writeError 500 "enroll failed; please retry")
    | Some secret =>
        r <~ MBeginEnrollment tenantID secret;;
        match r with
        | Err AlreadyActive => ARet (writeError 409 "mfa is already active; disable it before re-enrolling")
        | Err _ => ARet (writeError 503 "enroll temporarily unavailable; please retry")
        | Ok _ => ARet (mkResponse 200 (Enrolled secret (Totp.totpEnrollmentURI (cfg_MFAIssuer h) (mr_Email req) secret)))
        end
    end).

Definition mfaActivate (req : body mfaRequest) : aprog response :=
  mfa_guarded req (λ tenantID req,
    r <~ MGetMFA tenantID;;
    match r with
    | Err _ => ARet (writeError 503 "activate temporarily unavailable; please retry")
    | Ok None => ARet (writeError 409 "no pending mfa enrollment to activate")
    | Ok (Some rec) =>
        if Active rec then ARet (writeError 409 "no pending mfa enrollment to activate")
        else
          let code := TrimSpace (mr_TOTPCode req) in
          if bool_decide (code = "") then ARet (writeError 400 "totpCode is required")
          else
            now <~ Now;;
            match Totp.totpVerify (Secret rec) code now with
            | None => ARet (writeError 401 "invalid authenticator code")
            | Some step =>
                codes <~ RecoveryCodes;;
                match codes with
                | None => ARet (writeError 500 "activate failed; please retry")
                | Some codes =>
                    a <~ MActivate tenantID (Secret rec) step (hashRecoveryCode <$> codes);;
                    match a with
                    | Err NotEnrolled => ARet (writeError 409 "no pending mfa enrollment to activate")
                    | Err _ => ARet (writeError 503 "activate temporarily unavailable; please retry")
                    | Ok _ => ARet (mkResponse 200 (Activated codes))
                    end
                end
            end
    end).

(** The part of the removal that asks for the second factor. *)
Definition disable_active (tenantID : string) (req : mfaRequest) (rec : MFARecord) : aprog response :=
  valid <- checkSecondFactor tenantID rec (mr_TOTPCode req) (mr_RecoveryCode req);;;
  match valid with
  | Err _ => ARet (writeError 503 "disable temporarily unavailable; please retry")
  | Ok false => ARet (writeError 401 "a valid authenticator or recovery code is required to disable mfa")
  | Ok true =>
      d <~ MDisable tenantID;;
      match d with
      | Err _ => ARet (writeError 503 "disable temporarily unavailable; please retry")
      | Ok _ => ARet (mkResponse 200 MfaInactive)
      end
  end.

Definition mfaDisable (req : body mfaRequest) : aprog response :=
  mfa_guarded req (λ tenantID req,
    r <~ MGetMFA tenantID;;
    match r with
    | Err _ => ARet (writeError 503 "disable temporarily unavailable; please retry")
    | Ok None => ARet (mkResponse 200 MfaInactive)
    | Ok (Some rec) =>
        if Active rec then disable_active tenantID req rec
        else
          cleared <~ MDisablePending tenantID;;
          match cleared with
          | Err _ => ARet (writeError 503 "disable temporarily unavailable; please retry")
          | Ok true => ARet (mkResponse 200 MfaInactive)
          | Ok false =>
              r <~ MGetMFA tenantID;;
              match r with
              | Err _ => ARet (writeError 503 "disable temporarily unavailable; please retry")
              | Ok None => ARet (mkResponse 200 MfaInactive)
              | Ok (Some rec) => if Active rec then disable_active tenantID req rec else ARet (mkResponse 200 MfaInactive)
              end
          end
    end).

Definition refresh (req : body string) : aprog response :=
  if negb (has_RefreshTokens h) then ARet (writeError 503 "refresh tokens not configured")
  else if negb (has_Tenants h) then ARet (writeError 503 "auth store not configured")
  else match req with
  | Err e => ARet (decode_failure "refresh" e)
  | Ok tok =>
      let refreshToken := TrimSpace tok in
      if bool_decide (refreshToken = "") then ARet (writeError 400 "refreshToken is required")
      else
        rotated <~ RRotate refreshToken;;
        match rotated with
        | Err RefreshTokenInvalid | Err RefreshTokenReuse => ARet (writeError 401 "invalid or expired refresh token")
        | Err _ => ARet (writeError 503 "refresh temporarily unavailable; please retry")
        | Ok rotated =>
            t <~ LookupTenant (TenantID rotated);;
            match t with
            | None =>
                _ <~ RRevokeAllForTenant (TenantID rotated);;
                ARet (writeError 401 "invalid or expired refresh token")
            | Some t =>
                token <~ IssueToken (TenantID rotated);;
                match token with
                | None => _ <~ RRevoke (Raw rotated);; ARet (writeError 401 "invalid or expired refresh token")
                | Some token =>
                    ARet (mkResponse 200 (Session (mkAuthResponse (summarizeTenant t) token "" "" zero_time
                            (Raw rotated) (ExpiresAt rotated))))
                end
            end
        end
  end.

Definition logout (req : body string) : aprog response :=
  if negb (has_RefreshTokens h) then ARet (mkResponse 204 NoContent)
  else match req with
  | Err e => ARet (decode_failure "logout" e)
  | Ok tok =>
      r <~ RRevoke (TrimSpace tok);;
      match r with
      | Err _ => ARet (writeError 503 "logout temporarily unavailable; please retry")
      | Ok _ => ARet (mkResponse 204 NoContent)
      end
  end.

(** A request: its method and path, and what its body decodes to as each payload. *)
Record Request := mkRequest {
  rq_Method : string;
  rq_Path : string;
  as_signup : body signupRequest;
  as_login : body loginRequest;
  as_verify : body string;
  as_refresh : body string;
  as_mfa : body mfaRequest
}.

Definition post (r : Request) (k : aprog response) : aprog response :=
  if bool_decide (rq_Method r = "POST") then k else ARet (writeError 405 "method not allowed").

Definition dispatch (r : Request) : aprog response :=
  let path := rq_Path r in
  if bool_decide (path = "/api/v1/auth/signup") then post r (signup (as_signup r))
  else if bool_decide (path = "/api/v1/auth/login") then post r (login (as_login r))
  else if bool_decide (path = "/api/v1/auth/verify") then post r (verify (as_verify r))
  else if bool_decide (path = "/api/v1/auth/refresh") then post r (refresh (as_refresh r))
  else if bool_decide (path = "/api/v1/auth/logout") then post r (logout (as_refresh r))
  else if bool_decide (path = "/api/v1/auth/mfa/enroll") then post r (mfaEnroll (as_mfa r))
  else if bool_decide (path = "/api/v1/auth/mfa/activate") then post r (mfaActivate (as_mfa r))
  else if bool_decide (path = "/api/v1/auth/mfa/disable") then post r (mfaDisable (as_mfa r))
  else ARet (writeError 404 ("unknown auth path " +:+ path)).

End handlers.

(** ** The world *)

(** What a call meets: the draw of the stores, and random bytes, keys and codes,
    and the verdicts of the hooks. *)
Record chance := mkChance {
  ch_draw : draw;
  ch_bytes : option string;
  ch_key : option (string * string);
  ch_codes : option (list bytes);
  ch_subject : option string;
  ch_flag : bool
}.

Module ConsoleWorld.
Section world.
Context {TR TM : Type} `{!RefreshTokenStore TR, !MFAStore TM}.
Context `{!CaseTables, !HmacSHA1, !SigCrypto, !Bcrypt}.
Import TenantDirectory.

Record World := mkWorld {
  w_users : MemoryAuthStore;
  w_tenants : MemoryTenantStore;
  w_tokens : gmap string string;                   (* MemoryTokenStore *)
  w_refresh : TR;
  w_mfa : TM;
  w_mail : list (string * string * string)         (* the verification emails that were sent *)
}.

Definition set_users (u : MemoryAuthStore) (w : World) : World :=
  mkWorld u (w_tenants w) (w_tokens w) (w_refresh w) (w_mfa w) (w_mail w).
Definition set_tenants (t : MemoryTenantStore) (w : World) : World :=
  mkWorld (w_users w) t (w_tokens w) (w_refresh w) (w_mfa w) (w_mail w).
Definition set_refresh (r : TR) (w : World) : World :=
  mkWorld (w_users w) (w_tenants w) (w_tokens w) r (w_mfa w) (w_mail w).
Definition set_mfa (m : TM) (w : World) : World :=
  mkWorld (w_users w) (w_tenants w) (w_tokens w) (w_refresh w) m (w_mail w).

(** A call that writes: its answer and the new part, or the error. *)
Definition written {E S} (set : S → World → World) (w : World) (r : result E S) : result E () * World :=
  match r with Ok s => (Ok (), set s w) | Err e => (Err e, w) end.
Definition updated {X S} (set : S → World → World) (w : World) (r : X * S) : X * World := (r.1, set r.2 w).

(** [consoleTenantAdapter] *)
Definition adapter_LookupTenant (d : draw) (tenantID : string) (s : MemoryTenantStore) : option Tenant :=
  tb_Tenant <$> LookupByTenantID s (d_order d) tenantID.

Definition adapter_AddAPIKey (d : draw) (tenantID accessKey secretKey : string) (s : MemoryTenantStore)
    : result key_error MemoryTenantStore :=
  match LookupByTenantID s (d_order d) tenantID with
  | None => Err KeyTenantNotFound
  | Some b =>
      if bool_decide (is_Some (LookupByAccessKey s accessKey)) then Err KeyAlreadyBound
      else match AddBinding (mkTenantBinding accessKey secretKey (tb_Tenant b)) s with
           | Ok s => Ok s
           | Err e => Err (KeyRejected e)
           end
  end.

(** [MemoryTokenStore.IssueToken] *)
Definition IssueToken_memory (rnd : option string) (tenantID : string) (w : World) : option string * World :=
  match rnd with
  | None => (None, w)
  | Some buf =>
      let token := Signing.EncodeToString buf in
      (Some token, mkWorld (w_users w) (w_tenants w) (<[token := tenantID]> (w_tokens w)) (w_refresh w) (w_mfa w) (w_mail w))
  end.

Definition ResolveToken (token : string) (w : World) : option string := w_tokens w !! token.

(** [defaultTenantIDGenerator], [defaultKeyGenerator], [newVerificationToken] and [generateRecoveryCodes] *)
Definition defaultTenantIDGenerator (rnd : option string) : option string :=
  (λ b, "t-" +:+ Signing.EncodeToString b) <$> rnd.
Definition defaultKeyGenerator (rnd : option (string * string)) : option (string * string) :=
  (λ b, (Signing.EncodeToString b.1, Signing.EncodeToString b.2)) <$> rnd.
Definition newVerificationToken (rnd : option string) : option string := Signing.EncodeToString <$> rnd.
Definition generateRecoveryCodes (rnd : option (list bytes)) : option (list string) :=
  option_map (map Base32.EncodeToString) rnd.

Definition do_acall {A} (ch : chance) (c : acall A) (w : World) : A * World :=
  let d := ch_draw ch in
  match c in acall A return A * World with
  | Now => (d_now d, w)
  | NewTenantID => (defaultTenantIDGenerator (ch_bytes ch), w)
  | GenerateKey => (defaultKeyGenerator (ch_key ch), w)
  | NewVerificationToken => (newVerificationToken (ch_bytes ch), w)
  | NewTOTPSecret => (Totp.newTOTPSecret (String.list_ascii_of_string <$> ch_bytes ch), w)
  | RecoveryCodes => (generateRecoveryCodes (ch_codes ch), w)
  | GenerateFromPassword pw => (salt ← ch_bytes ch; GenerateWithSalt salt pw, w)
  | VerifyCAPTCHA _ => (ch_flag ch, w)
  | ResolveOAuth _ => (ch_subject ch, w)
  | SendVerificationEmail e t tok =>
      (ch_flag ch, if ch_flag ch then mkWorld (w_users w) (w_tenants w) (w_tokens w) (w_refresh w) (w_mfa w) ((e, t, tok) :: w_mail w) else w)
  | ALookupUser e => (LookupUser e (w_users w), w)
  | ACreateUser e hash t => written set_users w (CreateUser e hash t (w_users w))
  | ADeleteUser e => written set_users w (DeleteUser e (w_users w))
  | ASetVerificationToken t tok => written set_users w (SetVerificationToken (d_order d) t tok (w_users w))
  | AConsumeVerificationToken tok =>
      match ConsumeVerificationToken (d_order d) tok (w_users w) with
      | Ok (t, u) => (Ok t, set_users u w)
      | Err e => (Err e, w)
      end
  | LookupTenant t => (adapter_LookupTenant d t (w_tenants w), w)
  | ACreateTenant t => written set_tenants w (CreateTenant t (w_tenants w))
  | ADeleteTenant t => written set_tenants w (DeleteTenant t (w_tenants w))
  | AddAPIKey t ak sk => written set_tenants w (adapter_AddAPIKey d t ak sk (w_tenants w))
  | IssueToken t => IssueToken_memory (ch_bytes ch) t w
  | RIssue t => updated set_refresh w (Issue d t (w_refresh w))
  | RRotate raw => updated set_refresh w (Rotate d raw (w_refresh w))
  | RRevoke raw => updated set_refresh w (Revoke d raw (w_refresh w))
  | RRevokeAllForTenant t => updated set_refresh w (RevokeAllForTenant d t (w_refresh w))
  | MBeginEnrollment t x => updated set_mfa w (BeginEnrollment d t x (w_mfa w))
  | MGetMFA t => (GetMFA d t (w_mfa w), w)
  | MActivate t x st hs => updated set_mfa w (Activate d t x st hs (w_mfa w))
  | MMarkTOTPStep t st => updated set_mfa w (MarkTOTPStep d t st (w_mfa w))
  | MConsumeRecoveryCode t hash => updated set_mfa w (ConsumeRecoveryCode d t hash (w_mfa w))
  | MDisable t => updated set_mfa w (Disable d t (w_mfa w))
  | MDisablePending t => updated set_mfa w (DisablePending d t (w_mfa w))
  | EmitTenantCreated _ _ => ((), w)
  | EnsureCustomer _ _ _ => (ch_flag ch, w)
  end.

(** A program by itself; the calls meet one chance each. *)
Fixpoint aexec {R} (p : aprog R) (cs : nat → chance) (w : World) : R * World :=
  match p with
  | ARet r => (r, w)
  | ACall c k => let '(a, w') := do_acall (cs 0%nat) c w in aexec (k a) (λ n, cs (S n)) w'
  end.

End world.
End ConsoleWorld.

(** ** A small instance

    Cryptography, case tables and hashes simple enough to evaluate, at which the
    theorems are applied. *)

Module ConsoleExample.
#[export] Instance ex_crypto : SigCrypto := {| sha256 d := d; hmacSHA256 k d := k +:+ d |}.
#[export] Instance ex_case : CaseTables := {| toLower s := s; toUpper s := s |}.
#[export] Instance ex_case_laws : CaseLaws := {| toUpper_capitals _ _ := eq_refl |}.
#[export] Instance ex_bcrypt : Bcrypt :=
  {| GenerateWithSalt salt pw := Some ("$" +:+ pw); CompareHashAndPassword hash pw := bool_decide (hash = "$" +:+ pw) |}.

Lemma ex_hmac_size (key msg : bytes) : length (take 20 (key ++ msg ++ replicate 20 zero_byte)) = 20%nat.
Proof. rewrite length_take, !length_app, length_replicate. lia. Qed.
#[export] Instance ex_hmac : HmacSHA1 :=
  {| hmacSHA1 key msg := take 20 (key ++ msg ++ replicate 20 zero_byte); hmacSHA1_size := ex_hmac_size |}.

Definition ex_config : AuthConfig := mkAuthConfig true true true true "zk" false true false false false.
Definition ex_draw (now : Z) (family raw : string) : draw := mkDraw now (Some family) (Some raw) (λ _, false) ["user@example.org"].
End ConsoleExample.
