(* ===== verification/ConsoleSafety.v ===== *)
(** * Who gets a session, and how it ends

    Theorems about the handlers of [ConsoleAuth] and every run of a request,
    whatever its calls answer, so that they hold however requests overlap and
    whichever stores fail: what a request has shown that is issued a token, or that
    removes a second factor. *)

From S2P Require Import Prelude Bytes GoStrings Tenants SigV4 Totp ConsoleStores ConsoleAuth.
Import Users Refresh Mfa.
Local Open Scope Z_scope.

(** ** Runs with arbitrary answers *)

Module ConsoleRuns.

Inductive event : Type :=
| Ev {A : Type} (c : acall A) (a : A).

(** [tr] lists the calls of a run with their answers. *)
Fixpoint runs {R} (p : aprog R) (tr : list event) (r : R) : Prop :=
  match p with
  | ARet x => tr = [] ∧ r = x
  | ACall c k => ∃ a tr', tr = Ev c a :: tr' ∧ runs (k a) tr' r
  end.

Lemma runs_bind {R R'} (p : aprog R) (f : R → aprog R') tr r :
  runs (abind p f) tr r → ∃ tr1 tr2 x, tr = tr1 ++ tr2 ∧ runs p tr1 x ∧ runs (f x) tr2 r.
Proof.
  revert tr. induction p as [x|A c k IH]; intros tr; simpl.
  - intros H. exists [], tr, x. done.
  - intros (a & tr' & -> & H). destruct (IH a tr' H) as (tr1 & tr2 & x & -> & H1 & H2).
    exists (Ev c a :: tr1), tr2, x. split_and!; [done|by exists a, tr1|done].
Qed.

Section runs.
Context `{!CaseTables, !HmacSHA1, !SigCrypto, !Bcrypt}.
Context (h : AuthConfig).

(** The events of interest: a token issued, an enrollment removed. *)
Definition issues (t : string) (e : event) : Prop :=
  match e with Ev c a => match c in acall A return A → Prop with IssueToken t' => λ a, is_Some a ∧ t' = t | _ => λ _, False end a end.
Definition disables (t : string) (e : event) : Prop :=
  match e with Ev c a => match c in acall A return A → Prop with MDisable t' => λ _, t' = t | _ => λ _, False end a end.

(** What can stand for a session in the answers of the stores. *)
Definition password_shown (t password : string) (tr : list event) : Prop :=
  ∃ email hash, Ev (ALookupUser email) (Some (hash, t)) ∈ tr ∧ hash ≠ "" ∧ HasPrefix hash "oauth:" = false ∧
    CompareHashAndPassword hash password = true.

Definition factor_shown (t totpCode recoveryCode : string) (tr : list event) : Prop :=
  Ev (MConsumeRecoveryCode t (hashRecoveryCode (TrimSpace recoveryCode))) (Ok true) ∈ tr ∨
  ∃ rec now step, Ev (MGetMFA t) (Ok (Some rec)) ∈ tr ∧ Ev Now now ∈ tr ∧
    Totp.totpVerify (Secret rec) (TrimSpace totpCode) now = Some step ∧ Ev (MMarkTOTPStep t step) (Ok true) ∈ tr.

Definition no_factor_needed (t : string) (tr : list event) : Prop :=
  has_MFA h = false ∨ Ev (MGetMFA t) (Ok None) ∈ tr ∨ ∃ rec, Ev (MGetMFA t) (Ok (Some rec)) ∈ tr ∧ Active rec = false.

Definition signed_up (t : string) (tr : list event) : Prop :=
  Ev NewTenantID (Some t) ∈ tr ∧ ∃ name email hash,
    Ev (ACreateTenant (defaultB2CTenant t name)) (Ok ()) ∈ tr ∧ Ev (ACreateUser email hash t) (Ok ()) ∈ tr.

Definition refreshed (t : string) (tr : list event) : Prop :=
  ∃ raw tok tn, Ev (RRotate raw) (Ok tok) ∈ tr ∧ TenantID tok = t ∧ Ev (LookupTenant t) (Some tn) ∈ tr.

Definition entitled (r : Request) (t : string) (tr : list event) : Prop :=
  signed_up t tr ∨ refreshed t tr ∨
  ∃ req, as_login r = Ok req ∧ password_shown t (lr_Password req) tr ∧
    (no_factor_needed t tr ∨ factor_shown t (lr_TOTPCode req) (lr_RecoveryCode req) tr).

(** An event that neither issues a token nor removes an enrollment. *)
Definition quiet (e : event) : Prop := ∀ t, ¬ issues t e ∧ ¬ disables t e.

Lemma quiet_none tr t : Forall quiet tr → ¬ Exists (issues t) tr ∧ ¬ Exists (disables t) tr.
Proof.
  intros Hq. split; intros [e [Hin He]]%Exists_exists; rewrite Forall_forall in Hq; by destruct (Hq e Hin t).
Qed.

#[local] Ltac run_step :=
  match goal with
  | H : runs (ARet _) _ _ |- _ => destruct H as [? ?]; simplify_eq
  | H : runs (ACall _ _) _ _ |- _ => let a := fresh "a" in let tr := fresh "tr" in destruct H as (a & tr & -> & H)
  | H : runs (abind _ _) _ _ |- _ => apply runs_bind in H as (? & ? & ? & -> & ? & ?)
  | H : runs (if ?b then _ else _) _ _ |- _ => destruct b eqn:?
  | H : runs (match ?x with _ => _ end) _ _ |- _ => destruct x eqn:?
  | H : runs (let _ := _ in _) _ _ |- _ => cbv zeta in H
  end.
#[local] Ltac run_all := repeat (run_step; simplify_eq).
#[local] Ltac quiet_tac := repeat first [apply Forall_nil | apply Forall_cons; split; [intros ?; simpl; tauto|] | apply Forall_app; split | done | eassumption].

#[local] Ltac ev_in :=
  lazymatch goal with
  | |- _ ∈ _ :: _ => first [apply list_elem_of_here | apply list_elem_of_further; ev_in]
  | |- _ ∈ _ ++ _ => apply elem_of_app; first [left; ev_in | right; ev_in]
  | _ => eassumption
  end.

Lemma check_factor t rec totp code tr a :
  runs (checkSecondFactor t rec totp code) tr a →
  Forall quiet tr ∧
  (a = Ok true →
   Ev (MConsumeRecoveryCode t (hashRecoveryCode (TrimSpace code))) (Ok true) ∈ tr ∨
   ∃ now step, Ev Now now ∈ tr ∧ Totp.totpVerify (Secret rec) (TrimSpace totp) now = Some step ∧ Ev (MMarkTOTPStep t step) (Ok true) ∈ tr).
Proof.
  unfold checkSecondFactor. intros Hr. cbv zeta in Hr. run_all; (split; [quiet_tac|]); intros Ha; simplify_eq.
  - left. ev_in.
  - right. do 2 eexists. split_and!; [ev_in|done|ev_in].
Qed.

Lemma enforce_factor t totp code tr a :
  runs (enforceSecondFactor h t totp code) tr a →
  Forall quiet tr ∧ (a = None → no_factor_needed t tr ∨ factor_shown t totp code tr).
Proof.
  unfold enforceSecondFactor. intros Hr. run_all;
    try match goal with Hc : runs (checkSecondFactor _ _ _ _) _ _ |- _ => apply check_factor in Hc as [Hq Hf] end;
    (split; [quiet_tac|]); intros; simplify_eq. 
  - left. left. by apply negb_true_iff.
  - left. right. right. eexists. split; [ev_in|by apply negb_true_iff].
  - right. destruct (Hf eq_refl) as [Hin|(now & step & Hn & Hv & Hm)]; [left; ev_in|].
    right. do 3 eexists. split_and!; [ev_in|ev_in|done|ev_in].
  - left. right. left. ev_in.
Qed.

Lemma issue_refresh_quiet t tr a : runs (issueRefreshToken h t) tr a → Forall quiet tr.
Proof. unfold issueRefreshToken. intros Hr. run_all; quiet_tac. Qed.

Lemma rollback_quiet e t r tr a :
  runs (rollbackTenant t r) tr a ∨ runs (rollbackUserAndTenant e t r) tr a → Forall quiet tr.
Proof. unfold rollbackUserAndTenant, rollbackTenant. intros [Hr|Hr]; run_all; quiet_tac. Qed.

Lemma credential_quiet req t tr a : runs (signup_credential h req t) tr a → Forall quiet tr.
Proof. unfold signup_credential, rollbackTenant. intros Hr. run_all; quiet_tac. Qed.

Lemma verification_quiet e t tr a : runs (signup_verification h e t) tr a → Forall quiet tr.
Proof. unfold signup_verification, rollbackUserAndTenant, rollbackTenant. intros Hr. run_all; quiet_tac. Qed.


(** Only this tenant is issued a token, and nothing is disabled. *)
Definition issues_for (Q : string → Prop) (tr : list event) : Prop :=
  ∀ t, (Exists (issues t) tr → Q t) ∧ ¬ Exists (disables t) tr.

Lemma issues_for_quiet Q tr : Forall quiet tr → issues_for Q tr.
Proof. intros Hq t. destruct (quiet_none tr t Hq). naive_solver. Qed.

Lemma issues_for_cons (Q : string → Prop) t (a : option string) tr :
  Q t → issues_for Q tr → issues_for Q (Ev (IssueToken t) a :: tr).
Proof. intros Ht Hq t'. destruct (Hq t') as [H3 H4]. rewrite !Exists_cons. simpl. naive_solver. Qed.

Lemma issues_for_app Q tr1 tr2 : issues_for Q tr1 → issues_for Q tr2 → issues_for Q (tr1 ++ tr2).
Proof. intros Hq1 Hq2 t. rewrite !Exists_app. specialize (Hq1 t). specialize (Hq2 t). naive_solver. Qed.

Lemma issues_for_quiet_cons Q e tr : quiet e → issues_for Q tr → issues_for Q (e :: tr).
Proof. intros He Hq t. rewrite !Exists_cons. specialize (Hq t). specialize (He t). naive_solver. Qed.

Lemma issues_for_mono (Q Q' : string → Prop) tr : issues_for Q tr → (∀ t, Q t → Q' t) → issues_for Q' tr.
Proof. intros Hq HQ t. specialize (Hq t). naive_solver. Qed.

#[local] Ltac use_quiet :=
  repeat match goal with
  | Hq : runs (issueRefreshToken _ _) _ _ |- _ => apply issue_refresh_quiet in Hq
  | Hq : runs (rollbackTenant ?t ?r) ?tr ?a |- _ => apply (or_introl (B := runs (rollbackUserAndTenant "" t r) tr a)), rollback_quiet in Hq
  | Hq : runs (rollbackUserAndTenant ?e ?t ?r) ?tr ?a |- _ => apply (or_intror (A := runs (rollbackTenant t r) tr a)), rollback_quiet in Hq
  | Hq : runs (signup_credential _ _ _) _ _ |- _ => apply credential_quiet in Hq
  | Hq : runs (signup_verification _ _ _) _ _ |- _ => apply verification_quiet in Hq
  end.

Lemma signup_finish_runs (Q : string → Prop) e n t ak sk nt tr a :
  Q t → runs (signup_finish h e n t ak sk nt) tr a → issues_for Q tr.
Proof.
  intros Ht. unfold signup_finish. intros Hr. run_all; use_quiet; (apply issues_for_cons; [done|]); apply issues_for_quiet; quiet_tac.
Qed.

#[local] Ltac issues_tac :=
  repeat first [apply issues_for_quiet_cons; [intros ?; simpl; tauto|] | apply issues_for_app; [apply issues_for_quiet; quiet_tac|]];
  try solve [apply issues_for_quiet; quiet_tac].

Lemma signup_create_runs req e n tr a :
  runs (signup_create h req e n) tr a → issues_for (λ t, signed_up t tr) tr.
Proof.
  unfold signup_create. intros Hr. run_all; use_quiet; issues_tac.
  repeat match goal with u : () |- _ => destruct u end.
  eapply signup_finish_runs; [|eassumption]. split; [ev_in|]. do 3 eexists. split; ev_in.
Qed.

Lemma signup_runs req tr a : runs (signup h req) tr a → issues_for (λ t, signed_up t tr) tr.
Proof.
  unfold signup. intros Hr. run_all; issues_tac; try (by eapply signup_create_runs).
  eapply issues_for_mono; [by eapply signup_create_runs|].
  intros t (Hn & name & email & hash & H3 & H4). split; [ev_in|]. do 3 eexists. split; ev_in.
Qed.

Lemma password_opens_shown email user password t tr :
  password_opens user password = Some t → password_shown t password (Ev (ALookupUser email) user :: tr).
Proof.
  unfold password_opens. destruct user as [[hash t']|]; [|done].
  destruct (bool_decide (hash = "") || HasPrefix hash "oauth:") eqn:E; [done|].
  apply orb_false_iff in E as [E1%bool_decide_eq_false E2]. destruct (CompareHashAndPassword hash password) eqn:E3; [|done].
  intros [= ->]. exists email, hash. split_and!; [ev_in|done..].
Qed.

Lemma factor_mono t totp code tr tr' : tr ⊆ tr' → factor_shown t totp code tr → factor_shown t totp code tr'.
Proof.
  intros Hsub [Hf|(rec & now & step & H3 & H4 & H5 & H6)]; [left; by apply Hsub|].
  right. exists rec, now, step. split_and!; [by apply Hsub..|done|by apply Hsub].
Qed.

Lemma factors_mono t totp code tr tr' :
  tr ⊆ tr' → no_factor_needed t tr ∨ factor_shown t totp code tr → no_factor_needed t tr' ∨ factor_shown t totp code tr'.
Proof.
  intros Hsub [[Hn|[Hn|(rec & Hn & Ha)]]|Hf].
  - left. by left.
  - left. right. left. by apply Hsub.
  - left. right. right. exists rec. split; [by apply Hsub|done].
  - right. by eapply factor_mono.
Qed.

Lemma login_runs req tr a :
  runs (login h req) tr a →
  issues_for (λ t, ∃ req', req = Ok req' ∧ password_shown t (lr_Password req') tr ∧
    (no_factor_needed t tr ∨ factor_shown t (lr_TOTPCode req') (lr_RecoveryCode req') tr)) tr.
Proof.
  unfold login. intros Hr. run_all;
    repeat match goal with Hc : runs (enforceSecondFactor _ _ _ _) _ _ |- _ => apply enforce_factor in Hc as [? ?] end;
    use_quiet; issues_tac; (apply issues_for_cons; [|apply issues_for_quiet; quiet_tac]);
    (eexists; split_and!; [done|by eapply password_opens_shown|]);
    (eapply factors_mono; [|eauto]); intros e Hin; ev_in.
Qed.

Lemma refresh_runs req tr a : runs (refresh h req) tr a → issues_for (λ t, refreshed t tr) tr.
Proof.
  unfold refresh. intros Hr. run_all; issues_tac; (apply issues_for_cons; [|apply issues_for_quiet; quiet_tac]);
    do 3 eexists; split_and!; [ev_in|done|ev_in|ev_in|done|ev_in].
Qed.

Lemma mfa_auth_runs req tr a :
  runs (authenticateMFARequest req) tr a →
  Forall quiet tr ∧ ∀ t req', a = Ok (t, req') → ∃ req0, req = Ok req0 ∧ password_shown t (mr_Password req0) tr ∧
    mr_TOTPCode req' = mr_TOTPCode req0 ∧ mr_RecoveryCode req' = mr_RecoveryCode req0.
Proof.
  unfold authenticateMFARequest. intros Hr. run_all; (split; [quiet_tac|]); intros; simplify_eq.
  eexists. split_and!; [done|by eapply password_opens_shown|done|done].
Qed.

(** A guarded request: the guard is quiet, and what follows ran for a caller who gave the password. *)
Lemma mfa_guarded_runs req k tr a :
  runs (mfa_guarded h req k) tr a →
  Forall quiet tr ∨ ∃ tr1 tr2 t req' req0, tr = tr1 ++ tr2 ∧ runs (k t req') tr2 a ∧ Forall quiet tr1 ∧ req = Ok req0 ∧
    password_shown t (mr_Password req0) tr1 ∧ mr_TOTPCode req' = mr_TOTPCode req0 ∧ mr_RecoveryCode req' = mr_RecoveryCode req0.
Proof.
  unfold mfa_guarded. intros Hr. run_all;
    repeat match goal with Hc : runs (authenticateMFARequest _) _ _ |- _ => apply mfa_auth_runs in Hc as [? Hauth] end;
    try solve [left; quiet_tac].
  right. destruct (Hauth _ _ eq_refl) as (req0 & ? & ? & ? & ?). do 5 eexists. split_and!; done.
Qed.

Lemma mfa_enroll_activate_quiet req tr a :
  runs (mfaEnroll h req) tr a ∨ runs (mfaActivate h req) tr a → Forall quiet tr.
Proof.
  unfold mfaEnroll, mfaActivate. intros [Hr|Hr]; apply mfa_guarded_runs in Hr as [?|(tr1 & tr2 & t & req' & req0 & -> & Hr & Hq & _)];
    try done; run_all; quiet_tac.
Qed.

(** The events that remove an enrollment are those of a caller who showed the second factor. *)
Definition removes_for (Q : string → Prop) (tr : list event) : Prop :=
  ∀ t, (Exists (disables t) tr → Q t) ∧ ¬ Exists (issues t) tr.

Lemma removes_for_quiet Q tr : Forall quiet tr → removes_for Q tr.
Proof. intros Hq t. destruct (quiet_none tr t Hq). naive_solver. Qed.

Lemma removes_for_quiet_app Q tr tr' : Forall quiet tr → removes_for Q tr' → removes_for Q (tr ++ tr').
Proof. intros Hq%(removes_for_quiet Q) Hr t. rewrite !Exists_app. specialize (Hq t). specialize (Hr t). naive_solver. Qed.

Lemma removes_for_mono (Q Q' : string → Prop) tr : removes_for Q tr → (∀ t, Q t → Q' t) → removes_for Q' tr.
Proof. intros Hq HQ t. specialize (Hq t). naive_solver. Qed.

Lemma disable_active_runs t req rec tr0 tr a :
  Ev (MGetMFA t) (Ok (Some rec)) ∈ tr0 → runs (disable_active t req rec) tr a →
  removes_for (λ t', t' = t ∧ factor_shown t (mr_TOTPCode req) (mr_RecoveryCode req) (tr0 ++ tr)) tr.
Proof.
  intros Hget. unfold disable_active. intros Hr. run_all;
    repeat match goal with Hc : runs (checkSecondFactor _ _ _ _) _ _ |- _ => apply check_factor in Hc as [? Hf] end;
    try solve [apply removes_for_quiet; quiet_tac];
    (apply removes_for_quiet_app; [done|]); intros t'; rewrite !Exists_cons, !Exists_nil; simpl;
    (split; [|tauto]); intros [<-|[]]; (split; [done|]);
    (destruct (Hf eq_refl) as [Hin|(now & step & Hn & Hv & Hm)]; [left; ev_in|]);
    right; do 3 eexists; (split_and!; [ev_in|ev_in|done|ev_in]).
Qed.

Lemma mfa_disable_runs req tr a :
  runs (mfaDisable h req) tr a →
  removes_for (λ t, ∃ req0, req = Ok req0 ∧ password_shown t (mr_Password req0) tr ∧
    factor_shown t (mr_TOTPCode req0) (mr_RecoveryCode req0) tr) tr.
Proof.
  unfold mfaDisable. intros Hr.
  apply mfa_guarded_runs in Hr as [?|(tr1 & tr2 & t & req' & req0 & -> & Hr & Hq & -> & Hpw & Ht & Hrec)];
    [by apply removes_for_quiet|].
  apply removes_for_quiet_app; [done|].
  assert (∀ tr2 t', t' = t ∧ factor_shown t (mr_TOTPCode req') (mr_RecoveryCode req') tr2 →
    ∃ req1 : mfaRequest, Ok (E := decode_error) req0 = Ok req1 ∧ password_shown t' (mr_Password req1) (tr1 ++ tr2) ∧
      factor_shown t' (mr_TOTPCode req1) (mr_RecoveryCode req1) (tr1 ++ tr2)) as Hdone.
  { intros tr3 t' [-> Hf]. exists req0. split; [done|]. rewrite <- Ht, <- Hrec. split.
    - destruct Hpw as (email & hash & Hin & Hrest). exists email, hash. split; [ev_in|done].
    - eapply factor_mono; [|done]. intros e Hin. ev_in. }
  run_all; try solve [apply removes_for_quiet; quiet_tac].
  - apply (removes_for_quiet_app _ [_]); [quiet_tac|]. eapply removes_for_mono; [eapply (disable_active_runs _ _ _ [_]); [|done]; ev_in|].
    intros t'. apply Hdone.
  - apply (removes_for_quiet_app _ [_; _; _]); [quiet_tac|].
    eapply removes_for_mono; [eapply (disable_active_runs _ _ _ [Ev (MGetMFA t) (Ok (Some m)); Ev (MDisablePending t) (Ok false); Ev (MGetMFA t) (Ok (Some m0))]); [|done]; ev_in|]. intros t'. apply Hdone.
Qed.

(** C33: No session without its credentials. Whatever the stores and hooks answer, and however requests overlap, a
    request that is issued an access token for a tenant has just signed that tenant up, or has exchanged a refresh
    token of the tenant, or is a login that showed the password of a user of the tenant and, unless the tenant has no
    active second factor, a recovery code or a code of the authenticator that the store accepted. *)
Theorem session_needs_credentials r tr resp t :
  runs (dispatch h r) tr resp → Exists (issues t) tr → entitled r t tr.
Proof.
  assert (∀ tr', Forall quiet tr' → Exists (issues t) tr' → entitled r t tr') as Hquiet.
  { intros tr' Hq Hx. by destruct (quiet_none tr' t Hq). }
  unfold dispatch, post. intros Hr Hx. run_all; try (by apply Hquiet; [quiet_tac|]).
  - left. by apply (signup_runs _ _ _ Hr).
  - right. right. by apply (login_runs _ _ _ Hr).
  - unfold verify in Hr. run_all; apply Hquiet; try done; quiet_tac.
  - right. left. by apply (refresh_runs _ _ _ Hr).
  - unfold logout in Hr. run_all; apply Hquiet; try done; quiet_tac.
  - apply Hquiet; [|done]. eapply mfa_enroll_activate_quiet. by left.
  - apply Hquiet; [|done]. eapply mfa_enroll_activate_quiet. by right.
  - by destruct (mfa_disable_runs _ _ _ Hr t) as [_ []].
Qed.


End runs.

(** A login and a removal with a recovery code. *)
Section example.
Import ConsoleExample.

Definition ex_shown : list event :=
  [Ev (ALookupUser "u@x") (Some ("$secret-word", "t"))].
Definition ex_factor : list event :=
  [Ev (MGetMFA "t") (Ok (Some (mkMFARecord "S" true 7 1))); Ev (MConsumeRecoveryCode "t" (hashRecoveryCode "ABC")) (Ok true)].

Definition ex_login_run : list event :=
  ex_shown ++ [Ev (LookupTenant "t") (Some (defaultB2CTenant "t" "n"))] ++ ex_factor ++
  [Ev (IssueToken "t") (Some "token"); Ev (RIssue "t") (Ok (mkRefreshToken "raw" "t" 9))].
Definition ex_disable_run : list event := ex_shown ++ ex_factor ++ [Ev (MDisable "t") (Ok ())].

Definition ex_request (path : string) : Request :=
  mkRequest "POST" path (Err PayloadMalformed) (Ok (mkLoginRequest "u@x" "secret-word" "" "ABC")) (Err PayloadMalformed)
    (Err PayloadMalformed) (Ok (mkMfaRequest "u@x" "secret-word" "" "ABC")).

#[local] Ltac by_run := repeat (hnf; first [split; reflexivity | refine (ex_intro _ _ (ex_intro _ _ (conj eq_refl _)))]).

Lemma session_needs_credentials_witness :
  entitled ex_config (ex_request "/api/v1/auth/login") "t" ex_login_run ∧ Exists (issues "t") ex_login_run.
Proof.
  assert (Exists (issues "t") ex_login_run) as Hx.
  { unfold ex_login_run, ex_shown, ex_factor. simpl. do 4 right. left. by split; [eexists|]. }
  split; [|done].
  refine (session_needs_credentials ex_config (ex_request "/api/v1/auth/login") ex_login_run
    (mkResponse 200 (Session (mkAuthResponse (summarizeTenant (defaultB2CTenant "t" "n")) "token" "" "" zero_time "raw" 9))) "t" _ Hx).
  by_run.
Defined.

End example.
End ConsoleRuns.
