(* ===== verification/ConsoleSessions.v ===== *)
(** * Sign-up, login and authenticators in the world

    Requests of the console run one after the other in the world of [ConsoleAuth]:
    a sign-up happens entirely or not at all, the credentials it handed out open a
    session, and so do the codes of an authenticator that was enrolled through the
    console. *)

From S2P Require Import Prelude Bytes GoStrings Tenants SigV4 Totp ConsoleStores ConsoleAuth.
Import Users Refresh Mfa.
Local Open Scope Z_scope.

Module Sessions.
Import ConsoleWorld TenantDirectory.

(** What [bcrypt] documents: a password matches the hashes drawn for it, and a hash
    starts with a dollar sign. *)
Class BcryptLaws `{!Bcrypt} := {
  Compare_Generate salt pw hash : GenerateWithSalt salt pw = Some hash → CompareHashAndPassword hash pw = true;
  Generate_shape salt pw hash : GenerateWithSalt salt pw = Some hash → HasPrefix hash "$" = true
}.

(** ** Tenants and users that are created and taken back *)

Lemma create_tenant_spec T s s1 :
  CreateTenant T s = Ok s1 →
  tn_ID T ≠ "" ∧ tn_ID T ∉ tenant_ids s ∧ s1 = mkMemoryTenantStore (byAccess s) (<[tn_ID T := T]> (tenants s)).
Proof.
  unfold CreateTenant. case_bool_decide as H1; [done|]. case_bool_decide as H2; [done|].
  destruct (bool_decide (filter _ _ = _)) eqn:H3; [|done]. apply bool_decide_eq_true in H3. intros [= <-].
  split_and!; [done| |done]. intros [Hin|Hin]%elem_of_union; [|by apply elem_of_dom in Hin].
  apply elem_of_list_to_set, list_elem_of_fmap in Hin as ([k b] & Heq & Hb%elem_of_map_to_list).
  assert (filter (λ kb, bound_to (tn_ID T) kb.2 = true) (byAccess s) !! k = Some b) as Hf.
  { apply map_lookup_filter_Some. split; [done|]. by apply bool_decide_eq_true. }
  by rewrite H3, lookup_empty in Hf.
Qed.

Lemma unknown_unbound t s k b : t ∉ tenant_ids s → byAccess s !! k = Some b → bound_to t b = false.
Proof.
  intros Ht Hb. apply bool_decide_eq_false. intros <-. apply Ht, elem_of_union_l, elem_of_list_to_set, list_elem_of_fmap.
  exists (k, b). split; [done|]. by apply elem_of_map_to_list.
Qed.

Lemma unknown_unnamed t s : t ∉ tenant_ids s → tenants s !! t = None.
Proof. intros Ht. apply eq_None_not_Some. intros Hx. apply Ht, elem_of_union_r. by apply elem_of_dom. Qed.

(** Deleting an unknown tenant and its one key. *)
Lemma delete_fresh_tenant t T s bs :
  t ≠ "" → t ∉ tenant_ids s → bs = byAccess s ∨ (∃ k b, bs = <[k := b]> (byAccess s) ∧ byAccess s !! k = None ∧ bound_to t b = true) →
  DeleteTenant t (mkMemoryTenantStore bs (<[t := T]> (tenants s))) = Ok s.
Proof.
  intros Hne Ht Hbs. unfold DeleteTenant. rewrite bool_decide_eq_false_2 by done. simpl.
  rewrite delete_insert_id by by apply unknown_unnamed.
  assert (filter (λ kb, bound_to t kb.2 = false) (byAccess s) = byAccess s) as Hid.
  { apply map_filter_id. intros k b Hb. by eapply unknown_unbound. }
  destruct s as [ba ts]. simpl in *. destruct Hbs as [->|(k & b & -> & Hk & Hb)].
  - by rewrite Hid.
  - rewrite map_filter_insert_False by (simpl; by rewrite Hb). rewrite delete_id by done. by rewrite Hid.
Qed.

Lemma fresh_lookup t T s order :
  t ∉ tenant_ids s →
  LookupByTenantID (mkMemoryTenantStore (byAccess s) (<[t := T]> (tenants s))) order t = Some (mkTenantBinding "" "" T).
Proof.
  intros Ht. unfold LookupByTenantID, bindings_of. simpl. rewrite filter_none; [by rewrite lookup_insert_eq|].
  apply Forall_forall. intros b (k & _ & Hb)%list_elem_of_omap. rewrite (unknown_unbound _ _ _ _ Ht Hb). done.
Qed.

(** With its one key the tenant is found, whichever order the map is iterated in. *)
Lemma bound_lookup t T s ak sk d :
  t ∉ tenant_ids s → tn_ID T = t →
  adapter_LookupTenant d t (mkMemoryTenantStore (<[ak := mkTenantBinding ak sk T]> (byAccess s)) (<[t := T]> (tenants s))) = Some T.
Proof.
  intros Ht HT. unfold adapter_LookupTenant, LookupByTenantID.
  destruct (bindings_of _ _ _) as [|b bs] eqn:E; simpl; [by rewrite lookup_insert_eq|].
  assert (b ∈ b :: bs) as Hin by left. rewrite <- E in Hin. unfold bindings_of in Hin.
  apply list_elem_of_filter in Hin as [Hbound (k & _ & Hb)%list_elem_of_omap]. simpl in Hb.
  apply lookup_insert_Some in Hb as [[_ <-]|[_ Hb]]; [done|].
  by rewrite (unknown_unbound _ _ _ _ Ht Hb) in Hbound.
Qed.

Lemma add_key_spec T s d ak sk s2 :
  tn_ID T ∉ tenant_ids s →
  adapter_AddAPIKey d (tn_ID T) ak sk (mkMemoryTenantStore (byAccess s) (<[tn_ID T := T]> (tenants s))) = Ok s2 →
  byAccess s !! ak = None ∧
  s2 = mkMemoryTenantStore (<[ak := mkTenantBinding ak sk T]> (byAccess s)) (<[tn_ID T := T]> (tenants s)).
Proof.
  intros Ht. unfold adapter_AddAPIKey. rewrite fresh_lookup by done. unfold LookupByAccessKey, AddBinding. simpl.
  case_bool_decide as Hk; [done|]. repeat case_bool_decide; try done. intros [= <-]. split; [|done].
  by apply eq_None_not_Some.
Qed.

Section users.
Context `{!CaseTables}.

Lemma create_user_spec e hash t u u1 :
  CreateUser e hash t u = Ok u1 →
  e ≠ "" ∧ u !! toLower e = None ∧ u1 = <[toLower e := mkMemoryAuthRow hash t false ""]> u.
Proof.
  unfold CreateUser. case_bool_decide; [done|]. case_bool_decide as Hu; [done|]. intros [= <-].
  split_and!; [done|by apply eq_None_not_Some|done].
Qed.

Lemma delete_fresh_user e row u : e ≠ "" → u !! toLower e = None → DeleteUser e (<[toLower e := row]> u) = Ok u.
Proof. intros He Hu. unfold DeleteUser. rewrite bool_decide_eq_false_2 by done. by rewrite delete_insert_id. Qed.

Lemma first_row_spec f order s e row : first_row f order s = Some (e, row) → s !! e = Some row ∧ f row = true.
Proof.
  induction order as [|e' order IH]; simpl; [done|]. destruct (s !! e') as [row'|] eqn:E; [|done].
  destruct (f row') eqn:Hf; [|done]. by intros [= -> ->].
Qed.

(** The token is set in the row of the new user, as no other user is of the tenant. *)
Lemma set_token_spec order e t tok row u u2 :
  (∀ e' row', u !! e' = Some row' → au_TenantID row' ≠ t) →
  SetVerificationToken order t tok (<[e := row]> u) = Ok u2 →
  u2 = <[e := mkMemoryAuthRow (au_PasswordHash row) (au_TenantID row) (au_Verified row) tok]> u.
Proof.
  intros Hno. unfold SetVerificationToken. case_bool_decide; [done|]. case_bool_decide; [done|].
  destruct (first_row _ _ _) as [[e' row']|] eqn:E; [|done]. intros [= <-].
  apply first_row_spec in E as [Hr Hf%bool_decide_eq_true].
  apply lookup_insert_Some in Hr as [[<- <-]|[_ Hr]]; [by rewrite insert_insert_eq|]. by apply Hno in Hr.
Qed.

End users.

(** ** Sign-up *)

Section world.
Context {TR TM : Type} `{!RefreshTokenStore TR, !MFAStore TM}.
Context `{!CaseTables, !HmacSHA1, !SigCrypto, !Bcrypt}.
Context (h : AuthConfig).
Abbreviation World := (@World TR TM).

Lemma aexec_bind {R R'} (p : aprog R) (f : R → aprog R') cs (w : World) :
  ∃ k, aexec (abind p f) cs w = aexec (f (aexec p cs w).1) (λ n, cs (k + n)%nat) (aexec p cs w).2.
Proof.
  revert cs w. induction p as [r|A c k IH]; intros cs w; simpl; [by exists 0%nat|].
  destruct (do_acall (cs 0%nat) c w) as [a w1]. destruct (IH a (λ n, cs (S n)) w1) as [n Hn]. by exists (S n).
Qed.

Lemma aexec_bind_inv {R R'} (p : aprog R) (f : R → aprog R') cs (w : World) res :
  aexec (abind p f) cs w = res → ∃ x w1 cs', aexec p cs w = (x, w1) ∧ aexec (f x) cs' w1 = res.
Proof.
  intros <-. destruct (aexec_bind p f cs w) as [k ->]. destruct (aexec p cs w) as [x w1]. by exists x, w1, (λ n, cs (k + n)%nat).
Qed.

Lemma aexec_bind_eq {R R'} (p : aprog R) (f : R → aprog R') cs (w : World) x w1 :
  aexec p cs w = (x, w1) → ∃ k, aexec (abind p f) cs w = aexec (f x) (λ n, cs (k + n)%nat) w1.
Proof. intros Hp. destruct (aexec_bind p f cs w) as [k Hk]. exists k. by rewrite Hk, Hp. Qed.

(** Replaces a bind whose first part is known to run as [Hp] by what follows it. *)
#[local] Ltac bind_at Hp k :=
  match goal with
  | |- context [aexec (abind _ ?f) _ _] =>
      let Hk := fresh in destruct (aexec_bind_eq _ f _ _ _ _ Hp) as [k Hk]; setoid_rewrite Hk; clear Hk
  end.

(** Every user is of a tenant of the directory. *)
Definition users_known (w : World) : Prop :=
  ∀ e row, w_users w !! e = Some row → au_TenantID row ∈ tenant_ids (w_tenants w).

(** Nothing was created: the mail that was sent apart, the world is as it was. *)
Definition untouched (w w' : World) : Prop :=
  w_users w' = w_users w ∧ w_tenants w' = w_tenants w ∧ w_tokens w' = w_tokens w ∧ w_refresh w' = w_refresh w ∧
  w_mfa w' = w_mfa w.

(** A sign-up of [email] that has got as far as its key. *)
Record half_created (email hash : string) (T : Tenant) (ak sk : string) (w w' : World) : Prop := {
  hc_email : email ≠ "";
  hc_new : w_users w !! toLower email = None;
  hc_users : ∃ tok, w_users w' = <[toLower email := mkMemoryAuthRow hash (tn_ID T) false tok]> (w_users w);
  hc_id : tn_ID T ≠ "" ∧ tn_ID T ∉ tenant_ids (w_tenants w);
  hc_key : byAccess (w_tenants w) !! ak = None;
  hc_tenants : w_tenants w' =
    mkMemoryTenantStore (<[ak := mkTenantBinding ak sk T]> (byAccess (w_tenants w))) (<[tn_ID T := T]> (tenants (w_tenants w)));
  hc_rest : w_tokens w' = w_tokens w ∧ w_refresh w' = w_refresh w ∧ w_mfa w' = w_mfa w
}.

Definition signup_name (req : signupRequest) : string :=
  let name := TrimSpace (sr_TenantName req) in if bool_decide (name = "") then TrimSpace (sr_Email req) else name.

(** What a completed sign-up has made, and what it answers. *)
Definition created (req : signupRequest) (resp : response) (w w' : World) : Prop :=
  ∃ id hash ak sk token at_ rt exp wk,
    let T := defaultB2CTenant id (signup_name req) in
    resp = mkResponse 201 (Session (mkAuthResponse (summarizeTenantAt T at_) token ak sk at_ rt exp)) ∧
    half_created (TrimSpace (sr_Email req)) hash T ak sk w wk ∧
    (sr_OAuthToken req = "" → ∃ salt, GenerateWithSalt salt (sr_Password req) = Some hash) ∧
    w_users w' = w_users wk ∧ w_tenants w' = w_tenants wk ∧ w_mfa w' = w_mfa w ∧
    w_tokens w' = <[token := id]> (w_tokens w) ∧
    (w_refresh w' = w_refresh w ∨ ∃ d a, Issue d id (w_refresh w) = (a, w_refresh w')).

Lemma rollback_both email hash T ak sk r cs w w1 res :
  half_created email hash T ak sk w w1 →
  aexec (rollbackUserAndTenant email (tn_ID T) r) cs w1 = res → res.1 = r ∧ untouched w res.2.
Proof.
  intros [He Hnew [tok Hu] [Hid Hfresh] Hkey Ht (Hk1 & Hk2 & Hk3)] <-. cbn.
  rewrite Hu, delete_fresh_user by done. cbn. rewrite Ht.
  rewrite delete_fresh_tenant; [|done|done|]; [by cbn|]. right.
  exists ak, (mkTenantBinding ak sk T). split_and!; [done|done|by apply bool_decide_eq_true].
Qed.

Lemma credential_exec req T cs w w1 res :
  tn_ID T ≠ "" → tn_ID T ∉ tenant_ids (w_tenants w) →
  w1 = set_tenants (mkMemoryTenantStore (byAccess (w_tenants w)) (<[tn_ID T := T]> (tenants (w_tenants w)))) w →
  aexec (signup_credential h req (tn_ID T)) cs w1 = res →
  match res.1 with
  | Err r => rs_Status r ≠ 201 ∧ untouched w res.2
  | Ok hash => res.2 = w1 ∧ (sr_OAuthToken req = "" → ∃ salt, GenerateWithSalt salt (sr_Password req) = Some hash)
  end.
Proof.
  intros Hne Hfresh -> Hx. 
  assert (DeleteTenant (tn_ID T) (mkMemoryTenantStore (byAccess (w_tenants w)) (<[tn_ID T := T]> (tenants (w_tenants w)))) = Ok (w_tenants w)) as Hd
    by (apply delete_fresh_tenant; auto).
  revert Hx. unfold signup_credential. case_bool_decide as Ho.
  - intros Hx. cbn in Hx. destruct (ch_bytes (cs 0%nat)) as [salt|]; cbn in Hx.
    + destruct (GenerateWithSalt salt (sr_Password req)) as [hash|] eqn:Eg; cbn in Hx; [subst; cbn; eauto|].
      rewrite Hd in Hx. subst. by cbn.
    + rewrite Hd in Hx. subst. by cbn.
  - destruct (has_OAuth h); intros Hx; cbn in Hx; [|rewrite Hd in Hx; subst; by cbn].
    destruct (ch_subject (cs 0%nat)); cbn in Hx; [subst; by cbn|]. rewrite Hd in Hx. subst. by cbn.
Qed.

Lemma verification_exec email hash T ak sk cs w w1 res :
  users_known w → half_created email hash T ak sk w w1 →
  aexec (signup_verification h email (tn_ID T)) cs w1 = res →
  match res.1 with
  | Some r => rs_Status r ≠ 201 ∧ untouched w res.2
  | None => half_created email hash T ak sk w res.2
  end.
Proof.
  intros Hknown Hhalf Hx. unfold signup_verification in Hx.
  destruct (has_Email h); cbn [negb aexec do_acall] in Hx; [|by subst].
  destruct (newVerificationToken (ch_bytes (cs 0%nat))) as [tok|].
  - cbn [aexec do_acall] in Hx.
    destruct (SetVerificationToken _ _ _ _) as [u2|e] eqn:E; cbn [written aexec do_acall] in Hx.
    + destruct Hhalf as [He Hnew [tok0 Hu] [Hid Hfresh] Hkey Ht Hrest]. rewrite Hu in E.
      apply set_token_spec in E; [|intros e' row' Hrow Heq; apply Hfresh; rewrite <- Heq; by apply (Hknown e')].
      subst. cbn. destruct (ch_flag _); (split; [done|done|by exists tok|done|done|done|done]).
    + apply aexec_bind_inv in Hx as (r & w2 & cs' & Hr & <-). eapply rollback_both in Hr as [Hr Hu]; [|done].
      simpl in *. by subst.
  - apply aexec_bind_inv in Hx as (r & w2 & cs' & Hr & <-). eapply rollback_both in Hr as [Hr Hu]; [|done].
    simpl in *. by subst.
Qed.

Lemma issue_refresh_exec t cs w x w' :
  aexec (issueRefreshToken h t) cs w = (x, w') →
  w_users w' = w_users w ∧ w_tenants w' = w_tenants w ∧ w_mfa w' = w_mfa w ∧ w_tokens w' = w_tokens w ∧
  (w_refresh w' = w_refresh w ∨ ∃ d a, Issue d t (w_refresh w) = (a, w_refresh w')).
Proof.
  unfold issueRefreshToken. destruct (has_RefreshTokens h); cbn; [|intros [= _ <-]; split_and!; auto].
  set (d := ch_draw (cs 0%nat)). destruct (Issue d t (w_refresh w)) as [a r] eqn:E. cbn.
  destruct a; cbn; intros [= _ <-]; cbn; (split_and!; [done..|]); right; eauto.
Qed.

Lemma finish_exec email hash n T ak sk cs w w1 res :
  half_created email hash T ak sk w w1 →
  aexec (signup_finish h email n (tn_ID T) ak sk T) cs w1 = res →
  (rs_Status res.1 ≠ 201 ∧ untouched w res.2) ∨
  ∃ token at_ rt exp,
    res.1 = mkResponse 201 (Session (mkAuthResponse (summarizeTenantAt T at_) token ak sk at_ rt exp)) ∧
    w_users res.2 = w_users w1 ∧ w_tenants res.2 = w_tenants w1 ∧ w_mfa res.2 = w_mfa w1 ∧
    w_tokens res.2 = <[token := tn_ID T]> (w_tokens w1) ∧
    (w_refresh res.2 = w_refresh w1 ∨ ∃ d a, Issue d (tn_ID T) (w_refresh w1) = (a, w_refresh res.2)).
Proof.
  intros Hhalf Hx. unfold signup_finish in Hx. cbn [aexec do_acall] in Hx. unfold IssueToken_memory in Hx.
  destruct (ch_bytes (cs 0%nat)) as [buf|].
  - right. cbn [aexec do_acall] in Hx.
    apply aexec_bind_inv in Hx as (u1 & w2 & cs1 & Hb & Hx). apply aexec_bind_inv in Hx as (b & w3 & cs2 & Hc & Hx).
    apply aexec_bind_inv in Hx as ([rt exp] & w4 & cs3 & Hr & <-).
    assert (w3 = mkWorld (w_users w1) (w_tenants w1) (<[Signing.EncodeToString buf := tn_ID T]> (w_tokens w1)) (w_refresh w1) (w_mfa w1) (w_mail w1)) as ->.
    { destruct (has_BillingSink h), (has_BillingProvider h); cbn in Hb, Hc; congruence. }
    apply issue_refresh_exec in Hr as (Hr1 & Hr2 & Hr3 & Hr4 & Hr5). cbn in *.
    do 4 eexists. split_and!; done.
  - left. eapply rollback_both in Hx as [Hr Hu]; [|done]. rewrite Hr. by split.
Qed.

Lemma create_exec req cs w res :
  users_known w → aexec (signup_create h req (TrimSpace (sr_Email req)) (signup_name req)) cs w = res →
  (rs_Status res.1 ≠ 201 ∧ untouched w res.2) ∨ created req res.1 w res.2.
Proof.
  intros Hknown Hx. unfold signup_create in Hx. cbn [aexec do_acall] in Hx.
  destruct (LookupUser _ _) as [x|]; [subst; by left|]. cbn [aexec do_acall] in Hx.
  destruct (defaultTenantIDGenerator _) as [id|]; [|subst; by left].
  set (T := defaultB2CTenant id (signup_name req)) in *. change id with (tn_ID T) in Hx. cbv zeta in Hx.
  cbn [aexec do_acall] in Hx.
  destruct (CreateTenant T (w_tenants w)) as [s1|] eqn:Et; [|cbn in Hx; subst; by left].
  apply create_tenant_spec in Et as (Hne & Hfresh & ->). cbn [written] in Hx.
  apply aexec_bind_inv in Hx as (cred & w1 & cs1 & Hc & Hx).
  eapply credential_exec in Hc; [|done|done|done]. cbn [fst snd] in Hc.
  destruct cred as [hash|r]; [|subst; by left]. destruct Hc as [-> Hhash]. cbn [aexec do_acall] in Hx.
  destruct (CreateUser _ _ _ _) as [u1|] eqn:Eu; cbn [written] in Hx.
  2:{ left. cbn in Hx. rewrite delete_fresh_tenant in Hx; [|done|done|by left]. subst. by cbn. }
  apply create_user_spec in Eu as (He & Hnew & ->). cbn in Hnew. cbn [aexec do_acall] in Hx.
  set (w2 := set_users _ _) in Hx.
  assert (∀ cs' r, aexec (rollbackUserAndTenant (TrimSpace (sr_Email req)) (tn_ID T) r) cs' w2 = res → rs_Status r ≠ 201 →
    rs_Status res.1 ≠ 201 ∧ untouched w res.2) as Hback.
  { intros cs' r <- Hr. unfold w2. cbn. rewrite delete_fresh_user by done. cbn.
    rewrite delete_fresh_tenant; [|done|done|by left]. by cbn. }
  destruct (defaultKeyGenerator _) as [[ak sk]|]; [|left; by eapply Hback]. cbn [aexec do_acall] in Hx.
  destruct (adapter_AddAPIKey _ _ _ _ _) as [s2|] eqn:Ek; cbn [written] in Hx; [|left; by eapply Hback].
  apply add_key_spec in Ek as [Hak ->]; [|done].
  apply aexec_bind_inv in Hx as (v & w3 & cs3 & Hv & Hx).
  eapply (verification_exec _ hash _ ak sk _ w) in Hv; [|done|split; try done; by exists ""]. cbn [fst snd] in Hv.
  destruct v as [r|]; [subst; by left|]. pose proof (hc_rest _ _ _ _ _ _ _ Hv) as (Hr1 & Hr2 & Hr3).
  eapply finish_exec in Hx as [?|(token & at_ & rt & exp & Hres & Hu & Ht & Hm & Htok & Hrt)]; [by left| |done].
  right. exists id, hash, ak, sk, token, at_, rt, exp, w3. fold T. rewrite <- Hr1, <- Hr2, <- Hr3. split_and!; done.
Qed.

Lemma signup_exec body cs w resp w' :
  users_known w → aexec (signup h body) cs w = (resp, w') →
  (rs_Status resp ≠ 201 ∧ untouched w w') ∨ ∃ req, body = Ok req ∧ created req resp w w'.
Proof.
  intros Hknown Hx. unfold signup in Hx.
  destruct (negb (has_Tenants h) || negb (has_Auth h)); [cbn in Hx; simplify_eq; by left|].
  destruct body as [req|[]]; [|cbn in Hx; simplify_eq; by left..]. cbv zeta in Hx.
  destruct (_ || _); [cbn in Hx; simplify_eq; by left|]. destruct (_ && _); [cbn in Hx; simplify_eq; by left|].
  fold (signup_name req) in Hx. destruct (has_CAPTCHA h).
  - cbn [aexec do_acall] in Hx. destruct (ch_flag _); [|cbn in Hx; simplify_eq; by left].
    apply create_exec in Hx as [?|?]; eauto.
  - apply create_exec in Hx as [?|?]; eauto.
Qed.

Lemma created_known req resp w w' : users_known w → created req resp w w' → users_known w'.
Proof.
  intros Hknown (id & hash & ak & sk & token & at_ & rt & exp & wk & _ & [He Hnew [tok Hu] Hid Hkey Ht _] & _ & Hu' & Ht' & _) e row.
  rewrite Hu', Hu, Ht', Ht. unfold tenant_ids. simpl. rewrite dom_insert. intros [[<- <-]|[_ Hrow]]%lookup_insert_Some.
  - apply elem_of_union_r. set_solver.
  - apply Hknown in Hrow as [Hin|Hin]%elem_of_union; [|set_solver]. apply elem_of_union_l.
    apply elem_of_list_to_set, list_elem_of_fmap in Hin as ([k b] & Heq & Hb%elem_of_map_to_list).
    apply elem_of_list_to_set, list_elem_of_fmap. exists (k, b). split; [done|]. apply elem_of_map_to_list.
    rewrite lookup_insert_ne; [done|]. intros <-. by rewrite Hkey in Hb.
Qed.

(** C37: A sign-up happens entirely or not at all. Whichever draws, hooks and checks fail on the way, a sign-up either
    answers 201 and there is one more user, with a tenant of its own that no user and no access key had, one access key
    and one access token for it, the ones in the answer; or it does not answer 201 and users, tenants, keys, tokens and
    enrollments are as they were. Afterwards every user still has a tenant of the directory. *)
Theorem signup_all_or_nothing body cs w :
  users_known w →
  let '(resp, w') := aexec (signup h body) cs w in
  users_known w' ∧ ((rs_Status resp ≠ 201 ∧ untouched w w') ∨ ∃ req, body = Ok req ∧ created req resp w w').
Proof.
  intros Hknown. destruct (aexec (signup h body) cs w) as [resp w'] eqn:Hx. apply signup_exec in Hx; [|done].
  split; [|done]. destruct Hx as [[_ (Hu & Ht & _)]|(req & _ & Hc)]; [|by eapply created_known].
  intros e row. rewrite Hu, Ht. apply Hknown.
Qed.

(** ** Login *)

Lemma login_opens req cs w t T w1 :
  has_Tenants h = true → has_Auth h = true → TrimSpace (lr_Email req) ≠ "" → lr_Password req ≠ "" →
  password_opens (LookupUser (TrimSpace (lr_Email req)) (w_users w)) (lr_Password req) = Some t →
  (∀ n, adapter_LookupTenant (ch_draw (cs n)) t (w_tenants w) = Some T) → (∀ n, is_Some (ch_bytes (cs n))) →
  aexec (enforceSecondFactor h t (lr_TOTPCode req) (lr_RecoveryCode req)) (λ n, cs (2 + n)%nat) w = (None, w1) →
  ∃ s w', aexec (login h (Ok req)) cs w = (mkResponse 200 (Session s), w') ∧ ar_Tenant s = summarizeTenant T ∧
    ResolveToken (ar_Token s) w' = Some t.
Proof.
  intros Ht Ha He Hp Hpw HT Hrnd Hf. unfold login. rewrite Ht, Ha. cbv zeta. cbn [negb orb].
  rewrite !bool_decide_eq_false_2 by done. cbn [orb aexec do_acall]. rewrite Hpw. cbn [aexec do_acall]. rewrite HT.
  bind_at Hf k. destruct (Hrnd (2 + (k + 0))%nat) as [buf Hbuf]. cbn [aexec do_acall]. unfold IssueToken_memory.
  rewrite Hbuf. cbn [aexec]. set (w2 := mkWorld _ _ _ _ _ _). set (cs2 := λ n : nat, cs _).
  destruct (aexec (issueRefreshToken h t) cs2 w2) as [x w3] eqn:Hr. bind_at Hr j. cbn [aexec].
  apply issue_refresh_exec in Hr as (_ & _ & _ & Htok & _). do 2 eexists. split_and!; [done..|].
  unfold ResolveToken. rewrite Htok. apply lookup_insert_eq.
Qed.

Lemma signup_configured body cs w resp w' :
  aexec (signup h body) cs w = (resp, w') → rs_Status resp = 201 →
  has_Tenants h = true ∧ has_Auth h = true ∧
  ∃ req, body = Ok req ∧ (sr_OAuthToken req = "" → sr_Password req ≠ "").
Proof.
  intros Hx Hs. unfold signup in Hx. destruct (has_Tenants h), (has_Auth h); cbn [negb orb] in Hx;
    [|cbn in Hx; by simplify_eq..]. destruct body as [req|[]]; [|cbn in Hx; by simplify_eq..]. cbv zeta in Hx.
  destruct (_ || _); [cbn in Hx; by simplify_eq|]. destruct (_ && _) eqn:E; [cbn in Hx; by simplify_eq|].
  split_and!; [done..|]. exists req. split; [done|]. intros Ho Hp. rewrite Ho, Hp in E. done.
Qed.

Lemma hash_opens `{!BcryptLaws} salt pw hash t :
  GenerateWithSalt salt pw = Some hash → password_opens (Some (hash, t)) pw = Some t.
Proof.
  intros Hg. unfold password_opens. rewrite (Compare_Generate _ _ _ Hg).
  pose proof (Generate_shape _ _ _ Hg) as Hs. destruct hash as [|a hash]; [done|].
  by destruct a as [[] [] [] [] [] [] [] []].
Qed.

(** The second factor is not asked for where there is none. *)
Lemma no_factor_exec t tc rc cs w :
  has_MFA h = false ∨ GetMFA (ch_draw (cs 0%nat)) t (w_mfa w) = Ok None →
  aexec (enforceSecondFactor h t tc rc) cs w = (None, w).
Proof.
  unfold enforceSecondFactor. intros [->|Hg]; [done|]. destruct (has_MFA h); [|done].
  cbn [negb aexec do_acall]. by rewrite Hg.
Qed.

(** C38: The credentials of a sign-up are good. After a sign-up with a password that answered 201, the access key of the
    answer has its secret and names the new tenant, the access token of the answer stands for it, and a login with the
    email, in whatever case, and the password answers 200 with a token of the same tenant. *)
Theorem signup_then_login `{!BcryptLaws} req resp cs w w' email tc rc cs' :
  users_known w → aexec (signup h (Ok req)) cs w = (resp, w') → rs_Status resp = 201 → sr_OAuthToken req = "" →
  TrimSpace email ≠ "" → toLower (TrimSpace email) = toLower (TrimSpace (sr_Email req)) →
  (∀ n, is_Some (ch_bytes (cs' n))) →
  (∀ n t, t ∉ tenant_ids (w_tenants w) → GetMFA (ch_draw (cs' n)) t (w_mfa w) = Ok None) →
  ∃ s T s' w'', resp = mkResponse 201 (Session s) ∧
    LookupByAccessKey (w_tenants w') (ar_AccessKey s) = Some (mkTenantBinding (ar_AccessKey s) (ar_SecretKey s) T) ∧
    tn_ID T ∉ tenant_ids (w_tenants w) ∧ ResolveToken (ar_Token s) w' = Some (tn_ID T) ∧
    aexec (login h (Ok (mkLoginRequest email (sr_Password req) tc rc))) cs' w' = (mkResponse 200 (Session s'), w'') ∧
    ar_Tenant s' = summarizeTenant T ∧ ResolveToken (ar_Token s') w'' = Some (tn_ID T).
Proof.
  intros Hknown Hx Hs Ho Hne Hemail Hrnd Hmfa.
  pose proof (signup_configured _ _ _ _ _ Hx Hs) as (Hct & Hca & req' & [= <-] & Hpw). specialize (Hpw Ho).
  apply signup_exec in Hx as [[? _]|(req' & [= <-] & Hc)]; [done| |done].
  destruct Hc as (id & hash & ak & sk & token & at_ & rt & exp & wk & -> & Hhalf & Hhash & Hu & Ht & Hm & Htok & _).
  destruct (Hhash Ho) as [salt Hg]. destruct Hhalf as [He Hnew [tok Hu'] [Hid Hfresh] Hkey Ht' _].
  rewrite Hu' in Hu. rewrite Ht' in Ht. clear Hu' Ht'. set (T := defaultB2CTenant id (signup_name req)) in *.
  destruct (login_opens (mkLoginRequest email (sr_Password req) tc rc) cs' w' id T w') as (s' & w'' & Hl & Hl1 & Hl2);
    cbn [lr_Email lr_Password lr_TOTPCode lr_RecoveryCode].
  - done.
  - done.
  - done.
  - done.
  - unfold LookupUser. rewrite Hu, Hemail, lookup_insert_eq. by eapply hash_opens.
  - intros n. rewrite Ht. by apply (bound_lookup id).
  - done.
  - apply no_factor_exec. right. rewrite Hm. by apply Hmfa.
  - do 4 eexists. split_and!; [done| |done| |exact Hl|done|done].
    + rewrite Ht. unfold LookupByAccessKey. cbn [byAccess ar_AccessKey ar_SecretKey]. by rewrite lookup_insert_eq.
    + unfold ResolveToken. rewrite Htok. by rewrite lookup_insert_eq.
Qed.

End world.

(** ** Authenticators *)

Section authenticator.
Context {TR : Type} `{!RefreshTokenStore TR}.
Context `{!CaseTables, !CaseLaws, !HmacSHA1, !SigCrypto, !Bcrypt}.
Context (h : AuthConfig).
Abbreviation World := (@World TR enrollments).

(** An authenticator that scanned the URI of an enrollment: the code RFC 6238 gives
    for the secret in the URI and its own clock. *)
Definition authenticator (uri : string) (clock : Z) : option string :=
  secret ← Totp.secret_of_uri uri; key ← Base32.DecodeString secret; Some (Totp.rfc4226 key (Totp.Unix clock / 30)).

(** A clock reading in int64 nanoseconds, and clocks in the same or in adjacent periods. *)
Definition reading (clock : Z) : Prop := 0 ≤ clock < 2 ^ 63.
Definition adjacent (clock clock' : Z) : Prop := Z.abs (Totp.Unix clock / 30 - Totp.Unix clock' / 30) ≤ 1.

Lemma reading_step clock : reading clock → 0 ≤ Totp.Unix clock / 30 < 2 ^ 62 ∧ Totp.totpStep clock = Totp.Unix clock / 30.
Proof.
  intros Hc. unfold reading, Totp.totpStep, Totp.totpPeriod, Totp.Unix in *.
  assert (0 ≤ clock / 1000000000 < 2 ^ 63) by (split; [apply Z.div_pos; lia|apply Z.div_lt_upper_bound; lia]).
  rewrite Z.quot_div_nonneg by lia. split; [|done]. split; [apply Z.div_pos; lia|apply Z.div_lt_upper_bound; lia].
Qed.

Lemma window_spec now step :
  reading now → step ∈ Totp.window now ↔ Z.abs (step - Totp.Unix now / 30) ≤ 1.
Proof.
  intros Hn. destruct (reading_step now Hn) as [Hr Hs]. unfold Totp.window. rewrite Hs. cbn [fmap list_fmap].
  unfold Totp.totpSkewSteps. rewrite !wrap64_id by (unfold is_int64; lia).
  rewrite !elem_of_cons, elem_of_nil. lia.
Qed.

(** The code of the authenticator is accepted for a step of the window. *)
Lemma authenticator_verifies key issuer account device now :
  reading device → reading now → adjacent device now →
  ∃ code step, authenticator (Totp.totpEnrollmentURI issuer account (Base32.EncodeToString key)) device = Some code ∧
    TrimSpace code = code ∧ code ≠ "" ∧ Totp.totpVerify (Base32.EncodeToString key) code now = Some step ∧
    Z.abs (step - Totp.Unix now / 30) ≤ 1.
Proof.
  intros Hd Hn Ha. destruct (reading_step device Hd) as [Hr Hs].
  destruct (Totp.totpVerify_complete key (Totp.Unix device / 30) now) as (step & Hv & Hin & _); [by apply window_spec|].
  destruct (Totp.hotpCode_shape key (Totp.Unix device / 30)) as (Hl & Hvis & _).
  exists (Totp.hotpCode key (Totp.Unix device / 30)), step. split_and!.
  - unfold authenticator. rewrite Totp.enrollment_uri_carries_secret. cbn [mbind option_bind].
    rewrite Base32.DecodeString_EncodeToString. cbn [mbind option_bind].
    rewrite Totp.hotpCode_is_rfc; [done|]. unfold is_uint64. lia.
  - by apply TrimSpace_visible.
  - intros Hc. by rewrite Hc in Hl.
  - done.
  - by apply window_spec.
Qed.

(** A request with the right password is the one that follows the guard. *)
Lemma guarded_exec req k cs (w : World) t :
  has_MFA h = true → has_Auth h = true → TrimSpace (mr_Email req) ≠ "" → mr_Password req ≠ "" →
  password_opens (LookupUser (TrimSpace (mr_Email req)) (w_users w)) (mr_Password req) = Some t →
  aexec (mfa_guarded h (Ok req) k) cs w =
  aexec (k t (mkMfaRequest (TrimSpace (mr_Email req)) (mr_Password req) (mr_TOTPCode req) (mr_RecoveryCode req))) (λ n, cs (S n)) w.
Proof.
  intros Hm Ha He Hp Hpw. unfold mfa_guarded, authenticateMFARequest. rewrite Hm, Ha. cbn [negb mr_Password].
  rewrite !bool_decide_eq_false_2 by done. cbn [orb abind aexec do_acall]. by rewrite Hpw.
Qed.

Lemma guarded_inv req k cs (w : World) resp w' :
  aexec (mfa_guarded h (Ok req) k) cs w = (resp, w') → rs_Status resp = 200 →
  has_MFA h = true ∧ has_Auth h = true ∧ TrimSpace (mr_Email req) ≠ "" ∧ mr_Password req ≠ "" ∧
  ∃ t, password_opens (LookupUser (TrimSpace (mr_Email req)) (w_users w)) (mr_Password req) = Some t.
Proof.
  intros Hx Hs. unfold mfa_guarded, authenticateMFARequest in Hx. destruct (has_MFA h); [|cbn in Hx; by simplify_eq].
  destruct (has_Auth h); [|cbn in Hx; by simplify_eq]. cbn [negb mr_Password] in Hx.
  case_bool_decide as He; [cbn in Hx; by simplify_eq|]. case_bool_decide as Hp; [cbn in Hx; by simplify_eq|].
  cbn [orb abind aexec do_acall] in Hx. destruct (password_opens _ _) as [t|]; [eauto 10|cbn in Hx; by simplify_eq].
Qed.

Lemma enroll_inv req cs (w : World) secret uri w1 t :
  aexec (mfaEnroll h (Ok req)) cs w = (mkResponse 200 (Enrolled secret uri), w1) →
  password_opens (LookupUser (TrimSpace (mr_Email req)) (w_users w)) (mr_Password req) = Some t →
  ∃ key, secret = Base32.EncodeToString key ∧ uri = Totp.totpEnrollmentURI (cfg_MFAIssuer h) (TrimSpace (mr_Email req)) secret ∧
    w1 = set_mfa (<[t := pending secret]> (w_mfa w)) w.
Proof.
  intros Hx Hpw. unfold mfaEnroll in Hx. destruct (guarded_inv _ _ _ _ _ _ Hx eq_refl) as (Hm & Ha & He & Hp & _).
  rewrite (guarded_exec _ _ _ _ t) in Hx by done. cbn [aexec do_acall] in Hx. unfold Totp.newTOTPSecret in Hx.
  destruct (ch_bytes _) as [buf|]; cbn [fmap option_fmap option_map] in Hx; [|cbn in Hx; by simplify_eq].
  set (key := String.list_ascii_of_string buf) in Hx. cbn [aexec do_acall] in Hx.
  unfold BeginEnrollment, Memory_mfa, Memory_BeginEnrollment, updated in Hx.
  destruct (_ || _); [cbn in Hx; by simplify_eq|]. exists key.
  destruct (w_mfa w !! t) as [r|]; [destruct (mf_active r); [cbn in Hx; by simplify_eq|]|];
    cbn [aexec fst snd] in Hx; injection Hx as <- <- <-; done.
Qed.

Lemma activate_exec email pw code step secret now codes cs (w w1 : World) t :
  has_MFA h = true → has_Auth h = true → TrimSpace email ≠ "" → pw ≠ "" →
  password_opens (LookupUser (TrimSpace email) (w_users w)) pw = Some t →
  w1 = set_mfa (<[t := pending secret]> (w_mfa w)) w →
  TrimSpace code = code → code ≠ "" → (∀ n, d_now (ch_draw (cs n)) = now) → (∀ n, generateRecoveryCodes (ch_codes (cs n)) = Some codes) →
  Totp.totpVerify secret code now = Some step →
  aexec (mfaActivate h (Ok (mkMfaRequest email pw code ""))) cs w1 =
    (mkResponse 200 (Activated codes),
     set_mfa (<[t := mkMFARow secret true step (list_to_set (hashRecoveryCode <$> codes))]> (w_mfa w)) w).
Proof.
  intros Hm Ha He Hp Hpw -> Hcode Hne Hnow Hcodes Hv. unfold mfaActivate. rewrite (guarded_exec _ _ _ _ t) by done.
  cbn [aexec do_acall GetMFA Memory_mfa w_mfa set_mfa]. unfold Memory_GetMFA. rewrite lookup_insert_eq.
  cbn [fmap option_fmap option_map record_of pending Active mf_active mf_secret Secret mr_TOTPCode]. rewrite Hcode.
  rewrite bool_decide_eq_false_2 by done. cbn [aexec do_acall]. rewrite Hnow, Hv. cbn [aexec do_acall]. rewrite Hcodes.
  cbn [aexec do_acall Mfa.Activate Memory_mfa w_mfa set_mfa]. unfold Memory_Activate, updated. rewrite lookup_insert_eq.
  cbn [mf_active pending mf_secret]. rewrite bool_decide_eq_true_2 by done. cbn [negb fst snd aexec].
  by rewrite insert_insert_eq.
Qed.

(** A login that is answered with a session of the tenant. *)
Definition opens (t : string) (req : loginRequest) (cs : nat → chance) (w : World) : Prop :=
  ∃ s w', aexec (login h (Ok req)) cs w = (mkResponse 200 (Session s), w') ∧ ResolveToken (ar_Token s) w' = Some t.

(** The second factor of an active enrollment. *)
Lemma factor_exec t tc rc cs (w : World) r :
  has_MFA h = true → w_mfa w !! t = Some r → mf_active r = true →
  (∃ step, TrimSpace rc = "" ∧ TrimSpace tc ≠ "" ∧ Totp.totpVerify (mf_secret r) (TrimSpace tc) (d_now (ch_draw (cs 1%nat))) = Some step ∧
     mf_lastStep r < step) ∨ (TrimSpace rc ≠ "" ∧ hashRecoveryCode (TrimSpace rc) ∈ mf_recovery r) →
  ∃ w', aexec (enforceSecondFactor h t tc rc) cs w = (None, w').
Proof.
  intros Hm Hr Ha Hf. unfold enforceSecondFactor, checkSecondFactor. rewrite Hm.
  cbn [negb aexec do_acall GetMFA Memory_mfa]. unfold Memory_GetMFA. rewrite Hr.
  cbn [fmap option_fmap option_map record_of Active Secret]. rewrite Ha. cbn [negb].
  destruct Hf as [(step & Hrc & Htc & Hv & Hl)|[Hrc Hin]].
  - rewrite (bool_decide_eq_true_2 (TrimSpace rc = "")) by done. cbn [negb].
    rewrite (bool_decide_eq_false_2 (TrimSpace tc = "")) by done. cbn [abind aexec do_acall]. rewrite Hv.
    cbn [abind aexec do_acall MarkTOTPStep Memory_mfa]. unfold Memory_MarkTOTPStep, updated. rewrite Hr, Ha. cbn [negb].
    rewrite (proj2 (Z.leb_gt _ _)) by lia. cbn. eauto.
  - rewrite (bool_decide_eq_false_2 (TrimSpace rc = "")) by done. cbn [negb abind aexec do_acall ConsumeRecoveryCode Memory_mfa].
    unfold Memory_ConsumeRecoveryCode, updated. rewrite Hr, Ha. cbn [negb].
    rewrite bool_decide_eq_true_2 by done. cbn. eauto.
Qed.

Lemma recovery_code_trimmed rnd codes code :
  generateRecoveryCodes rnd = Some codes → code ∈ codes → TrimSpace code = code.
Proof.
  intros Hg Hin. destruct rnd as [bs|]; [|done]. injection Hg as <-. apply list_elem_of_fmap in Hin as (b & -> & _).
  apply TrimSpace_visible, Totp.capitals_visible, Base32.EncodeToString_capitals.
Qed.

(** C39: An authenticator enrolled through the console opens sessions. A user who scans the URI of an enrollment can
    activate it with the code their device shows, and is given recovery codes. From then on the password alone answers
    401, and with the password a later code of the device, or any of the recovery codes, answers 200 with a token of
    the tenant. The clock of the device may be one period of thirty seconds off; the codes it shows are those of
    RFC 6238. *)
Theorem enrolled_authenticator_opens req cs w secret uri w1 t T device1 now1 codes cs1 :
  aexec (mfaEnroll h (Ok req)) cs w = (mkResponse 200 (Enrolled secret uri), w1) → has_Tenants h = true →
  password_opens (LookupUser (TrimSpace (mr_Email req)) (w_users w)) (mr_Password req) = Some t →
  reading device1 → reading now1 → adjacent device1 now1 →
  (∀ n, d_now (ch_draw (cs1 n)) = now1) → (∀ n, generateRecoveryCodes (ch_codes (cs1 n)) = Some codes) →
  ∃ code1 w2, authenticator uri device1 = Some code1 ∧
    aexec (mfaActivate h (Ok (mkMfaRequest (mr_Email req) (mr_Password req) code1 ""))) cs1 w1 = (mkResponse 200 (Activated codes), w2) ∧
    ∀ cs2, (∀ n, adapter_LookupTenant (ch_draw (cs2 n)) t (w_tenants w) = Some T) → (∀ n, is_Some (ch_bytes (cs2 n))) →
      aexec (login h (Ok (mkLoginRequest (mr_Email req) (mr_Password req) "" ""))) cs2 w2 = (mkResponse 401 (MfaRequired false), w2) ∧
      (∀ code, code ∈ codes → code ≠ "" → opens t (mkLoginRequest (mr_Email req) (mr_Password req) "" code) cs2 w2) ∧
      (∀ device2 now2, reading device2 → reading now2 → adjacent device2 now2 → (∀ n, d_now (ch_draw (cs2 n)) = now2) →
         Totp.Unix now1 / 30 + 2 < Totp.Unix now2 / 30 →
         ∃ code2, authenticator uri device2 = Some code2 ∧
           opens t (mkLoginRequest (mr_Email req) (mr_Password req) code2 "") cs2 w2).
Proof.
  intros Hx Htn Hpw Hd1 Hn1 Ha1 Hnow1 Hcodes.
  pose proof Hx as Hg. unfold mfaEnroll in Hg. apply guarded_inv in Hg as (Hm & Ha & He & Hp & _); [|done].
  destruct (enroll_inv _ _ _ _ _ _ _ Hx Hpw) as (key & -> & -> & Hw1). clear Hx.
  destruct (authenticator_verifies key (cfg_MFAIssuer h) (TrimSpace (mr_Email req)) device1 now1) as (code1 & step1 & Hc1 & Htr1 & Hne1 & Hv1 & Hs1); [done..|].
  pose proof (activate_exec (mr_Email req) (mr_Password req) code1 step1 _ now1 codes cs1 w w1 t
    Hm Ha He Hp Hpw Hw1 Htr1 Hne1 Hnow1 Hcodes Hv1) as Hact.
  set (r := mkMFARow _ true step1 _) in Hact. set (w2 := set_mfa _ w) in Hact.
  assert (w_mfa w2 !! t = Some r) as Hr by by apply lookup_insert_eq.
  exists code1, w2. split_and!; [done|done|]. intros cs2 HT Hrnd.
  assert (∀ tc rc, (∃ w', aexec (enforceSecondFactor h t tc rc) (λ n, cs2 (2 + n)%nat) w2 = (None, w')) →
    opens t (mkLoginRequest (mr_Email req) (mr_Password req) tc rc) cs2 w2) as Hopens.
  { intros tc rc [w' Hf].
    destruct (login_opens h (mkLoginRequest (mr_Email req) (mr_Password req) tc rc) cs2 w2 t T w') as (s & w3 & Hl & _ & Ht); try done.
    by exists s, w3. }
  split_and!.
  - unfold login, enforceSecondFactor, checkSecondFactor. rewrite Htn, Ha, Hm. cbn [negb orb lr_Email lr_Password lr_TOTPCode lr_RecoveryCode].
    rewrite !(bool_decide_eq_false_2 (_ = "")) by done. cbn [orb aexec do_acall]. change (w_users w2) with (w_users w). rewrite Hpw.
    cbn [aexec do_acall]. change (w_tenants w2) with (w_tenants w). rewrite HT. cbn [abind aexec do_acall GetMFA Memory_mfa].
    unfold Memory_GetMFA. rewrite Hr. reflexivity.
  - intros code Hin Hne. apply Hopens. pose proof (recovery_code_trimmed _ _ _ (Hcodes 0%nat) Hin) as Htrim.
    eapply factor_exec; [done|done|done|]. right. rewrite Htrim. split; [done|]. apply elem_of_list_to_set.
    by apply list_elem_of_fmap_2.
  - intros device2 now2 Hd2 Hn2 Ha2 Hnow2 Hlater.
    destruct (authenticator_verifies key (cfg_MFAIssuer h) (TrimSpace (mr_Email req)) device2 now2) as (code2 & step2 & Hc2 & Htr2 & Hne2 & Hv2 & Hs2); [done..|].
    exists code2. split; [done|]. apply Hopens. eapply factor_exec; [done|done|done|]. left. exists step2.
    rewrite Htr2, Hnow2. split_and!; [done|done|done|]. simpl. lia.
Qed.

End authenticator.

(** ** A user, from sign-up to the second factor *)

Section example.
Import ConsoleExample.
Abbreviation World := (@World MemoryRefreshTokenStore enrollments).

#[local] Instance ex_bcrypt_laws : BcryptLaws.
Proof. split; intros salt pw hash [= <-]; [by apply bool_decide_eq_true|done]. Defined.

Definition ex_world : World := mkWorld ∅ (mkMemoryTenantStore ∅ ∅) ∅ (mkMemory 0 ∅) ∅ [].
Definition ex_signup : signupRequest := mkSignupRequest " user@example.org" "long password" "" "" "".
Definition ex_chance (now : Z) (n : nat) : chance :=
  mkChance (ex_draw now "f" "raw") (Some (FormatInt (Z.of_nat n))) (Some ("k", "s")) (Some [[zero_byte; zero_byte]; ["1"%char]]) None true.
Definition ex_after : World := (aexec (signup ex_config (Ok ex_signup)) (ex_chance 0) ex_world).2.
Definition ex_enroll : mfaRequest := mkMfaRequest "user@example.org" "long password" "" "".
Definition ex_tenant : Tenant := defaultB2CTenant "t-31" "user@example.org".

Lemma ex_known : users_known ex_world.
Proof. intros e row Hr. change ((∅ : MemoryAuthStore) !! e = Some row) in Hr. by rewrite lookup_empty in Hr. Qed.

Lemma signup_all_or_nothing_witness :
  users_known ex_world ∧ created ex_signup (aexec (signup ex_config (Ok ex_signup)) (ex_chance 0) ex_world).1 ex_world ex_after.
Proof.
  split; [exact ex_known|]. pose proof (signup_all_or_nothing ex_config (Ok ex_signup) (ex_chance 0) ex_world ex_known) as Hx.
  assert (rs_Status (aexec (signup ex_config (Ok ex_signup)) (ex_chance 0) ex_world).1 = 201) as Hs by by vm_compute.
  unfold ex_after. destruct (aexec _ _ _) as [resp w']. cbn [fst snd] in *.
  destruct Hx as [_ [[Hx _]|(req & [= <-] & Hc)]]; [by destruct Hx|exact Hc].
Defined.

Lemma signup_then_login_witness :
  ∃ s' w'', aexec (login ex_config (Ok (mkLoginRequest "user@example.org" "long password" "" ""))) (ex_chance 5) ex_after =
    (mkResponse 200 (Session s'), w'').
Proof.
  destruct (signup_then_login ex_config ex_signup (aexec (signup ex_config (Ok ex_signup)) (ex_chance 0) ex_world).1 (ex_chance 0)
    ex_world ex_after "user@example.org" "" "" (ex_chance 5)) as (s & T & s' & w'' & _ & _ & _ & _ & Hl & _).
  - exact ex_known.
  - unfold ex_after. by destruct (aexec _ _ _).
  - by vm_compute.
  - done.
  - by vm_compute.
  - by vm_compute.
  - done.
  - done.
  - by exists s', w''.
Defined.

Lemma enrolled_authenticator_opens_witness :
  ∃ uri code (w2 : World), authenticator uri 1000000000000 = Some code ∧
    opens ex_config "t-31" (mkLoginRequest "user@example.org" "long password" code "") (ex_chance 1000000000000) w2.
Proof.
  assert (adapter_LookupTenant (ex_draw 1000000000000 "f" "raw") "t-31" (w_tenants ex_after) = Some ex_tenant) as HT by by vm_compute.
  destruct (enrolled_authenticator_opens ex_config ex_enroll (ex_chance 5) ex_after
    (Base32.EncodeToString (String.list_ascii_of_string "1"))
    (Totp.totpEnrollmentURI "zk" "user@example.org" (Base32.EncodeToString (String.list_ascii_of_string "1")))
    (aexec (mfaEnroll ex_config (Ok ex_enroll)) (ex_chance 5) ex_after).2 "t-31" ex_tenant 700000000000 700000000000
    ["AAAA"; "GE"] (ex_chance 700000000000)) as (code1 & w2 & _ & _ & Hlater).
  - by vm_compute.
  - done.
  - by vm_compute.
  - done.
  - done.
  - done.
  - done.
  - intros n. by vm_compute.
  - destruct (Hlater (ex_chance 1000000000000)) as (_ & _ & Hcodes); [done|done|].
    destruct (Hcodes 1000000000000 1000000000000) as (code & Hc & Ho); [done..|].
    do 3 eexists. split; [exact Hc|exact Ho].
Defined.
End example.
End Sessions.
