(* ===== verification/SecretSealing.v ===== *)
(** * Sealing of the second-factor secrets at rest

    [AEADSecretSealer] (api/console/secret_sealer.go): a secret is sealed with the
    AEAD of [ClientSdk], bound to its tenant, framed in unpadded base64 behind a
    prefix. It is a [SecretSealer], so the SQLite store of second factors keeps its
    promises with it; and what it opens for a tenant was sealed for that tenant or
    was never sealed. *)

From S2P Require Import Prelude Bytes GoStrings ClientSdk KeyWrapping Tenants SigV4 Totp ConsoleStores MfaSqlite.
Local Open Scope Z_scope.

Module Sealing.
Import Wrap.

(** ** [base64.RawStdEncoding] *)

Fixpoint unpad (s : string) : string :=
  match s with
  | "" => ""
  | String c s => if bool_decide (c = "="%char) then unpad s else String c (unpad s)
  end.

(** The padding a text of that many digits lacks; one digit too many is an error. *)
Fixpoint padding (digits : nat) : option string :=
  match digits with
  | 0 => Some ""
  | 1 => None
  | 2 => Some "=="
  | 3 => Some "="
  | S (S (S (S digits))) => padding digits
  end%nat.

Definition RawEncode (b : bytes) : string := unpad (base64Encode b).
Definition RawDecode (s : string) : option bytes :=
  let s := drop_newlines s in
  if ContainsByte "=" s then None else pad ← padding (String.length s); base64_groups (s +:+ pad).

Lemma keep_digit n s :
  (n < 64)%N →
  unpad (String (base64_digit n) s) = String (base64_digit n) (unpad s) ∧
  drop_newlines (String (base64_digit n) s) = String (base64_digit n) (drop_newlines s) ∧
  ContainsByte "=" (String (base64_digit n) s) = ContainsByte "=" s.
Proof.
  intros Hn. destruct (digit_facts n Hn) as (_ & He & H1 & H2). split_and!.
  - simpl. by rewrite bool_decide_eq_false_2.
  - by apply drop_newlines_keep.
  - simpl. by rewrite (proj2 (Ascii.eqb_neq _ _)).
Qed.

(** The digits of an encoding, and what follows them. *)
Definition digits_then (b : bytes) (pad : string) : Prop :=
  base64Encode b = RawEncode b +:+ pad ∧ drop_newlines (RawEncode b) = RawEncode b ∧ drop_newlines pad = pad ∧
  ContainsByte "=" (RawEncode b) = false ∧ padding (String.length (RawEncode b)) = Some pad.

Lemma encoding_digits n b : (length b ≤ n)%nat → ∃ pad, digits_then b pad.
Proof.
  revert b. induction n as [|n IH]; intros b Hb; [destruct b; [by exists ""|simpl in Hb; lia]|].
  assert (N_of_ascii zero_byte = 0%N) as Hz by done.
  destruct b as [|x [|y [|z b]]]; [by exists ""|..]; unfold digits_then, RawEncode; cbn [base64Encode].
  - pose proof (digit_of_group x zero_byte zero_byte) as (H1 & H2 & _). rewrite Hz in H1, H2. simpl in H1, H2.
    rewrite N.add_0_r, N.add_0_r in H1, H2. exists "==".
    rewrite (proj1 (keep_digit _ _ H1)), (proj1 (keep_digit _ _ H2)). cbn [unpad]. simpl (bool_decide _). cbv iota.
    rewrite !(proj1 (proj2 (keep_digit _ _ H1))), !(proj1 (proj2 (keep_digit _ _ H2))),
      !(proj2 (proj2 (keep_digit _ _ H1))), !(proj2 (proj2 (keep_digit _ _ H2))). done.
  - pose proof (digit_of_group x y zero_byte) as (H1 & H2 & H3 & _). rewrite Hz in H1, H2, H3. simpl in H1, H2, H3.
    rewrite N.add_0_r in H1, H2, H3. exists "=".
    rewrite (proj1 (keep_digit _ _ H1)), (proj1 (keep_digit _ _ H2)), (proj1 (keep_digit _ _ H3)). cbn [unpad].
    simpl (bool_decide _). cbv iota.
    rewrite !(proj1 (proj2 (keep_digit _ _ H1))), !(proj1 (proj2 (keep_digit _ _ H2))), !(proj1 (proj2 (keep_digit _ _ H3))),
      !(proj2 (proj2 (keep_digit _ _ H1))), !(proj2 (proj2 (keep_digit _ _ H2))), !(proj2 (proj2 (keep_digit _ _ H3))). done.
  - pose proof (digit_of_group x y z) as (H1 & H2 & H3 & H4). cbv zeta in H1, H2, H3, H4.
    destruct (IH b) as (pad & E1 & E2 & E3 & E4 & E5); [simpl in Hb; lia|]. exists pad.
    rewrite (proj1 (keep_digit _ _ H1)), (proj1 (keep_digit _ _ H2)), (proj1 (keep_digit _ _ H3)), (proj1 (keep_digit _ _ H4)).
    rewrite !(proj1 (proj2 (keep_digit _ _ H1))), !(proj1 (proj2 (keep_digit _ _ H2))), !(proj1 (proj2 (keep_digit _ _ H3))),
      !(proj1 (proj2 (keep_digit _ _ H4))), !(proj2 (proj2 (keep_digit _ _ H1))), !(proj2 (proj2 (keep_digit _ _ H2))),
      !(proj2 (proj2 (keep_digit _ _ H3))), !(proj2 (proj2 (keep_digit _ _ H4))).
    fold (RawEncode b). rewrite E2. split_and!; [|done..]. rewrite E1 at 1. reflexivity.
Qed.

Lemma drop_newlines_app s t : drop_newlines (s +:+ t) = drop_newlines s +:+ drop_newlines t.
Proof. induction s as [|c s IH]; [done|]. simpl. rewrite IH. by destruct (_ || _). Qed.

Lemma RawDecode_RawEncode b : RawDecode (RawEncode b) = Some b.
Proof.
  destruct (encoding_digits (length b) b) as (pad & E1 & E2 & E3 & E4 & E5); [done|]. unfold RawDecode.
  rewrite E2, E4, E5. cbn [mbind option_bind]. rewrite <- E1, <- (base64_roundtrip b). unfold base64Decode.
  by rewrite E1, drop_newlines_app, E2, E3.
Qed.

(** ** The sealer *)

Definition sealedSecretPrefix : string := "enc:v1:".

Definition secretAAD (tenantID : string) : bytes := String.list_ascii_of_string ("mfa-secret-v1|" +:+ tenantID).

Section sealer.
Context {A : AEAD}.

(** [NewAEADSecretSealer]: a sealer is its key. *)
Definition NewAEADSecretSealer (key : bytes) : option bytes := if blen key =? KeySize then Some key else None.

(** The nonce: as many bytes as it has of what the random source gives. *)
Definition nonce_of (rnd : string) : bytes :=
  take (Z.to_nat NonceSizeX) (String.list_ascii_of_string rnd ++ replicate (Z.to_nat NonceSizeX) zero_byte).

Definition AEAD_Seal (key : bytes) (rnd : option string) (plaintext tenantID : string) : option string :=
  match rnd with
  | None => None
  | Some rnd =>
      let nonce := nonce_of rnd in
      let ct := aead_Seal key nonce (String.list_ascii_of_string plaintext) (secretAAD tenantID) in
      Some (sealedSecretPrefix +:+ RawEncode (nonce ++ ct))
  end.

(** A value without the prefix was written before sealing was enabled. *)
Definition AEAD_Open (key : bytes) (stored tenantID : string) : option string :=
  match CutPrefix sealedSecretPrefix stored with
  | None => Some stored
  | Some rest =>
      match RawDecode rest with
      | None => None
      | Some blob =>
          if blen blob <? NonceSizeX then None
          else String.string_of_list_ascii <$>
                 aead_Open key (take (Z.to_nat NonceSizeX) blob) (drop (Z.to_nat NonceSizeX) blob) (secretAAD tenantID)
      end
  end.

Lemma nonce_length rnd : length (nonce_of rnd) = Z.to_nat NonceSizeX.
Proof. unfold nonce_of. rewrite length_take, length_app, length_replicate. lia. Qed.

Lemma AEAD_Open_Seal {AL : AEADLaws} key rnd p t c : AEAD_Seal key rnd p t = Some c → AEAD_Open key c t = Some p.
Proof.
  destruct rnd as [rnd|]; [|done]. intros [= <-]. unfold AEAD_Open. rewrite CutPrefix_app, RawDecode_RawEncode.
  pose proof (nonce_length rnd) as Hl. rewrite (proj2 (Z.ltb_ge _ _)) by (unfold blen; rewrite length_app, Hl; unfold NonceSizeX; lia).
  rewrite <- Hl, take_app_length, drop_app_length, aead_Open_Seal. simpl. by rewrite String.string_of_list_ascii_of_string.
Qed.

(** The sealer the gateway gives to the SQLite store. *)
Definition AEADSecretSealer {AL : AEADLaws} (key : bytes) : Mfa.SecretSealer :=
  {| Mfa.Seal := AEAD_Seal key; Mfa.Open := AEAD_Open key; Mfa.Open_Seal := AEAD_Open_Seal key |}.

(** The SQLite store of second factors with this sealer satisfies the laws of its interface. *)
Definition sealed_store_laws {AL : AEADLaws} (key : bytes) := SQLite_mfa_laws (Some (AEADSecretSealer key)).

(** What opens under the key was sealed under it, with the same additional data. *)
Definition authentic (key : bytes) (sealed : list (string * string)) : Prop :=
  ∀ nonce c a p, aead_Open key nonce c a = Some p →
    ∃ t s, (t, s) ∈ sealed ∧ a = secretAAD t ∧ String.string_of_list_ascii p = s.

Lemma secretAAD_inj t t' : secretAAD t = secretAAD t' → t = t'.
Proof.
  unfold secretAAD. intros He%(f_equal String.string_of_list_ascii). rewrite !String.string_of_list_ascii_of_string in He.
  by injection He.
Qed.

(** A sealed secret is bound to its tenant. Whatever text is placed in the secret column of a tenant, opening it
    for the tenant fails, or yields a secret that was sealed for that very tenant, or the text itself, which then does
    not have the form of a sealed secret. *)
Theorem sealed_secret_is_bound_to_tenant key sealed stored tenantID secret :
  authentic key sealed → AEAD_Open key stored tenantID = Some secret →
  (tenantID, secret) ∈ sealed ∨ (HasPrefix stored sealedSecretPrefix = false ∧ secret = stored).
Proof.
  intros Hauth. unfold AEAD_Open, HasPrefix. destruct (CutPrefix sealedSecretPrefix stored) as [rest|].
  - destruct (RawDecode rest) as [blob|]; [|done]. destruct (_ <? _); [done|].
    destruct (aead_Open _ _ _ _) as [p|] eqn:Ho; [|done]. intros [= <-]. left.
    destruct (Hauth _ _ _ _ Ho) as (t & s & Hin & He%secretAAD_inj & <-). by subst.
  - intros [= <-]. right. split; [|done]. by apply bool_decide_eq_false_2, is_Some_None.
Qed.

End sealer.

(** Sealed and opened again by the store. *)
Section example.
#[local] Instance tag_aead : AEAD := {
  aead_Seal _ _ p a := p ++ take 16 (a ++ replicate 16 zero_byte);
  aead_Open _ _ c a :=
    if bool_decide (a = secretAAD "t") && bool_decide (take (length c - 16) c = ["S"%char]) then Some ["S"%char] else None;
  hkdf_Read _ _ _ _ := None
}.

Definition ex_stored : string := default "" (AEAD_Seal [] (Some "nonce") "S" "t").

Lemma sealed_secret_is_bound_to_tenant_witness :
  HasPrefix ex_stored sealedSecretPrefix = true ∧ AEAD_Open [] ex_stored "t" = Some "S" ∧ ("t", "S") ∈ [("t", "S")].
Proof.
  assert (HasPrefix ex_stored sealedSecretPrefix = true) as Hp by by vm_compute.
  assert (AEAD_Open [] ex_stored "t" = Some "S") as Ho by by vm_compute.
  split; [exact Hp|]. split; [exact Ho|].
  destruct (sealed_secret_is_bound_to_tenant [] [("t", "S")] ex_stored "t" "S") as [Hin|[Hno _]]; [|exact Ho|exact Hin|by rewrite Hp in Hno].
  intros nonce c a p. simpl. destruct (_ && _) eqn:E; [|done]. apply andb_true_iff in E as [->%bool_decide_eq_true _].
  intros [= <-]. exists "t", "S". split_and!; [by left|done|done].
Defined.
End example.
End Sealing.
